(* ===== verification/_CoqProject ===== *)
-Q . S2P
Prelude.v
Machine.v
Types.v
Host.v
Keys.v
Logic.v
Committee.v
SettlementMath.v
SettlementMathFacts.v
Replay.v
Common.v
Admin.v
AccessControl.v
Insurance.v
Config.v
Governance.v
GovernanceSpec.v
Leaderboard.v
Archive.v
Betting.v
BettingFacts.v
Blind.v
Book.v
Credits.v
Claims.v
Payouts.v
Queries.v
Legacy.v
PayoutFacts.v
PrecisionFacts.v
LegacySpec.v
Settlement.v
SettlementFacts.v
SettlementSpec.v
CancelSpec.v
Oracle.v
OracleSpec.v
Contract.v
Duplicates.v
Frames.v
Typing.v
QueriesSpec.v
Preview.v
ReplaySpec.v
Modes.v
Solvency.v
Rounds.v
Invariant.v
Trace.v
SharedSlot.v
TreasurySlot.v
Controls.v
History.v
Scenario.v
Witnesses.v
