(* ===== verification/Prelude.v ===== *)
(** * Verification development of the Xelma prediction-market contract

    Xelma is a Soroban smart contract (src/contracts/src/) on which users bet
    virtual XLM on the price of an asset.  A round is UpDown (will the price
    rise?) or Precision (who predicts it best?); an oracle reports the price, the
    round is settled, and each user claims what is owed.  Around that core stand
    the run-time modes, an access list, protocol fees and an insurance fund,
    timelocked configuration, dual-approval governance, a round archive,
    leaderboards, and an off-chain replay engine that shares the arithmetic.

    ** How the program is modelled

    A contract entry point is a function [M A = Ctx -> State -> outcome A * State]
    ([Host]).  [Ctx] is what the host provides (ledger sequence and time, network,
    contract address, authorizations); [State] holds the three storages, the life
    times of persistent entries and the events published.  A run ends in [Ok], in
    [Err] (one of errors.rs) or in [Panic] (a trap: a failed [require_auth], an
    entry of the wrong type, a bare operator that overflows, as the release profile
    of the crate asks).  [invoke] is the host boundary: what a failed call wrote is
    discarded.  Keys are modelled by the value the SDK serialises, so that two key
    types that serialise alike share a slot, as they do on chain.  Integers are [Z]
    and carry the range check, saturation or wrap of the Rust type where the code
    computes ([Machine]).

    ** Files, in dependency order

    - [Prelude], [Machine], [Types], [Host], [Logic]: sums over lists and maps; the
      machine integers; types.rs and errors.rs; the host; the program logic ([wp]
      partial correctness, [run] total execution, [frame] for slots left alone) with
      its hint databases and stepping tactics.
    - [Keys]: the key enumerations of types.rs, the slot the SDK's encoding gives each
      key, and that only the three [Config] keys share one.
    - [SettlementMath], [SettlementMathFacts]: math_common.rs, settlement_math.rs.
    - [Replay], [ReplaySpec]: src/replay-engine (transcript.rs, engine.rs,
      diagnostics.rs, hash.rs), and that a recorded settlement replays to what the
      contract did.
    - [Common]: common.rs and storage.rs, and [total], the value the contract holds.
    - [Admin], [AccessControl], [Insurance], [Config]: the files of those names.
    - [Governance], [GovernanceSpec]: governance.rs and what it guarantees.
    - [Leaderboard], [Archive]: leaderboard.rs and the history part of settlement.rs.
    - [Betting], [BettingFacts], [Book]: betting.rs, and the book of a round, the
      abstract state each staking operation refines.
    - [Credits], [Claims]: the effect of crediting pending winnings, and claiming.
    - [Payouts], [PayoutFacts], [PrecisionFacts]: the settlement of both modes.
    - [Blind]: programs that do not look at some slots, and two programs that run in
      step on states that differ there.
    - [Legacy], [LegacySpec]: settlement.rs as the legacy-map-settlement build compiles
      it, from one map per round, and that it settles as the default build does once
      the map is moved into per-user entries.
    - [Settlement], [SettlementFacts], [SettlementSpec], [CancelSpec]: settling,
      disputing, voiding, finalizing and cancelling a round.
    - [Oracle], [OracleSpec]: resolution from a report, or from many feeds.
    - [Queries], [QueriesSpec], [Preview]: queries.rs, what the queries answer, the
      entry points that only read ([ask]), and the payout preview against the
      settlement it previews.
    - [Committee]: oracle_committee.rs and collateral.rs, which no entry point calls.
    - [Contract]: contract.rs: oracle rotation, status queries, and [dispatch], the
      facade: one [Call] per entry point that writes, two getters that store what they
      find expired among them.
    - [Duplicates]: the private helpers at the end of contract.rs, against the helpers
      of the same names that the handlers call.
    - [Frames], [Typing], [Modes]: what configuration leaves alone; the type of each
      slot; which mode refuses which entry point.
    - [Solvency], [Rounds], [Invariant], [Trace]: the invariants of the contract,
      that every entry point keeps them, and the states reachable from deployment.
    - [SharedSlot], [TreasurySlot]: the settings that share a storage key, and the
      address that governance can store in place of the treasury balance; in both
      cases no sequence of calls repairs the slot.
    - [Controls], [History]: which calls write the timelocked settings, the administrator
      and the oracle, and runs with their history: each such change traced back to
      the calls that announced and signed it.
    - [Scenario], [Witnesses]: concrete runs, boolean checkers of the invariants with
      their soundness, and each theorem applied to one of those runs.

    ** What is proved

    - Of every reachable state ([Trace]): no balance, stake, reserve or claim is
      negative and the value held never exceeds what was minted; minting is the only
      source of value; the active round and every disputed round hold exact books,
      and rounds not yet opened hold nothing; every entry has the type its key
      announces; a user with pending winnings can always claim them.
    - Of a round: what each stake, reveal, cash-out, settlement, refund, void,
      finalization and cancellation does to the book, to everyone's pending winnings
      and to the value held, on every branch; that the three ways a price can end a
      round exclude each other; what the insurance fund pays for a cancellation; that
      the preview and the replay agree with the settlement.
    - Of the guards: a price reaches settlement only through every configured check;
      the mode matrix; the access decision; that a proposal executes once and an
      amendment is decided once.
    - Of whole runs ([History]): a governance action carries two signatures of different
      members; a timelocked setting changes only after the administrator's request has
      waited, or on two signatures; the oracle and the administrator change only as
      announced or signed.
    - Of the arithmetic and the listings: conservation and bounds of the splits, the
      winners as minimisers of the score, ranked duplicate-free leaderboards, complete
      cursor walks, newest-first history pages, queries that write nothing.
    - Of the layouts: keys name distinct slots, and the two settlement builds agree on
      the moved positions, errors included.
    - What does not hold is stated as a theorem too, where the code makes it so:
      the shared [Config] slot that blocks resolution, the treasury slot that
      governance overwrites, the leaderboard cursor that loses users.

    ** Bounds and recursion

    Loops over participants are folds over the list.  The retention loop of the
    archive is structural on the list it shortens.  [history_loop] takes fuel, one
    more than the distance it walks, and is proved never to run out; [walk], the
    client that follows a cursor, is proved to end with more fuel than there are
    participants.  Theorems ask that amounts sum to at most [I128_MAX] only where the
    code adds them unchecked or saturating; reachable states satisfy it.

    ** What is not modelled, and why

    - SHA-256, Ed25519 and XDR serialisation are host functions: the interface
      [HostCrypto] names what the contract uses, and nothing is assumed of it.
    - Archival of expired entries is the network's; [ttl] records life times, and an
      entry is readable while it is in the map.
    - The whole-contract theorems are about the default build; of the
      legacy-map-settlement build the functions the feature changes are given, not a
      second facade.
    - A [gmap] stands for a Soroban [Map]; its order shows only in [Map::values]
      and [Map::keys], modelled by sorting the keys.
    - JSON and SHA-256 of transcripts (serde, sha2) are parameters of
      [transcript_commitment_hex]; the texts of diagnostics and the command line of the
      replay tool are left out.
    - The transfer of the token contract is a parameter of the collateral adapter.
    - The scripts, the bindings, the indexer and the front end are not Rust code of the
      contract. *)

From Stdlib Require Import ZArith Lia.
From stdpp Require Export base list gmap strings sorting.

Open Scope Z_scope.

(** ** Sums of integers over a list *)

(** [zsum f l] is the mathematical (unbounded) sum of [f x] over [l]. *)
Fixpoint zsum {A} (f : A -> Z) (l : list A) : Z :=
  match l with
  | [] => 0
  | x :: l => f x + zsum f l
  end.

Section Zsum.
Context {A : Type}.
Implicit Types (f g : A -> Z) (l : list A).

Lemma zsum_app f l1 l2 : zsum f (l1 ++ l2) = zsum f l1 + zsum f l2.
Proof. induction l1; simpl; lia. Qed.

#[export] Instance zsum_Permutation f : Proper ((≡ₚ) ==> eq) (zsum f).
Proof. intros l1 l2 H. induction H; simpl; lia. Qed.

Lemma zsum_ext f g l : (∀ x, x ∈ l → f x = g x) → zsum f l = zsum g l.
Proof.
  induction l as [|a l IH]; intros H; simpl; [done|].
  rewrite (H a), IH; [done| |]; intros; try apply H; set_solver.
Qed.

Lemma zsum_add f g l : zsum (λ x, f x + g x) l = zsum f l + zsum g l.
Proof. induction l; simpl; lia. Qed.

Lemma zsum_mul_l c f l : zsum (λ x, c * f x) l = c * zsum f l.
Proof. induction l; simpl; lia. Qed.

Lemma zsum_le f g l : (∀ x, x ∈ l → f x ≤ g x) → zsum f l ≤ zsum g l.
Proof.
  induction l as [|a l IH]; intros H; simpl; [done|].
  assert (f a ≤ g a) by (apply H; set_solver).
  assert (zsum f l ≤ zsum g l) by (apply IH; set_solver). lia.
Qed.

Lemma zsum_nonneg f l : (∀ x, x ∈ l → 0 ≤ f x) → 0 ≤ zsum f l.
Proof.
  induction l as [|a l IH]; intros H; simpl; [done|].
  assert (0 ≤ f a) by (apply H; set_solver).
  assert (0 ≤ zsum f l) by (apply IH; set_solver). lia.
Qed.

Lemma zsum_const c l : zsum (λ _ : A, c) l = c * Z.of_nat (length l).
Proof. induction l; cbn [zsum length]; lia. Qed.

Lemma zsum_zero l : zsum (λ _ : A, 0) l = 0.
Proof. rewrite zsum_const. lia. Qed.

Lemma zsum_pos f l : (∀ x, x ∈ l → 0 < f x) → l ≠ [] → 0 < zsum f l.
Proof.
  destruct l as [|a l]; intros H Hl; [done|]. simpl.
  assert (0 < f a) by (apply H; set_solver).
  assert (0 ≤ zsum f l); [|lia]. apply zsum_nonneg. intros x Hx. apply Z.lt_le_incl, H. set_solver.
Qed.

Lemma zsum_elem_le f l x : (∀ y, y ∈ l → 0 ≤ f y) → x ∈ l → f x ≤ zsum f l.
Proof.
  intros Hn Hx. apply elem_of_Permutation in Hx as [l' Hp]. rewrite Hp. simpl.
  assert (0 ≤ zsum f l'); [|lia].
  apply zsum_nonneg. intros y Hy. apply Hn. rewrite Hp. set_solver.
Qed.
End Zsum.

Lemma zsum_fmap {A B} (f : B -> Z) (g : A -> B) (l : list A) :
  zsum f (g <$> l) = zsum (λ x, f (g x)) l.
Proof. induction l; csimpl; lia. Qed.

Lemma filter_true {A} (P : A -> Prop) `{∀ x, Decision (P x)} (l : list A) :
  (∀ x, x ∈ l → P x) → filter P l = l.
Proof.
  induction l as [|a l IH]; intros Hl; [done|].
  rewrite filter_cons, decide_True by (apply Hl; set_solver).
  f_equal. apply IH. set_solver.
Qed.

Lemma filter_none {A} (P : A -> Prop) `{∀ x, Decision (P x)} (l : list A) :
  (∀ x, x ∈ l → ¬ P x) → filter P l = [].
Proof.
  induction l as [|a l IH]; intros Hl; [done|].
  rewrite filter_cons, decide_False by (apply Hl; set_solver).
  apply IH. set_solver.
Qed.

(** Removing one occurrence of an element of a duplicate-free list. *)
Lemma zsum_remove {A} `{EqDecision A} (f : A -> Z) (l : list A) (x : A) :
  NoDup l → x ∈ l →
  zsum f (filter (λ y, y ≠ x) l) = zsum f l - f x.
Proof.
  induction l as [|a l IH]; intros Hnd Hx; [set_solver|].
  apply NoDup_cons in Hnd as [Ha Hnd].
  rewrite filter_cons. cbn [zsum]. destruct (decide (a = x)) as [->|Hax].
  - rewrite decide_False by (intros Hn; by apply Hn).
    rewrite filter_true; [lia|]. intros y Hy ->. done.
  - rewrite decide_True by done. cbn [zsum].
    rewrite IH; [lia|done|set_solver].
Qed.

(** ** Floor division and bounds used by the payout theorems *)

Lemma quot_div_nonneg a b : 0 ≤ a → 0 < b → Z.quot a b = a / b.
Proof. intros. apply Z.quot_div_nonneg; lia. Qed.

Lemma div_mul_le_nonneg a b : 0 < b → (a / b) * b ≤ a.
Proof. intros. rewrite Z.mul_comm. by apply Z.mul_div_le. Qed.

(** Summing floors never exceeds the floor-free total: the distribution of a
    pool pro rata to stakes never pays more than the pool. *)
Lemma zsum_floor_le {A} (f : A -> Z) (d s : Z) (l : list A) :
  0 < s → zsum (λ x, (f x * d) / s) l * s ≤ zsum f l * d.
Proof.
  intros Hs. induction l as [|a l IH]; cbn [zsum]; [lia|].
  pose proof (div_mul_le_nonneg (f a * d) s Hs). nia.
Qed.

(** ... and it loses less than one unit per element. *)
Lemma zsum_floor_ge {A} (f : A -> Z) (d s : Z) (l : list A) :
  0 < s →
  zsum f l * d ≤ zsum (λ x, (f x * d) / s) l * s + Z.of_nat (length l) * (s - 1).
Proof.
  intros Hs. induction l as [|a l IH]; cbn [zsum length]; [lia|].
  pose proof (Z.mod_pos_bound (f a * d) s Hs).
  pose proof (Z.div_mod (f a * d) s). nia.
Qed.

(** ** Weighted sums over finite maps

    [msum w m] adds [w k v] over the entries of [m].  Insertion and deletion
    change it by the weight of the entry written and of the entry removed; the
    conservation theorems only use those two equations. *)

Section Msum.
Context {K : Type} `{Countable K} {V : Type}.
Implicit Types (w : K -> V -> Z) (m : gmap K V).

Definition msum w m : Z := map_fold (λ k v acc, w k v + acc) 0 m.

Definition oweight w (k : K) (o : option V) : Z :=
  match o with Some v => w k v | None => 0 end.

Lemma msum_empty w : msum w ∅ = 0.
Proof. apply map_fold_empty. Qed.

Lemma msum_insert_None w m k v :
  m !! k = None → msum w (<[k:=v]> m) = w k v + msum w m.
Proof. intros Hk. unfold msum. by rewrite map_fold_insert_L by (done || lia). Qed.

Lemma msum_delete w m k : msum w (delete k m) = msum w m - oweight w k (m !! k).
Proof.
  destruct (m !! k) as [v|] eqn:Hk; simpl.
  - rewrite <-(insert_delete_id m k v Hk) at 2.
    rewrite msum_insert_None; [lia|]. apply lookup_delete_eq.
  - rewrite delete_id by done. lia.
Qed.

Lemma msum_insert w m k v :
  msum w (<[k:=v]> m) = msum w m - oweight w k (m !! k) + w k v.
Proof.
  rewrite <-(insert_delete_eq m k v), msum_insert_None by apply lookup_delete_eq.
  rewrite msum_delete. lia.
Qed.

Lemma msum_nonneg w m : (∀ k v, m !! k = Some v → 0 ≤ w k v) → 0 ≤ msum w m.
Proof.
  induction m as [|k v m Hk IH] using map_ind; intros Hw.
  - rewrite msum_empty. lia.
  - rewrite msum_insert_None by done.
    assert (0 ≤ w k v) by (apply Hw; apply lookup_insert_eq).
    assert (0 ≤ msum w m); [|lia]. apply IH. intros k' v' Hm.
    apply Hw. rewrite lookup_insert_ne; [done|congruence].
Qed.
(** Distinct entries never weigh more than the whole map. *)
Lemma msum_slots w (ks : list K) m :
  NoDup ks -> (∀ k v, m !! k = Some v -> 0 ≤ w k v) ->
  zsum (λ k, oweight w k (m !! k)) ks ≤ msum w m.
Proof.
  intros Hnd. revert m. induction Hnd as [|k ks Hk Hnd IH]; intros m Hw; cbn [zsum].
  - by apply msum_nonneg.
  - assert (zsum (λ k', oweight w k' (delete k m !! k')) ks ≤ msum w (delete k m)) as Hle.
    { apply IH. intros k' v [_ Hv]%lookup_delete_Some. by apply Hw. }
    rewrite msum_delete in Hle. rewrite (zsum_ext _ (λ k', oweight w k' (delete k m !! k'))); [lia|].
    intros k' Hk'. rewrite lookup_delete_ne; [done|]. by intros ->.
Qed.
End Msum.
