(* ===== verification/Machine.v ===== *)
(** * Machine integers

    The Rust code computes with [i128], [u128], [u64] and [u32].  A value of
    such a type is modelled as a [Z]; every operation that can leave the range
    of its type is written with the check the code has: [checked_*] returns
    [None], [saturating_*] clamps, and a bare [+] panics (the release profile
    of Cargo.toml sets [overflow-checks = true]). *)

From S2P Require Export Prelude.

(** ** Ranges *)

Definition I128_MAX : Z := 2 ^ 127 - 1.
Definition I128_MIN : Z := - 2 ^ 127.
Definition U128_MAX : Z := 2 ^ 128 - 1.
Definition U64_MAX : Z := 2 ^ 64 - 1.
Definition U32_MAX : Z := 2 ^ 32 - 1.

Definition in_i128 (z : Z) : bool := (I128_MIN <=? z) && (z <=? I128_MAX).
Definition in_u128 (z : Z) : bool := (0 <=? z) && (z <=? U128_MAX).
Definition in_u64 (z : Z) : bool := (0 <=? z) && (z <=? U64_MAX).
Definition in_u32 (z : Z) : bool := (0 <=? z) && (z <=? U32_MAX).

(** ** Checked arithmetic: [None] on overflow *)

Definition checked (range : Z -> bool) (z : Z) : option Z :=
  if range z then Some z else None.

Definition i128_checked_add (a b : Z) : option Z := checked in_i128 (a + b).
Definition i128_checked_sub (a b : Z) : option Z := checked in_i128 (a - b).
Definition i128_checked_mul (a b : Z) : option Z := checked in_i128 (a * b).
(** Division truncates towards zero; [None] on a zero divisor and on the
    single overflowing quotient [MIN / -1]. *)
Definition i128_checked_div (a b : Z) : option Z :=
  if b =? 0 then None else checked in_i128 (Z.quot a b).
Definition u128_checked_add (a b : Z) : option Z := checked in_u128 (a + b).
Definition u128_checked_sub (a b : Z) : option Z := checked in_u128 (a - b).
Definition u128_checked_mul (a b : Z) : option Z := checked in_u128 (a * b).
Definition u64_checked_add (a b : Z) : option Z := checked in_u64 (a + b).
Definition u64_checked_mul (a b : Z) : option Z := checked in_u64 (a * b).
Definition u32_checked_add (a b : Z) : option Z := checked in_u32 (a + b).
Definition u32_checked_sub (a b : Z) : option Z := checked in_u32 (a - b).

(** ** Saturating arithmetic *)

Definition clamp (lo hi z : Z) : Z := Z.max lo (Z.min hi z).

Definition i128_saturating_add (a b : Z) : Z := clamp I128_MIN I128_MAX (a + b).
Definition i128_saturating_sub (a b : Z) : Z := clamp I128_MIN I128_MAX (a - b).
Definition u128_saturating_add (a b : Z) : Z := clamp 0 U128_MAX (a + b).
Definition u128_saturating_mul (a b : Z) : Z := clamp 0 U128_MAX (a * b).
Definition u64_saturating_add (a b : Z) : Z := clamp 0 U64_MAX (a + b).
Definition u64_saturating_sub (a b : Z) : Z := clamp 0 U64_MAX (a - b).
Definition u32_saturating_add (a b : Z) : Z := clamp 0 U32_MAX (a + b).
Definition u32_saturating_sub (a b : Z) : Z := clamp 0 U32_MAX (a - b).

(** [u32::try_from] on a [u128]. *)
Definition u32_try_from (z : Z) : option Z := checked in_u32 z.

(** The [as] casts to unsigned types keep the low bits. *)
Definition as_u128 (z : Z) : Z := z mod 2 ^ 128.
Definition as_u32 (z : Z) : Z := z mod 2 ^ 32.

(** ** Reasoning principles *)

Lemma in_i128_spec z : in_i128 z = true <-> I128_MIN ≤ z ≤ I128_MAX.
Proof. unfold in_i128. rewrite andb_true_iff, !Z.leb_le. done. Qed.

Lemma in_u128_spec z : in_u128 z = true <-> 0 ≤ z ≤ U128_MAX.
Proof. unfold in_u128. rewrite andb_true_iff, !Z.leb_le. done. Qed.

Lemma in_u64_spec z : in_u64 z = true <-> 0 ≤ z ≤ U64_MAX.
Proof. unfold in_u64. rewrite andb_true_iff, !Z.leb_le. done. Qed.

Lemma in_u32_spec z : in_u32 z = true <-> 0 ≤ z ≤ U32_MAX.
Proof. unfold in_u32. rewrite andb_true_iff, !Z.leb_le. done. Qed.

Lemma checked_Some range z r : checked range z = Some r <-> r = z ∧ range z = true.
Proof. unfold checked. destruct (range z); naive_solver. Qed.

Lemma checked_None range z : checked range z = None <-> range z = false.
Proof. unfold checked. destruct (range z); naive_solver. Qed.

Lemma i128_checked_add_Some a b r :
  i128_checked_add a b = Some r <-> r = a + b ∧ I128_MIN ≤ a + b ≤ I128_MAX.
Proof. unfold i128_checked_add. by rewrite checked_Some, in_i128_spec. Qed.

Lemma i128_checked_sub_Some a b r :
  i128_checked_sub a b = Some r <-> r = a - b ∧ I128_MIN ≤ a - b ≤ I128_MAX.
Proof. unfold i128_checked_sub. by rewrite checked_Some, in_i128_spec. Qed.

Lemma i128_checked_mul_Some a b r :
  i128_checked_mul a b = Some r <-> r = a * b ∧ I128_MIN ≤ a * b ≤ I128_MAX.
Proof. unfold i128_checked_mul. by rewrite checked_Some, in_i128_spec. Qed.

Lemma i128_checked_add_in a b :
  I128_MIN ≤ a + b ≤ I128_MAX → i128_checked_add a b = Some (a + b).
Proof. intros. by apply i128_checked_add_Some. Qed.

Lemma i128_checked_sub_in a b :
  I128_MIN ≤ a - b ≤ I128_MAX → i128_checked_sub a b = Some (a - b).
Proof. intros. by apply i128_checked_sub_Some. Qed.

Lemma i128_checked_mul_in a b :
  I128_MIN ≤ a * b ≤ I128_MAX → i128_checked_mul a b = Some (a * b).
Proof. intros. by apply i128_checked_mul_Some. Qed.

(** Turn every boolean range test and comparison in sight into arithmetic. *)
Ltac zbool :=
  repeat match goal with
  | H : (_ =? _) = true |- _ => apply Z.eqb_eq in H
  | H : (_ =? _) = false |- _ => apply Z.eqb_neq in H
  | H : (_ <? _) = true |- _ => apply Z.ltb_lt in H
  | H : (_ <? _) = false |- _ => apply Z.ltb_ge in H
  | H : (_ <=? _) = true |- _ => apply Z.leb_le in H
  | H : (_ <=? _) = false |- _ => apply Z.leb_gt in H
  | H : (_ >? _) = true |- _ => rewrite Z.gtb_ltb in H; apply Z.ltb_lt in H
  | H : (_ >? _) = false |- _ => rewrite Z.gtb_ltb in H; apply Z.ltb_ge in H
  | H : (_ >=? _) = true |- _ => rewrite Z.geb_leb in H; apply Z.leb_le in H
  | H : (_ >=? _) = false |- _ => rewrite Z.geb_leb in H; apply Z.leb_gt in H
  | H : (_ && _) = true |- _ => apply andb_true_iff in H as [? ?]
  | H : (_ || _) = false |- _ => apply orb_false_iff in H as [? ?]
  | H : negb _ = true |- _ => apply negb_true_iff in H
  | H : negb _ = false |- _ => apply negb_false_iff in H
  end.

(** Case analysis on every checked operation in the context. *)
Ltac checked_inv :=
  repeat match goal with
  | H : i128_checked_add _ _ = Some _ |- _ => apply i128_checked_add_Some in H as [-> ?]
  | H : i128_checked_sub _ _ = Some _ |- _ => apply i128_checked_sub_Some in H as [-> ?]
  | H : i128_checked_mul _ _ = Some _ |- _ => apply i128_checked_mul_Some in H as [-> ?]
  | H : checked _ _ = Some _ |- _ => apply checked_Some in H as [-> ?]
  end.
