(* ===== verification/Types.v ===== *)
(** * Data types of the contract

    The [contracttype] enums and structs of contracts/src/types.rs, the error
    codes of contracts/src/errors.rs and the constants of
    contracts/src/common.rs.  Field and constructor names are the source's; a
    constructor name that two enums share carries a prefix here. *)

From Stdlib Require Import Strings.Byte.
From S2P Require Export Machine.

(** ** Host values

    An [Address] is the number the address bytes spell: the host orders
    addresses by those bytes, so its order is the numeric one.  [Bytes],
    [BytesN<32>] and [BytesN<64>] are byte lists. *)

Definition Address : Type := N.
Definition Bytes : Type := list byte.

#[export] Instance Address_eq_dec : EqDecision Address := _.
#[export] Instance Address_countable : Countable Address := _.
#[export] Instance byte_eq_decision : EqDecision byte := byte_eq_dec.
#[export] Instance Bytes_eq_dec : EqDecision Bytes := _.

(** Strict host order on addresses. *)
Definition addr_lt (a b : Address) : bool := N.ltb a b.

(** ** Errors (errors.rs) *)

Inductive ContractError :=
  | AlreadyInitialized | AdminNotSet | OracleNotSet | InvalidBetAmount
  | NoActiveRound | RoundEnded | InsufficientBalance | AlreadyBet | Overflow
  | InvalidPrice | InvalidDuration | InvalidMode | WrongModeForPrediction
  | RoundNotEnded | StaleOracleData | InvalidOracleRound | RoundAlreadyActive
  | ContractPaused | WindowOutOfRange | FutureOracleData | PayoutOverflow
  | RoundNotCancellable | StakeExceedsMax | ExposureCapExceeded
  | PendingWinningsCapExceeded | InvalidStartPrice | OracleNonceReused
  | InvalidMinParticipants | InvalidPrecisionCap | PrecisionCapExceeded
  | OracleDeviationExceeded | UnsupportedSchemaVersion | MigrationActiveRound
  | CommitmentNotFound | AlreadyRevealed | InvalidRevealWindow | HashMismatch
  | OracleNetworkMismatch | InvalidProtocolFeeBps | MintLimitExceeded
  | NoPendingRotation | RotationDelayNotElapsed | InvalidArchiveRetention
  | InvalidCommitment | InvalidSalt | NoRoundTemplate
  | OracleTimestampOutsideWindow | PendingWinningsNotExpired
  | EpochBudgetExceeded | OracleNotLive | InvalidPayoutPolicy | BelowMinBet
  | InsufficientOracleQuorum | TooFewObservations | OracleOutlierRejected
  | DuplicateOracleSource | InvalidObservationOrder
  | UnsupportedDataKeyForTtlTouch | PendingWinningsNotFound
  | ExpiryNotConfigured | AccessDenied | ProposalNotFound | ProposalExpired
  | GovInvalidState | GovUnauthorized | IllegalPhaseTransition
  | OracleHeartbeatUnhealthy | ClaimBatchTooLarge | DuplicateClaimAddress
  | EarlyCashoutDisabled | PositionNotFound | InvalidPhaseForCashout
  | WrongModeForCashout | InsuranceInvalidSplit | InsuranceInsufficientFund
  | InvalidAmount | DisputeWindowExpired | ClaimLocked
  | RoundStartLedgerReused | PageSizeExceeded.

(** The [repr(u32)] discriminant, the code clients observe. *)
Definition error_code (e : ContractError) : Z :=
  match e with
  | AlreadyInitialized => 1 | AdminNotSet => 2 | OracleNotSet => 3
  | InvalidBetAmount => 6 | NoActiveRound => 7 | RoundEnded => 8
  | InsufficientBalance => 9 | AlreadyBet => 10 | Overflow => 11
  | InvalidPrice => 12 | InvalidDuration => 13 | InvalidMode => 14
  | WrongModeForPrediction => 15 | RoundNotEnded => 16 | StaleOracleData => 18
  | InvalidOracleRound => 19 | RoundAlreadyActive => 20 | ContractPaused => 22
  | WindowOutOfRange => 23 | FutureOracleData => 24 | PayoutOverflow => 25
  | RoundNotCancellable => 27 | StakeExceedsMax => 28
  | ExposureCapExceeded => 29 | PendingWinningsCapExceeded => 30
  | InvalidStartPrice => 31 | OracleNonceReused => 33
  | InvalidMinParticipants => 35 | InvalidPrecisionCap => 38
  | PrecisionCapExceeded => 39 | OracleDeviationExceeded => 41
  | UnsupportedSchemaVersion => 42 | MigrationActiveRound => 44
  | CommitmentNotFound => 45 | AlreadyRevealed => 46
  | InvalidRevealWindow => 47 | HashMismatch => 48
  | OracleNetworkMismatch => 49 | InvalidProtocolFeeBps => 51
  | MintLimitExceeded => 53 | NoPendingRotation => 54
  | RotationDelayNotElapsed => 55 | InvalidArchiveRetention => 62
  | InvalidCommitment => 63 | InvalidSalt => 64 | NoRoundTemplate => 65
  | OracleTimestampOutsideWindow => 66 | PendingWinningsNotExpired => 86
  | EpochBudgetExceeded => 67 | OracleNotLive => 68 | InvalidPayoutPolicy => 69
  | BelowMinBet => 70 | InsufficientOracleQuorum => 71
  | TooFewObservations => 72 | OracleOutlierRejected => 73
  | DuplicateOracleSource => 74 | InvalidObservationOrder => 75
  | UnsupportedDataKeyForTtlTouch => 76 | PendingWinningsNotFound => 77
  | ExpiryNotConfigured => 78 | AccessDenied => 79 | ProposalNotFound => 80
  | ProposalExpired => 81 | GovInvalidState => 82 | GovUnauthorized => 83
  | IllegalPhaseTransition => 84 | OracleHeartbeatUnhealthy => 85
  | ClaimBatchTooLarge => 87 | DuplicateClaimAddress => 88
  | EarlyCashoutDisabled => 95 | PositionNotFound => 96
  | InvalidPhaseForCashout => 97 | WrongModeForCashout => 98
  | InsuranceInvalidSplit => 99 | InsuranceInsufficientFund => 100
  | InvalidAmount => 101 | DisputeWindowExpired => 91 | ClaimLocked => 92
  | RoundStartLedgerReused => 93 | PageSizeExceeded => 94
  end.

(** ** Enumerations *)

Inductive RoundMode := UpDown | Precision.
Inductive RuntimeMode := Normal | ClaimsOnly | FullyPaused.
Inductive PolicyAction := RoundMutation | Claim | AdminConfig | Settlement.
Inductive RoundPhase := Betting | Running | Resolvable.
Inductive FeeModel := FeeOnPot | FeeOnWinnings.
Inductive OneSidedPolicy := PolRefund | PolVoid | PolCarryForward.
Inductive PrecisionPayoutPolicy := Equal | StakeWeighted.
Inductive AccessState := Open | Allowlisted | Denylisted.
Inductive GovProposalStatus := Pending | Approved | Executed | Cancelled | Expired.
Inductive AmendmentStatus := AmPending | AmVetoed | AmActivationReady | AmActivated | AmExpired.
Inductive BetSide := Up | Down.
Inductive RoundArchiveStatus := ArResolved | ArCancelled | ArFallbackRefund | ArVoided.
Inductive UserOutcomeType := OutWin | OutLoss | OutRefund | OutCancel | OutVoid.
Inductive DeviationReferenceMode := RefStartPrice | RefTwap.
Inductive InsuranceEvent := OracleOutage | OracleDeviation | FallbackRefund.

Inductive ConfigChangeKind :=
  | KWindows | KMaxStake | KMaxUserRoundExposure | KMaxPendingWinnings
  | KOracleStaleThreshold | KOracleMaxDeviationBps | KProtocolFeeBps
  | KMinParticipants | KMaxPrecisionParticipants | KMintLimit
  | KArchiveRetention | KCloseBufferLedgers | KOracleTimestampSkew
  | KEpochMintBudget | KPendingWinningsExpiry | KPrecisionPayoutPolicy
  | KMinBet | KDisputeLedgers | KFeeModel | KEarlyCashoutBps.

Inductive ConfigChangePayload :=
  | PWindows (bet run : Z)
  | PMaxStake (v : option Z)
  | PMaxUserRoundExposure (v : option Z)
  | PMaxPendingWinnings (v : option Z)
  | POracleStaleThreshold (v : Z)
  | POracleMaxDeviationBps (v : option Z)
  | PProtocolFeeBps (v : option Z)
  | PMinParticipants (v : option Z)
  | PMaxPrecisionParticipants (v : Z)
  | PMintLimit (v : Z)
  | PArchiveRetention (v : Z)
  | PCloseBufferLedgers (v : Z)
  | POracleTimestampSkew (v : Z)
  | PEpochMintBudget (v : Z)
  | PPendingWinningsExpiry (v : Z)
  | PPrecisionPayoutPolicy (v : Z)
  | PMinBet (v : option Z)
  | PDisputeLedgers (v : Z)
  | PFeeModel (v : FeeModel)
  | PEarlyCashoutBps (v : option Z).

Inductive GovAction :=
  | PauseProtocol
  | UnpauseProtocol
  | SetProtocolFeeBps (bps : option Z)
  | WithdrawProtocolFee (recipient : Address) (amount : Z)
  | SetTreasuryAddress (treasury : Address)
  | SetAdmin (new_admin : Address)
  | SetOracle (new_oracle : Address)
  | WithdrawInsuranceFund (recipient : Address) (amount : Z)
  | SetInsuranceSplitBps (bps : Z)
  | SetInsuranceCoverageBps (bps : Z).

#[export] Instance ContractError_eq_dec : EqDecision ContractError.
Proof.
  refine (λ x y, match decide (error_code x = error_code y) with
                 | left H => left _ | right H => right _ end).
  - abstract (destruct x, y; first [reflexivity | discriminate H]).
  - abstract (intros ->; apply H; reflexivity).
Defined.
#[export] Instance RoundMode_eq_dec : EqDecision RoundMode := ltac:(solve_decision).
#[export] Instance RuntimeMode_eq_dec : EqDecision RuntimeMode := ltac:(solve_decision).
#[export] Instance RoundPhase_eq_dec : EqDecision RoundPhase := ltac:(solve_decision).
#[export] Instance FeeModel_eq_dec : EqDecision FeeModel := ltac:(solve_decision).
#[export] Instance BetSide_eq_dec : EqDecision BetSide := ltac:(solve_decision).
#[export] Instance GovProposalStatus_eq_dec : EqDecision GovProposalStatus := ltac:(solve_decision).
#[export] Instance AmendmentStatus_eq_dec : EqDecision AmendmentStatus := ltac:(solve_decision).
#[export] Instance RoundArchiveStatus_eq_dec : EqDecision RoundArchiveStatus := ltac:(solve_decision).
#[export] Instance UserOutcomeType_eq_dec : EqDecision UserOutcomeType := ltac:(solve_decision).
#[export] Instance DeviationReferenceMode_eq_dec : EqDecision DeviationReferenceMode := ltac:(solve_decision).

(** The [as u32] casts. *)
Definition RoundMode_u32 (m : RoundMode) : Z := match m with UpDown => 0 | Precision => 1 end.
Definition RuntimeMode_u32 (m : RuntimeMode) : Z :=
  match m with Normal => 0 | ClaimsOnly => 1 | FullyPaused => 2 end.
Definition RoundPhase_u32 (p : RoundPhase) : Z :=
  match p with Betting => 1 | Running => 2 | Resolvable => 3 end.
Definition FeeModel_u32 (m : FeeModel) : Z :=
  match m with FeeOnPot => 0 | FeeOnWinnings => 1 end.
Definition OneSidedPolicy_u32 (p : OneSidedPolicy) : Z :=
  match p with PolRefund => 0 | PolVoid => 1 | PolCarryForward => 2 end.
Definition RoundArchiveStatus_u32 (s : RoundArchiveStatus) : Z :=
  match s with ArResolved => 0 | ArCancelled => 1 | ArFallbackRefund => 2 | ArVoided => 3 end.
Definition UserOutcomeType_u32 (o : UserOutcomeType) : Z :=
  match o with OutWin => 0 | OutLoss => 1 | OutRefund => 2 | OutCancel => 3 | OutVoid => 4 end.
Definition InsuranceEvent_u32 (e : InsuranceEvent) : Z :=
  match e with OracleOutage => 0 | OracleDeviation => 1 | FallbackRefund => 2 end.
Definition ConfigChangeKind_u32 (k : ConfigChangeKind) : Z :=
  match k with
  | KWindows => 0 | KMaxStake => 1 | KMaxUserRoundExposure => 2
  | KMaxPendingWinnings => 3 | KOracleStaleThreshold => 4
  | KOracleMaxDeviationBps => 5 | KProtocolFeeBps => 6 | KMinParticipants => 7
  | KMaxPrecisionParticipants => 8 | KMintLimit => 9 | KArchiveRetention => 10
  | KCloseBufferLedgers => 11 | KOracleTimestampSkew => 12
  | KEpochMintBudget => 13 | KPendingWinningsExpiry => 14
  | KPrecisionPayoutPolicy => 15 | KMinBet => 16 | KDisputeLedgers => 17
  | KFeeModel => 18 | KEarlyCashoutBps => 19
  end.

(** ** Records *)

Record UserPosition := { pos_amount : Z; pos_side : BetSide }.
Record UserStats := {
  total_wins : Z; total_losses : Z; current_streak : Z; best_streak : Z }.
Record PrecisionPrediction := {
  pred_user : Address; predicted_price : Z; pred_amount : Z }.
Record PrecisionCommitment := {
  com_hash : Bytes; com_amount : Z; revealed : bool }.
Record OraclePayload := {
  price : Z; timestamp : Z; op_round_id : Z; nonce : Z; network_id : Bytes;
  contract_addr : Address; confidence : option Z; attestation : option Bytes }.
Record OracleHeartbeatRecord := { hb_timestamp : Z; hb_status : Z }.
Record Round := {
  round_id : Z; price_start : Z; start_ledger : Z; start_timestamp : Z;
  bet_end_ledger : Z; end_ledger : Z; pool_up : Z; pool_down : Z;
  mode : RoundMode }.
Record ArchivedRoundSummary := {
  ar_round_id : Z; ar_price_start : Z; ar_price_final : Z; ar_mode : RoundMode;
  ar_status : RoundArchiveStatus; ar_pool_up : Z; ar_pool_down : Z;
  ar_participant_count : Z; ar_settled_at_ledger : Z }.
Record UserRoundOutcome := {
  out_user : Address; out_round_mode : Z; out_prediction_side : Z;
  out_predicted_price : Z; out_stake : Z; out_payout : Z;
  out_outcome : UserOutcomeType }.
Record PendingConfigChange := {
  payload : ConfigChangePayload; activation_ledger : Z; scheduled_at_ledger : Z }.
Record GovProposal := {
  gp_id : Z; gp_proposer : Address; gp_approver : option Address;
  gp_action : GovAction; gp_created_at_ledger : Z; gp_expires_at_ledger : Z;
  gp_status : GovProposalStatus }.
(** [am_new_value] is a raw host value, a 64-bit word the contract never opens. *)
Record Amendment := {
  am_id : Z; am_proposer : Address; am_parameter_name : string; am_new_value : Z;
  am_created_at_ledger : Z; am_veto_deadline_ledger : Z;
  am_activation_deadline_ledger : Z; am_status : AmendmentStatus }.
Record ConstitutionMetadata := {
  veto_window_ledgers : Z; timelock_ledgers : Z; dual_approval_required : bool;
  established_at_ledger : Z }.
Record OracleRotationProposal := {
  new_oracle : Address; proposed_at : Z; expires_at : Z }.
Record RoundTemplate := { tmpl_start_price : Z; tmpl_mode : option Z }.
Record SeasonLeaderboardEntry := { sl_user : Address; sl_wins : Z; sl_best_streak : Z }.
Record SeasonArchive := {
  sa_season_id : Z; sa_ended_at_ledger : Z; sa_wins : list SeasonLeaderboardEntry;
  sa_streak : list SeasonLeaderboardEntry; sa_participant_count : Z }.
Record MultiFeedPayload := {
  mf_prices : list Z; mf_sources : list Z; mf_round_id : Z; mf_nonce : Z;
  mf_network_id : Bytes; mf_contract_addr : Address; mf_timestamp : Z }.
Record OracleQuorumConfig := {
  min_observations : Z; quorum_threshold : Z; outlier_threshold_bps : Z }.
Record PriceSample := { sample_price : Z; sample_timestamp : Z }.
Record DeviationConfig := {
  reference_mode : DeviationReferenceMode; window_samples : Z }.
Record AttestationConfig := { att_key : option Bytes }.
Record HbGateConfig := {
  strict_mode : bool; override_armed : bool; grace_seconds : Z }.
(** settlement.rs keeps the staged result of a round in its dispute window. *)
Record PendingDisputeSettlement := {
  pd_round : Round; pd_final_price : Z; pd_confidence : option Z;
  pd_resolved_at_ledger : Z; pd_deadline_ledger : Z }.

(** The results of the queries. *)
Record RoundPoolStats := {
  st_round_id : Z; st_mode : RoundMode; total_up_stake : Z; total_down_stake : Z;
  up_participant_count : Z; down_participant_count : Z; up_stake_ratio_bps : Z;
  down_stake_ratio_bps : Z; precision_total_stake : Z; precision_participant_count : Z;
  precision_prediction_count : Z; precision_commitment_count : Z;
  precision_revealed_count : Z }.
Record MarketSnapshot := {
  ms_phase : list RoundPhase; ms_pool_stats : list RoundPoolStats; ms_bet_window_ledgers : Z;
  ms_run_window_ledgers : Z; ms_close_buffer_ledgers : Z; ms_protocol_fee_bps : option Z;
  ms_fee_model : FeeModel }.
Record SimulationResult := {
  sim_mode : RoundMode; sim_pool_up : Z; sim_pool_down : Z; sim_precision_total_stake : Z;
  sim_fee_amount : Z; sim_fee_model : Z; sim_outcomes : list UserRoundOutcome }.

#[export] Instance UserPosition_eq_dec : EqDecision UserPosition := ltac:(solve_decision).
#[export] Instance Round_eq_dec : EqDecision Round := ltac:(solve_decision).

(** The default [UserStats] every reader falls back to. *)
Definition zero_stats : UserStats :=
  {| total_wins := 0; total_losses := 0; current_streak := 0; best_streak := 0 |}.

(** Functional updates of the two pool fields of a round. *)
Definition with_pool_up (r : Round) (v : Z) : Round :=
  {| round_id := round_id r; price_start := price_start r;
     start_ledger := start_ledger r; start_timestamp := start_timestamp r;
     bet_end_ledger := bet_end_ledger r; end_ledger := end_ledger r;
     pool_up := v; pool_down := pool_down r; mode := mode r |}.
Definition with_pool_down (r : Round) (v : Z) : Round :=
  {| round_id := round_id r; price_start := price_start r;
     start_ledger := start_ledger r; start_timestamp := start_timestamp r;
     bet_end_ledger := bet_end_ledger r; end_ledger := end_ledger r;
     pool_up := pool_up r; pool_down := v; mode := mode r |}.

(** ** Constants (common.rs) *)

Definition BPS_DENOMINATOR : Z := 10000.
Definition DEFAULT_PENDING_WINNINGS_EXPIRY : Z := 0.
Definition MIN_PENDING_WINNINGS_EXPIRY : Z := 128.
Definition MAX_PENDING_WINNINGS_EXPIRY : Z := 1000000.
Definition DEFAULT_GOV_PROPOSAL_TTL_LEDGERS : Z := 100.
Definition MAX_DISPUTE_LEDGERS : Z := 120960.
Definition DEFAULT_DISPUTE_LEDGERS : Z := 0.
Definition MIN_CAP_VALUE : Z := 1.
Definition MAX_MIN_PARTICIPANTS : Z := 10000.
Definition DEFAULT_MAX_PRECISION_PARTICIPANTS : Z := 1000.
Definition MAX_PRECISION_PARTICIPANTS_LIMIT : Z := 10000.
Definition MAX_PAGE_SIZE : Z := 100.
Definition MAX_CLAIM_BATCH_SIZE : Z := 50.
Definition LEADERBOARD_LIMIT : Z := 100.
Definition DEFAULT_ORACLE_STALE_THRESHOLD : Z := 3600.
Definition MIN_ORACLE_STALE_THRESHOLD : Z := 60.
Definition MAX_ORACLE_STALE_THRESHOLD : Z := 86400.
Definition DEFAULT_BET_WINDOW_LEDGERS : Z := 6.
Definition DEFAULT_RUN_WINDOW_LEDGERS : Z := 12.
Definition DEFAULT_CLOSE_BUFFER_LEDGERS : Z := 0.
Definition MAX_BET_WINDOW_LEDGERS : Z := 1440.
Definition MAX_RUN_WINDOW_LEDGERS : Z := 2880.
Definition MAX_CLOSE_BUFFER_LEDGERS : Z := 1440.
Definition MAX_ORACLE_DEVIATION_BPS : Z := 100000.
Definition SECONDS_PER_LEDGER : Z := 5.
Definition DEFAULT_ORACLE_TIMESTAMP_SKEW : Z := 300.
Definition MIN_ORACLE_TIMESTAMP_SKEW : Z := 0.
Definition MAX_ORACLE_TIMESTAMP_SKEW : Z := 86400.
Definition MAX_PROTOCOL_FEE_BPS : Z := 1000.
Definition CURRENT_SCHEMA_VERSION : Z := 3.
Definition MIN_START_PRICE : Z := 1.
Definition MAX_START_PRICE : Z := 1000000000000000000.
Definition TTL_BUMP_THRESHOLD : Z := 17280.
Definition TTL_BUMP_AMOUNT : Z := 518400.
Definition DEFAULT_ARCHIVE_RETENTION : Z := 128.
Definition MIN_ARCHIVE_RETENTION : Z := 1.
Definition MAX_ARCHIVE_RETENTION : Z := 10000.
Definition CONFIG_TIMELOCK_LEDGERS : Z := 1440.
Definition EPOCH_LEDGERS : Z := 1440.
Definition MAX_ORACLE_OBSERVATIONS : Z := 32.
Definition DEFAULT_ORACLE_QUORUM_MIN_OBSERVATIONS : Z := 3.
Definition DEFAULT_ORACLE_QUORUM_THRESHOLD : Z := 3.
Definition MIN_TWAP_WINDOW_SAMPLES : Z := 2.
Definition MAX_TWAP_WINDOW_SAMPLES : Z := 64.
