(* ===== verification/Host.v ===== *)
(** * The Soroban host as the contract sees it

    Storage, ledger context, events, authorization and the error discipline of
    a contract invocation.

    Storage keys are modelled by the value the SDK serialises them to: a
    [contracttype] enum variant is a vector headed by the variant's name, so
    two key enums that share a variant name and payload share a storage slot; a
    tuple struct is the vector of its fields; a [Symbol] key is the symbol.

    A handler is a state-passing function [M A]: it returns [Ok], a contract
    error [Err], or [Panic] (a trap), together with the state reached.  The
    state reached by a failing handler is what the code wrote before failing;
    [invoke] is the host boundary that discards it. *)

From S2P Require Export Types.

(** ** Keys *)

Inductive KeyArg := AU32 (n : Z) | AU64 (n : Z) | AAddr (a : Address) | AVoid.

(** [KVec name args]: enum variant; [KExt name args]: the variant wrapped in
    [DataKeyCore::Ext]; [KTup args]: tuple struct; [KSym s]: symbol. *)
Inductive Key :=
  | KVec (name : string) (args : list KeyArg)
  | KExt (name : string) (args : list KeyArg)
  | KTup (args : list KeyArg)
  | KSym (s : string).

#[export] Instance KeyArg_eq_dec : EqDecision KeyArg := ltac:(solve_decision).
#[export] Instance KeyArg_countable : Countable KeyArg.
Proof.
  refine (inj_countable'
    (λ a, match a with
          | AU32 n => inl n | AU64 n => inr (inl n)
          | AAddr a => inr (inr (inl a)) | AVoid => inr (inr (inr ()))
          end)
    (λ x, match x with
          | inl n => AU32 n | inr (inl n) => AU64 n
          | inr (inr (inl a)) => AAddr a | inr (inr (inr _)) => AVoid
          end) _).
  by intros [].
Defined.

#[export] Instance Key_eq_dec : EqDecision Key := ltac:(solve_decision).
#[export] Instance Key_countable : Countable Key.
Proof.
  refine (inj_countable'
    (λ k, match k with
          | KVec s l => inl (s, l) | KExt s l => inr (inl (s, l))
          | KTup l => inr (inr (inl l)) | KSym s => inr (inr (inr s))
          end)
    (λ x, match x with
          | inl (s, l) => KVec s l | inr (inl (s, l)) => KExt s l
          | inr (inr (inl l)) => KTup l | inr (inr (inr s)) => KSym s
          end) _).
  by intros [].
Defined.

(** Parameterless keys ([DataKeyCore]). *)
Definition K_Admin := KVec "Admin" [].
Definition K_Oracle := KVec "Oracle" [].
Definition K_SchemaVersion := KVec "SchemaVersion" [].
Definition K_ActiveRound := KVec "ActiveRound" [].
Definition K_Positions := KVec "Positions" [].
Definition K_UpDownPositions := KVec "UpDownPositions" [].
Definition K_PrecisionPositions := KVec "PrecisionPositions" [].
Definition K_Paused := KVec "Paused" [].
Definition K_BetWindowLedgers := KVec "BetWindowLedgers" [].
Definition K_RunWindowLedgers := KVec "RunWindowLedgers" [].
Definition K_CloseBufferLedgers := KVec "CloseBufferLedgers" [].
Definition K_LastRoundId := KVec "LastRoundId" [].
Definition K_MaxStake := KVec "MaxStake" [].
Definition K_MaxUserRoundExposure := KVec "MaxUserRoundExposure" [].
Definition K_MaxPendingWinnings := KVec "MaxPendingWinnings" [].
Definition K_MinParticipants := KVec "MinParticipants" [].
Definition K_OracleHeartbeat := KVec "OracleHeartbeat" [].
Definition K_OracleStaleThreshold := KVec "OracleStaleThreshold" [].
Definition K_MaxPrecisionParticipants := KVec "MaxPrecisionParticipants" [].
Definition K_OracleMaxDeviationBps := KVec "OracleMaxDeviationBps" [].
Definition K_OracleDeviationOverrideArmed := KVec "OracleDeviationOverrideArmed" [].
Definition K_OracleMinConfidenceBps := KVec "OracleMinConfidenceBps" [].
Definition K_OracleStrictMode := KVec "OracleStrictMode" [].
Definition K_RecentArchivedRoundIds := KVec "RecentArchivedRoundIds" [].
Definition K_MigratedToV3 := KVec "MigratedToV3" [].
Definition K_ProtocolFeeBps := KVec "ProtocolFeeBps" [].
Definition K_ProtocolFeeTreasury := KVec "ProtocolFeeTreasury" [].
Definition K_MintLimitConfig := KVec "MintLimitConfig" [].
Definition K_OracleRotationProposal := KVec "OracleRotationProposal" [].
Definition K_ArchiveRetention := KVec "ArchiveRetention" [].
Definition K_RoundTemplate := KVec "RoundTemplate" [].
Definition K_OracleQuorum := KVec "OracleQuorum" [].
Definition K_NextSchemaVersion := KVec "NextSchemaVersion" [].
Definition K_MinBet := KVec "MinBet" [].
Definition K_EarlyCashoutBps := KVec "EarlyCashoutBps" [].
Definition K_FeeModel := KVec "FeeModel" [].
Definition K_PrecisionPayoutPolicy := KVec "PrecisionPayoutPolicy" [].
Definition K_AccessControlEnabled := KVec "AccessControlEnabled" [].
Definition K_GovApprover := KVec "GovApprover" [].
Definition K_GovProposalTtlLedgers := KVec "GovProposalTtlLedgers" [].
Definition K_NextGovProposalId := KVec "NextGovProposalId" [].
Definition K_LeaderboardWins := KExt "LeaderboardWins" [].
Definition K_LeaderboardStreak := KExt "LeaderboardStreak" [].
Definition K_SeasonId := KExt "SeasonId" [].
Definition K_SeasonLeaderboardWins := KExt "SeasonLeaderboardWins" [].
Definition K_SeasonLeaderboardStreak := KExt "SeasonLeaderboardStreak" [].
Definition K_ConstitutionMetadata := KExt "ConstitutionMetadata" [].
Definition K_NextAmendmentId := KExt "NextAmendmentId" [].
Definition K_Amendment (n : Z) := KExt "Amendment" [AU64 n].

(** Parameterised keys ([DataKeyScoped]). *)
Definition K_Balance (a : Address) := KVec "Balance" [AAddr a].
Definition K_PendingWinnings (a : Address) := KVec "PendingWinnings" [AAddr a].
Definition K_UserStats (a : Address) := KVec "UserStats" [AAddr a].
Definition K_Position (r : Z) (a : Address) := KVec "Position" [AU64 r; AAddr a].
Definition K_PrecisionPosition (r : Z) (a : Address) := KVec "PrecisionPosition" [AU64 r; AAddr a].
Definition K_PrecisionCommitment (r : Z) (a : Address) := KVec "PrecisionCommitment" [AU64 r; AAddr a].
Definition K_RoundParticipants (r : Z) := KVec "RoundParticipants" [AU64 r].
Definition K_CancelledRound (r : Z) := KVec "CancelledRound" [AU64 r].
Definition K_ConsumedOracleNonce (r n : Z) := KVec "ConsumedOracleNonce" [AU64 r; AU64 n].
Definition K_UserRoundOutcome (r : Z) (a : Address) := KVec "UserRoundOutcome" [AU64 r; AAddr a].
Definition K_PendingConfigChange (k : ConfigChangeKind) :=
  KVec "PendingConfigChange" [AU32 (ConfigChangeKind_u32 k)].
Definition K_LedgerMintCounter (n : Z) := KVec "LedgerMintCounter" [AU32 n].
Definition K_ArchivedRound (r : Z) := KVec "ArchivedRound" [AU64 r].
Definition K_SeasonUserStats (s : Z) (a : Address) := KVec "SeasonUserStats" [AU32 s; AAddr a].
Definition K_SeasonArchive (s : Z) := KVec "SeasonArchive" [AU32 s].
Definition K_UserArchivedRoundIds (a : Address) := KVec "UserArchivedRoundIds" [AAddr a].
Definition K_Allowlisted (a : Address) := KVec "Allowlisted" [AAddr a].
Definition K_Denylisted (a : Address) := KVec "Denylisted" [AAddr a].
Definition K_GovProposal (n : Z) := KVec "GovProposal" [AU64 n].
Definition K_RoundStartLedger (n : Z) := KVec "RoundStartLedger" [AU32 n].

(** Keys of their own type. *)
Definition K_TwapSamples := KVec "Samples" [].
Definition K_DeviationConfig := KVec "Config" [].
Definition K_AttestationConfig := KVec "Config" [].
Definition K_HbGate := KVec "Config" [].
Definition K_PendingWinningsExpiry := KTup [AVoid].
Definition K_PendingWinningsUpdatedAt (a : Address) := KTup [AAddr a].
Definition K_DisputeLedgers := KSym "DisputeLedgers".
Definition K_PendingDisputes := KSym "PendingDisputes".
Definition K_otskew := KSym "otskew".
Definition K_EpMintBgt := KSym "EpMintBgt".
Definition K_EpMintCsm := KSym "EpMintCsm".
Definition K_EpMintEpc := KSym "EpMintEpc".
Definition K_InsFundBal := KSym "InsFundBal".
Definition K_InsSplitBps := KSym "InsSplitBps".
Definition K_InsCovBps := KSym "InsCovBps".
Definition K_InsEligEvt := KSym "InsEligEvt".

(** ** Stored values

    One constructor per type the contract stores (or publishes in an event).
    Reading a slot at another type than the one it holds traps, as the SDK's
    conversion does. *)

Inductive Val :=
  | VI128 (n : Z) | VU128 (n : Z) | VU64 (n : Z) | VU32 (n : Z)
  | VBool (b : bool) | VAddr (a : Address) | VSym (s : string)
  | VBytes (b : Bytes) | VOptU32 (o : option Z)
  | VAddrs (l : list Address) | VU64s (l : list Z) | VU32s (l : list Z)
  | VRound (r : Round) | VPosition (p : UserPosition) | VStats (s : UserStats)
  | VPrediction (p : PrecisionPrediction) | VCommitment (c : PrecisionCommitment)
  | VSummary (a : ArchivedRoundSummary) | VOutcome (o : UserRoundOutcome)
  | VHeartbeat (h : OracleHeartbeatRecord) | VHb (c : HbGateConfig)
  | VDeviation (c : DeviationConfig) | VAttestation (c : AttestationConfig)
  | VQuorum (c : OracleQuorumConfig) | VSamples (l : list PriceSample)
  | VTemplate (t : RoundTemplate) | VPendingConfig (p : PendingConfigChange)
  | VConfigPayload (p : ConfigChangePayload)
  | VProposal (p : GovProposal) | VRotation (p : OracleRotationProposal)
  | VSeasonArchive (a : SeasonArchive)
  | VConstitution (c : ConstitutionMetadata) | VAmendment (a : Amendment)
  | VDisputes (m : gmap Z PendingDisputeSettlement)
  | VPositionMap (m : gmap Address UserPosition)
  | VPredictionMap (m : gmap Address PrecisionPrediction).

(** A codec says how a Rust type is stored: the typed accessors of the SDK
    ([get::<_, T>], [set]) convert through it. *)
Record Codec (T : Type) := mk_codec {
  enc : T -> Val;
  dec : Val -> option T;
  dec_enc x : dec (enc x) = Some x;
  enc_dec v x : dec v = Some x -> v = enc x }.
Arguments mk_codec {T} _ _ _ _.
Arguments enc {T} _ _.
Arguments dec {T} _ _.

Ltac codec :=
  intros; first
    [ reflexivity
    | match goal with
      | v : Val, H : _ = Some _ |- _ =>
          destruct v; first [discriminate H | injection H as <-; reflexivity]
      end ].

Definition cI128 : Codec Z :=
  mk_codec VI128 (λ v, match v with VI128 x => Some x | _ => None end) ltac:(codec) ltac:(codec).
Definition cU128 : Codec Z :=
  mk_codec VU128 (λ v, match v with VU128 x => Some x | _ => None end) ltac:(codec) ltac:(codec).
Definition cU64 : Codec Z :=
  mk_codec VU64 (λ v, match v with VU64 x => Some x | _ => None end) ltac:(codec) ltac:(codec).
Definition cU32 : Codec Z :=
  mk_codec VU32 (λ v, match v with VU32 x => Some x | _ => None end) ltac:(codec) ltac:(codec).
Definition cBool : Codec bool :=
  mk_codec VBool (λ v, match v with VBool x => Some x | _ => None end) ltac:(codec) ltac:(codec).
Definition cAddr : Codec Address :=
  mk_codec VAddr (λ v, match v with VAddr x => Some x | _ => None end) ltac:(codec) ltac:(codec).
Definition cOptU32 : Codec (option Z) :=
  mk_codec VOptU32 (λ v, match v with VOptU32 x => Some x | _ => None end) ltac:(codec) ltac:(codec).
Definition cAddrs : Codec (list Address) :=
  mk_codec VAddrs (λ v, match v with VAddrs x => Some x | _ => None end) ltac:(codec) ltac:(codec).
Definition cU64s : Codec (list Z) :=
  mk_codec VU64s (λ v, match v with VU64s x => Some x | _ => None end) ltac:(codec) ltac:(codec).
Definition cU32s : Codec (list Z) :=
  mk_codec VU32s (λ v, match v with VU32s x => Some x | _ => None end) ltac:(codec) ltac:(codec).
Definition cRound : Codec Round :=
  mk_codec VRound (λ v, match v with VRound x => Some x | _ => None end) ltac:(codec) ltac:(codec).
Definition cPosition : Codec UserPosition :=
  mk_codec VPosition (λ v, match v with VPosition x => Some x | _ => None end) ltac:(codec) ltac:(codec).
Definition cStats : Codec UserStats :=
  mk_codec VStats (λ v, match v with VStats x => Some x | _ => None end) ltac:(codec) ltac:(codec).
Definition cPrediction : Codec PrecisionPrediction :=
  mk_codec VPrediction (λ v, match v with VPrediction x => Some x | _ => None end) ltac:(codec) ltac:(codec).
Definition cCommitment : Codec PrecisionCommitment :=
  mk_codec VCommitment (λ v, match v with VCommitment x => Some x | _ => None end) ltac:(codec) ltac:(codec).
Definition cSummary : Codec ArchivedRoundSummary :=
  mk_codec VSummary (λ v, match v with VSummary x => Some x | _ => None end) ltac:(codec) ltac:(codec).
Definition cOutcome : Codec UserRoundOutcome :=
  mk_codec VOutcome (λ v, match v with VOutcome x => Some x | _ => None end) ltac:(codec) ltac:(codec).
Definition cHeartbeat : Codec OracleHeartbeatRecord :=
  mk_codec VHeartbeat (λ v, match v with VHeartbeat x => Some x | _ => None end) ltac:(codec) ltac:(codec).
Definition cHb : Codec HbGateConfig :=
  mk_codec VHb (λ v, match v with VHb x => Some x | _ => None end) ltac:(codec) ltac:(codec).
Definition cDeviation : Codec DeviationConfig :=
  mk_codec VDeviation (λ v, match v with VDeviation x => Some x | _ => None end) ltac:(codec) ltac:(codec).
Definition cAttestation : Codec AttestationConfig :=
  mk_codec VAttestation (λ v, match v with VAttestation x => Some x | _ => None end) ltac:(codec) ltac:(codec).
Definition cQuorum : Codec OracleQuorumConfig :=
  mk_codec VQuorum (λ v, match v with VQuorum x => Some x | _ => None end) ltac:(codec) ltac:(codec).
Definition cSamples : Codec (list PriceSample) :=
  mk_codec VSamples (λ v, match v with VSamples x => Some x | _ => None end) ltac:(codec) ltac:(codec).
Definition cTemplate : Codec RoundTemplate :=
  mk_codec VTemplate (λ v, match v with VTemplate x => Some x | _ => None end) ltac:(codec) ltac:(codec).
Definition cPendingConfig : Codec PendingConfigChange :=
  mk_codec VPendingConfig (λ v, match v with VPendingConfig x => Some x | _ => None end) ltac:(codec) ltac:(codec).
Definition cProposal : Codec GovProposal :=
  mk_codec VProposal (λ v, match v with VProposal x => Some x | _ => None end) ltac:(codec) ltac:(codec).
Definition cRotation : Codec OracleRotationProposal :=
  mk_codec VRotation (λ v, match v with VRotation x => Some x | _ => None end) ltac:(codec) ltac:(codec).
Definition cSeasonArchive : Codec SeasonArchive :=
  mk_codec VSeasonArchive (λ v, match v with VSeasonArchive x => Some x | _ => None end) ltac:(codec) ltac:(codec).
Definition cConstitution : Codec ConstitutionMetadata :=
  mk_codec VConstitution (λ v, match v with VConstitution x => Some x | _ => None end)
    ltac:(codec) ltac:(codec).
Definition cAmendment : Codec Amendment :=
  mk_codec VAmendment (λ v, match v with VAmendment x => Some x | _ => None end)
    ltac:(codec) ltac:(codec).
Definition cDisputes : Codec (gmap Z PendingDisputeSettlement) :=
  mk_codec VDisputes (λ v, match v with VDisputes x => Some x | _ => None end) ltac:(codec) ltac:(codec).
Definition cPositionMap : Codec (gmap Address UserPosition) :=
  mk_codec VPositionMap (λ v, match v with VPositionMap x => Some x | _ => None end)
    ltac:(codec) ltac:(codec).

Definition cPredictionMap : Codec (gmap Address PrecisionPrediction) :=
  mk_codec VPredictionMap (λ v, match v with VPredictionMap x => Some x | _ => None end)
    ltac:(codec) ltac:(codec).

(** Enums with [repr(u32)] are stored as their discriminant. *)
Definition RuntimeMode_of_u32 (n : Z) : option RuntimeMode :=
  if n =? 0 then Some Normal else if n =? 1 then Some ClaimsOnly
  else if n =? 2 then Some FullyPaused else None.
Definition FeeModel_of_u32 (n : Z) : option FeeModel :=
  if n =? 0 then Some FeeOnPot else if n =? 1 then Some FeeOnWinnings else None.

Ltac enum_codec :=
  intros v x H; destruct v; try discriminate H; revert H;
  unfold RuntimeMode_of_u32, FeeModel_of_u32;
  repeat case_match; intros; simplify_eq; zbool; subst; reflexivity.

Definition cRuntimeMode : Codec RuntimeMode :=
  mk_codec (λ m, VU32 (RuntimeMode_u32 m))
    (λ v, match v with VU32 n => RuntimeMode_of_u32 n | _ => None end)
    ltac:(by intros []) ltac:(enum_codec).
Definition cFeeModel : Codec FeeModel :=
  mk_codec (λ m, VU32 (FeeModel_u32 m))
    (λ v, match v with VU32 n => FeeModel_of_u32 n | _ => None end)
    ltac:(by intros []) ltac:(enum_codec).

(** ** Context, state and outcomes *)

(** What the host tells a contract call: the ledger it runs in, the addresses
    whose authorization the transaction carries, and the life time the network
    gives a fresh persistent entry. *)
Record Ctx := {
  sequence : Z;
  ledger_timestamp : Z;
  env_network_id : Bytes;
  current_contract : Address;
  authorised : Address -> bool;
  min_persistent_ttl : Z }.

Record Event := mk_event { topics : string * string; data : list Val }.

(** [ttl k] is the last ledger at which the persistent entry [k] is live. *)
Record State := mk_state {
  persistent : gmap Key Val;
  instance : gmap Key Val;
  temporary : gmap Key Val;
  ttl : gmap Key Z;
  events : list Event }.

Definition empty_state : State := mk_state ∅ ∅ ∅ ∅ [].

Inductive outcome (A : Type) :=
  | Ok (a : A)
  | Err (e : ContractError)
  | Panic.
Arguments Ok {A} _.
Arguments Err {A} _.
Arguments Panic {A}.

#[export] Instance outcome_ret : MRet outcome := @Ok.
#[export] Instance outcome_bind : MBind outcome := λ A B f o,
  match o with Ok a => f a | Err e => Err e | Panic => Panic end.

(** [opt.ok_or(e)?] and a bare operator that can trap, in pure code. *)
Definition some_or {A} (o : option A) (e : ContractError) : outcome A :=
  match o with Some a => Ok a | None => Err e end.
Definition some_or_panic {A} (o : option A) : outcome A :=
  match o with Some a => Ok a | None => Panic end.
(** [a / b] on [i128]. *)
Definition i128_div (a b : Z) : outcome Z := some_or_panic (i128_checked_div a b).
(** A loop with early exit by [?], its mutable locals threaded through. *)
Fixpoint ofold {A B} (l : list A) (acc : B) (body : B -> A -> outcome B) : outcome B :=
  match l with
  | [] => Ok acc
  | x :: l => acc' ← body acc x; ofold l acc' body
  end.

Definition M (A : Type) : Type := Ctx -> State -> outcome A * State.

#[export] Instance M_ret : MRet M := λ A a c s, (Ok a, s).
#[export] Instance M_bind : MBind M := λ A B f m c s,
  match m c s with
  | (Ok a, s') => f a c s'
  | (Err e, s') => (Err e, s')
  | (Panic, s') => (Panic, s')
  end.

(** ** Host operations *)

Definition throw {A} (e : ContractError) : M A := λ c s, (Err e, s).
Definition trap {A} : M A := λ c s, (Panic, s).
Definition lift {A} (o : outcome A) : M A := λ c s, (o, s).
Definition asks {A} (f : Ctx -> A) : M A := λ c s, (Ok (f c), s).

(** [if b { return Err(e) }] *)
Definition reject_if (b : bool) (e : ContractError) : M () :=
  if b then throw e else mret ().
(** [opt.ok_or(e)?] *)
Definition ok_or {A} (o : option A) (e : ContractError) : M A :=
  match o with Some a => mret a | None => throw e end.
(** Arithmetic written with a bare operator traps when it overflows. *)
Definition or_trap {A} (o : option A) : M A :=
  match o with Some a => mret a | None => trap end.
(** [result.inspect_err(f)?] *)
Definition inspect_err {A} (m : M A) (f : ContractError -> M ()) : M A := λ c s,
  match m c s with
  | (Err e, s1) =>
      match f e c s1 with
      | (Ok _, s2) => (Err e, s2)
      | (Err e', s2) => (Err e', s2)
      | (Panic, s2) => (Panic, s2)
      end
  | r => r
  end.

(** [if let Ok(x) = call]: an error is absorbed, a trap is not. *)
Definition attempt {A} (m : M A) : M (option A) := λ c s,
  match m c s with
  | (Ok a, s') => (Ok (Some a), s')
  | (Err _, s') => (Ok None, s')
  | (Panic, s') => (Panic, s')
  end.

Definition opt_dec {A} (cd : Codec A) (o : option Val) : outcome (option A) :=
  match o with
  | None => Ok None
  | Some v => match dec cd v with Some x => Ok (Some x) | None => Panic end
  end.

(** [env.storage().persistent()] *)
Definition pget {A} (cd : Codec A) (k : Key) : M (option A) := λ c s,
  (opt_dec cd (persistent s !! k), s).
Definition phas (k : Key) : M bool := λ c s,
  (Ok (bool_decide (is_Some (persistent s !! k))), s).
Definition pset {A} (cd : Codec A) (k : Key) (x : A) : M () := λ c s,
  (Ok (), mk_state (<[k:=enc cd x]> (persistent s)) (instance s) (temporary s)
            (match persistent s !! k with
             | Some _ => ttl s
             | None => <[k:=sequence c + min_persistent_ttl c - 1]> (ttl s)
             end) (events s)).
Definition premove (k : Key) : M () := λ c s,
  (Ok (), mk_state (delete k (persistent s)) (instance s) (temporary s)
            (delete k (ttl s)) (events s)).
(** Extending the life of a missing entry traps. *)
Definition pextend_ttl (k : Key) (threshold extend_to : Z) : M () := λ c s,
  match persistent s !! k with
  | None => (Panic, s)
  | Some _ =>
      let live := default (sequence c) (ttl s !! k) in
      (Ok (), mk_state (persistent s) (instance s) (temporary s)
                (if live - sequence c <? threshold
                 then <[k:=sequence c + extend_to]> (ttl s) else ttl s) (events s))
  end.

(** [get(k).unwrap_or(d)] and [get(k).ok_or(e)?] *)
Definition pget_or {A} (cd : Codec A) (k : Key) (d : A) : M A :=
  o ← pget cd k; mret (default d o).
Definition pget_ok {A} (cd : Codec A) (k : Key) (e : ContractError) : M A :=
  o ← pget cd k; ok_or o e.

(** [env.storage().instance()] and [.temporary()] *)
Definition iget {A} (cd : Codec A) (k : Key) : M (option A) := λ c s,
  (opt_dec cd (instance s !! k), s).
Definition iset {A} (cd : Codec A) (k : Key) (x : A) : M () := λ c s,
  (Ok (), mk_state (persistent s) (<[k:=enc cd x]> (instance s)) (temporary s) (ttl s) (events s)).
Definition iremove (k : Key) : M () := λ c s,
  (Ok (), mk_state (persistent s) (delete k (instance s)) (temporary s) (ttl s) (events s)).
Definition tget {A} (cd : Codec A) (k : Key) : M (option A) := λ c s,
  (opt_dec cd (temporary s !! k), s).
Definition tset {A} (cd : Codec A) (k : Key) (x : A) : M () := λ c s,
  (Ok (), mk_state (persistent s) (instance s) (<[k:=enc cd x]> (temporary s)) (ttl s) (events s)).

Definition iget_or {A} (cd : Codec A) (k : Key) (d : A) : M A :=
  o ← iget cd k; mret (default d o).
Definition tget_or {A} (cd : Codec A) (k : Key) (d : A) : M A :=
  o ← tget cd k; mret (default d o).

(** [env.events().publish] *)
Definition emit (t1 t2 : string) (vs : list Val) : M () := λ c s,
  (Ok (), mk_state (persistent s) (instance s) (temporary s) (ttl s)
            (events s ++ [mk_event (t1, t2) vs])).

(** [address.require_auth()] *)
Definition require_auth (a : Address) : M () := λ c s,
  if authorised c a then (Ok (), s) else (Panic, s).

(** [for x in l { body }] *)
Fixpoint mfor {A} (l : list A) (body : A -> M ()) : M () :=
  match l with
  | [] => mret ()
  | x :: l => body x ;; mfor l body
  end.
(** The same, with the mutable locals of the loop threaded through. *)
Fixpoint mfold {A B} (l : list A) (acc : B) (body : B -> A -> M B) : M B :=
  match l with
  | [] => mret acc
  | x :: l => acc' ← body acc x; mfold l acc' body
  end.

(** The host runs a contract call as a transaction: a contract error or a trap
    discards every write and event of the call. *)
Definition invoke {A} (m : M A) (c : Ctx) (s : State) : outcome A * State :=
  match m c s with
  | (Ok a, s') => (Ok a, s')
  | (Err e, _) => (Err e, s)
  | (Panic, _) => (Panic, s)
  end.

(** ** Host cryptography

    The hash, signature and serialisation functions are host code: what the
    contract uses of them is this interface. *)
Class HostCrypto := {
  sha256 : Bytes -> Bytes;
  u128_to_xdr : Z -> Bytes;
  u32_to_xdr : Z -> Bytes;
  u64_to_xdr : Z -> Bytes;
  bytes_to_xdr : Bytes -> Bytes;
  address_to_xdr : Address -> Bytes;
  ed25519_verify : Bytes -> Bytes -> Bytes -> bool }.
