(* ===== verification/Keys.v ===== *)
(** * The storage keys and the slots they name

    The key types of types.rs, the serialisation the SDK gives them, and which
    of them name the same slot.  The rest of the development uses the slots
    ([K_Admin], ...); this file ties each to the key the code writes. *)

From S2P Require Export Host.

(** ** The key enumerations *)

Module Ext.
Inductive DataKeyExt :=
  | LeaderboardWins | LeaderboardStreak | SeasonId | SeasonUserStats (n : Z) (a : Address)
  | SeasonLeaderboardWins | SeasonLeaderboardStreak | SeasonArchive (n : Z)
  | ConstitutionMetadata | Amendment (n : Z) | NextAmendmentId.

Definition key_of_ext (key : DataKeyExt) : Key :=
  match key with
  | LeaderboardWins => KExt "LeaderboardWins" []
  | LeaderboardStreak => KExt "LeaderboardStreak" [] | SeasonId => KExt "SeasonId" []
  | SeasonUserStats n a => KExt "SeasonUserStats" [AU32 n; AAddr a]
  | SeasonLeaderboardWins => KExt "SeasonLeaderboardWins" []
  | SeasonLeaderboardStreak => KExt "SeasonLeaderboardStreak" []
  | SeasonArchive n => KExt "SeasonArchive" [AU32 n]
  | ConstitutionMetadata => KExt "ConstitutionMetadata" []
  | Amendment n => KExt "Amendment" [AU64 n] | NextAmendmentId => KExt "NextAmendmentId" []
  end.
End Ext.

Module Core.
Inductive DataKeyCore :=
  | Admin | Oracle | SchemaVersion | ActiveRound | Positions | UpDownPositions
  | PrecisionPositions | Paused | BetWindowLedgers | RunWindowLedgers | CloseBufferLedgers
  | LastRoundId | MaxStake | MaxUserRoundExposure | MaxPendingWinnings | MinParticipants
  | OracleHeartbeat | OracleStaleThreshold | MaxPrecisionParticipants | OracleMaxDeviationBps
  | OracleDeviationOverrideArmed | OracleMinConfidenceBps | OracleStrictMode
  | RecentArchivedRoundIds | MigratedToV3 | ProtocolFeeBps | ProtocolFeeTreasury
  | MintLimitConfig | OracleRotationProposal | ArchiveRetention | RoundTemplate | OracleQuorum
  | NextSchemaVersion | MinBet | EpochMintBudget | EarlyCashoutBps | FeeModel | DisputeLedgers
  | PrecisionPayoutPolicy | AccessControlEnabled | GovApprover | GovProposalTtlLedgers
  | NextGovProposalId | Ext (k : Ext.DataKeyExt).

Definition key_of_core (key : DataKeyCore) : Key :=
  match key with
  | Admin => KVec "Admin" [] | Oracle => KVec "Oracle" []
  | SchemaVersion => KVec "SchemaVersion" [] | ActiveRound => KVec "ActiveRound" []
  | Positions => KVec "Positions" [] | UpDownPositions => KVec "UpDownPositions" []
  | PrecisionPositions => KVec "PrecisionPositions" [] | Paused => KVec "Paused" []
  | BetWindowLedgers => KVec "BetWindowLedgers" []
  | RunWindowLedgers => KVec "RunWindowLedgers" []
  | CloseBufferLedgers => KVec "CloseBufferLedgers" [] | LastRoundId => KVec "LastRoundId" []
  | MaxStake => KVec "MaxStake" [] | MaxUserRoundExposure => KVec "MaxUserRoundExposure" []
  | MaxPendingWinnings => KVec "MaxPendingWinnings" []
  | MinParticipants => KVec "MinParticipants" []
  | OracleHeartbeat => KVec "OracleHeartbeat" []
  | OracleStaleThreshold => KVec "OracleStaleThreshold" []
  | MaxPrecisionParticipants => KVec "MaxPrecisionParticipants" []
  | OracleMaxDeviationBps => KVec "OracleMaxDeviationBps" []
  | OracleDeviationOverrideArmed => KVec "OracleDeviationOverrideArmed" []
  | OracleMinConfidenceBps => KVec "OracleMinConfidenceBps" []
  | OracleStrictMode => KVec "OracleStrictMode" []
  | RecentArchivedRoundIds => KVec "RecentArchivedRoundIds" []
  | MigratedToV3 => KVec "MigratedToV3" [] | ProtocolFeeBps => KVec "ProtocolFeeBps" []
  | ProtocolFeeTreasury => KVec "ProtocolFeeTreasury" []
  | MintLimitConfig => KVec "MintLimitConfig" []
  | OracleRotationProposal => KVec "OracleRotationProposal" []
  | ArchiveRetention => KVec "ArchiveRetention" [] | RoundTemplate => KVec "RoundTemplate" []
  | OracleQuorum => KVec "OracleQuorum" [] | NextSchemaVersion => KVec "NextSchemaVersion" []
  | MinBet => KVec "MinBet" [] | EpochMintBudget => KVec "EpochMintBudget" []
  | EarlyCashoutBps => KVec "EarlyCashoutBps" [] | FeeModel => KVec "FeeModel" []
  | DisputeLedgers => KVec "DisputeLedgers" []
  | PrecisionPayoutPolicy => KVec "PrecisionPayoutPolicy" []
  | AccessControlEnabled => KVec "AccessControlEnabled" []
  | GovApprover => KVec "GovApprover" []
  | GovProposalTtlLedgers => KVec "GovProposalTtlLedgers" []
  | NextGovProposalId => KVec "NextGovProposalId" [] | Ext k => Ext.key_of_ext k
  end.
End Core.

Module Scoped.
Inductive DataKeyScoped :=
  | Balance (a : Address) | PendingWinnings (a : Address) | UserStats (a : Address)
  | Position (n : Z) (a : Address) | PrecisionPosition (n : Z) (a : Address)
  | PrecisionCommitment (n : Z) (a : Address) | RoundParticipants (n : Z)
  | CancelledRound (n : Z) | ConsumedOracleNonce (n : Z) (n' : Z)
  | UserRoundOutcome (n : Z) (a : Address) | PendingConfigChange (kind : ConfigChangeKind)
  | LedgerMintCounter (n : Z) | ArchivedRound (n : Z) | SeasonUserStats (n : Z) (a : Address)
  | SeasonArchive (n : Z) | UserArchivedRoundIds (a : Address) | Allowlisted (a : Address)
  | Denylisted (a : Address) | GovProposal (n : Z) | RoundStartLedger (n : Z).

Definition key_of_scoped (key : DataKeyScoped) : Key :=
  match key with
  | Balance a => KVec "Balance" [AAddr a]
  | PendingWinnings a => KVec "PendingWinnings" [AAddr a]
  | UserStats a => KVec "UserStats" [AAddr a]
  | Position n a => KVec "Position" [AU64 n; AAddr a]
  | PrecisionPosition n a => KVec "PrecisionPosition" [AU64 n; AAddr a]
  | PrecisionCommitment n a => KVec "PrecisionCommitment" [AU64 n; AAddr a]
  | RoundParticipants n => KVec "RoundParticipants" [AU64 n]
  | CancelledRound n => KVec "CancelledRound" [AU64 n]
  | ConsumedOracleNonce n n' => KVec "ConsumedOracleNonce" [AU64 n; AU64 n']
  | UserRoundOutcome n a => KVec "UserRoundOutcome" [AU64 n; AAddr a]
  | PendingConfigChange kind => KVec "PendingConfigChange" [AU32 (ConfigChangeKind_u32 kind)]
  | LedgerMintCounter n => KVec "LedgerMintCounter" [AU32 n]
  | ArchivedRound n => KVec "ArchivedRound" [AU64 n]
  | SeasonUserStats n a => KVec "SeasonUserStats" [AU32 n; AAddr a]
  | SeasonArchive n => KVec "SeasonArchive" [AU32 n]
  | UserArchivedRoundIds a => KVec "UserArchivedRoundIds" [AAddr a]
  | Allowlisted a => KVec "Allowlisted" [AAddr a]
  | Denylisted a => KVec "Denylisted" [AAddr a]
  | GovProposal n => KVec "GovProposal" [AU64 n]
  | RoundStartLedger n => KVec "RoundStartLedger" [AU32 n]
  end.
End Scoped.

(** The enumeration the contract used before the keys were split. *)
Module Unsplit.
Inductive DataKey :=
  | Balance (a : Address) | Admin | Oracle | SchemaVersion | ActiveRound | Positions
  | UpDownPositions | PrecisionPositions | PendingWinnings (a : Address)
  | UserStats (a : Address) | Paused | BetWindowLedgers | RunWindowLedgers | CloseBufferLedgers
  | LastRoundId | Position (n : Z) (a : Address) | PrecisionPosition (n : Z) (a : Address)
  | PrecisionCommitment (n : Z) (a : Address) | RoundParticipants (n : Z) | MaxStake
  | MaxUserRoundExposure | MaxPendingWinnings | CancelledRound (n : Z)
  | ConsumedOracleNonce (n : Z) (n' : Z) | MinParticipants | OracleHeartbeat
  | OracleStaleThreshold | MaxPrecisionParticipants | OracleMaxDeviationBps
  | OracleDeviationOverrideArmed | OracleMinConfidenceBps | OracleStrictMode
  | ArchivedRound (n : Z) | RecentArchivedRoundIds | UserRoundOutcome (n : Z) (a : Address)
  | MigratedToV3 | PendingConfigChange (kind : ConfigChangeKind) | ProtocolFeeBps
  | ProtocolFeeTreasury | LedgerMintCounter (n : Z) | MintLimitConfig | OracleRotationProposal
  | ArchiveRetention | RoundTemplate | Ext (k : Ext.DataKeyExt).

Definition key_of_legacy (key : DataKey) : Key :=
  match key with
  | Balance a => KVec "Balance" [AAddr a] | Admin => KVec "Admin" []
  | Oracle => KVec "Oracle" [] | SchemaVersion => KVec "SchemaVersion" []
  | ActiveRound => KVec "ActiveRound" [] | Positions => KVec "Positions" []
  | UpDownPositions => KVec "UpDownPositions" []
  | PrecisionPositions => KVec "PrecisionPositions" []
  | PendingWinnings a => KVec "PendingWinnings" [AAddr a]
  | UserStats a => KVec "UserStats" [AAddr a] | Paused => KVec "Paused" []
  | BetWindowLedgers => KVec "BetWindowLedgers" []
  | RunWindowLedgers => KVec "RunWindowLedgers" []
  | CloseBufferLedgers => KVec "CloseBufferLedgers" [] | LastRoundId => KVec "LastRoundId" []
  | Position n a => KVec "Position" [AU64 n; AAddr a]
  | PrecisionPosition n a => KVec "PrecisionPosition" [AU64 n; AAddr a]
  | PrecisionCommitment n a => KVec "PrecisionCommitment" [AU64 n; AAddr a]
  | RoundParticipants n => KVec "RoundParticipants" [AU64 n] | MaxStake => KVec "MaxStake" []
  | MaxUserRoundExposure => KVec "MaxUserRoundExposure" []
  | MaxPendingWinnings => KVec "MaxPendingWinnings" []
  | CancelledRound n => KVec "CancelledRound" [AU64 n]
  | ConsumedOracleNonce n n' => KVec "ConsumedOracleNonce" [AU64 n; AU64 n']
  | MinParticipants => KVec "MinParticipants" []
  | OracleHeartbeat => KVec "OracleHeartbeat" []
  | OracleStaleThreshold => KVec "OracleStaleThreshold" []
  | MaxPrecisionParticipants => KVec "MaxPrecisionParticipants" []
  | OracleMaxDeviationBps => KVec "OracleMaxDeviationBps" []
  | OracleDeviationOverrideArmed => KVec "OracleDeviationOverrideArmed" []
  | OracleMinConfidenceBps => KVec "OracleMinConfidenceBps" []
  | OracleStrictMode => KVec "OracleStrictMode" []
  | ArchivedRound n => KVec "ArchivedRound" [AU64 n]
  | RecentArchivedRoundIds => KVec "RecentArchivedRoundIds" []
  | UserRoundOutcome n a => KVec "UserRoundOutcome" [AU64 n; AAddr a]
  | MigratedToV3 => KVec "MigratedToV3" []
  | PendingConfigChange kind => KVec "PendingConfigChange" [AU32 (ConfigChangeKind_u32 kind)]
  | ProtocolFeeBps => KVec "ProtocolFeeBps" []
  | ProtocolFeeTreasury => KVec "ProtocolFeeTreasury" []
  | LedgerMintCounter n => KVec "LedgerMintCounter" [AU32 n]
  | MintLimitConfig => KVec "MintLimitConfig" []
  | OracleRotationProposal => KVec "OracleRotationProposal" []
  | ArchiveRetention => KVec "ArchiveRetention" [] | RoundTemplate => KVec "RoundTemplate" []
  | Ext k => Ext.key_of_ext k
  end.
End Unsplit.

(** ** Every key the code writes *)

(** The key types with one key each, the two tuple structs and the symbols. *)
Inductive StorageKey :=
  | OfCore (k : Core.DataKeyCore)
  | OfScoped (k : Scoped.DataKeyScoped)
  | TwapSamplesKey_Samples
  | DeviationConfigKey_Config
  | AttestationConfigKey_Config
  | HbGateKey_Config
  | PendingWinningsExpiryKey
  | PendingWinningsUpdatedAtKey (a : Address)
  | OfSymbol (s : string).

Definition key_of (k : StorageKey) : Key :=
  match k with
  | OfCore k => Core.key_of_core k
  | OfScoped k => Scoped.key_of_scoped k
  | TwapSamplesKey_Samples => KVec "Samples" []
  | DeviationConfigKey_Config | AttestationConfigKey_Config | HbGateKey_Config => KVec "Config" []
  | PendingWinningsExpiryKey => KTup [AVoid]
  | PendingWinningsUpdatedAtKey a => KTup [AAddr a]
  | OfSymbol s => KSym s
  end.

(** Where the split keys hold what a key of the old enumeration named. *)
Definition migrate_key (k : Unsplit.DataKey) : StorageKey :=
  match k with
  | Unsplit.Balance a => OfScoped (Scoped.Balance a)
  | Unsplit.Admin => OfCore Core.Admin
  | Unsplit.Oracle => OfCore Core.Oracle
  | Unsplit.SchemaVersion => OfCore Core.SchemaVersion
  | Unsplit.ActiveRound => OfCore Core.ActiveRound
  | Unsplit.Positions => OfCore Core.Positions
  | Unsplit.UpDownPositions => OfCore Core.UpDownPositions
  | Unsplit.PrecisionPositions => OfCore Core.PrecisionPositions
  | Unsplit.PendingWinnings a => OfScoped (Scoped.PendingWinnings a)
  | Unsplit.UserStats a => OfScoped (Scoped.UserStats a)
  | Unsplit.Paused => OfCore Core.Paused
  | Unsplit.BetWindowLedgers => OfCore Core.BetWindowLedgers
  | Unsplit.RunWindowLedgers => OfCore Core.RunWindowLedgers
  | Unsplit.CloseBufferLedgers => OfCore Core.CloseBufferLedgers
  | Unsplit.LastRoundId => OfCore Core.LastRoundId
  | Unsplit.Position n a => OfScoped (Scoped.Position n a)
  | Unsplit.PrecisionPosition n a => OfScoped (Scoped.PrecisionPosition n a)
  | Unsplit.PrecisionCommitment n a => OfScoped (Scoped.PrecisionCommitment n a)
  | Unsplit.RoundParticipants n => OfScoped (Scoped.RoundParticipants n)
  | Unsplit.MaxStake => OfCore Core.MaxStake
  | Unsplit.MaxUserRoundExposure => OfCore Core.MaxUserRoundExposure
  | Unsplit.MaxPendingWinnings => OfCore Core.MaxPendingWinnings
  | Unsplit.CancelledRound n => OfScoped (Scoped.CancelledRound n)
  | Unsplit.ConsumedOracleNonce n m => OfScoped (Scoped.ConsumedOracleNonce n m)
  | Unsplit.MinParticipants => OfCore Core.MinParticipants
  | Unsplit.OracleHeartbeat => OfCore Core.OracleHeartbeat
  | Unsplit.OracleStaleThreshold => OfCore Core.OracleStaleThreshold
  | Unsplit.MaxPrecisionParticipants => OfCore Core.MaxPrecisionParticipants
  | Unsplit.OracleMaxDeviationBps => OfCore Core.OracleMaxDeviationBps
  | Unsplit.OracleDeviationOverrideArmed => OfCore Core.OracleDeviationOverrideArmed
  | Unsplit.OracleMinConfidenceBps => OfCore Core.OracleMinConfidenceBps
  | Unsplit.OracleStrictMode => OfCore Core.OracleStrictMode
  | Unsplit.ArchivedRound n => OfScoped (Scoped.ArchivedRound n)
  | Unsplit.RecentArchivedRoundIds => OfCore Core.RecentArchivedRoundIds
  | Unsplit.UserRoundOutcome n a => OfScoped (Scoped.UserRoundOutcome n a)
  | Unsplit.MigratedToV3 => OfCore Core.MigratedToV3
  | Unsplit.PendingConfigChange kind => OfScoped (Scoped.PendingConfigChange kind)
  | Unsplit.ProtocolFeeBps => OfCore Core.ProtocolFeeBps
  | Unsplit.ProtocolFeeTreasury => OfCore Core.ProtocolFeeTreasury
  | Unsplit.LedgerMintCounter n => OfScoped (Scoped.LedgerMintCounter n)
  | Unsplit.MintLimitConfig => OfCore Core.MintLimitConfig
  | Unsplit.OracleRotationProposal => OfCore Core.OracleRotationProposal
  | Unsplit.ArchiveRetention => OfCore Core.ArchiveRetention
  | Unsplit.RoundTemplate => OfCore Core.RoundTemplate
  | Unsplit.Ext k => OfCore (Core.Ext k)
  end.

(** ** Reading a slot back *)

Definition all_kinds : list ConfigChangeKind :=
  [KWindows; KMaxStake; KMaxUserRoundExposure; KMaxPendingWinnings; KOracleStaleThreshold;
   KOracleMaxDeviationBps; KProtocolFeeBps; KMinParticipants; KMaxPrecisionParticipants; KMintLimit;
   KArchiveRetention; KCloseBufferLedgers; KOracleTimestampSkew; KEpochMintBudget;
   KPendingWinningsExpiry; KPrecisionPayoutPolicy; KMinBet; KDisputeLedgers; KFeeModel; KEarlyCashoutBps].

Definition kind_of_u32 (n : Z) : option ConfigChangeKind :=
  list_find (λ k, ConfigChangeKind_u32 k = n) all_kinds ≫= λ p, Some p.2.

Lemma kind_of_u32_of k : kind_of_u32 (ConfigChangeKind_u32 k) = Some k.
Proof. by destruct k. Qed.

(** The units of an enumeration, found by the slot they name. *)
Definition unit_named {A} (f : A -> Key) (units : list A) (k : Key) : option A :=
  list_find (λ x, f x = k) units ≫= λ p, Some p.2.

Definition core_units : list Core.DataKeyCore :=
  [Core.Admin; Core.Oracle; Core.SchemaVersion; Core.ActiveRound; Core.Positions; Core.UpDownPositions;
   Core.PrecisionPositions; Core.Paused; Core.BetWindowLedgers; Core.RunWindowLedgers;
   Core.CloseBufferLedgers; Core.LastRoundId; Core.MaxStake; Core.MaxUserRoundExposure;
   Core.MaxPendingWinnings; Core.MinParticipants; Core.OracleHeartbeat; Core.OracleStaleThreshold;
   Core.MaxPrecisionParticipants; Core.OracleMaxDeviationBps; Core.OracleDeviationOverrideArmed;
   Core.OracleMinConfidenceBps; Core.OracleStrictMode; Core.RecentArchivedRoundIds; Core.MigratedToV3;
   Core.ProtocolFeeBps; Core.ProtocolFeeTreasury; Core.MintLimitConfig; Core.OracleRotationProposal;
   Core.ArchiveRetention; Core.RoundTemplate; Core.OracleQuorum; Core.NextSchemaVersion; Core.MinBet;
   Core.EpochMintBudget; Core.EarlyCashoutBps; Core.FeeModel; Core.DisputeLedgers;
   Core.PrecisionPayoutPolicy; Core.AccessControlEnabled; Core.GovApprover; Core.GovProposalTtlLedgers;
   Core.NextGovProposalId].

Definition ext_units : list Ext.DataKeyExt :=
  [Ext.LeaderboardWins; Ext.LeaderboardStreak; Ext.SeasonId; Ext.SeasonLeaderboardWins;
   Ext.SeasonLeaderboardStreak; Ext.ConstitutionMetadata; Ext.NextAmendmentId].

(** The scoped keys by the name of the variant and its payload. *)
Definition scoped_named (name : string) (args : list KeyArg) : option Scoped.DataKeyScoped :=
  match args with
  | [AAddr a] =>
      list_find (λ p, p.1 = name)
        [("Balance", Scoped.Balance a); ("PendingWinnings", Scoped.PendingWinnings a);
         ("UserStats", Scoped.UserStats a); ("UserArchivedRoundIds", Scoped.UserArchivedRoundIds a);
         ("Allowlisted", Scoped.Allowlisted a); ("Denylisted", Scoped.Denylisted a)] ≫= λ p, Some p.2.2
  | [AU64 n; AAddr a] =>
      list_find (λ p, p.1 = name)
        [("Position", Scoped.Position n a); ("PrecisionPosition", Scoped.PrecisionPosition n a);
         ("PrecisionCommitment", Scoped.PrecisionCommitment n a);
         ("UserRoundOutcome", Scoped.UserRoundOutcome n a)] ≫= λ p, Some p.2.2
  | [AU64 n; AU64 m] => Some (Scoped.ConsumedOracleNonce n m)
  | [AU32 n; AAddr a] => Some (Scoped.SeasonUserStats n a)
  | [AU64 n] =>
      list_find (λ p, p.1 = name)
        [("RoundParticipants", Scoped.RoundParticipants n); ("CancelledRound", Scoped.CancelledRound n);
         ("ArchivedRound", Scoped.ArchivedRound n); ("GovProposal", Scoped.GovProposal n)] ≫= λ p, Some p.2.2
  | [AU32 n] =>
      if bool_decide (name = "PendingConfigChange") then Scoped.PendingConfigChange <$> kind_of_u32 n else
      list_find (λ p, p.1 = name)
        [("LedgerMintCounter", Scoped.LedgerMintCounter n); ("SeasonArchive", Scoped.SeasonArchive n);
         ("RoundStartLedger", Scoped.RoundStartLedger n)] ≫= λ p, Some p.2.2
  | _ => None
  end.

Definition ext_named (name : string) (args : list KeyArg) : option Ext.DataKeyExt :=
  match args with
  | [AU32 n; AAddr a] => Some (Ext.SeasonUserStats n a)
  | [AU32 n] => Some (Ext.SeasonArchive n)
  | [AU64 n] => Some (Ext.Amendment n)
  | _ => unit_named Ext.key_of_ext ext_units (KExt name args)
  end.

(** The key of a slot; the shared [Config] slot is read as the heartbeat's. *)
Definition parse_key (k : Key) : option StorageKey :=
  match k with
  | KVec name [] =>
      if bool_decide (name = "Samples") then Some TwapSamplesKey_Samples else
      if bool_decide (name = "Config") then Some HbGateKey_Config else
      OfCore <$> unit_named Core.key_of_core core_units k
  | KVec name args => OfScoped <$> scoped_named name args
  | KExt name args => OfCore ∘ Core.Ext <$> ext_named name args
  | KTup [AVoid] => Some PendingWinningsExpiryKey
  | KTup [AAddr a] => Some (PendingWinningsUpdatedAtKey a)
  | KTup _ => None
  | KSym s => Some (OfSymbol s)
  end.

(** The three keys of settings that serialise alike. *)
Definition shares_config (k : StorageKey) : Prop :=
  k = DeviationConfigKey_Config ∨ k = AttestationConfigKey_Config ∨ k = HbGateKey_Config.
#[export] Instance shares_config_dec k : Decision (shares_config k).
Proof. destruct k; (left; unfold shares_config; tauto) || (right; unfold shares_config; naive_solver). Defined.

Lemma parse_key_of k : ¬ shares_config k -> parse_key (key_of k) = Some k.
Proof.
  unfold shares_config. intros Hk. destruct k as [k|k| | | | | | |]; try done; try tauto.
  - destruct k; try reflexivity. by destruct k.
  - destruct k as [| | | | | | | | | |kind| | | | | | | | |]; try reflexivity. by destruct kind.
Qed.

Lemma key_of_config k : key_of k = KVec "Config" [] -> shares_config k.
Proof.
  intros H. destruct (decide (shares_config k)) as [|Hn]; [done|].
  apply parse_key_of in Hn. rewrite H in Hn. simpl in Hn. injection Hn as <-. unfold shares_config. tauto.
Qed.

(** C36: two keys of the contract name the same storage slot only when they are
    the same key, or both are among the three [Config] keys of the heartbeat gate,
    the deviation reference and the attestation; and a slot written under the key
    enumeration the contract used before the keys were split is the slot the
    split keys name. *)
Theorem storage_keys_distinct :
  (∀ k1 k2, key_of k1 = key_of k2 <-> k1 = k2 ∨ (shares_config k1 ∧ shares_config k2)) ∧
  (∀ k, key_of (migrate_key k) = Unsplit.key_of_legacy k).
Proof.
  split.
  - intros k1 k2. split.
    + intros E. destruct (decide (shares_config k1)) as [H1|H1].
      * right. split; [done|]. apply key_of_config. rewrite <-E. by destruct H1 as [-> |[-> | ->]].
      * left. destruct (decide (shares_config k2)) as [H2|H2].
        { contradict H1. apply key_of_config. rewrite E. by destruct H2 as [-> |[-> | ->]]. }
        apply (inj Some). rewrite <-(parse_key_of k1), <-(parse_key_of k2) by done. by rewrite E.
    + intros [->|[[-> |[-> | ->]] [-> |[-> | ->]]]]; done.
  - by intros [].
Qed.

(** ** The slots of the development *)

(** The slot named in the rest of the development is that of the key the code uses. *)
Lemma core_slots :
  key_of (OfCore Core.Admin) = K_Admin ∧ key_of (OfCore Core.Oracle) = K_Oracle ∧
  key_of (OfCore Core.ActiveRound) = K_ActiveRound ∧ key_of (OfCore Core.LastRoundId) = K_LastRoundId ∧
  key_of (OfCore Core.ProtocolFeeBps) = K_ProtocolFeeBps ∧
  key_of (OfCore Core.ProtocolFeeTreasury) = K_ProtocolFeeTreasury ∧
  key_of (OfCore Core.OracleRotationProposal) = K_OracleRotationProposal ∧
  (∀ a, key_of (OfScoped (Scoped.Balance a)) = K_Balance a) ∧
  (∀ a, key_of (OfScoped (Scoped.PendingWinnings a)) = K_PendingWinnings a) ∧
  (∀ r a, key_of (OfScoped (Scoped.Position r a)) = K_Position r a) ∧
  (∀ r a, key_of (OfScoped (Scoped.PrecisionPosition r a)) = K_PrecisionPosition r a) ∧
  (∀ r a, key_of (OfScoped (Scoped.PrecisionCommitment r a)) = K_PrecisionCommitment r a) ∧
  (∀ r, key_of (OfScoped (Scoped.RoundParticipants r)) = K_RoundParticipants r) ∧
  (∀ k, key_of (OfScoped (Scoped.PendingConfigChange k)) = K_PendingConfigChange k) ∧
  key_of DeviationConfigKey_Config = K_DeviationConfig ∧
  key_of AttestationConfigKey_Config = K_AttestationConfig ∧ key_of HbGateKey_Config = K_HbGate.
Proof. done. Qed.
