(* ===== verification/Logic.v ===== *)
(** * A program logic for host programs

    [wp m Q c s]: if [m] returns normally from [s] then [Q] holds of its result
    and final state.  [frame P m]: whatever [m] returns, it leaves every
    persistent entry whose key satisfies [P] as it was.  [safe m c s]: [m] does
    not trap.  Each host operation has its rules here; a component proves one
    specification per operation and its clients use that. *)

From S2P Require Export Host.

(** ** Typed reads *)

Lemma opt_dec_Ok {A} (cd : Codec A) v o : opt_dec cd v = Ok o <-> v = enc cd <$> o.
Proof.
  unfold opt_dec. destruct v as [v|]; [|destruct o; naive_solver].
  destruct (dec cd v) as [x|] eqn:Hd.
  - apply enc_dec in Hd as ->. split; [by intros [= <-]|].
    destruct o as [y|]; [|done]. intros [= Hxy]. do 2 f_equal.
    assert (Some x = Some y) as [=]; [|done].
    by rewrite <-(dec_enc _ cd x), <-(dec_enc _ cd y), Hxy.
  - split; [done|]. destruct o as [y|]; [|done]. intros [= ->].
    by rewrite dec_enc in Hd.
Qed.

Lemma opt_dec_enc {A} (cd : Codec A) o : opt_dec cd (enc cd <$> o) = Ok o.
Proof. by apply opt_dec_Ok. Qed.

Lemma enc_inj {A} (cd : Codec A) x y : enc cd x = enc cd y -> x = y.
Proof.
  intros H. assert (Some x = Some y) as [=]; [|done].
  by rewrite <-(dec_enc _ cd x), <-(dec_enc _ cd y), H.
Qed.

(** A slot holds at most one value of a type. *)
Lemma stored_det {A} (cd : Codec A) (v : option Val) o1 o2 :
  v = enc cd <$> o1 -> v = enc cd <$> o2 -> o1 = o2.
Proof.
  intros -> H. destruct o1, o2; try done. injection H as H. by rewrite (enc_inj cd _ _ H).
Qed.

(** ** Partial correctness *)

Definition wp {A} (m : M A) (Q : A -> State -> Prop) (c : Ctx) (s : State) : Prop :=
  ∀ a s', m c s = (Ok a, s') -> Q a s'.

Lemma wp_throw {A} e (Q : A -> State -> Prop) c s : wp (throw e) Q c s.
Proof. by intros ??. Qed.

Lemma wp_trap {A} (Q : A -> State -> Prop) c s : wp trap Q c s.
Proof. by intros ??. Qed.

Lemma wp_bind {A B} (m : M A) (f : A -> M B) Q c s :
  wp m (λ a s', wp (f a) Q c s') c s -> wp (m ≫= f) Q c s.
Proof.
  unfold wp, mbind, M_bind. intros H b s'.
  destruct (m c s) as [[a|e|] s1] eqn:E; naive_solver.
Qed.

Lemma wp_ret {A} (a : A) (Q : A -> State -> Prop) c s : Q a s -> wp (mret a) Q c s.
Proof. intros H b s' [= <- <-]. done. Qed.

Section Wp.
Context {A B : Type}.
Implicit Types (c : Ctx) (s : State).

Lemma wp_mono (m : M A) (Q Q' : A -> State -> Prop) c s :
  wp m Q c s -> (∀ a s', Q a s' -> Q' a s') -> wp m Q' c s.
Proof. unfold wp. eauto. Qed.

Lemma wp_and (m : M A) (Q Q' : A -> State -> Prop) c s :
  wp m Q c s -> wp m Q' c s -> wp m (λ a s', Q a s' ∧ Q' a s') c s.
Proof. unfold wp. eauto. Qed.

Lemma wp_lift (o : outcome A) (Q : A -> State -> Prop) c s :
  (∀ a, o = Ok a -> Q a s) -> wp (lift o) Q c s.
Proof. intros H a s' [= -> <-]. auto. Qed.

Lemma wp_asks (f : Ctx -> A) (Q : A -> State -> Prop) c s :
  Q (f c) s -> wp (asks f) Q c s.
Proof. intros H a s' [= <- <-]. done. Qed.

Lemma wp_reject_if b e (Q : () -> State -> Prop) c s :
  (b = false -> Q () s) -> wp (reject_if b e) Q c s.
Proof. intros H. destruct b; [apply wp_throw|]. intros [] s' [= <-]. auto. Qed.

Lemma wp_ok_or (o : option A) e (Q : A -> State -> Prop) c s :
  (∀ a, o = Some a -> Q a s) -> wp (ok_or o e) Q c s.
Proof. intros H. destruct o; [|apply wp_throw]. intros a' s' [= <- <-]. auto. Qed.

Lemma wp_or_trap (o : option A) (Q : A -> State -> Prop) c s :
  (∀ a, o = Some a -> Q a s) -> wp (or_trap o) Q c s.
Proof. intros H. destruct o; [|apply wp_trap]. intros a' s' [= <- <-]. auto. Qed.

Lemma wp_inspect_err (m : M A) f (Q : A -> State -> Prop) c s :
  wp m Q c s -> wp (inspect_err m f) Q c s.
Proof.
  unfold wp, inspect_err. intros H a s'.
  destruct (m c s) as [[x|e|] s1]; [|destruct (f e c s1) as [[]]|]; naive_solver.
Qed.

Lemma wp_pget (cd : Codec A) k (Q : option A -> State -> Prop) c s :
  (∀ o, persistent s !! k = enc cd <$> o -> Q o s) -> wp (pget cd k) Q c s.
Proof. intros H o s' [= Ho <-]. apply H. by apply opt_dec_Ok. Qed.

Lemma wp_iget (cd : Codec A) k (Q : option A -> State -> Prop) c s :
  (∀ o, instance s !! k = enc cd <$> o -> Q o s) -> wp (iget cd k) Q c s.
Proof. intros H o s' [= Ho <-]. apply H. by apply opt_dec_Ok. Qed.

Lemma wp_tget (cd : Codec A) k (Q : option A -> State -> Prop) c s :
  (∀ o, temporary s !! k = enc cd <$> o -> Q o s) -> wp (tget cd k) Q c s.
Proof. intros H o s' [= Ho <-]. apply H. by apply opt_dec_Ok. Qed.

Lemma wp_pget_or (cd : Codec A) k d (Q : A -> State -> Prop) c s :
  (∀ o, persistent s !! k = enc cd <$> o -> Q (default d o) s) -> wp (pget_or cd k d) Q c s.
Proof. intros H. apply wp_bind, wp_pget. intros o Ho. apply wp_ret. auto. Qed.

Lemma wp_pget_ok (cd : Codec A) k e (Q : A -> State -> Prop) c s :
  (∀ x, persistent s !! k = Some (enc cd x) -> Q x s) -> wp (pget_ok cd k e) Q c s.
Proof. intros H. apply wp_bind, wp_pget. intros [x|] Ho; [apply wp_ret; auto|apply wp_throw]. Qed.

Lemma wp_iget_or (cd : Codec A) k d (Q : A -> State -> Prop) c s :
  (∀ o, instance s !! k = enc cd <$> o -> Q (default d o) s) -> wp (iget_or cd k d) Q c s.
Proof. intros H. apply wp_bind, wp_iget. intros o Ho. apply wp_ret. auto. Qed.

Lemma wp_tget_or (cd : Codec A) k d (Q : A -> State -> Prop) c s :
  (∀ o, temporary s !! k = enc cd <$> o -> Q (default d o) s) -> wp (tget_or cd k d) Q c s.
Proof. intros H. apply wp_bind, wp_tget. intros o Ho. apply wp_ret. auto. Qed.

Lemma wp_phas k (Q : bool -> State -> Prop) c s :
  (∀ b, bool_decide (is_Some (persistent s !! k)) = b -> Q b s) -> wp (phas k) Q c s.
Proof. intros H b s' [= <- <-]. auto. Qed.

Lemma wp_pset (cd : Codec A) k x (Q : () -> State -> Prop) c s :
  (∀ s', persistent s' = <[k:=enc cd x]> (persistent s) -> Q () s') ->
  wp (pset cd k x) Q c s.
Proof. intros H [] s' [= <-]. by apply H. Qed.

Lemma wp_premove k (Q : () -> State -> Prop) c s :
  (∀ s', persistent s' = delete k (persistent s) -> Q () s') ->
  wp (premove k) Q c s.
Proof. intros H [] s' [= <-]. by apply H. Qed.

Lemma wp_pextend_ttl k t e (Q : () -> State -> Prop) c s :
  (∀ s', persistent s' = persistent s -> Q () s') -> wp (pextend_ttl k t e) Q c s.
Proof.
  intros H [] s'. unfold pextend_ttl. destruct (persistent s !! k); [|done].
  intros [= <-]. by apply H.
Qed.

Lemma wp_iset (cd : Codec A) k x (Q : () -> State -> Prop) c s :
  (∀ s', persistent s' = persistent s -> Q () s') -> wp (iset cd k x) Q c s.
Proof. intros H [] s' [= <-]. by apply H. Qed.

Lemma wp_iremove k (Q : () -> State -> Prop) c s :
  (∀ s', persistent s' = persistent s -> Q () s') -> wp (iremove k) Q c s.
Proof. intros H [] s' [= <-]. by apply H. Qed.

Lemma wp_tset (cd : Codec A) k x (Q : () -> State -> Prop) c s :
  (∀ s', persistent s' = persistent s -> Q () s') -> wp (tset cd k x) Q c s.
Proof. intros H [] s' [= <-]. by apply H. Qed.

Lemma wp_emit t1 t2 vs (Q : () -> State -> Prop) c s :
  (∀ s', persistent s' = persistent s -> Q () s') -> wp (emit t1 t2 vs) Q c s.
Proof. intros H [] s' [= <-]. by apply H. Qed.

Lemma wp_require_auth a (Q : () -> State -> Prop) c s :
  (authorised c a = true -> Q () s) -> wp (require_auth a) Q c s.
Proof. intros H []. unfold require_auth. destruct (authorised c a); naive_solver. Qed.

End Wp.

Section Wp_loops.
Context {A B : Type}.
Implicit Types (c : Ctx) (s : State).

(** Loops, with an invariant over the elements already visited. *)
Lemma wp_mfor (I : list A -> State -> Prop) (l : list A) body (Q : () -> State -> Prop) c s :
  I [] s ->
  (∀ pre x post s1, l = pre ++ x :: post -> I pre s1 ->
     wp (body x) (λ _ s2, I (pre ++ [x]) s2) c s1) ->
  (∀ s', I l s' -> Q () s') ->
  wp (mfor l body) Q c s.
Proof.
  intros H0 Hstep HQ.
  assert (∀ post pre s1, l = pre ++ post -> I pre s1 -> wp (mfor post body) Q c s1) as Hgen;
    [|by apply (Hgen l [])].
  induction post as [|x post IH]; intros pre s1 Hl HI; simpl.
  - apply wp_ret, HQ. by rewrite Hl, app_nil_r.
  - apply wp_bind. eapply wp_mono; [by eapply Hstep|]; simpl.
    intros ? s2 ?. apply (IH (pre ++ [x])); [by rewrite <-app_assoc|done].
Qed.

Lemma wp_mfold (I : list A -> B -> State -> Prop) (l : list A) acc body
    (Q : B -> State -> Prop) c s :
  I [] acc s ->
  (∀ pre x post acc1 s1, l = pre ++ x :: post -> I pre acc1 s1 ->
     wp (body acc1 x) (λ acc2 s2, I (pre ++ [x]) acc2 s2) c s1) ->
  (∀ acc' s', I l acc' s' -> Q acc' s') ->
  wp (mfold l acc body) Q c s.
Proof.
  intros H0 Hstep HQ.
  assert (∀ post pre acc1 s1, l = pre ++ post -> I pre acc1 s1 ->
          wp (mfold post acc1 body) Q c s1) as Hgen; [|by apply (Hgen l [])].
  induction post as [|x post IH]; intros pre acc1 s1 Hl HI; simpl.
  - apply wp_ret, HQ. by rewrite Hl, app_nil_r.
  - apply wp_bind. eapply wp_mono; [by eapply Hstep|]; simpl.
    intros acc2 s2 ?. apply (IH (pre ++ [x])); [by rewrite <-app_assoc|done].
Qed.
End Wp_loops.

(** The host boundary: a successful invocation is a successful run. *)
Lemma invoke_Ok {A} (m : M A) c s a s' :
  invoke m c s = (Ok a, s') <-> m c s = (Ok a, s').
Proof. unfold invoke. destruct (m c s) as [[]]; naive_solver. Qed.

Lemma invoke_failed {A} (m : M A) c s o s' :
  invoke m c s = (o, s') -> (∀ a, o ≠ Ok a) -> s' = s.
Proof. unfold invoke. destruct (m c s) as [[]]; naive_solver. Qed.

(** ** Frames *)

Definition agree (P : Key -> Prop) (s s' : State) : Prop :=
  ∀ k, P k -> persistent s' !! k = persistent s !! k.

#[export] Instance agree_preorder P : PreOrder (agree P).
Proof.
  split; [by intros s k|]. intros s1 s2 s3 H12 H23 k Hk. rewrite H23; auto.
Qed.

Definition frame {A} (P : Key -> Prop) (m : M A) : Prop :=
  ∀ c s, agree P s (m c s).2.

Lemma frame_bind {A B} P (m : M A) (f : A -> M B) :
  frame P m -> (∀ a, frame P (f a)) -> frame P (m ≫= f).
Proof.
  intros Hm Hf c s. specialize (Hm c s). unfold mbind, M_bind.
  destruct (m c s) as [[a|e|] s1]; simpl in *; [|done..].
  etrans; [exact Hm|apply Hf].
Qed.
Lemma frame_ret {A} P (a : A) : frame P (mret a).
Proof. done. Qed.
Lemma frame_throw {A} P e : frame P (throw (A:=A) e).
Proof. done. Qed.
Lemma frame_trap {A} P : frame P (trap (A:=A)).
Proof. done. Qed.

Section Frame.
Context {A B : Type} (P : Key -> Prop).

Lemma wp_frame (m : M A) (Q : A -> State -> Prop) c s :
  frame P m -> (∀ a s', agree P s s' -> Q a s') -> wp m Q c s.
Proof. intros Hf HQ a s' E. apply HQ. specialize (Hf c s). by rewrite E in Hf. Qed.

Lemma frame_lift (o : outcome A) : frame P (lift o).
Proof. done. Qed.
Lemma frame_asks (f : Ctx -> A) : frame P (asks f).
Proof. done. Qed.
Lemma frame_reject_if b e : frame P (reject_if b e).
Proof. by destruct b. Qed.
Lemma frame_ok_or (o : option A) e : frame P (ok_or o e).
Proof. by destruct o. Qed.
Lemma frame_or_trap (o : option A) : frame P (or_trap o).
Proof. by destruct o. Qed.
Lemma frame_inspect_err (m : M A) f :
  frame P m -> (∀ e, frame P (f e)) -> frame P (inspect_err m f).
Proof.
  intros Hm Hf c s. specialize (Hm c s). unfold inspect_err.
  destruct (m c s) as [[a|e|] s1]; simpl in *; [done| |done].
  specialize (Hf e c s1). destruct (f e c s1) as [[] s2]; simpl in *; by etrans.
Qed.
Lemma frame_pget (cd : Codec A) k : frame P (pget cd k).
Proof. done. Qed.
Lemma frame_iget (cd : Codec A) k : frame P (iget cd k).
Proof. done. Qed.
Lemma frame_tget (cd : Codec A) k : frame P (tget cd k).
Proof. done. Qed.
Lemma frame_pget_or (cd : Codec A) k d : frame P (pget_or cd k d).
Proof. apply frame_bind; [apply frame_pget|]. intros. apply frame_ret. Qed.
Lemma frame_pget_ok (cd : Codec A) k e : frame P (pget_ok cd k e).
Proof. apply frame_bind; [apply frame_pget|]. intros []; [apply frame_ret|apply frame_throw]. Qed.
Lemma frame_iget_or (cd : Codec A) k d : frame P (iget_or cd k d).
Proof. apply frame_bind; [apply frame_iget|]. intros. apply frame_ret. Qed.
Lemma frame_tget_or (cd : Codec A) k d : frame P (tget_or cd k d).
Proof. apply frame_bind; [apply frame_tget|]. intros. apply frame_ret. Qed.
Lemma frame_phas k : frame P (phas k).
Proof. done. Qed.
Lemma frame_pset (cd : Codec A) k x : ¬ P k -> frame P (pset cd k x).
Proof. intros Hk c s k' Hk'. simpl. apply lookup_insert_ne. congruence. Qed.
Lemma frame_premove k : ¬ P k -> frame P (premove k).
Proof. intros Hk c s k' Hk'. simpl. apply lookup_delete_ne. congruence. Qed.
Lemma frame_pextend_ttl k t e : frame P (pextend_ttl k t e).
Proof. intros c s k' Hk'. unfold pextend_ttl. by destruct (persistent s !! k). Qed.
Lemma frame_iset (cd : Codec A) k x : frame P (iset cd k x).
Proof. done. Qed.
Lemma frame_iremove k : frame P (iremove k).
Proof. done. Qed.
Lemma frame_tset (cd : Codec A) k x : frame P (tset cd k x).
Proof. done. Qed.
Lemma frame_emit t1 t2 vs : frame P (emit t1 t2 vs).
Proof. done. Qed.
Lemma frame_require_auth a : frame P (require_auth a).
Proof. intros c s. unfold require_auth. by destruct (authorised c a). Qed.
Lemma frame_mfor (l : list A) body : (∀ x, frame P (body x)) -> frame P (mfor l body).
Proof. intros Hb. induction l; simpl; [done|]. by apply frame_bind. Qed.
Lemma frame_mfold (l : list A) (acc : B) body :
  (∀ acc x, frame P (body acc x)) -> frame P (mfold l acc body).
Proof. intros Hb. revert acc. induction l; intros; simpl; [done|]. by apply frame_bind. Qed.
End Frame.

(** The frame hint database: a component adds one lemma per operation. *)
Create HintDb frame discriminated.
#[export] Hint Resolve frame_bind frame_ret frame_throw frame_trap frame_lift
  frame_asks frame_reject_if frame_ok_or frame_or_trap frame_inspect_err
  frame_pget frame_iget frame_tget frame_pget_or frame_pget_ok
  frame_iget_or frame_tget_or frame_phas frame_pset frame_premove
  frame_pextend_ttl frame_iset frame_iremove frame_tset frame_emit
  frame_require_auth frame_mfor frame_mfold : frame.

(** Solve [frame P m] by walking [m]; [side] proves that a key written is
    outside [P]. *)
Ltac frame_with side :=
  repeat first
    [ progress intros
    | match goal with
      | |- frame _ (match ?x with _ => _ end) => destruct x
      | |- frame _ (if ?x then _ else _) => destruct x
      | |- frame _ _ => solve [auto with frame nocore]
      | |- frame _ (_ ≫= _) => apply frame_bind
      | |- frame _ (inspect_err _ _) => apply frame_inspect_err
      | |- frame _ (mfor _ _) => apply frame_mfor
      | |- frame _ (mfold _ _ _) => apply frame_mfold
      | |- frame _ (pset _ _ _) => apply frame_pset; side
      | |- frame _ (premove _) => apply frame_premove; side
      | |- frame _ _ => progress (auto 3 with frame)
      end ].

(** ** Stepping through a handler *)

Ltac wp_step :=
  match goal with
  | |- wp (_ ≫= _) _ _ _ => apply wp_bind
  | |- wp (mret _) _ _ _ => apply wp_ret
  | |- wp (throw _) _ _ _ => apply wp_throw
  | |- wp trap _ _ _ => apply wp_trap
  | |- wp (lift _) _ _ _ => apply wp_lift; intros
  | |- wp (asks _) _ _ _ => apply wp_asks
  | |- wp (reject_if _ _) _ _ _ => apply wp_reject_if; intros
  | |- wp (ok_or _ _) _ _ _ => apply wp_ok_or; intros
  | |- wp (or_trap _) _ _ _ => apply wp_or_trap; intros
  | |- wp (inspect_err _ _) _ _ _ => apply wp_inspect_err
  | |- wp (pget _ _) _ _ _ => apply wp_pget; intros
  | |- wp (iget _ _) _ _ _ => apply wp_iget; intros
  | |- wp (tget _ _) _ _ _ => apply wp_tget; intros
  | |- wp (pget_or _ _ _) _ _ _ => apply wp_pget_or; intros
  | |- wp (pget_ok _ _ _) _ _ _ => apply wp_pget_ok; intros
  | |- wp (iget_or _ _ _) _ _ _ => apply wp_iget_or; intros
  | |- wp (tget_or _ _ _) _ _ _ => apply wp_tget_or; intros
  | |- wp (phas _) _ _ _ => apply wp_phas; intros ? <-
  | |- wp (pset _ _ _) _ _ _ => apply wp_pset; intros
  | |- wp (premove _) _ _ _ => apply wp_premove; intros
  | |- wp (pextend_ttl _ _ _) _ _ _ => apply wp_pextend_ttl; intros
  | |- wp (iset _ _ _) _ _ _ => apply wp_iset; intros
  | |- wp (iremove _) _ _ _ => apply wp_iremove; intros
  | |- wp (tset _ _ _) _ _ _ => apply wp_tset; intros
  | |- wp (emit _ _ _) _ _ _ => apply wp_emit; intros
  | |- wp (require_auth _) _ _ _ => apply wp_require_auth; intros
  end.

(** ** Pure outcomes *)

Lemma obind_Ok {A B} (o : outcome A) (f : A -> outcome B) b :
  o ≫= f = Ok b <-> ∃ a, o = Ok a ∧ f a = Ok b.
Proof. destruct o; cbn; naive_solver. Qed.

Lemma some_or_Ok {A} (o : option A) e a : some_or o e = Ok a <-> o = Some a.
Proof. destruct o; cbn; naive_solver. Qed.

Lemma some_or_panic_Ok {A} (o : option A) a : some_or_panic o = Ok a <-> o = Some a.
Proof. destruct o; cbn; naive_solver. Qed.

Lemma i128_div_Ok a b q :
  i128_div a b = Ok q <-> b ≠ 0 ∧ q = Z.quot a b ∧ I128_MIN ≤ Z.quot a b ≤ I128_MAX.
Proof.
  unfold i128_div, i128_checked_div. rewrite some_or_panic_Ok.
  destruct (b =? 0) eqn:?; zbool; [naive_solver|].
  rewrite checked_Some, in_i128_spec. naive_solver.
Qed.

(** Invert [H : ... = Ok _] through the outcome monad. *)
Ltac ok_inv H :=
  repeat match type of H with
  | _ ≫= _ = Ok _ =>
      let a := fresh "r" in let Ha := fresh "E" in
      apply obind_Ok in H as (a & Ha & H); ok_inv Ha
  | some_or _ _ = Ok _ => apply some_or_Ok in H
  | some_or_panic _ = Ok _ => apply some_or_panic_Ok in H
  | Ok _ = Ok _ => injection H as H
  | Err _ = Ok _ => discriminate H
  | Panic = Ok _ => discriminate H
  | (let '(_, _) := ?p in _) = Ok _ => destruct p
  | (if ?b then _ else _) = Ok _ => destruct b eqn:?
  end.

Lemma ofold_inv {A B} (I : list A -> B -> Prop) (l : list A) acc body r :
  ofold l acc body = Ok r ->
  I [] acc ->
  (∀ pre x post b b', l = pre ++ x :: post -> I pre b -> body b x = Ok b' ->
     I (pre ++ [x]) b') ->
  I l r.
Proof.
  intros H H0 Hstep.
  assert (∀ post pre b, l = pre ++ post -> I pre b -> ofold post b body = Ok r -> I l r) as Hg;
    [|by apply (Hg l [] acc)].
  clear H H0. induction post as [|x post IH]; intros pre b Hl HI H; simpl in H.
  - injection H as <-. by rewrite Hl, app_nil_r.
  - apply obind_Ok in H as (b' & Hb & H).
    apply (IH (pre ++ [x]) b'); [by rewrite <-app_assoc|eauto|done].
Qed.

(** A loop that appends one computed element per iteration. *)
Lemma ofold_append {A B} (f : A -> outcome B) (l : list A) acc body r :
  (∀ acc x, body acc x = (y ← f x; Ok (acc ++ [y]))) ->
  ofold l acc body = Ok r <-> ∃ ys, r = acc ++ ys ∧ Forall2 (λ x y, f x = Ok y) l ys.
Proof.
  intros Hb. revert acc. induction l as [|x l IH]; intros acc; simpl.
  - split; [intros [= <-]; exists []; by rewrite app_nil_r|].
    intros (ys & -> & H). inversion H. by rewrite app_nil_r.
  - rewrite obind_Ok. setoid_rewrite Hb. setoid_rewrite obind_Ok. setoid_rewrite IH.
    split.
    + intros (a & (y & Hy & [= <-]) & ys & -> & Hall).
      exists (y :: ys). rewrite <-app_assoc. split; [done|by constructor].
    + intros (ys & -> & H). inversion H as [|? y ? ys' Hy H']; subst.
      eexists. split; [eauto|]. exists ys'. by rewrite <-app_assoc.
Qed.

(** [frame P (f ...)] by unfolding [f]; the keys it writes are covered by the
    hypotheses in scope. *)
Tactic Notation "frame_of" reference(f) :=
  intros; unfold f; frame_with ltac:(first [assumption | by auto | idtac]).

(** ** Total correctness

    [run m Q c s]: [Q] holds of what [m] does from [s], whatever it is. *)

Definition run {A} (m : M A) (Q : outcome A -> State -> Prop) (c : Ctx) (s : State) : Prop :=
  Q (m c s).1 (m c s).2.

Lemma run_mono {A} (m : M A) (Q Q' : outcome A -> State -> Prop) c s :
  run m Q c s -> (∀ o s', Q o s' -> Q' o s') -> run m Q' c s.
Proof. unfold run. auto. Qed.

Lemma run_eq {A} (m : M A) (Q : outcome A -> State -> Prop) c s :
  run m Q c s <-> ∃ o s', m c s = (o, s') ∧ Q o s'.
Proof. unfold run. destruct (m c s); naive_solver. Qed.

Lemma run_bind {A B} (m : M A) (f : A -> M B) (Q : outcome B -> State -> Prop) c s :
  run m (λ o s1, match o with
                 | Ok a => run (f a) Q c s1
                 | Err e => Q (Err e) s1
                 | Panic => Q Panic s1 end) c s ->
  run (m ≫= f) Q c s.
Proof. unfold run, mbind, M_bind. by destruct (m c s) as [[a|e|] s1]. Qed.

Lemma run_ret {A} (a : A) (Q : outcome A -> State -> Prop) c s : Q (Ok a) s -> run (mret a) Q c s.
Proof. done. Qed.
Lemma run_throw {A} e (Q : outcome A -> State -> Prop) c s : Q (Err e) s -> run (throw e) Q c s.
Proof. done. Qed.
Lemma run_asks {A} (f : Ctx -> A) (Q : outcome A -> State -> Prop) c s :
  Q (Ok (f c)) s -> run (asks f) Q c s.
Proof. done. Qed.
Lemma run_lift {A} (o : outcome A) (Q : outcome A -> State -> Prop) c s :
  Q o s -> run (lift o) Q c s.
Proof. done. Qed.
Lemma run_reject_if (b : bool) e (Q : outcome () -> State -> Prop) c s :
  (if b then Q (Err e) s else Q (Ok ()) s) -> run (reject_if b e) Q c s.
Proof. by destruct b. Qed.
Lemma run_ok_or {A} (o : option A) e (Q : outcome A -> State -> Prop) c s :
  (match o with Some a => Q (Ok a) s | None => Q (Err e) s end) -> run (ok_or o e) Q c s.
Proof. by destruct o. Qed.
Lemma run_pget {A} (cd : Codec A) k o (Q : outcome (option A) -> State -> Prop) c s :
  persistent s !! k = enc cd <$> o -> Q (Ok o) s -> run (pget cd k) Q c s.
Proof. intros Hk HQ. unfold run, pget. simpl. by rewrite Hk, opt_dec_enc. Qed.
Lemma run_pget_or {A} (cd : Codec A) k d o (Q : outcome A -> State -> Prop) c s :
  persistent s !! k = enc cd <$> o -> Q (Ok (default d o)) s -> run (pget_or cd k d) Q c s.
Proof. intros Hk HQ. apply run_bind. by eapply run_pget. Qed.
Lemma run_pget_ok {A} (cd : Codec A) k e o (Q : outcome A -> State -> Prop) c s :
  persistent s !! k = enc cd <$> o ->
  (match o with Some x => Q (Ok x) s | None => Q (Err e) s end) ->
  run (pget_ok cd k e) Q c s.
Proof. intros Hk HQ. apply run_bind. eapply run_pget; [done|]. by apply run_ok_or. Qed.
Lemma run_phas k (Q : outcome bool -> State -> Prop) c s :
  Q (Ok (bool_decide (is_Some (persistent s !! k)))) s -> run (phas k) Q c s.
Proof. done. Qed.
Lemma run_pset {A} (cd : Codec A) k x (Q : outcome () -> State -> Prop) c s :
  (∀ s', persistent s' = <[k:=enc cd x]> (persistent s) -> Q (Ok ()) s') ->
  run (pset cd k x) Q c s.
Proof. intros H. by apply H. Qed.
Lemma run_premove k (Q : outcome () -> State -> Prop) c s :
  (∀ s', persistent s' = delete k (persistent s) -> Q (Ok ()) s') ->
  run (premove k) Q c s.
Proof. intros H. by apply H. Qed.
Lemma run_emit t1 t2 vs (Q : outcome () -> State -> Prop) c s :
  (∀ s', persistent s' = persistent s -> Q (Ok ()) s') -> run (emit t1 t2 vs) Q c s.
Proof. intros H. by apply H. Qed.
Lemma run_require_auth a (Q : outcome () -> State -> Prop) c s :
  (if authorised c a then Q (Ok ()) s else Q Panic s) -> run (require_auth a) Q c s.
Proof. unfold run, require_auth. by destruct (authorised c a). Qed.
Lemma run_inspect_err {A} (m : M A) f (Q : outcome A -> State -> Prop) c s :
  run m (λ o s1, match o with
                 | Err e => run (f e) (λ (o' : outcome ()) s2, match o' with
                                                | Ok _ => Q (Err e) s2
                                                | Err e' => Q (Err e') s2
                                                | Panic => Q Panic s2 end) c s1
                 | _ => Q o s1 end) c s ->
  run (inspect_err m f) Q c s.
Proof.
  unfold run, inspect_err. destruct (m c s) as [[a|e|] s1]; simpl; [done| |done].
  by destruct (f e c s1) as [[] s2].
Qed.

Lemma wp_run {A} (m : M A) (Q : A -> State -> Prop) c s :
  run m (λ o s', match o with Ok a => Q a s' | _ => True end) c s <-> wp m Q c s.
Proof.
  unfold run, wp. split.
  - intros H a s' E. by rewrite E in H.
  - destruct (m c s) as [[a|e|] s']; simpl; auto.
Qed.

(** One step of total execution; a typed read leaves the lookup to prove. *)
Ltac run_step :=
  match goal with
  | |- run (_ ≫= _) _ _ _ => apply run_bind
  | |- run (mret _) _ _ _ => apply run_ret
  | |- run (throw _) _ _ _ => apply run_throw
  | |- run (asks _) _ _ _ => apply run_asks
  | |- run (lift _) _ _ _ => apply run_lift
  | |- run (reject_if _ _) _ _ _ => apply run_reject_if
  | |- run (ok_or _ _) _ _ _ => apply run_ok_or
  | |- run (phas _) _ _ _ => apply run_phas
  | |- run (pset _ _ _) _ _ _ => apply run_pset; intros
  | |- run (premove _) _ _ _ => apply run_premove; intros
  | |- run (emit _ _ _) _ _ _ => apply run_emit; intros
  | |- run (require_auth _) _ _ _ => apply run_require_auth
  | |- run (inspect_err _ _) _ _ _ => apply run_inspect_err
  end.

(** ** Equational reasoning

    Monad laws and the result of a first step, for programs compared by equality. *)

Lemma bind_bind {A B C} (m : M A) (f : A -> M B) (g : B -> M C) c s :
  ((m ≫= f) ≫= g) c s = (m ≫= λ a, f a ≫= g) c s.
Proof. unfold mbind, M_bind. by destruct (m c s) as [[]]. Qed.

Lemma bind_ext {A B} (m : M A) (f g : A -> M B) c s :
  (∀ a s1, f a c s1 = g a c s1) -> (m ≫= f) c s = (m ≫= g) c s.
Proof. intros H. unfold mbind, M_bind. destruct (m c s) as [[]]; [apply H|done..]. Qed.

Lemma bind_ok {A B} (m : M A) (f : A -> M B) a c s s' :
  m c s = (Ok a, s') -> (m ≫= f) c s = f a c s'.
Proof. intros E. unfold mbind, M_bind. by rewrite E. Qed.

Lemma bind_err {A B} (m : M A) (f : A -> M B) e c s s' :
  m c s = (Err e, s') -> (m ≫= f) c s = (Err e, s').
Proof. intros E. unfold mbind, M_bind. by rewrite E. Qed.

Lemma bind_panic {A B} (m : M A) (f : A -> M B) c s s' :
  m c s = (Panic, s') -> (m ≫= f) c s = (Panic, s').
Proof. intros E. unfold mbind, M_bind. by rewrite E. Qed.

Lemma ret_bind {A B} (a : A) (f : A -> M B) c s : (mret a ≫= f) c s = f a c s.
Proof. done. Qed.

(** A read of a slot whose entry is known. *)
Lemma read {A B} (cd : Codec A) k o (f : option A -> M B) c s :
  persistent s !! k = enc cd <$> o -> (pget cd k ≫= f) c s = f o c s.
Proof. intros Hk. unfold mbind, M_bind, pget. by rewrite Hk, opt_dec_enc. Qed.

Lemma read_or {A B} (cd : Codec A) k d o (f : A -> M B) c s :
  persistent s !! k = enc cd <$> o -> (pget_or cd k d ≫= f) c s = f (default d o) c s.
Proof. intros Hk. unfold pget_or. unfold mbind, M_bind, pget. by rewrite Hk, opt_dec_enc. Qed.

(** A program that writes no persistent entry. *)
Lemma wp_readonly {A} (m : M A) (Q : A -> State -> Prop) c s :
  frame (λ _, True) m -> (∀ a s', persistent s' = persistent s -> Q a s') -> wp m Q c s.
Proof.
  intros Hf HQ. apply (wp_frame (λ _, True)); [done|]. intros a s' H.
  apply HQ, map_eq. intros k. by apply H.
Qed.

(** Rewrite the entries of later states to those of the first one. *)
Ltac pchain :=
  repeat match goal with
  | H : persistent ?s' = _ |- context [persistent ?s'] => rewrite H
  end.
Ltac pchain_in H0 :=
  repeat match goal with
  | H : persistent ?s' = _ |- _ =>
      lazymatch type of H0 with context [persistent s'] => rewrite H in H0 end
  end.

(** Step over a call that writes no persistent entry. *)
Ltac wp_ro :=
  lazymatch goal with
  | |- wp (_ ≫= _) _ _ _ => apply wp_bind; wp_ro
  | |- wp _ _ _ _ => apply wp_readonly; [solve [auto with frame]|intros]
  end.

(** Close a lookup in the first state from the one read in a later state. *)
Ltac plook :=
  match goal with
  | H : persistent _ !! ?k = _ |- persistent _ !! ?k = _ =>
      pchain_in H; rewrite ?lookup_insert_ne, ?lookup_delete_ne in H by (done || congruence);
      exact H
  | H : bool_decide (is_Some (persistent _ !! ?k)) = false |- persistent _ !! ?k = None =>
      apply bool_decide_eq_false in H; apply eq_None_not_Some in H;
      pchain_in H; rewrite ?lookup_insert_ne, ?lookup_delete_ne in H by (done || congruence);
      exact H
  end.

(** Evaluate the lookups of later states in the first one, through the
    equations and the frames the [wp] rules leave in the context. *)
Ltac key_ne := solve [done | congruence | intros ?; destruct_or?; simplify_eq; auto | tauto].
Ltac lstep :=
  match goal with
  | H : persistent ?s' = _ |- context [persistent ?s' !! _] => rewrite H
  | H : ∀ k, _ |- context [persistent ?s' !! ?k0] =>
      lazymatch type of H with
      | context [persistent s' !! _ = _] => rewrite (H k0) by key_ne
      end
  | |- context [<[?k:=_]> _ !! ?k] => rewrite lookup_insert_eq
  | |- context [delete ?k _ !! ?k] => rewrite lookup_delete_eq
  | |- context [<[?k':=_]> _ !! ?k] => rewrite (lookup_insert_ne _ k' k) by key_ne
  | |- context [delete ?k' _ !! ?k] => rewrite (lookup_delete_ne _ k' k) by key_ne
  end.
Ltac lchain := repeat lstep.

(** Use a specification on a run that returned. *)
Lemma wp_use {A} (m : M A) (Q : A -> State -> Prop) c s a s' :
  m c s = (Ok a, s') -> wp m Q c s -> Q a s'.
Proof. intros E H. by apply H. Qed.

Ltac wp_intro E :=
  match type of E with
  | ?m ?c ?s = (Ok ?a, ?s') =>
      pattern a, s';
      lazymatch goal with |- ?Q a s' => refine (wp_use m Q c s a s' E _) end; clear E
  end.
