(* ===== verification/Committee.v ===== *)
(** * The oracle committee and the collateral adapter

    oracle_committee.rs and collateral.rs: two modules of the crate that no entry
    point calls yet.  The stake-weighted aggregation of feeder reports and
    slashing; the adapter that moves collateral, over the token contract's
    [transfer] as a parameter. *)

From S2P Require Export Logic.

(** ** oracle_committee.rs *)

Record CommitteeMember := {
  cm_feeder : Address; cm_stake : Z; cm_active : bool; cm_registered_at : Z }.
Record FeederReport := { fr_feeder : Address; fr_price : Z; fr_timestamp : Z }.
Record AggregatedOraclePrice := {
  ag_price : Z; ag_total_stake_weight : Z; ag_quorum_reached : bool }.

Definition active_stake (members : list CommitteeMember) : Z :=
  fold_left (λ acc m, if cm_active m then i128_saturating_add acc (cm_stake m) else acc) members 0.

Definition reporting (report : FeederReport) (member : CommitteeMember) : bool :=
  bool_decide (cm_feeder member = fr_feeder report) && cm_active member.

(** One pair of the nested loops: the participating stake and the first valid price. *)
Definition count_report (report : FeederReport) (acc : Z * option Z) (member : CommitteeMember)
  : Z * option Z :=
  let '(participating_stake, valid_prices) := acc in
  if reporting report member
  then (i128_saturating_add participating_stake (cm_stake member),
        match valid_prices with None => Some (fr_price report) | Some p => Some p end)
  else (participating_stake, valid_prices).

Definition count_reports (reports : list FeederReport) (members : list CommitteeMember) : Z * option Z :=
  fold_left (λ acc report, fold_left (count_report report) members acc) reports (0, None).

Definition aggregate_reports (reports : list FeederReport) (members : list CommitteeMember)
    (required_quorum_bps : Z) : outcome AggregatedOraclePrice :=
  if bool_decide (reports = []) then Err InvalidAmount else
  let total_active_stake := active_stake members in
  if total_active_stake =? 0 then Err InvalidAmount else
  let '(participating_stake, valid_prices) := count_reports reports members in
  product ← some_or_panic (i128_checked_mul total_active_stake required_quorum_bps);
  let required_stake := Z.quot product 10000 in
  Ok {| ag_price := default 0 valid_prices; ag_total_stake_weight := participating_stake;
        ag_quorum_reached := participating_stake >=? required_stake |}.

(** The slash taken, and the member left in place. *)
Definition slash_feeder (member : CommitteeMember) (slash_amount : Z) : outcome (Z * CommitteeMember) :=
  let actual_slash := Z.min (cm_stake member) slash_amount in
  let stake := i128_saturating_sub (cm_stake member) actual_slash in
  Ok (actual_slash,
      {| cm_feeder := cm_feeder member; cm_stake := stake;
         cm_active := if stake =? 0 then false else cm_active member;
         cm_registered_at := cm_registered_at member |}).

(** *** What the aggregation computes *)

Definition stake_behind (members : list CommitteeMember) (report : FeederReport) : Z :=
  zsum cm_stake (filter (λ m, reporting report m = true) members).

(** The price of the first report an active member filed. *)
Definition first_valid (reports : list FeederReport) (members : list CommitteeMember) : option Z :=
  fr_price <$> head (filter (λ rep, existsb (reporting rep) members = true) reports).

Section Committee.
Context (members : list CommitteeMember).
Hypothesis Hstake : ∀ m, m ∈ members -> 0 ≤ cm_stake m.

Lemma saturating_add_in a b : I128_MIN ≤ a + b ≤ I128_MAX -> i128_saturating_add a b = a + b.
Proof. unfold i128_saturating_add, clamp. lia. Qed.

Lemma stake_behind_nonneg rep : 0 ≤ stake_behind members rep.
Proof. apply zsum_nonneg. intros m [_ Hm]%list_elem_of_filter. auto. Qed.

Lemma active_stake_sum :
  zsum cm_stake members ≤ I128_MAX ->
  active_stake members = zsum cm_stake (filter (λ m, cm_active m = true) members).
Proof.
  unfold active_stake. intros Hmax.
  assert (∀ acc, 0 ≤ acc -> acc + zsum cm_stake members ≤ I128_MAX ->
    fold_left (λ acc m, if cm_active m then i128_saturating_add acc (cm_stake m) else acc) members acc
    = acc + zsum cm_stake (filter (λ m, cm_active m = true) members)) as Hg;
    [|by rewrite Hg by lia].
  clear Hmax. induction members as [|m k IH]; intros acc Ha Hmax; simpl in *; [lia|].
  assert (0 ≤ cm_stake m) by (apply Hstake; set_solver).
  assert (0 ≤ zsum cm_stake k) by (apply zsum_nonneg; intros; apply Hstake; set_solver).
  rewrite filter_cons. destruct (cm_active m).
  - rewrite saturating_add_in by (unfold I128_MIN, I128_MAX in *; lia).
    rewrite decide_True by done. rewrite IH by (first [lia|set_solver]). simpl. lia.
  - rewrite decide_False by done. apply IH; [set_solver|lia|lia].
Qed.

Lemma count_report_spec rep acc p :
  0 ≤ acc -> acc + stake_behind members rep ≤ I128_MAX ->
  fold_left (count_report rep) members (acc, p)
  = (acc + stake_behind members rep,
     match p with
     | Some x => Some x
     | None => if existsb (reporting rep) members then Some (fr_price rep) else None
     end).
Proof.
  unfold stake_behind. revert acc p. induction members as [|m k IH]; intros acc p Ha Hmax; simpl in *.
  { rewrite Z.add_0_r. by destruct p. }
  assert (0 ≤ cm_stake m) by (apply Hstake; set_solver). rewrite filter_cons in *.
  destruct (reporting rep m); simpl.
  - rewrite decide_True in * by done. cbn [zsum] in *.
    assert (0 ≤ zsum cm_stake (filter (λ m, reporting rep m = true) k))
      by (apply zsum_nonneg; intros x [_ Hx]%list_elem_of_filter; apply Hstake; set_solver).
    rewrite saturating_add_in by (unfold I128_MIN, I128_MAX in *; lia).
    rewrite IH by (first [set_solver|lia]). f_equal; [lia|by destruct p].
  - rewrite decide_False in * by done. apply IH; [set_solver|done|done].
Qed.

Lemma count_reports_spec reports :
  zsum (stake_behind members) reports ≤ I128_MAX ->
  count_reports reports members = (zsum (stake_behind members) reports, first_valid reports members).
Proof.
  unfold count_reports, first_valid.
  assert (∀ acc p, 0 ≤ acc -> acc + zsum (stake_behind members) reports ≤ I128_MAX ->
    fold_left (λ acc rep, fold_left (count_report rep) members acc) reports (acc, p)
    = (acc + zsum (stake_behind members) reports,
       match p with
       | Some x => Some x
       | None => fr_price <$> head (filter (λ rep, existsb (reporting rep) members = true) reports)
       end)) as Hg; [|intros; by rewrite Hg by lia].
  induction reports as [|rep k IH]; intros acc p Ha Hmax; simpl in *.
  { rewrite Z.add_0_r. by destruct p. }
  pose proof (stake_behind_nonneg rep).
  assert (0 ≤ zsum (stake_behind members) k) by (apply zsum_nonneg; intros; apply stake_behind_nonneg).
  rewrite count_report_spec, IH by lia. rewrite filter_cons, Z.add_assoc. f_equal.
  destruct p; [done|]. destruct (existsb _ _); [by rewrite decide_True|by rewrite decide_False].
Qed.
End Committee.

(** The aggregate price is that of the first report an active member filed, not a
    median; its weight counts the stake behind every report, so that reports of
    one feeder add up; the quorum compares it with the required share of the
    active stake. *)
Theorem aggregate_reports_first_price reports members bps :
  (∀ m, m ∈ members -> 0 ≤ cm_stake m) -> zsum cm_stake members ≤ I128_MAX ->
  zsum (stake_behind members) reports ≤ I128_MAX ->
  let total := zsum cm_stake (filter (λ m, cm_active m = true) members) in
  0 ≤ bps -> total * bps ≤ I128_MAX -> reports ≠ [] -> total ≠ 0 ->
  aggregate_reports reports members bps
  = Ok {| ag_price := default 0 (first_valid reports members);
          ag_total_stake_weight := zsum (stake_behind members) reports;
          ag_quorum_reached := total * bps / 10000 <=? zsum (stake_behind members) reports |}.
Proof.
  intros Hs Hsum Hrep total Hb Hprod Hne Ht. unfold aggregate_reports.
  assert (0 ≤ total) by (apply zsum_nonneg; intros m [_ Hm]%list_elem_of_filter; auto).
  rewrite bool_decide_false, (active_stake_sum members Hs) by done. fold total.
  destruct (total =? 0) eqn:?; zbool; [done|]. rewrite (count_reports_spec members Hs) by done.
  rewrite i128_checked_mul_in by (unfold I128_MIN; nia). simpl.
  rewrite quot_div_nonneg by nia. by rewrite Z.geb_leb.
Qed.

(** One feeder reaches any quorum by repeating its report. *)
Theorem repeated_reports_reach_quorum members m rep bps n :
  (∀ m, m ∈ members -> 0 ≤ cm_stake m) -> zsum cm_stake members ≤ I128_MAX ->
  m ∈ members -> 0 < cm_stake m -> reporting rep m = true ->
  0 ≤ bps -> zsum cm_stake (filter (λ m, cm_active m = true) members) * bps ≤ I128_MAX ->
  (0 < n)%nat -> Z.of_nat n * stake_behind members rep ≤ I128_MAX ->
  zsum cm_stake (filter (λ m, cm_active m = true) members) * bps / 10000
    <= Z.of_nat n * stake_behind members rep ->
  ∃ w, aggregate_reports (replicate n rep) members bps
       = Ok {| ag_price := fr_price rep; ag_total_stake_weight := w; ag_quorum_reached := true |}.
Proof.
  intros Hs Hsum Hm Hpos Hrep Hb Hprod Hn Hmax Hq.
  assert (zsum (stake_behind members) (replicate n rep) = Z.of_nat n * stake_behind members rep) as Hz.
  { clear. induction n as [|n IH]; [done|]. cbn [replicate zsum]. rewrite IH. lia. }
  exists (zsum (stake_behind members) (replicate n rep)).
  rewrite aggregate_reports_first_price; try done.
  - f_equal. f_equal; [|rewrite Hz; by apply Z.leb_le].
    destruct n as [|n]; [lia|]. unfold first_valid. cbn [replicate]. rewrite filter_cons, decide_True; [done|].
    apply existsb_exists. exists m. split; [by apply list_elem_of_In|done].
  - by rewrite Hz.
  - by destruct n; [lia|].
  - apply Z.neq_sym, Z.lt_neq, (Z.lt_le_trans _ (cm_stake m)); [done|].
    apply zsum_elem_le; [intros y [_ Hy]%list_elem_of_filter; auto|].
    apply list_elem_of_filter. unfold reporting in Hrep. apply andb_true_iff in Hrep as [_ ?]. done.
Qed.

(** A slash takes at most the stake, and a member left without stake is inactive. *)
Theorem slash_feeder_spec member amount taken member' :
  0 ≤ cm_stake member ≤ I128_MAX -> 0 ≤ amount ->
  slash_feeder member amount = Ok (taken, member') ->
  taken = Z.min (cm_stake member) amount ∧ 0 ≤ taken ∧
  cm_stake member' = cm_stake member - taken ∧ 0 ≤ cm_stake member' ∧
  cm_active member' = cm_active member && negb (cm_stake member' =? 0) ∧
  cm_feeder member' = cm_feeder member ∧ cm_registered_at member' = cm_registered_at member.
Proof.
  intros Hs Ha [= <- <-]. simpl.
  assert (i128_saturating_sub (cm_stake member) (Z.min (cm_stake member) amount)
          = cm_stake member - Z.min (cm_stake member) amount) as ->
    by (unfold i128_saturating_sub, clamp, I128_MIN, I128_MAX in *; lia).
  split_and!; try done; try lia. destruct (_ =? 0); simpl; by rewrite ?andb_true_r, ?andb_false_r.
Qed.

(** A negative amount is not refused: it adds to the stake. *)
Lemma slash_negative_raises member amount :
  I128_MIN < amount < 0 -> 0 ≤ cm_stake member -> cm_stake member - amount ≤ I128_MAX ->
  ∃ member', slash_feeder member amount = Ok (amount, member') ∧
    cm_stake member < cm_stake member'.
Proof.
  intros Ha Hs Hmax. unfold slash_feeder. rewrite Z.min_r by lia. eexists. split; [done|]. simpl.
  unfold i128_saturating_sub, clamp, I128_MIN, I128_MAX in *. lia.
Qed.

(** ** collateral.rs *)

Inductive CollateralMode := Virtual | RealToken.

Record StandardCollateralAdapter := {
  adapter_mode : CollateralMode; token_address : option Address }.

Definition virtual_mode : StandardCollateralAdapter :=
  {| adapter_mode := Virtual; token_address := None |}.
Definition real_mode (token : Address) : StandardCollateralAdapter :=
  {| adapter_mode := RealToken; token_address := Some token |}.

(** What an adapter offers: the four moves of collateral. *)
Class CollateralAdapter (A : Type) := {
  lock : A -> Address -> Z -> M ();
  release : A -> Address -> Z -> M ();
  payout : A -> Address -> Z -> M ();
  collect_fee : A -> Address -> Z -> M () }.

Section Adapter.
(** The token contract's [transfer token from to amount]. *)
Context (transfer : Address -> Address -> Address -> Z -> M ()).

Definition standard_lock (self : StandardCollateralAdapter) (from : Address) (amount : Z) : M () :=
  reject_if (amount <=? 0) InvalidAmount ;;
  match adapter_mode self with
  | Virtual => mret ()
  | RealToken =>
      token_addr ← ok_or (token_address self) InvalidAmount;
      contract_addr ← asks current_contract;
      transfer token_addr from contract_addr amount
  end.

Definition standard_release (self : StandardCollateralAdapter) (to : Address) (amount : Z) : M () :=
  reject_if (amount <=? 0) InvalidAmount ;;
  match adapter_mode self with
  | Virtual => mret ()
  | RealToken =>
      token_addr ← ok_or (token_address self) InvalidAmount;
      contract_addr ← asks current_contract;
      transfer token_addr contract_addr to amount
  end.

#[export] Instance StandardAdapter : CollateralAdapter StandardCollateralAdapter := {|
  lock := standard_lock;
  release := standard_release;
  payout := standard_release;
  collect_fee := standard_release |}.

(** Whatever the mode, an amount that is not positive moves nothing; a virtual
    adapter moves nothing; a real one makes exactly one transfer, into custody to
    lock, out of it to release, pay out or collect a fee. *)
Theorem adapter_moves who amount c s :
  (amount ≤ 0 -> ∀ self,
     lock self who amount c s = (Err InvalidAmount, s) ∧
     release self who amount c s = (Err InvalidAmount, s)) ∧
  (0 < amount ->
     lock virtual_mode who amount c s = (Ok (), s) ∧
     release virtual_mode who amount c s = (Ok (), s) ∧
     ∀ token, let self := real_mode token in
       lock self who amount c s = transfer token who (current_contract c) amount c s ∧
       release self who amount c s = transfer token (current_contract c) who amount c s ∧
       payout self who amount c s = release self who amount c s ∧
       collect_fee self who amount c s = release self who amount c s).
Proof.
  split; intros Ha.
  - intros self. unfold lock, release. simpl. unfold standard_lock, standard_release.
    destruct (amount <=? 0) eqn:?; zbool; [done|lia].
  - unfold lock, release, payout, collect_fee. simpl. unfold standard_lock, standard_release.
    destruct (amount <=? 0) eqn:?; zbool; [lia|done].
Qed.
End Adapter.
