(* ===== verification/SettlementMath.v ===== *)
(** * Settlement arithmetic

    contracts/src/math_common.rs and contracts/src/settlement_math.rs: the pure
    functions the settlement handlers call.  Amounts and prices are integers
    with the overflow checks of the code; [usize] indices are [nat]; a
    [Result] is an [outcome]. *)

From S2P Require Export Host.

(** ** math_common.rs *)

Definition payout_add (a b : Z) : outcome Z := some_or (i128_checked_add a b) PayoutOverflow.
Definition payout_mul (a b : Z) : outcome Z := some_or (i128_checked_mul a b) PayoutOverflow.

(** ** Price direction *)

Inductive PriceDirection := DirUp | DirDown | Unchanged.

#[export] Instance PriceDirection_eq_dec : EqDecision PriceDirection := ltac:(solve_decision).

Definition classify_price_direction (start_price final_price : Z) : PriceDirection :=
  if final_price >? start_price then DirUp
  else if final_price <? start_price then DirDown
  else Unchanged.

Definition is_one_sided_pool (pool_up pool_down : Z) : bool :=
  negb (Bool.eqb (pool_up =? 0) (pool_down =? 0)).

(** ** Protocol fee *)

Definition compute_updown_fee (winning_pool losing_pool : Z) (fee_bps : option Z)
  : outcome (Z * Z * Z) :=
  match fee_bps with
  | None => Ok (winning_pool, losing_pool, 0)
  | Some bps_value =>
      total_pot ← payout_add winning_pool losing_pool;
      product ← some_or (i128_checked_mul total_pot bps_value) Overflow;
      let fee_amount := Z.quot product BPS_DENOMINATOR in
      if fee_amount =? 0 then Ok (winning_pool, losing_pool, 0) else
      let fee_from_losing := Z.min fee_amount losing_pool in
      fee_from_winning ← some_or (i128_checked_sub fee_amount fee_from_losing) Overflow;
      dist_winning ← some_or (i128_checked_sub winning_pool fee_from_winning) Overflow;
      dist_losing ← some_or (i128_checked_sub losing_pool fee_from_losing) Overflow;
      Ok (dist_winning, dist_losing, fee_amount)
  end.

Definition compute_precision_fee (total_pot : Z) (fee_bps : option Z) : outcome (Z * Z) :=
  match fee_bps with
  | None => Ok (total_pot, 0)
  | Some bps_value =>
      if total_pot <=? 0 then Ok (total_pot, 0) else
      product ← some_or (i128_checked_mul total_pot bps_value) PayoutOverflow;
      let fee_amount := Z.quot product BPS_DENOMINATOR in
      distributable ← some_or (i128_checked_sub total_pot fee_amount) PayoutOverflow;
      Ok (distributable, fee_amount)
  end.

(** ** UpDown payout of one winner *)

Definition compute_updown_winner_payout (stake winning_pool total_distributable : Z)
  : outcome Z :=
  if winning_pool =? 0 then Ok 0 else
  product ← payout_mul stake total_distributable;
  i128_div product winning_pool.

(** ** Precision winners *)

Inductive PrecisionScoringMode := AbsoluteDistance | RelativeDistance.
Record PrecisionScoringPolicy := {
  scoring_mode : PrecisionScoringMode; confidence_band : option Z }.
Record PrecisionEntry := {
  pe_index : nat; pe_predicted_price : Z; pe_amount : Z; pe_revealed : bool }.
Record PrecisionWinnersResult := {
  winner_indices : list nat; total_pot : Z; loser_indices : list nat }.

Definition precision_score (policy : PrecisionScoringPolicy) (final_price predicted : Z) : Z :=
  let abs_diff := if predicted >=? final_price then predicted - final_price
                  else final_price - predicted in
  match scoring_mode policy with
  | AbsoluteDistance => abs_diff
  | RelativeDistance =>
      if final_price >? 0 then u128_saturating_mul abs_diff 10000 / final_price else abs_diff
  end.

(** The scan over the entries: pot, scores of the revealed ones, best score. *)
Definition score_step (policy : PrecisionScoringPolicy) (final_price : Z)
    (acc : Z * list (nat * Z) * option Z) (e : PrecisionEntry)
  : Z * list (nat * Z) * option Z :=
  let '(pot, scores, min_score) := acc in
  let pot := i128_saturating_add pot (pe_amount e) in
  if negb (pe_revealed e) then (pot, scores, min_score) else
  let score := precision_score policy final_price (pe_predicted_price e) in
  (pot, scores ++ [(pe_index e, score)],
   match min_score with
   | None => Some score
   | Some cur_min => if score <? cur_min then Some score else Some cur_min
   end).

Definition band_wins (policy : PrecisionScoringPolicy) (best score : Z) : bool :=
  match confidence_band policy with
  | None => score =? best
  | Some band => (score <=? band) || (score <=? u128_saturating_add best band)
  end.

Definition find_precision_winners_with_policy (entries : list PrecisionEntry)
    (final_price : Z) (policy : PrecisionScoringPolicy) : PrecisionWinnersResult :=
  let '(pot, scores, min_score) :=
    fold_left (score_step policy final_price) entries (0, [], None) in
  let winners := match min_score with
                 | Some best => (filter (λ p, band_wins policy best p.2 = true) scores).*1
                 | None => []
                 end in
  {| winner_indices := winners;
     total_pot := pot;
     loser_indices :=
       filter (λ i, i ∉ winners) (pe_index <$> entries) |}.

Definition default_scoring : PrecisionScoringPolicy :=
  {| scoring_mode := AbsoluteDistance; confidence_band := None |}.

Definition find_precision_winners (entries : list PrecisionEntry) (final_price : Z)
  : PrecisionWinnersResult :=
  find_precision_winners_with_policy entries final_price default_scoring.

(** ** Splitting the precision pot *)

(** The [i]-th payout of an equal split; the first winner takes the remainder. *)
Definition equal_share (per_winner remainder : Z) (i : nat) : outcome Z :=
  match i with
  | O => some_or (i128_checked_add per_winner remainder) PayoutOverflow
  | S _ => Ok per_winner
  end.

Definition split_pot_among_winners (distributable : Z) (winner_count : nat)
  : outcome (list Z) :=
  if (winner_count =? 0)%nat || (distributable <=? 0) then Ok [] else
  let count := Z.of_nat winner_count in
  let per_winner := Z.quot distributable count in
  let remainder := Z.rem distributable count in
  ofold (seq 0 winner_count) [] (λ payouts i,
    payout ← equal_share per_winner remainder i;
    Ok (payouts ++ [payout])).

Definition checked_total (stakes : list Z) : outcome Z :=
  ofold stakes 0 (λ acc stake, some_or (i128_checked_add acc stake) PayoutOverflow).

Definition weighted_step (distributable total_winner_stake : Z)
    (acc : list Z * Z) (stake : Z) : outcome (list Z * Z) :=
  let '(payouts, total_allocated) := acc in
  product ← payout_mul stake distributable;
  payout ← i128_div product total_winner_stake;
  total_allocated ← some_or (i128_checked_add total_allocated payout) PayoutOverflow;
  Ok (payouts ++ [payout], total_allocated).

Definition split_pot_stake_weighted (distributable : Z) (winner_stakes : list Z)
  : outcome (list Z) :=
  if bool_decide (winner_stakes = []) || (distributable <=? 0) then Ok [] else
  total_winner_stake ← checked_total winner_stakes;
  if total_winner_stake =? 0
  then split_pot_among_winners distributable (length winner_stakes) else
  '(payouts, total_allocated) ←
    ofold winner_stakes ([], 0) (weighted_step distributable total_winner_stake);
  remainder ← some_or (i128_checked_sub distributable total_allocated) PayoutOverflow;
  match payouts with
  | p0 :: rest =>
      if remainder >? 0
      then p0' ← some_or (i128_checked_add p0 remainder) PayoutOverflow; Ok (p0' :: rest)
      else Ok payouts
  | [] => Ok []
  end.

(** ** The full UpDown payout vector *)

Record UpDownPosition := { up_index : nat; up_amount : Z; side_up : bool }.
Record UpDownPayoutEntry := {
  ue_index : nat; ue_stake : Z; ue_payout : Z; ue_is_winner : bool; ue_is_refund : bool }.

Definition updown_refunds (positions : list UpDownPosition) : list UpDownPayoutEntry :=
  (λ pos, {| ue_index := up_index pos; ue_stake := up_amount pos;
             ue_payout := up_amount pos; ue_is_winner := false; ue_is_refund := true |})
    <$> positions.

Definition updown_entry (winning_side_up : bool) (winning_pool total_distributable : Z)
    (results : list UpDownPayoutEntry) (pos : UpDownPosition)
  : outcome (list UpDownPayoutEntry) :=
  let is_winner := Bool.eqb (side_up pos) winning_side_up in
  payout ← (if is_winner
            then compute_updown_winner_payout (up_amount pos) winning_pool total_distributable
            else Ok 0);
  Ok (results ++ [{| ue_index := up_index pos; ue_stake := up_amount pos;
                     ue_payout := payout; ue_is_winner := is_winner;
                     ue_is_refund := false |}]).

Definition compute_updown_payouts (positions : list UpDownPosition)
    (start_price final_price pool_up pool_down : Z) (fee_bps : option Z)
  : outcome (list UpDownPayoutEntry) :=
  let direction := classify_price_direction start_price final_price in
  let one_sided := is_one_sided_pool pool_up pool_down in
  if bool_decide (direction = Unchanged) || one_sided
  then Ok (updown_refunds positions) else
  let '(winning_side_up, winning_pool, losing_pool) :=
    match direction with
    | DirUp => (true, pool_up, pool_down)
    | _ => (false, pool_down, pool_up)
    end in
  if winning_pool =? 0 then Ok (updown_refunds positions) else
  '(dist_winning, dist_losing, _) ← compute_updown_fee winning_pool losing_pool fee_bps;
  total_distributable ← payout_add dist_winning dist_losing;
  ofold positions [] (updown_entry winning_side_up winning_pool total_distributable).

(** ** The full Precision payout vector *)

Record PrecisionPayoutEntry := {
  ppe_index : nat; ppe_stake : Z; ppe_predicted_price : Z; ppe_payout : Z;
  ppe_is_winner : bool; ppe_is_refund : bool }.

Definition precision_payout (e : PrecisionEntry) (payout : Z) (winner refund : bool)
  : PrecisionPayoutEntry :=
  {| ppe_index := pe_index e; ppe_stake := pe_amount e;
     ppe_predicted_price := pe_predicted_price e; ppe_payout := payout;
     ppe_is_winner := winner; ppe_is_refund := refund |}.

(** [iter().position(|&idx| idx == i)] *)
Fixpoint index_of (i : nat) (l : list nat) : option nat :=
  match l with
  | [] => None
  | x :: l => if Nat.eqb x i then Some 0%nat else S <$> index_of i l
  end.

(** [winner_indices.iter().map(|&idx| entries[idx].amount)]: an index out of
    range traps. *)
Definition winner_stakes_of (entries : list PrecisionEntry) (winners : list nat)
  : outcome (list Z) :=
  ofold winners [] (λ acc idx,
    e ← some_or_panic (entries !! idx); Ok (acc ++ [pe_amount e])).

Definition compute_precision_payouts_with_policy (entries : list PrecisionEntry)
    (final_price : Z) (fee_bps : option Z) (scoring_policy : PrecisionScoringPolicy)
    (payout_policy : PrecisionPayoutPolicy) : outcome (list PrecisionPayoutEntry) :=
  let result := find_precision_winners_with_policy entries final_price scoring_policy in
  let winners := winner_indices result in
  if bool_decide (winners = []) && (total_pot result >? 0)
  then Ok ((λ e, precision_payout e (pe_amount e) false true) <$> entries) else
  if (total_pot result <=? 0) || bool_decide (winners = [])
  then Ok ((λ e, precision_payout e 0 false false) <$> entries) else
  '(distributable, _) ← compute_precision_fee (total_pot result) fee_bps;
  winner_payouts ←
    (match payout_policy with
     | Equal => split_pot_among_winners distributable (length winners)
     | StakeWeighted =>
         winner_stakes ← winner_stakes_of entries winners;
         split_pot_stake_weighted distributable winner_stakes
     end);
  ofold entries [] (λ payouts e,
    match index_of (pe_index e) winners with
    | Some pos =>
        p ← some_or_panic (winner_payouts !! pos);
        Ok (payouts ++ [precision_payout e p true false])
    | None => Ok (payouts ++ [precision_payout e 0 false false])
    end).

Definition compute_precision_payouts (entries : list PrecisionEntry) (final_price : Z)
    (fee_bps : option Z) : outcome (list PrecisionPayoutEntry) :=
  compute_precision_payouts_with_policy entries final_price fee_bps default_scoring Equal.

(** ** Oracle deviation, sorting and median *)

Definition compute_deviation_bps (price reference : Z) : outcome Z :=
  if reference =? 0 then Err InvalidPrice else
  diff ← (if price >=? reference
          then some_or (u128_checked_sub price reference) Overflow
          else some_or (u128_checked_sub reference price) Overflow);
  product ← some_or (u128_checked_mul diff 10000) Overflow;
  some_or (u32_try_from (product / reference)) Overflow.

(** The inner [while j > 0 && prices[j-1] > key]: shift right, then store. *)
Fixpoint sort_shift (prices : list Z) (key : Z) (j : nat) : list Z :=
  match j with
  | O => <[0%nat:=key]> prices
  | S j' =>
      let p := default 0 (prices !! j') in
      if p >? key then sort_shift (<[j:=p]> prices) key j'
      else <[j:=key]> prices
  end.

Definition sort_prices_in_place (prices : list Z) : list Z :=
  fold_left (λ ps i, sort_shift ps (default 0 (ps !! i)) i)
            (seq 1 (length prices - 1)) prices.

Definition median_of_sorted (prices : list Z) : option Z :=
  let n := length prices in
  if (n =? 0)%nat then None else
  if (n mod 2 =? 1)%nat then prices !! (n / 2)%nat
  else
    mid1 ← prices !! (n / 2 - 1)%nat;
    mid2 ← prices !! (n / 2)%nat;
    Some (u128_saturating_add mid1 mid2 / 2).

Definition total_pot_updown (pool_up pool_down : Z) : Z := i128_saturating_add pool_up pool_down.
Definition total_pot_precision (stakes : list Z) : Z := fold_left i128_saturating_add stakes 0.
