(* ===== verification/SettlementMathFacts.v ===== *)
(** * Facts about the settlement arithmetic

    Conservation of the fee split, of the UpDown payouts and of the two
    precision splits; the precision winners are the minimisers of the score;
    the insertion sort sorts; the deviation is the floor of the relative
    difference. *)

From S2P Require Export Logic SettlementMath.

(** ** Checked payout arithmetic *)

Lemma payout_add_Ok a b r :
  payout_add a b = Ok r <-> r = a + b ∧ I128_MIN ≤ a + b ≤ I128_MAX.
Proof. unfold payout_add. by rewrite some_or_Ok, i128_checked_add_Some. Qed.

Lemma payout_mul_Ok a b r :
  payout_mul a b = Ok r <-> r = a * b ∧ I128_MIN ≤ a * b ≤ I128_MAX.
Proof. unfold payout_mul. by rewrite some_or_Ok, i128_checked_mul_Some. Qed.

(** Invert every checked operation and comparison in the context. *)
Ltac arith_inv :=
  repeat (progress (checked_inv; zbool) || match goal with
  | H : payout_add _ _ = Ok _ |- _ => apply payout_add_Ok in H as [-> ?]
  | H : payout_mul _ _ = Ok _ |- _ => apply payout_mul_Ok in H as [-> ?]
  | H : i128_div _ _ = Ok _ |- _ => apply i128_div_Ok in H as (? & -> & ?)
  | H : some_or _ _ = Ok _ |- _ => apply some_or_Ok in H
  | H : Some _ = Some _ |- _ => injection H as H
  end).

(** The fee rate of an optional configuration value. *)
Definition fee_rate (fee_bps : option Z) : Z := default 0 fee_bps.

(** ** The UpDown fee *)

Lemma compute_updown_fee_inv w l bps dw dl fee :
  compute_updown_fee w l bps = Ok (dw, dl, fee) ->
  dw + dl + fee = w + l ∧
  fee = Z.quot ((w + l) * fee_rate bps) BPS_DENOMINATOR ∧
  dl = l - (if fee =? 0 then 0 else Z.min fee l).
Proof.
  unfold compute_updown_fee, fee_rate. intros H. destruct bps as [b|].
  - ok_inv H; simplify_eq/=.
    + apply payout_add_Ok in E as [-> ?]. apply i128_checked_mul_Some in E0 as [-> ?].
      zbool. rewrite Heqb0. simpl. lia.
    + apply payout_add_Ok in E as [-> ?]. checked_inv. rewrite Heqb0. lia.
  - simplify_eq/=. rewrite Z.mul_0_r. change (Z.quot 0 BPS_DENOMINATOR) with 0. lia.
Qed.

Lemma compute_updown_fee_bounds w l bps dw dl fee :
  compute_updown_fee w l bps = Ok (dw, dl, fee) ->
  0 ≤ w -> 0 ≤ l -> 0 ≤ fee_rate bps ≤ BPS_DENOMINATOR ->
  0 ≤ dw ≤ w ∧ 0 ≤ dl ≤ l ∧ 0 ≤ fee ≤ w + l.
Proof.
  intros H Hw Hl Hb. apply compute_updown_fee_inv in H as (Hsum & Hfee & Hdl).
  unfold BPS_DENOMINATOR in *.
  assert (0 ≤ fee ≤ w + l) as Hf.
  { rewrite Hfee, quot_div_nonneg by nia. split; [apply Z.div_pos; nia|].
    apply Z.div_le_upper_bound; nia. }
  destruct (fee =? 0) eqn:?; zbool; lia.
Qed.

Lemma compute_precision_fee_inv pot bps d fee :
  compute_precision_fee pot bps = Ok (d, fee) -> d + fee = pot.
Proof.
  unfold compute_precision_fee. intros H. destruct bps as [b|]; [|simplify_eq; lia].
  ok_inv H; simplify_eq; [lia|]. checked_inv. lia.
Qed.

Lemma compute_precision_fee_bounds pot bps d fee :
  compute_precision_fee pot bps = Ok (d, fee) ->
  0 ≤ fee_rate bps ≤ BPS_DENOMINATOR -> 0 ≤ pot ->
  0 ≤ d ≤ pot ∧ 0 ≤ fee ≤ pot.
Proof.
  unfold compute_precision_fee, fee_rate, BPS_DENOMINATOR.
  intros H Hb Hp. destruct bps as [b|]; [|simplify_eq; lia].
  ok_inv H; simplify_eq; [lia|]. checked_inv. simpl in Hb.
  rewrite quot_div_nonneg in * by nia.
  assert (0 ≤ pot * b / 10000 ≤ pot); [|lia].
  split; [apply Z.div_pos; nia|]. apply Z.div_le_upper_bound; nia.
Qed.

(** ** Sums of computed lists *)

Lemma zsum_Forall2_ext {A B} (R : A -> B -> Prop) (f : A -> Z) (g : B -> Z) l k :
  Forall2 R l k -> (∀ x y, R x y -> f x = g y) -> zsum f l = zsum g k.
Proof. intros H Hfg. induction H; simpl; [done|]. f_equal; auto. Qed.

(** ** UpDown payouts *)

Lemma updown_winner_payout_inv stake w d p :
  compute_updown_winner_payout stake w d = Ok p ->
  0 ≤ stake -> 0 < w -> 0 ≤ d -> p = stake * d / w.
Proof.
  unfold compute_updown_winner_payout. intros H Hs Hw Hd. ok_inv H; [zbool; lia|].
  apply payout_mul_Ok in E as [-> ?]. apply i128_div_Ok in H as (_ & -> & _).
  apply quot_div_nonneg; nia.
Qed.

(** The winners of a competitive round, given the winning side. *)
Definition updown_winners (side : bool) (positions : list UpDownPosition) : list UpDownPosition :=
  filter (λ p, side_up p = side) positions.
(** What the pool of a side should hold: the stakes on it. *)
Definition side_pool (side : bool) (positions : list UpDownPosition) : Z :=
  zsum up_amount (updown_winners side positions).

Lemma updown_entries_sum side w d positions es :
  ofold positions [] (updown_entry side w d) = Ok es ->
  (∀ p, p ∈ positions -> 0 ≤ up_amount p) -> 0 < w -> 0 ≤ d ->
  zsum ue_payout es = zsum (λ p, up_amount p * d / w) (updown_winners side positions).
Proof.
  intros H Hpos Hw Hd.
  rewrite (ofold_append (λ pos, payout ← (if Bool.eqb (side_up pos) side
      then compute_updown_winner_payout (up_amount pos) w d else Ok 0);
      Ok {| ue_index := up_index pos; ue_stake := up_amount pos; ue_payout := payout;
            ue_is_winner := Bool.eqb (side_up pos) side; ue_is_refund := false |})) in H.
  2:{ intros acc pos. unfold updown_entry.
      destruct (Bool.eqb (side_up pos) side); [|done].
      by destruct (compute_updown_winner_payout _ _ _). }
  destruct H as (ys & -> & H). simpl. unfold updown_winners.
  induction H as [|pos y l ys Hy H IH]; [done|]. rewrite filter_cons. cbn [zsum].
  rewrite IH by set_solver. destruct (Bool.eqb (side_up pos) side) eqn:Hs.
  - apply eqb_prop in Hs. rewrite decide_True by done. cbn [zsum].
    apply obind_Ok in Hy as (p & E & [= <-]). cbn [ue_payout].
    rewrite (updown_winner_payout_inv _ _ _ _ E); [done|apply Hpos; set_solver|done..].
  - apply eqb_false_iff in Hs. rewrite decide_False by done. injection Hy as <-. simpl. lia.
Qed.

Lemma pro_rata_bounds {A} (f : A -> Z) (d : Z) (l : list A) :
  0 < zsum f l -> 0 ≤ d ->
  d - Z.of_nat (length l) < zsum (λ x, f x * d / zsum f l) l ≤ d.
Proof.
  intros Hs Hd. pose proof (zsum_floor_le f d (zsum f l) l Hs).
  pose proof (zsum_floor_ge f d (zsum f l) l Hs).
  assert (l ≠ []) by (intros ->; simpl in *; lia).
  assert (0 < Z.of_nat (length l)) by (destruct l; simpl; [done|lia]).
  split; nia.
Qed.

(** ** Equal split *)

Lemma equal_split_inv d n ps :
  split_pot_among_winners d n = Ok ps -> 0 < d -> (0 < n)%nat ->
  ps = (d / Z.of_nat n + d mod Z.of_nat n) :: replicate (n - 1) (d / Z.of_nat n).
Proof.
  unfold split_pot_among_winners. intros H Hd Hn.
  destruct ((n =? 0)%nat || (d <=? 0)) eqn:Hz.
  { apply orb_true_iff in Hz as [Hz|Hz]; [apply Nat.eqb_eq in Hz|zbool]; lia. }
  rewrite (ofold_append (equal_share (Z.quot d (Z.of_nat n)) (Z.rem d (Z.of_nat n)))) in H
    by done.
  destruct H as (ys & -> & H). simpl.
  rewrite Z.quot_div_nonneg, Z.rem_mod_nonneg in H by lia.
  destruct n as [|n]; [lia|]. simpl seq in H.
  inversion H as [|? y ? ys' Hy H']; subst. cbn [equal_share] in Hy.
  apply some_or_Ok, i128_checked_add_Some in Hy as [-> _].
  f_equal. rewrite Nat.sub_succ, Nat.sub_0_r. clear H.
  generalize dependent (d / Z.of_nat (S n)). generalize (d mod Z.of_nat (S n)).
  intros r q H'. clear Hn Hz.
  remember 1%nat as i eqn:Hi. assert (0 < i)%nat as Hi0 by lia. clear Hi.
  revert i Hi0 ys' H'. induction n as [|n IH]; intros i Hi0 ys' H'; simpl in H'.
  - by inversion H'.
  - inversion H' as [|? y ? ys'' Hy H'']; subst. destruct i; [lia|].
    injection Hy as <-. simpl. f_equal. apply (IH (S (S i))); [lia|done].
Qed.

Lemma zsum_replicate n q : zsum id (replicate n q) = Z.of_nat n * q.
Proof. induction n; cbn [replicate zsum]; unfold id in *; [lia|]. rewrite IHn. lia. Qed.

Lemma equal_split_sum d n ps :
  split_pot_among_winners d n = Ok ps -> 0 < d -> (0 < n)%nat -> zsum id ps = d.
Proof.
  intros H Hd Hn. rewrite (equal_split_inv d n ps H Hd Hn). cbn [zsum].
  rewrite zsum_replicate. unfold id.
  pose proof (Z.div_mod d (Z.of_nat n) ltac:(lia)) as Hdm.
  replace (Z.of_nat (n - 1)) with (Z.of_nat n - 1) by lia.
  set (q := d / Z.of_nat n) in *. set (r := d mod Z.of_nat n) in *. lia.
Qed.

(** ** Stake-weighted split *)

Lemma checked_total_inv stakes t : checked_total stakes = Ok t -> t = zsum id stakes.
Proof.
  intros H. eapply (ofold_inv (λ pre acc, acc = zsum id pre)) in H; [done..|].
  intros pre x post b b' _ -> Hb. apply some_or_Ok in Hb. checked_inv.
  rewrite zsum_app. simpl. unfold id. lia.
Qed.

Lemma weighted_loop_inv d t stakes ps total :
  ofold stakes ([], 0) (weighted_step d t) = Ok (ps, total) ->
  ps = (λ s, Z.quot (s * d) t) <$> stakes ∧ total = zsum id ps.
Proof.
  intros H.
  apply (ofold_inv (λ pre r, r.1 = (λ s, Z.quot (s * d) t) <$> pre ∧ r.2 = zsum id r.1)) in H;
    [done..|].
  intros pre x post [qs q] b' _ [Hq Hq2] Hb. simpl in *. subst.
  apply obind_Ok in Hb as (pr & Epr & Hb). apply obind_Ok in Hb as (pq & Epq & Hb).
  apply obind_Ok in Hb as (tt & Ett & Hb). injection Hb as <-. simpl.
  apply payout_mul_Ok in Epr as [-> _]. apply i128_div_Ok in Epq as (_ & -> & _).
  apply some_or_Ok in Ett. checked_inv. rewrite fmap_app, zsum_app. csimpl. split; [done|].
  rewrite Z.add_0_r. done.
Qed.

(** The shares of a stake-weighted split: floors of the exact shares, the first
    one topped up with what the floors lose. *)
Definition weighted_shares (d : Z) (stakes : list Z) : list Z :=
  (λ s, s * d / zsum id stakes) <$> stakes.
Definition top_up (d : Z) (shares : list Z) : list Z :=
  match shares with
  | p0 :: rest => (p0 + (d - zsum id shares)) :: rest
  | [] => []
  end.

Lemma weighted_split_inv d stakes ps :
  split_pot_stake_weighted d stakes = Ok ps ->
  0 < d -> (∀ s, s ∈ stakes -> 0 ≤ s) -> 0 < zsum id stakes ->
  ps = top_up d (weighted_shares d stakes).
Proof.
  unfold split_pot_stake_weighted. intros H Hd Hs Ht.
  destruct (bool_decide (stakes = []) || (d <=? 0)) eqn:Hz.
  { apply orb_true_iff in Hz as [Hz|Hz]; [|zbool; lia].
    apply bool_decide_eq_true in Hz as ->. simpl in Ht. lia. }
  apply obind_Ok in H as (t & Et & H). apply checked_total_inv in Et as ->.
  destruct (zsum id stakes =? 0) eqn:?; [zbool; lia|].
  apply obind_Ok in H as ([qs total] & Eq & H).
  apply weighted_loop_inv in Eq as [Hqs ->].
  apply obind_Ok in H as (rem & Erem & H). apply some_or_Ok in Erem. checked_inv.
  assert (qs = weighted_shares d stakes) as ->.
  { rewrite Hqs. unfold weighted_shares. apply list_fmap_ext. intros i s Hi.
    apply quot_div_nonneg; [|done]. apply Z.mul_nonneg_nonneg; [|lia].
    eapply Hs, list_elem_of_lookup_2, Hi. }
  destruct (weighted_shares d stakes) as [|p0 rest] eqn:Hsh; [by injection H|].
  unfold top_up. destruct (_ >? 0) eqn:Hr.
  - apply obind_Ok in H as (p0' & Ep & [= <-]). apply some_or_Ok in Ep. checked_inv. done.
  - injection H as <-. zbool. f_equal.
    assert (zsum id (p0 :: rest) ≤ d); [|lia].
    rewrite <-Hsh. unfold weighted_shares. rewrite zsum_fmap. unfold id at 1.
    apply (pro_rata_bounds id d stakes Ht). lia.
Qed.

Lemma top_up_sum d shares : shares ≠ [] -> zsum id (top_up d shares) = d.
Proof. destruct shares as [|p0 rest]; [done|]. intros _. cbn. unfold id. lia. Qed.

Lemma weighted_split_sum d stakes ps :
  split_pot_stake_weighted d stakes = Ok ps ->
  0 < d -> stakes ≠ [] -> (∀ s, s ∈ stakes -> 0 ≤ s) ->
  zsum id ps = d ∧ length ps = length stakes.
Proof.
  intros H Hd Hne Hs.
  destruct (decide (zsum id stakes = 0)) as [Hz|Hz].
  - unfold split_pot_stake_weighted in H.
    rewrite bool_decide_eq_false_2 in H by done. simpl in H.
    destruct (d <=? 0) eqn:?; [zbool; lia|].
    apply obind_Ok in H as (t & Et & H). apply checked_total_inv in Et as ->.
    rewrite Hz in H. simpl in H.
    assert (0 < length stakes)%nat by (destruct stakes; simpl; [done|lia]).
    split; [by eapply equal_split_sum|].
    rewrite (equal_split_inv _ _ _ H) by lia. simpl. rewrite length_replicate. lia.
  - assert (0 < zsum id stakes).
    { assert (0 ≤ zsum id stakes) by by apply zsum_nonneg. lia. }
    rewrite (weighted_split_inv d stakes ps) by done.
    split; [apply top_up_sum; by destruct stakes|].
    destruct stakes; [done|]. simpl. by rewrite length_fmap.
Qed.

(** ** Precision winners *)

Definition revealed_entries (entries : list PrecisionEntry) : list PrecisionEntry :=
  filter (λ e, pe_revealed e = true) entries.

Definition score_of (policy : PrecisionScoringPolicy) (final_price : Z) (e : PrecisionEntry) : Z :=
  precision_score policy final_price (pe_predicted_price e).

Definition is_min_score (policy : PrecisionScoringPolicy) (fp : Z)
    (es : list PrecisionEntry) (m : option Z) : Prop :=
  match m with
  | None => es = []
  | Some m => (∃ e, e ∈ es ∧ score_of policy fp e = m) ∧ ∀ e, e ∈ es -> m ≤ score_of policy fp e
  end.

Lemma score_scan policy fp entries pot scores m :
  fold_left (score_step policy fp) entries (0, [], None) = (pot, scores, m) ->
  pot = fold_left i128_saturating_add (pe_amount <$> entries) 0 ∧
  scores = (λ e, (pe_index e, score_of policy fp e)) <$> revealed_entries entries ∧
  is_min_score policy fp (revealed_entries entries) m.
Proof.
  revert pot scores m. induction entries as [|e entries IH] using rev_ind; intros pot scores m.
  { by intros [= <- <- <-]. }
  unfold revealed_entries in *.
  rewrite fold_left_app, fmap_app, filter_app, fmap_app, fold_left_app. simpl.
  destruct (fold_left (score_step policy fp) entries (0, [], None)) as [[pot' scores'] m'].
  destruct (IH pot' scores' m' eq_refl) as (-> & -> & Hm).
  unfold score_step. destruct (pe_revealed e) eqn:He; intros [= <- <- <-]; simpl.
  - rewrite filter_cons_True by done. simpl. split_and!; [done|done|].
    set (es := filter _ entries) in *. fold (score_of policy fp e).
    destruct m' as [m'|]; simpl in Hm.
    + destruct Hm as [(e0 & He0 & Hm0) Hmin].
      destruct (score_of policy fp e <? m') eqn:?; zbool; simpl; split.
      * exists e. set_solver.
      * intros x [Hx| ->%list_elem_of_singleton]%elem_of_app; [|lia].
        specialize (Hmin x Hx). lia.
      * exists e0. set_solver.
      * intros x [Hx| ->%list_elem_of_singleton]%elem_of_app; [by apply Hmin|lia].
    + rewrite Hm. simpl. split; [exists e; set_solver|]. intros x ->%list_elem_of_singleton. lia.
  - rewrite filter_cons_False by (by rewrite He). simpl. by rewrite !app_nil_r.
Qed.

(** The winners, whatever the policy: the revealed entries whose score is
    within the band of the best one, in entry order. *)
Lemma find_winners_spec entries fp policy best :
  is_min_score policy fp (revealed_entries entries) (Some best) ->
  winner_indices (find_precision_winners_with_policy entries fp policy) =
  pe_index <$> filter (λ e, band_wins policy best (score_of policy fp e) = true)
                 (revealed_entries entries).
Proof.
  intros Hb. unfold find_precision_winners_with_policy.
  destruct (fold_left _ entries _) as [[pot scores] m] eqn:E.
  apply score_scan in E as (_ & -> & Hm). simpl.
  assert (m = Some best) as ->.
  { destruct m as [m|]; simpl in *.
    - destruct Hb as [(e & He & Hbe) Hb], Hm as [(e' & He' & Hme) Hm].
      specialize (Hb e' He'). specialize (Hm e He). f_equal. lia.
    - destruct Hb as [(e & He & _) _]. rewrite Hm in He. set_solver. }
  generalize (revealed_entries entries) as es. clear. intros es.
  induction es as [|e es IH]; [done|]. csimpl.
  rewrite !filter_cons. simpl. case_decide; csimpl; by rewrite IH.
Qed.

Lemma find_winners_none entries fp policy :
  revealed_entries entries = [] ->
  winner_indices (find_precision_winners_with_policy entries fp policy) = [].
Proof.
  intros Hr. unfold find_precision_winners_with_policy.
  destruct (fold_left _ entries _) as [[pot scores] m] eqn:E.
  apply score_scan in E as (_ & _ & Hm). rewrite Hr in Hm.
  destruct m as [m|]; [|done]. simpl in Hm. destruct Hm as [(e & He & _) _]. set_solver.
Qed.

Lemma min_score_exists policy fp es : es ≠ [] -> ∃ best, is_min_score policy fp es (Some best).
Proof.
  induction es as [|e es IH]; intros H; [done|]. destruct es as [|e' es].
  - exists (score_of policy fp e). split; [set_solver|]. intros x ->%list_elem_of_singleton. lia.
  - destruct IH as (b & (e0 & He0 & Hb0) & Hb); [done|].
    destruct (Z.le_ge_cases b (score_of policy fp e)).
    + exists b. split; [exists e0; set_solver|].
      intros x [->|Hx]%elem_of_cons; [lia|by apply Hb].
    + exists (score_of policy fp e). split; [set_solver|].
      intros x [->|Hx]%elem_of_cons; [lia|]. specialize (Hb x Hx). lia.
Qed.

Lemma winners_sublist entries fp policy :
  winner_indices (find_precision_winners_with_policy entries fp policy) `sublist_of`
  pe_index <$> entries.
Proof.
  destruct (decide (revealed_entries entries = [])) as [Hr|Hr].
  - rewrite find_winners_none by done. apply sublist_nil_l.
  - destruct (min_score_exists policy fp _ Hr) as [best Hb].
    rewrite (find_winners_spec _ _ _ best Hb).
    apply fmap_sublist. etrans; apply sublist_filter.
Qed.

Lemma find_winners_pot entries fp policy :
  (∀ e, e ∈ entries -> 0 ≤ pe_amount e) -> zsum pe_amount entries ≤ I128_MAX ->
  total_pot (find_precision_winners_with_policy entries fp policy) = zsum pe_amount entries.
Proof.
  intros Hn Hmax. unfold find_precision_winners_with_policy.
  destruct (fold_left (score_step _ _) entries _) as [[pot scores] m] eqn:E.
  apply score_scan in E as (-> & _ & _). simpl. clear m.
  induction entries as [|e entries IH] using rev_ind; [done|].
  rewrite fmap_app, fold_left_app. rewrite zsum_app in *. simpl in *.
  assert (0 ≤ pe_amount e) by set_solver.
  assert (0 ≤ zsum pe_amount entries) by (apply zsum_nonneg; set_solver).
  rewrite IH by (set_solver || lia). unfold i128_saturating_add, clamp, I128_MAX, I128_MIN in *. lia.
Qed.

(** ** Assigning the shares to the entries *)

Definition share_of (winners : list nat) (shares : list Z) (i : nat) : Z :=
  match index_of i winners with
  | Some pos => default 0 (shares !! pos)
  | None => 0
  end.

Lemma index_of_elem i l : i ∈ l <-> is_Some (index_of i l).
Proof.
  induction l as [|x l IH]; simpl.
  - split; [set_solver|by intros [? ?]].
  - rewrite elem_of_cons. destruct (Nat.eqb_spec x i) as [->|Hx]; [naive_solver|].
    rewrite fmap_is_Some, <-IH. naive_solver.
Qed.

(** Every share goes to exactly one entry. *)
Lemma share_of_sum idx : ∀ winners shares,
  NoDup idx -> winners `sublist_of` idx -> length winners = length shares ->
  zsum (share_of winners shares) idx = zsum id shares.
Proof.
  induction idx as [|i idx IH]; intros winners shares Hnd Hsub Hlen.
  - apply sublist_nil_r in Hsub as ->. by destruct shares.
  - apply NoDup_cons in Hnd as [Hi Hnd]. cbn [zsum].
    apply sublist_cons_r in Hsub as [Hsub|(ws & -> & Hsub)].
    + rewrite IH by done. unfold share_of at 1.
      destruct (index_of i winners) eqn:E; [|lia].
      exfalso. apply Hi. apply (sublist_subseteq winners); [done|]. apply index_of_elem. eauto.
    + destruct shares as [|p shares]; [done|]. simpl in Hlen. injection Hlen as Hlen.
      cbn [zsum]. rewrite <-(IH ws shares) by done. unfold share_of at 1. simpl.
      rewrite Nat.eqb_refl. simpl. f_equal. apply zsum_ext. intros x Hx.
      unfold share_of. simpl. destruct (Nat.eqb_spec i x) as [->|]; [done|].
      by destruct (index_of x ws).
Qed.

Lemma precision_entries_sum entries winners shares ps :
  ofold entries [] (λ payouts e,
    match index_of (pe_index e) winners with
    | Some pos =>
        p ← some_or_panic (shares !! pos);
        Ok (payouts ++ [precision_payout e p true false])
    | None => Ok (payouts ++ [precision_payout e 0 false false])
    end) = Ok ps ->
  zsum ppe_payout ps = zsum (share_of winners shares) (pe_index <$> entries).
Proof.
  intros H.
  apply (ofold_inv (λ pre r, zsum ppe_payout r =
           zsum (share_of winners shares) (pe_index <$> pre))) in H; [done..|].
  intros pre x post b b' _ Hb Hstep. rewrite fmap_app, zsum_app. csimpl. rewrite <-Hb.
  unfold share_of. destruct (index_of (pe_index x) winners).
  - apply obind_Ok in Hstep as (p & Ep & [= <-]). apply some_or_panic_Ok in Ep.
    rewrite Ep, zsum_app. simpl. lia.
  - injection Hstep as <-. rewrite zsum_app. simpl. lia.
Qed.

Lemma winner_stakes_inv entries winners ss :
  winner_stakes_of entries winners = Ok ss ->
  length ss = length winners ∧ ∀ s, s ∈ ss -> ∃ e, e ∈ entries ∧ s = pe_amount e.
Proof.
  intros H. unfold winner_stakes_of in H.
  rewrite (ofold_append (λ idx, e ← some_or_panic (entries !! idx); Ok (pe_amount e))) in H.
  2:{ intros acc x. by destruct (entries !! x). }
  destruct H as (ys & -> & H). simpl. split; [by apply Forall2_length in H|].
  intros s Hs. apply list_elem_of_lookup_1 in Hs as [i Hi].
  destruct (Forall2_lookup_r _ _ _ _ _ H Hi) as (x & _ & Hx).
  apply obind_Ok in Hx as (e & He & [= <-]). apply some_or_panic_Ok in He.
  exists e. split; [by eapply list_elem_of_lookup_2|done].
Qed.

(** ** Insertion sort *)

Definition sorted_prices (l : list Z) : Prop := Sorted Z.le l.

(** What the inner loop does to the sorted prefix before the hole. *)
Fixpoint insert_sorted (key : Z) (l : list Z) : list Z :=
  match l with
  | [] => [key]
  | x :: l => if x <=? key then x :: insert_sorted key l else key :: x :: l
  end.

Lemma insert_sorted_perm key l : insert_sorted key l ≡ₚ key :: l.
Proof.
  induction l as [|x l IH]; simpl; [done|]. destruct (x <=? key); [|done].
  rewrite IH. constructor.
Qed.

Lemma insert_sorted_sorted key l : StronglySorted Z.le l -> StronglySorted Z.le (insert_sorted key l).
Proof.
  induction 1 as [|x l Hl IH Hx]; simpl; [by repeat constructor|].
  destruct (x <=? key) eqn:?; zbool.
  - constructor; [done|]. rewrite insert_sorted_perm. by constructor.
  - constructor; [by constructor|]. constructor; [lia|].
    eapply Forall_impl; [exact Hx|]. simpl. lia.
Qed.

Lemma insert_sorted_last_gt key l y :
  StronglySorted Z.le (l ++ [y]) -> key < y -> insert_sorted key (l ++ [y]) = insert_sorted key l ++ [y].
Proof.
  induction l as [|x l IH]; intros Hs Hy; simpl.
  - destruct (y <=? key) eqn:?; zbool; [lia|done].
  - apply StronglySorted_inv in Hs as [Hs Hx]. destruct (x <=? key) eqn:?; [|done].
    by rewrite IH.
Qed.

Lemma insert_sorted_last_le key l y :
  StronglySorted Z.le (l ++ [y]) -> y ≤ key -> insert_sorted key (l ++ [y]) = l ++ [y; key].
Proof.
  induction l as [|x l IH]; intros Hs Hy; simpl.
  - destruct (y <=? key) eqn:?; zbool; [done|lia].
  - apply StronglySorted_inv in Hs as [Hs Hx].
    rewrite Forall_app, Forall_singleton in Hx.
    destruct (x <=? key) eqn:?; zbool; [by rewrite IH|lia].
Qed.

Lemma insert_at_end {A} (l : list A) x y k :
  <[length l:=y]> (l ++ x :: k) = l ++ y :: k.
Proof. rewrite insert_app_r_alt, Nat.sub_diag by done. done. Qed.

Lemma sort_shift_insert key A : ∀ x B,
  StronglySorted Z.le A ->
  sort_shift (A ++ x :: B) key (length A) = insert_sorted key A ++ B.
Proof.
  induction A as [|y A IH] using rev_ind; intros x B HA; [done|].
  rewrite length_app, Nat.add_1_r. simpl. rewrite <-app_assoc. simpl.
  rewrite list_lookup_middle by done. simpl.
  replace (S (length A)) with (length (A ++ [y])) by (rewrite length_app; simpl; lia).
  assert (StronglySorted Z.le A) as HA'.
  { clear -HA. induction A; simpl in *; [constructor|].
    apply StronglySorted_inv in HA as [H1 H2]. rewrite Forall_app in H2.
    constructor; [auto|apply H2]. }
  destruct (y >? key) eqn:?; zbool.
  - rewrite insert_sorted_last_gt by done.
    replace (A ++ y :: x :: B) with ((A ++ [y]) ++ x :: B) by by rewrite <-app_assoc.
    rewrite insert_at_end, <-!app_assoc. simpl. by rewrite IH.
  - rewrite insert_sorted_last_le by (done || lia).
    replace (A ++ y :: x :: B) with ((A ++ [y]) ++ x :: B) by by rewrite <-app_assoc.
    rewrite insert_at_end, <-!app_assoc. done.
Qed.

Definition sort_prefix (prices : list Z) (n : nat) : list Z :=
  fold_left (λ ps i, sort_shift ps (default 0 (ps !! i)) i) (seq 1 n) prices.

Lemma sort_prefix_spec prices n :
  (n < length prices)%nat ->
  ∃ A, sort_prefix prices n = A ++ drop (S n) prices ∧
       StronglySorted Z.le A ∧ A ≡ₚ take (S n) prices.
Proof.
  induction n as [|n IH]; intros Hn.
  - destruct prices as [|x prices]; simpl in Hn; [lia|].
    exists [x]. split; [done|]. split; [repeat constructor|done].
  - destruct IH as (A & HA & Hs & Hp); [lia|]. unfold sort_prefix in *.
    rewrite seq_S, fold_left_app. cbn [fold_left].
    change (1 + n)%nat with (S n). rewrite HA.
    destruct (lookup_lt_is_Some_2 prices (S n)) as [x Hx]; [lia|].
    assert (length A = S n) as Hlen by (rewrite Hp, length_take; lia).
    rewrite (drop_S _ _ _ Hx). rewrite list_lookup_middle by done. cbn [default].
    pose proof (sort_shift_insert x A x (drop (S (S n)) prices) Hs) as Hss.
    rewrite Hlen in Hss. unfold id. rewrite Hss.
    exists (insert_sorted x A). split; [done|]. split; [by apply insert_sorted_sorted|].
    rewrite insert_sorted_perm, Hp, (take_S_r _ _ _ Hx), Permutation_cons_append. done.
Qed.

Lemma sort_prices_spec prices :
  StronglySorted Z.le (sort_prices_in_place prices) ∧ sort_prices_in_place prices ≡ₚ prices.
Proof.
  destruct prices as [|x prices]; [split; constructor|].
  destruct (sort_prefix_spec (x :: prices) (length prices)) as (A & HA & Hs & Hp);
    [simpl; lia|].
  unfold sort_prices_in_place. replace (length (x :: prices) - 1)%nat with (length prices) by (simpl; lia).
  fold (sort_prefix (x :: prices) (length prices)). rewrite HA.
  rewrite drop_ge, app_nil_r by (simpl; lia). rewrite take_ge in Hp by (simpl; lia). done.
Qed.

Lemma sorted_lookup_le (l : list Z) i j a b :
  StronglySorted Z.le l -> (i ≤ j)%nat -> l !! i = Some a -> l !! j = Some b -> a ≤ b.
Proof.
  intros Hs. revert i j. induction Hs as [|x l Hs IH Hx]; intros i j Hij Ha Hb; [done|].
  destruct i as [|i], j as [|j]; simplify_eq/=; [lia| |lia|].
  - rewrite Forall_forall in Hx. by eapply Hx, list_elem_of_lookup_2.
  - by eapply (IH i j); [lia|..].
Qed.

(** ** Properties *)

(** The UpDown fee split conserves the pot: the two distributable pools and
    the fee add up to the two pools, the fee is the floor of the rate applied
    to the pot, it is taken from the losing pool first, and no distributable
    pool is negative or larger than the pool it comes from. *)
Theorem updown_fee_split w l bps dw dl fee :
  compute_updown_fee w l bps = Ok (dw, dl, fee) ->
  0 ≤ w -> 0 ≤ l -> 0 ≤ fee_rate bps ≤ BPS_DENOMINATOR ->
  dw + dl + fee = w + l ∧ fee = (w + l) * fee_rate bps / BPS_DENOMINATOR ∧
  dl = l - Z.min fee l ∧ 0 ≤ dw ≤ w ∧ 0 ≤ dl ≤ l.
Proof.
  intros H Hw Hl Hb.
  destruct (compute_updown_fee_bounds _ _ _ _ _ _ H Hw Hl Hb) as (? & ? & ?).
  destruct (compute_updown_fee_inv _ _ _ _ _ _ H) as (Hsum & Hfee & Hdl).
  rewrite quot_div_nonneg in Hfee by (unfold BPS_DENOMINATOR in *; nia).
  split_and!; try done; try lia. destruct (fee =? 0) eqn:?; zbool; lia.
Qed.

Lemma updown_fee_split_witness :
  990 + 0 + 110 = 1000 + 100 ∧ 110 = (1000 + 100) * fee_rate (Some 1000) / BPS_DENOMINATOR ∧
  0 = 100 - Z.min 110 100 ∧ 0 ≤ 990 ≤ 1000 ∧ 0 ≤ 0 ≤ 100.
Proof.
  apply (updown_fee_split 1000 100 (Some 1000) 990 0 110);
    [vm_compute; reflexivity|lia|lia|vm_compute; split; discriminate].
Defined.

(** The UpDown payout vector of a round whose pools hold the stakes of its
    positions.  Either every entry is refunded its stake, or the winners
    together get at most the pot less the fee, and the rounding leaves fewer
    units undistributed than there are winners. *)
Theorem updown_payouts_conserve positions start_price final_price bps es :
  let up := side_pool true positions in
  let down := side_pool false positions in
  let fee := (up + down) * fee_rate bps / BPS_DENOMINATOR in
  compute_updown_payouts positions start_price final_price up down bps = Ok es ->
  (∀ p, p ∈ positions -> 0 ≤ up_amount p) ->
  0 ≤ fee_rate bps ≤ BPS_DENOMINATOR ->
  zsum ue_payout es = zsum up_amount positions ∨
  ∃ side, (side = true <-> start_price < final_price) ∧ start_price ≠ final_price ∧
    up + down - fee - Z.of_nat (length (updown_winners side positions))
      < zsum ue_payout es ≤ up + down - fee.
Proof.
  intros up down fee H Hpos Hb. unfold compute_updown_payouts in H.
  assert (∀ side, 0 ≤ side_pool side positions) as Hside.
  { intros side. apply zsum_nonneg. intros p [_ Hp]%list_elem_of_filter. auto. }
  pose proof (Hside true) as Hup. pose proof (Hside false) as Hdown.
  assert (zsum ue_payout (updown_refunds positions) = zsum up_amount positions) as Href.
  { unfold updown_refunds. by rewrite zsum_fmap. }
  destruct (_ || _) eqn:Hor; [injection H as <-; by left|].
  apply orb_false_iff in Hor as [Hdir _]. apply bool_decide_eq_false in Hdir.
  set (side := bool_decide (classify_price_direction start_price final_price = DirUp)).
  assert (match classify_price_direction start_price final_price with
          | DirUp => (true, up, down) | _ => (false, down, up) end =
          (side, side_pool side positions, side_pool (negb side) positions)) as Hm.
  { unfold side. by destruct (classify_price_direction _ _). }
  fold up down in H. rewrite Hm in H. clear Hm.
  destruct (_ =? 0) eqn:Hz; zbool; [injection H as <-; by left|right].
  assert (side = true <-> start_price < final_price) as Hs.
  { unfold side. rewrite bool_decide_eq_true. unfold classify_price_direction.
    destruct (final_price >? start_price) eqn:?; [zbool; split; intros; lia || done|].
    destruct (final_price <? start_price) eqn:?; zbool; split; intros; (done || lia). }
  assert (start_price ≠ final_price) as Hne.
  { intros ->. apply Hdir. unfold classify_price_direction.
    rewrite Z.gtb_ltb, Z.ltb_irrefl. done. }
  exists side. split; [done|]. split; [done|].
  apply obind_Ok in H as ([[dw dl] fee'] & Efee & H).
  apply obind_Ok in H as (d & Ed & H). apply payout_add_Ok in Ed as [-> _].
  destruct (compute_updown_fee_bounds _ _ _ _ _ _ Efee) as (? & ? & ?); [auto..|].
  destruct (compute_updown_fee_inv _ _ _ _ _ _ Efee) as (Hsum & Hfee & _).
  assert (side_pool side positions + side_pool (negb side) positions = up + down) as Hpot.
  { unfold up, down. destruct side; simpl; lia. }
  rewrite Hpot, quot_div_nonneg in Hfee by (unfold BPS_DENOMINATOR in *; nia).
  fold fee in Hfee. subst fee'. specialize (Hside side).
  rewrite (updown_entries_sum _ _ _ _ _ H) by (done || lia).
  replace (up + down - fee) with (dw + dl) by lia.
  apply (pro_rata_bounds up_amount); unfold side_pool in *; lia.
Qed.

Definition sample_positions : list UpDownPosition :=
  [ {| up_index := 0; up_amount := 100; side_up := true |};
    {| up_index := 1; up_amount := 200; side_up := true |};
    {| up_index := 2; up_amount := 100; side_up := false |} ].

Lemma updown_payouts_conserve_witness :
  zsum ue_payout
    [ {| ue_index := 0; ue_stake := 100; ue_payout := 129; ue_is_winner := true; ue_is_refund := false |};
      {| ue_index := 1; ue_stake := 200; ue_payout := 258; ue_is_winner := true; ue_is_refund := false |};
      {| ue_index := 2; ue_stake := 100; ue_payout := 0; ue_is_winner := false; ue_is_refund := false |} ]
    = 400 ∨
  ∃ side, (side = true <-> 5 < 7) ∧ 5 ≠ 7 ∧
    300 + 100 - 12 - Z.of_nat (length (updown_winners side sample_positions)) < 387 ≤ 300 + 100 - 12.
Proof.
  apply (updown_payouts_conserve sample_positions 5 7 (Some 300)).
  - vm_compute. reflexivity.
  - intros p Hp. unfold sample_positions in Hp.
    repeat (apply elem_of_cons in Hp as [->|Hp]; [vm_compute; discriminate|]). by apply not_elem_of_nil in Hp.
  - vm_compute. split; discriminate.
Defined.

(** C28: with no confidence band the precision winners are exactly the revealed
    entries whose score is minimal among the revealed ones, for both scoring
    modes; unrevealed commitments never win. *)
Theorem precision_winners_minimise entries final_price mode i :
  let policy := {| scoring_mode := mode; confidence_band := None |} in
  i ∈ winner_indices (find_precision_winners_with_policy entries final_price policy) <->
  ∃ e, e ∈ entries ∧ pe_revealed e = true ∧ pe_index e = i ∧
    ∀ e', e' ∈ entries -> pe_revealed e' = true ->
      score_of policy final_price e ≤ score_of policy final_price e'.
Proof.
  intros policy.
  assert (∀ e, e ∈ revealed_entries entries <-> e ∈ entries ∧ pe_revealed e = true) as Hrev.
  { intros e. unfold revealed_entries. rewrite list_elem_of_filter. naive_solver. }
  destruct (decide (revealed_entries entries = [])) as [Hr|Hr].
  - rewrite find_winners_none by done. split; [set_solver|].
    intros (e & He & Hre & _). assert (e ∈ revealed_entries entries) as Hin by by apply Hrev.
    rewrite Hr in Hin. set_solver.
  - destruct (min_score_exists policy final_price _ Hr) as [best Hb].
    rewrite (find_winners_spec _ _ _ best Hb), list_elem_of_fmap.
    destruct Hb as [(e0 & He0 & Hs0) Hmin]. apply Hrev in He0 as [He0 Hr0].
    setoid_rewrite list_elem_of_filter. unfold band_wins. simpl. split.
    + intros (e & -> & Hs & He). zbool. exists e.
      pose proof (proj1 (Hrev e) He) as [? ?]. split_and!; [done..|].
      intros e' He' Hr'. rewrite Hs. by apply Hmin, Hrev.
    + intros (e & He & Hre & <- & Hle). exists e. split; [done|].
      split; [|by apply Hrev]. apply Z.eqb_eq.
      specialize (Hle e0 He0 Hr0). specialize (Hmin e ltac:(by apply Hrev)). lia.
Qed.

(** The precision payout vector conserves the pot under both payout
    policies: what the entries receive, plus the fee when somebody wins, is
    exactly the sum of the stakes. *)
Theorem precision_payouts_conserve entries final_price bps scoring payout_policy ps :
  compute_precision_payouts_with_policy entries final_price bps scoring payout_policy = Ok ps ->
  NoDup (pe_index <$> entries) ->
  (∀ e, e ∈ entries -> 0 ≤ pe_amount e) -> zsum pe_amount entries ≤ I128_MAX ->
  0 ≤ fee_rate bps < BPS_DENOMINATOR ->
  let winners := winner_indices (find_precision_winners_with_policy entries final_price scoring) in
  zsum ppe_payout ps +
    (if bool_decide (winners = []) then 0
     else zsum pe_amount entries * fee_rate bps / BPS_DENOMINATOR)
  = zsum pe_amount entries.
Proof.
  intros H Hnd Hpos Hmax Hb winners. unfold compute_precision_payouts_with_policy in H.
  fold winners in H. rewrite find_winners_pot in H by done.
  assert (0 ≤ zsum pe_amount entries) as Hpot by by apply zsum_nonneg.
  destruct (bool_decide (winners = [])) eqn:Hw; simpl in H.
  { destruct (_ >? 0) eqn:?; zbool.
    - injection H as <-. rewrite zsum_fmap. simpl. by rewrite Z.add_0_r.
    - rewrite orb_true_r in H. injection H as <-. rewrite zsum_fmap. simpl.
      rewrite zsum_zero. lia. }
  apply bool_decide_eq_false in Hw. rewrite orb_false_r in H.
  destruct (_ <=? 0) eqn:?; zbool.
  { injection H as <-. rewrite zsum_fmap. simpl. rewrite zsum_zero.
    replace (zsum pe_amount entries) with 0 by lia. done. }
  apply obind_Ok in H as ([d fee] & Efee & H). apply obind_Ok in H as (shares & Es & H).
  apply precision_entries_sum in H as ->.
  assert (0 < d ∧ d = zsum pe_amount entries - zsum pe_amount entries * fee_rate bps / BPS_DENOMINATOR)
    as [Hd Hdv].
  { assert (zsum pe_amount entries * fee_rate bps / BPS_DENOMINATOR < zsum pe_amount entries).
    { apply Z.div_lt_upper_bound; unfold BPS_DENOMINATOR in *; nia. }
    assert (fee = zsum pe_amount entries * fee_rate bps / BPS_DENOMINATOR).
    { unfold compute_precision_fee, fee_rate in *. destruct bps as [b|]; simpl in *.
      - destruct (_ <=? 0) eqn:?; zbool; [lia|]. ok_inv Efee. simplify_eq. checked_inv.
        apply quot_div_nonneg; unfold BPS_DENOMINATOR in *; nia.
      - injection Efee as _ <-. by rewrite Z.mul_0_r. }
    apply compute_precision_fee_inv in Efee. lia. }
  assert (0 < length winners)%nat by (destruct winners; simpl; [done|lia]).
  assert (zsum id shares = d ∧ length winners = length shares) as [Hsh Hlen].
  { destruct payout_policy.
    - split; [by eapply equal_split_sum|]. rewrite (equal_split_inv _ _ _ Es) by lia.
      simpl. rewrite length_replicate. lia.
    - apply obind_Ok in Es as (ss & Ess & Es).
      destruct (winner_stakes_inv _ _ _ Ess) as [Hl Hss].
      destruct (weighted_split_sum _ _ _ Es) as [? ?]; [done| | |split; [done|congruence]].
      + intros ->. simpl in Hl. lia.
      + intros s Hs. destruct (Hss s Hs) as (e & He & ->). auto. }
  rewrite (share_of_sum _ _ shares); [lia|done|apply winners_sublist|done].
Qed.

Definition sample_entries : list PrecisionEntry :=
  [ {| pe_index := 0; pe_predicted_price := 95; pe_amount := 100; pe_revealed := true |};
    {| pe_index := 1; pe_predicted_price := 105; pe_amount := 201; pe_revealed := true |};
    {| pe_index := 2; pe_predicted_price := 100; pe_amount := 50; pe_revealed := false |} ].

Definition sample_payouts : list PrecisionPayoutEntry :=
  default [] (match compute_precision_payouts_with_policy sample_entries 100 (Some 500)
                      default_scoring StakeWeighted with Ok ps => Some ps | _ => None end).

Lemma precision_payouts_conserve_witness :
  let winners := winner_indices (find_precision_winners_with_policy sample_entries 100 default_scoring) in
  zsum ppe_payout sample_payouts +
    (if bool_decide (winners = []) then 0 else 351 * 500 / BPS_DENOMINATOR) = 351.
Proof.
  apply (precision_payouts_conserve sample_entries 100 (Some 500) default_scoring StakeWeighted
           sample_payouts).
  - vm_compute. reflexivity.
  - apply (bool_decide_eq_true_1 _). vm_compute. reflexivity.
  - intros e He. unfold sample_entries in He.
    repeat (apply elem_of_cons in He as [->|He]; [vm_compute; discriminate|]). by apply not_elem_of_nil in He.
  - vm_compute. discriminate.
  - vm_compute. split; [discriminate|reflexivity].
Defined.

(** Sorting the observations and taking the median yields a price between
    the two middle observations of the sorted feed, so as many observations lie
    on each side of it: a minority of wild feeds cannot move it out of the range
    of the others. *)
Theorem median_of_sorted_between prices m :
  median_of_sorted (sort_prices_in_place prices) = Some m ->
  (∀ p, p ∈ prices -> 0 ≤ p ∧ 2 * p ≤ U128_MAX) ->
  ∃ sorted a b, sorted ≡ₚ prices ∧ StronglySorted Z.le sorted ∧
    sorted !! ((length prices - 1) / 2)%nat = Some a ∧
    sorted !! (length prices / 2)%nat = Some b ∧ a ≤ m ≤ b ∧ m = (a + b) / 2.
Proof.
  intros H Hp. destruct (sort_prices_spec prices) as [Hs Hperm].
  exists (sort_prices_in_place prices). revert H Hs Hperm.
  generalize (sort_prices_in_place prices) as l. intros l H Hs Hperm.
  unfold median_of_sorted in H. rewrite <-(Permutation_length Hperm).
  destruct (length l =? 0)%nat eqn:H0; [done|]. apply Nat.eqb_neq in H0.
  pose proof (Nat.div_mod (length l) 2 ltac:(lia)) as Hdm.
  pose proof (Nat.mod_upper_bound (length l) 2 ltac:(lia)).
  destruct (_ =? 1)%nat eqn:Hodd; [apply Nat.eqb_eq in Hodd|apply Nat.eqb_neq in Hodd].
  - exists m, m.
    replace ((length l - 1) / 2)%nat with (length l / 2)%nat.
    2:{ apply Nat.div_unique with 0%nat; lia. }
    split_and!; [done..|]. replace (m + m) with (m * 2) by lia. by rewrite Z.div_mul.
  - apply bind_Some in H as (a & Ha & H). apply bind_Some in H as (b & Hb & [= <-]).
    assert ((length l - 1) / 2 = length l / 2 - 1)%nat as Hmid.
    { symmetry. apply Nat.div_unique with 1%nat; lia. }
    rewrite Hmid. clear Hmid.
    exists a, b.
    destruct (Hp a) as [? ?]; [rewrite <-Hperm; by eapply list_elem_of_lookup_2|].
    destruct (Hp b) as [? ?]; [rewrite <-Hperm; by eapply list_elem_of_lookup_2|].
    assert (a ≤ b) as Hab.
    { eapply (sorted_lookup_le l (length l / 2 - 1) (length l / 2)); try done. lia. }
    assert (u128_saturating_add a b = a + b) as Hsat.
    { unfold u128_saturating_add, clamp. lia. }
    rewrite Hsat. split_and!; [done..| | |done].
    + apply Z.div_le_lower_bound; lia.
    + apply Z.div_le_upper_bound; lia.
Qed.

Lemma median_of_sorted_between_witness :
  ∃ sorted a b, sorted ≡ₚ [40; 10; 999; 30] ∧ StronglySorted Z.le sorted ∧
    sorted !! 1%nat = Some a ∧ sorted !! 2%nat = Some b ∧ a ≤ 35 ≤ b ∧ 35 = (a + b) / 2.
Proof.
  apply (median_of_sorted_between [40; 10; 999; 30] 35); [vm_compute; reflexivity|].
  intros p Hp. repeat (apply elem_of_cons in Hp as [->|Hp]; [vm_compute; split; discriminate|]).
  by apply not_elem_of_nil in Hp.
Defined.

(** The deviation in basis points is the floor of the relative distance,
    symmetric in the direction of the move; a zero reference is rejected and a
    move too large for the result type is an [Overflow], never a wrapped value. *)
Theorem deviation_bps_spec price reference :
  0 ≤ price ≤ U128_MAX -> 0 ≤ reference ≤ U128_MAX ->
  compute_deviation_bps price reference =
    if reference =? 0 then Err InvalidPrice
    else if (Z.abs (price - reference) * 10000 <=? U128_MAX) &&
            (Z.abs (price - reference) * 10000 / reference <=? U32_MAX)
    then Ok (Z.abs (price - reference) * 10000 / reference)
    else Err Overflow.
Proof.
  intros Hp Hr. unfold compute_deviation_bps.
  destruct (reference =? 0) eqn:H0; zbool; [done|].
  assert ((if price >=? reference
           then some_or (u128_checked_sub price reference) Overflow
           else some_or (u128_checked_sub reference price) Overflow)
          = Ok (Z.abs (price - reference))) as ->.
  { destruct (price >=? reference) eqn:?; zbool; apply some_or_Ok, checked_Some;
      rewrite in_u128_spec; lia. }
  cbn [mbind outcome_bind]. unfold u128_checked_mul, u32_try_from, checked, in_u128, in_u32.
  assert (0 ≤ Z.abs (price - reference) * 10000 / reference) by (apply Z.div_pos; lia).
  rewrite (proj2 (Z.leb_le 0 (_ * 10000))) by lia. simpl.
  destruct (_ <=? U128_MAX) eqn:?; [|done]. simpl.
  rewrite (proj2 (Z.leb_le 0 (_ / _))) by lia. simpl. by destruct (_ <=? U32_MAX).
Qed.

Lemma deviation_bps_spec_witness : compute_deviation_bps 110 100 = Ok 1000.
Proof.
  exact (eq_trans (deviation_bps_spec 110 100 ltac:(vm_compute; split; discriminate)
                     ltac:(vm_compute; split; discriminate)) eq_refl).
Defined.
