(* ===== verification/Replay.v ===== *)
(** * The replay engine

    src/replay-engine: a transcript of a round, its schema check, the
    deterministic replay of its settlement and the comparison of a replay with
    the outcome recorded live.  Strings (addresses, commitment hashes) are opaque;
    a mismatch is a constructor per diagnosed field instead of formatted text. *)

From S2P Require Export SettlementMathFacts.

(** ** transcript.rs *)

Definition TRANSCRIPT_SCHEMA_VERSION : Z := 1.

Inductive TranscriptMode := TUpDown | TPrecision.
Inductive TerminalAction := TaResolve | TaCancel | TaVoid | TaFallbackRefund.
Inductive ArchiveStatus := AsResolved | AsCancelled | AsFallbackRefund | AsVoided.
Inductive OutcomeKind := OkWin | OkLoss | OkRefund | OkVoid.

#[export] Instance ArchiveStatus_eq_dec : EqDecision ArchiveStatus := ltac:(solve_decision).
#[export] Instance OutcomeKind_eq_dec : EqDecision OutcomeKind := ltac:(solve_decision).

Record OracleTranscript := {
  ot_price : Z; ot_timestamp : Z; ot_round_id : Z; ot_nonce : Z; ot_confidence : option Z }.
Record CommitRevealRecord := {
  commit_hash_hex : option string; cr_revealed : bool; cr_predicted_price : Z }.
Record TranscriptParticipant := {
  tp_index : nat; tp_address : option string; tp_amount : Z; tp_side_up : option bool;
  commit_reveal : CommitRevealRecord }.
Record ExpectedPayout := { ep_index : nat; ep_payout : Z; ep_outcome : OutcomeKind }.
Record ExpectedOutcome := {
  eo_archive_status : ArchiveStatus; eo_total_fee : Z; eo_payouts : list ExpectedPayout }.
Record RoundTranscript := {
  tr_schema_version : Z; tr_round_id : Z; tr_mode : TranscriptMode; terminal : TerminalAction;
  tr_price_start : Z; final_price : Z; tr_pool_up : Z; tr_pool_down : Z; fee_bps : option Z;
  min_participants : option Z; participant_count : Z; tr_oracle : OracleTranscript;
  participants : list TranscriptParticipant; expected : ExpectedOutcome }.

Inductive TranscriptError :=
  | UnsupportedSchema (v : Z)
  | EmptyParticipants
  | ParticipantOrder (expected_index found_index : nat)
  | ParticipantCountMismatch (declared actual : Z).

(** [len() as u32]. *)
Definition as_u32 (n : nat) : Z := Z.of_nat n `mod` 2 ^ 32.

(** The first participant that does not carry its own position. *)
Fixpoint misplaced (i : nat) (l : list TranscriptParticipant) : option (nat * nat) :=
  match l with
  | [] => None
  | p :: l => if (tp_index p =? i)%nat then misplaced (S i) l else Some (i, tp_index p)
  end.

Definition validate_schema (t : RoundTranscript) : option TranscriptError :=
  if negb (tr_schema_version t =? TRANSCRIPT_SCHEMA_VERSION)
  then Some (UnsupportedSchema (tr_schema_version t))
  else if bool_decide (participants t = []) then Some EmptyParticipants
  else match misplaced 0 (participants t) with
       | Some (expected_index, found_index) => Some (ParticipantOrder expected_index found_index)
       | None =>
           if participant_count t =? Z.of_nat (length (participants t)) then None
           else Some (ParticipantCountMismatch (participant_count t) (as_u32 (length (participants t))))
       end.

(** [sort_by_key(|p| p.index)], which is stable. *)
Fixpoint insert_by_index (p : TranscriptParticipant) (l : list TranscriptParticipant)
  : list TranscriptParticipant :=
  match l with
  | [] => [p]
  | q :: l => if (tp_index p <=? tp_index q)%nat then p :: q :: l else q :: insert_by_index p l
  end.
Definition sort_by_index (l : list TranscriptParticipant) : list TranscriptParticipant :=
  foldr insert_by_index [] l.

Definition canonicalize_participants (t : RoundTranscript) : RoundTranscript :=
  {| tr_schema_version := tr_schema_version t; tr_round_id := tr_round_id t; tr_mode := tr_mode t;
     terminal := terminal t; tr_price_start := tr_price_start t; final_price := final_price t;
     tr_pool_up := tr_pool_up t; tr_pool_down := tr_pool_down t; fee_bps := fee_bps t;
     min_participants := min_participants t; participant_count := as_u32 (length (participants t));
     tr_oracle := tr_oracle t; participants := sort_by_index (participants t); expected := expected t |}.

(** ** hash.rs: the commitment of a transcript, over a serialiser and a digest *)

Definition transcript_commitment_hex (to_json : RoundTranscript -> option string)
    (sha256_hex : string -> string) (t : RoundTranscript) : string + TranscriptError :=
  match validate_schema t with
  | Some e => inr e
  | None =>
      match to_json t with
      | Some canonical => inl (sha256_hex canonical)
      | None => inr EmptyParticipants
      end
  end.

(** ** engine.rs *)

Record ReplayPayout := { rp_index : nat; rp_payout : Z; rp_outcome : OutcomeKind }.
Record ReplayResult := {
  rr_archive_status : ArchiveStatus; rr_total_fee : Z; rr_payouts : list ReplayPayout }.

Inductive ReplayError :=
  | RTranscript (e : TranscriptError)
  | RSettlement (e : ContractError)
  | OracleRoundMismatch (transcript oracle : Z).

(** The result of a replay; [RPanic] is a trap of the shared arithmetic or of
    the sum of the amounts. *)
Inductive replayed :=
  | ROk (r : ReplayResult)
  | RErr (e : ReplayError)
  | RPanic.

(** [?] on a settlement-math result. *)
Definition settled_math {A} (o : outcome A) (k : A -> replayed) : replayed :=
  match o with
  | Ok a => k a
  | Err e => RErr (RSettlement e)
  | Panic => RPanic
  end.

Definition outcome_of_flags (is_refund is_winner : bool) : OutcomeKind :=
  if is_refund then OkRefund else if is_winner then OkWin else OkLoss.

Definition replay_full_refund (t : RoundTranscript) (status : ArchiveStatus) (kind : OutcomeKind)
  : replayed :=
  ROk {| rr_archive_status := status; rr_total_fee := 0;
         rr_payouts :=
           (λ p, {| rp_index := tp_index p; rp_payout := tp_amount p; rp_outcome := kind |})
             <$> participants t |}.

Definition transcript_position (p : TranscriptParticipant) : UpDownPosition :=
  {| up_index := tp_index p; up_amount := tp_amount p; side_up := default true (tp_side_up p) |}.

Definition replay_updown (t : RoundTranscript) : replayed :=
  settled_math (compute_updown_payouts (transcript_position <$> participants t) (tr_price_start t)
                  (final_price t) (tr_pool_up t) (tr_pool_down t) (fee_bps t)) (λ entries,
    let all_refund := forallb ue_is_refund entries in
    let total_fee :=
      if all_refund then 0
      else match compute_updown_fee (Z.max (tr_pool_up t) 0) (Z.max (tr_pool_down t) 0) (fee_bps t) with
           | Ok (_, _, fee_amount) => fee_amount
           | _ => 0
           end in
    ROk {| rr_archive_status := AsResolved; rr_total_fee := total_fee;
           rr_payouts :=
             (λ e, {| rp_index := ue_index e; rp_payout := ue_payout e;
                      rp_outcome := outcome_of_flags (ue_is_refund e) (ue_is_winner e) |})
               <$> entries |}).

Definition transcript_entry (p : TranscriptParticipant) : PrecisionEntry :=
  {| pe_index := tp_index p; pe_predicted_price := cr_predicted_price (commit_reveal p);
     pe_amount := tp_amount p; pe_revealed := cr_revealed (commit_reveal p) |}.

(** [iter().sum()] with overflow checks. *)
Definition checked_sum (l : list Z) : outcome Z :=
  ofold l 0 (λ acc x, some_or_panic (i128_checked_add acc x)).

Definition replay_precision (t : RoundTranscript) : replayed :=
  let entries := transcript_entry <$> participants t in
  settled_math (checked_sum (pe_amount <$> entries)) (λ total_pot,
    let fee_amount :=
      match compute_precision_fee total_pot (fee_bps t) with
      | Ok (_, fee_amount) => fee_amount
      | _ => 0
      end in
    settled_math (compute_precision_payouts entries (final_price t) (fee_bps t)) (λ math,
      let all_refund := forallb ppe_is_refund math in
      ROk {| rr_archive_status := AsResolved; rr_total_fee := if all_refund then 0 else fee_amount;
             rr_payouts :=
               (λ e, {| rp_index := ppe_index e; rp_payout := ppe_payout e;
                        rp_outcome := outcome_of_flags (ppe_is_refund e) (ppe_is_winner e) |})
                 <$> math |})).

Definition replay_resolve (t : RoundTranscript) : replayed :=
  match tr_mode t with TUpDown => replay_updown t | TPrecision => replay_precision t end.

Definition replay_round (t : RoundTranscript) : replayed :=
  match validate_schema t with
  | Some e => RErr (RTranscript e)
  | None =>
      if negb (ot_round_id (tr_oracle t) =? tr_round_id t)
      then RErr (OracleRoundMismatch (tr_round_id t) (ot_round_id (tr_oracle t)))
      else match terminal t with
           | TaCancel => replay_full_refund t AsCancelled OkVoid
           | TaVoid => replay_full_refund t AsVoided OkVoid
           | TaFallbackRefund => replay_full_refund t AsFallbackRefund OkRefund
           | TaResolve =>
               if from_option (λ m, participant_count t <? m) false (min_participants t)
               then replay_full_refund t AsFallbackRefund OkRefund
               else replay_resolve t
           end
  end.

Definition expected_payout (p : ReplayPayout) : ExpectedPayout :=
  {| ep_index := rp_index p; ep_payout := rp_payout p; ep_outcome := rp_outcome p |}.

Definition replay_to_expected (r : ReplayResult) : ExpectedOutcome :=
  {| eo_archive_status := rr_archive_status r; eo_total_fee := rr_total_fee r;
     eo_payouts := expected_payout <$> rr_payouts r |}.

(** ** diagnostics.rs *)

Inductive Mismatch :=
  | MStatus (expected replayed : ArchiveStatus)
  | MFee (expected replayed : Z)
  | MCount (expected replayed : nat)
  | MIndex (i expected replayed : nat)
  | MPayout (i : nat) (expected replayed : Z)
  | MOutcome (i : nat) (expected replayed : OutcomeKind).

Definition payout_mismatches (er : ExpectedPayout * ReplayPayout) : list Mismatch :=
  let '(exp, rep) := er in
  (if (ep_index exp =? rp_index rep)%nat then [] else [MIndex (ep_index exp) (ep_index exp) (rp_index rep)])
  ++ (if ep_payout exp =? rp_payout rep then [] else [MPayout (ep_index exp) (ep_payout exp) (rp_payout rep)])
  ++ (if bool_decide (ep_outcome exp = rp_outcome rep) then []
      else [MOutcome (ep_index exp) (ep_outcome exp) (rp_outcome rep)]).

Definition compare_replay (t : RoundTranscript) (r : ReplayResult) : list Mismatch :=
  let e := expected t in
  let out :=
    (if bool_decide (eo_archive_status e = rr_archive_status r) then []
     else [MStatus (eo_archive_status e) (rr_archive_status r)])
    ++ (if eo_total_fee e =? rr_total_fee r then [] else [MFee (eo_total_fee e) (rr_total_fee r)]) in
  if (length (eo_payouts e) =? length (rr_payouts r))%nat
  then out ++ (zip (eo_payouts e) (rr_payouts r) ≫= payout_mismatches)
  else out ++ [MCount (length (eo_payouts e)) (length (rr_payouts r))].

Definition outcome_from_flags (is_winner is_refund void : bool) : OutcomeKind :=
  if void then OkVoid else if is_refund then OkRefund else if is_winner then OkWin else OkLoss.

Definition assert_live_matches_replay (t : RoundTranscript) (r : ReplayResult)
  : () + list Mismatch :=
  let mismatches := compare_replay t r in
  if bool_decide (mismatches = []) then inl () else inr mismatches.

(** ** The comparison decides equality with the recorded outcome *)

Lemma payout_mismatches_nil e r : payout_mismatches (e, r) = [] <-> e = expected_payout r.
Proof.
  destruct e as [i p o], r as [i' p' o']. unfold expected_payout. simpl.
  destruct (i =? i')%nat eqn:Hi, (p =? p') eqn:Hp; simpl; case_bool_decide; simpl; zbool;
    rewrite ?Nat.eqb_eq, ?Nat.eqb_neq in Hi; split; intros; simplify_eq; done.
Qed.

Lemma zip_mismatches_nil es rs :
  length es = length rs ->
  zip es rs ≫= payout_mismatches = [] <-> es = expected_payout <$> rs.
Proof.
  revert rs. induction es as [|e es IH]; intros [|r rs] Hlen; try done.
  injection Hlen as Hlen. specialize (IH rs Hlen).
  change (payout_mismatches (e, r) ++ (zip es rs ≫= payout_mismatches) = []
          <-> e :: es = expected_payout r :: (expected_payout <$> rs)).
  rewrite app_nil, payout_mismatches_nil, IH. split; [by intros [-> ->]|by intros [= -> ->]].
Qed.

(** The parity check reports no mismatch exactly when the outcome recorded in
    the transcript is the one the replay computed: the status, the fee and every
    payout with its index and classification. *)
Theorem parity_check_exact t r :
  assert_live_matches_replay t r = inl () <-> expected t = replay_to_expected r.
Proof.
  unfold assert_live_matches_replay. case_bool_decide as Hb; unfold compare_replay in Hb;
    destruct (expected t) as [st fee ps], r as [st' fee' rs]; unfold replay_to_expected; simpl in *.
  - split; [intros _|done].
    destruct (length ps =? length rs)%nat eqn:Hlen; [apply Nat.eqb_eq in Hlen|];
      rewrite !app_nil in Hb; destruct Hb as [[Hs Hf] Hz]; [|done].
    apply zip_mismatches_nil in Hz as ->; [|done].
    case_bool_decide; destruct (fee =? fee') eqn:Hfee; zbool; naive_solver.
  - split; [done|]. intros [= -> -> ->]. contradict Hb. rewrite length_fmap, Nat.eqb_refl.
    rewrite bool_decide_true, Z.eqb_refl by done. simpl.
    apply zip_mismatches_nil; [by rewrite length_fmap|done].
Qed.

(** ** Canonical order *)

Lemma insert_by_index_perm p l : insert_by_index p l ≡ₚ p :: l.
Proof.
  induction l as [|q l IH]; simpl; [done|]. destruct (_ <=? _)%nat; [done|].
  rewrite IH. apply Permutation_swap.
Qed.

Lemma sort_by_index_perm l : sort_by_index l ≡ₚ l.
Proof. induction l as [|p l IH]; simpl; [done|]. by rewrite insert_by_index_perm, IH. Qed.

Lemma sort_by_index_nil l : sort_by_index l = [] <-> l = [].
Proof.
  split; [|by intros ->]. intros H. apply Permutation_nil_r. by rewrite <-(sort_by_index_perm l), H.
Qed.

Lemma insert_by_index_sorted p l :
  StronglySorted le (tp_index <$> l) -> StronglySorted le (tp_index <$> insert_by_index p l).
Proof.
  induction l as [|q l IH]; intros Hs; csimpl; [repeat constructor|].
  inversion_clear Hs as [|?? Hl Hq]. destruct (Nat.leb_spec (tp_index p) (tp_index q)) as [Hle|Hlt]; csimpl.
  - constructor; [by constructor|]. constructor; [done|]. eapply Forall_impl; [exact Hq|]. simpl; lia.
  - constructor; [by apply IH|]. rewrite insert_by_index_perm. constructor; [lia|done].
Qed.

Lemma sort_by_index_sorted l : StronglySorted le (tp_index <$> sort_by_index l).
Proof. induction l; simpl; [constructor|]. by apply insert_by_index_sorted. Qed.

Lemma seq_sorted i n : StronglySorted le (seq i n).
Proof.
  revert i. induction n as [|n IH]; intros i; simpl; constructor; [done|].
  apply Forall_forall. intros x Hx. apply elem_of_seq in Hx. lia.
Qed.

(** A stable sort of a sorted list is the list. *)
Lemma sort_by_index_id l : StronglySorted le (tp_index <$> l) -> sort_by_index l = l.
Proof.
  induction l as [|p l IH]; intros Hs; simpl; [done|]. inversion_clear Hs as [|?? Hl Hp].
  rewrite (IH Hl). destruct l as [|q l]; simpl; [done|].
  inversion_clear Hp. by rewrite (proj2 (Nat.leb_le _ _)).
Qed.

Lemma misplaced_None i l : misplaced i l = None <-> tp_index <$> l = seq i (length l).
Proof.
  revert i. induction l as [|p l IH]; intros i; csimpl; [done|].
  destruct (Nat.eqb_spec (tp_index p) i) as [->|Hn].
  - rewrite IH. split; [by intros ->|by intros [= ->]].
  - split; [done|by intros [= ? _]].
Qed.

(** A transcript passes the check exactly when it is canonical. *)
Definition canonical (t : RoundTranscript) : Prop :=
  tr_schema_version t = TRANSCRIPT_SCHEMA_VERSION ∧ participants t ≠ [] ∧
  tp_index <$> participants t = seq 0 (length (participants t)) ∧
  participant_count t = Z.of_nat (length (participants t)).

Lemma validate_schema_None t : validate_schema t = None <-> canonical t.
Proof.
  unfold validate_schema, canonical. rewrite <-misplaced_None.
  destruct (tr_schema_version t =? _) eqn:?; simpl; zbool; [|naive_solver].
  case_bool_decide; [naive_solver|]. destruct (misplaced _ _) as [[??]|]; [naive_solver|].
  destruct (participant_count t =? _) eqn:?; zbool; naive_solver.
Qed.

(** Sorting the participants by index yields a transcript the replay accepts
    exactly when the version is the supported one and the indices are those of
    0..n-1 in some order, it keeps every participant, and it leaves an accepted
    transcript unchanged. *)
Theorem canonicalize_validates t :
  let n := length (participants t) in
  Z.of_nat n < 2 ^ 32 ->
  participants (canonicalize_participants t) ≡ₚ participants t ∧
  (validate_schema (canonicalize_participants t) = None <->
     tr_schema_version t = TRANSCRIPT_SCHEMA_VERSION ∧ participants t ≠ [] ∧
     tp_index <$> participants t ≡ₚ seq 0 n) ∧
  (validate_schema t = None -> canonicalize_participants t = t).
Proof.
  intros n Hn. pose proof (sort_by_index_perm (participants t)) as Hp.
  assert (as_u32 n = Z.of_nat n) as Hu by (apply Z.mod_small; lia).
  split_and!; [done| |].
  - rewrite validate_schema_None. unfold canonical. simpl. rewrite (Permutation_length Hp).
    fold n. rewrite Hu, sort_by_index_nil. split; intros (Hv & Hne & Hi).
    + split_and!; [done|done|]. rewrite <-Hp. by destruct Hi as [-> _].
    + split_and!; [done|done| |done].
      apply (StronglySorted_unique le); [apply sort_by_index_sorted|apply seq_sorted|by rewrite Hp].
  - rewrite validate_schema_None. intros (_ & _ & Hi & Hc). unfold canonicalize_participants. fold n.
    rewrite sort_by_index_id by (rewrite Hi; apply seq_sorted).
    assert (as_u32 n = participant_count t) as -> by (rewrite Hc; exact Hu).
    by destruct t.
Qed.
