(* ===== verification/Common.v ===== *)
(** * Shared helpers

    contracts/src/common.rs and contracts/src/storage.rs: life-time extension,
    balances, pending winnings, the phase of a round, participant ordering and
    the canonical clean-up of a round's storage; with the specification each
    caller relies on. *)

From Stdlib Require Import Sorting.Sorted.
From S2P Require Export SettlementMathFacts.

(** ** Definitions *)

Definition _extend_persistent_ttl (k : Key) : M () :=
  b ← phas k;
  if (b : bool) then pextend_ttl k TTL_BUMP_THRESHOLD TTL_BUMP_AMOUNT else mret ().

Definition _extend_ttl_symbol (k : Key) : M () :=
  b ← phas k;
  if (b : bool) then pextend_ttl k TTL_BUMP_THRESHOLD TTL_BUMP_AMOUNT else mret ().

Definition sort_addresses (addresses : list Address) : list Address :=
  if (length addresses <=? 1)%nat then addresses else merge_sort N.le addresses.

Definition _emit_action_rejected (actor : Address) (action : string) (reason : ContractError) : M () :=
  emit "action" "rejct" [VAddr actor; VSym action; VU32 (error_code reason)].

Definition _emit_config_updated (kind : ConfigChangeKind)
    (old_value new_value : ConfigChangePayload) : M () :=
  emit "config" "updated"
    [VU32 (ConfigChangeKind_u32 kind); VConfigPayload old_value; VConfigPayload new_value].

(** A rejection that is both published and returned. *)
Definition emit_throw {A} (actor : Address) (action : string) (e : ContractError) : M A :=
  _emit_action_rejected actor action e ;; throw e.

Definition _accumulate_pending (user : Address) (amount : Z) : M () :=
  let key := K_PendingWinnings user in
  existing ← pget_or cI128 key 0;
  new_pending ← lift (payout_add existing amount);
  cap ← pget cI128 K_MaxPendingWinnings;
  (match cap with
   | Some cap => reject_if (new_pending >? cap) PendingWinningsCapExceeded
   | None => mret ()
   end) ;;
  pset cI128 key new_pending ;;
  _extend_persistent_ttl key ;;
  let updated_key := K_PendingWinningsUpdatedAt user in
  current_ledger ← asks sequence;
  pset cU32 updated_key current_ledger ;;
  _extend_persistent_ttl updated_key.

Definition _derive_round_phase (ledger_sequence : Z) (round : Round) : RoundPhase :=
  if ledger_sequence <? bet_end_ledger round then Betting
  else if ledger_sequence <? end_ledger round then Running
  else Resolvable.

Definition _enforce_min_bet (amount : Z) : M () :=
  min_bet ← pget cI128 K_MinBet;
  match min_bet with
  | Some min_bet => reject_if (amount <? min_bet) BelowMinBet
  | None => mret ()
  end.

Definition assert_no_active_round : M () :=
  b ← phas K_ActiveRound;
  reject_if b RoundAlreadyActive.

Definition balance (user : Address) : M Z :=
  let key := K_Balance user in
  _extend_persistent_ttl key ;;
  pget_or cI128 key 0.

Definition _set_balance (user : Address) (amount : Z) : M () :=
  let key := K_Balance user in
  pset cI128 key amount ;;
  _extend_persistent_ttl key.

Definition _current_epoch_id : M Z :=
  seq ← asks sequence; mret (seq / EPOCH_LEDGERS).

(** storage.rs *)

Definition clear_user_positions (round_id : Z) (user : Address) : M () :=
  premove (K_Position round_id user) ;;
  premove (K_PrecisionPosition round_id user) ;;
  premove (K_PrecisionCommitment round_id user).

Definition clear_round_storage (round_id : Z) (participants : list Address) : M () :=
  mfor participants (λ user, clear_user_positions round_id user) ;;
  premove (K_RoundParticipants round_id) ;;
  premove K_ActiveRound ;;
  premove K_Positions ;;
  premove K_UpDownPositions ;;
  premove K_PrecisionPositions.

(** ** Frames *)

Lemma frame_extend P k : frame P (_extend_persistent_ttl k).
Proof. frame_of _extend_persistent_ttl. Qed.
Lemma frame_extend_symbol P k : frame P (_extend_ttl_symbol k).
Proof. frame_of _extend_ttl_symbol. Qed.
Lemma frame_emit_rejected P a n e : frame P (_emit_action_rejected a n e).
Proof. frame_of _emit_action_rejected. Qed.
Lemma frame_emit_config P k o n : frame P (_emit_config_updated k o n).
Proof. frame_of _emit_config_updated. Qed.
Lemma frame_emit_throw {A} P a n e : frame P (emit_throw (A:=A) a n e).
Proof. unfold emit_throw, _emit_action_rejected. frame_with idtac. Qed.
Lemma frame_min_bet P a : frame P (_enforce_min_bet a).
Proof. frame_of _enforce_min_bet. Qed.
Lemma frame_no_active P : frame P assert_no_active_round.
Proof. frame_of assert_no_active_round. Qed.
Lemma frame_epoch_id P : frame P _current_epoch_id.
Proof. frame_of _current_epoch_id. Qed.
#[export] Hint Resolve frame_extend frame_extend_symbol frame_emit_rejected
  frame_emit_config frame_emit_throw frame_min_bet frame_no_active frame_epoch_id : frame.
Lemma frame_balance P u : frame P (balance u).
Proof. frame_of balance. Qed.
#[export] Hint Resolve frame_balance : frame.

Lemma frame_accumulate P u a :
  ¬ P (K_PendingWinnings u) -> ¬ P (K_PendingWinningsUpdatedAt u) ->
  frame P (_accumulate_pending u a).
Proof. frame_of _accumulate_pending. Qed.
Lemma frame_set_balance P u a : ¬ P (K_Balance u) -> frame P (_set_balance u a).
Proof. frame_of _set_balance. Qed.
Lemma frame_clear_user P r u :
  ¬ P (K_Position r u) -> ¬ P (K_PrecisionPosition r u) -> ¬ P (K_PrecisionCommitment r u) ->
  frame P (clear_user_positions r u).
Proof. frame_of clear_user_positions. Qed.
#[export] Hint Resolve frame_accumulate frame_set_balance frame_clear_user : frame.

(** A predicate on keys given by a boolean test that computes to [false]. *)
#[export] Hint Extern 2 (¬ (_ = true)) => (intros ?; discriminate) : frame.

(** ** Sorting participants *)

Lemma sort_addresses_perm l : sort_addresses l ≡ₚ l.
Proof.
  unfold sort_addresses. destruct (_ <=? 1)%nat; [done|]. apply merge_sort_Permutation.
Qed.

Lemma sort_addresses_sorted l : Sorted N.le (sort_addresses l).
Proof.
  unfold sort_addresses. destruct (_ <=? 1)%nat eqn:Hl.
  - apply Nat.leb_le in Hl. destruct l as [|x [|y l]]; simpl in Hl; [constructor| |lia].
    by repeat constructor.
  - apply Sorted_merge_sort. intros x y. lia.
Qed.

(** ** The value held by the contract

    The token amounts the contract owes or holds, by storage slot: balances,
    pending winnings, open positions and predictions, commitments not yet
    revealed (a revealed one is carried by its prediction), the protocol fee
    treasury and the insurance fund.  [total] is their sum. *)

Definition valued (k : Key) : bool :=
  match k with
  | KVec n [] => String.eqb n "ProtocolFeeTreasury"
  | KVec n [AAddr _] => String.eqb n "Balance" || String.eqb n "PendingWinnings"
  | KVec n [AU64 _; AAddr _] =>
      String.eqb n "Position" || String.eqb n "PrecisionPosition"
      || String.eqb n "PrecisionCommitment"
  | KSym n => String.eqb n "InsFundBal"
  | _ => false
  end.

Definition value_of (v : Val) : Z :=
  match v with
  | VI128 n => n
  | VPosition p => pos_amount p
  | VPrediction p => pred_amount p
  | VCommitment c => if revealed c then 0 else com_amount c
  | _ => 0
  end.

Definition weight (k : Key) (v : Val) : Z := if valued k then value_of v else 0.

Definition total (s : State) : Z := msum weight (persistent s).

(** What one slot holds. *)
Definition slot (s : State) (k : Key) : Z := oweight weight k (persistent s !! k).

Notation vkeys := (λ k, valued k = true).

Lemma total_agree s s' : agree vkeys s s' -> total s' = total s.
Proof.
  intros H. unfold total.
  assert (∀ m, msum weight m = msum weight (filter (λ kv, valued kv.1 = true) m)) as Hf.
  { intros m. induction m as [|k v m Hk IH] using map_ind; [done|].
    rewrite msum_insert_None by done. destruct (valued k) eqn:Hv.
    - rewrite map_filter_insert_True by done. rewrite msum_insert_None; [by rewrite IH|].
      rewrite map_lookup_filter_None. by left.
    - rewrite map_filter_insert_False by (simpl; congruence).
      rewrite delete_id by done. unfold weight at 1. rewrite Hv. lia. }
  rewrite (Hf (persistent s')), (Hf (persistent s)). f_equal.
  apply map_eq. intros k. apply option_eq. intros v. rewrite !map_lookup_filter_Some. simpl.
  split; intros [Hl Hv]; (split; [|done]); [by rewrite <-H|by rewrite H].
Qed.

Lemma total_insert s s' k v :
  persistent s' = <[k:=v]> (persistent s) -> total s' = total s - slot s k + weight k v.
Proof. intros H. unfold total, slot. by rewrite H, msum_insert. Qed.

Lemma total_delete s s' k :
  persistent s' = delete k (persistent s) -> total s' = total s - slot s k.
Proof. intros H. unfold total, slot. by rewrite H, msum_delete. Qed.

Lemma total_same s s' : persistent s' = persistent s -> total s' = total s.
Proof. unfold total. by intros ->. Qed.

Lemma slot_same s s' k : persistent s' = persistent s -> slot s' k = slot s k.
Proof. unfold slot. by intros ->. Qed.

Lemma slot_agree (P : Key -> Prop) s s' k : agree P s s' -> P k -> slot s' k = slot s k.
Proof. intros H Hk. unfold slot. by rewrite H. Qed.

Lemma weight_unvalued k v : valued k = false -> weight k v = 0.
Proof. unfold weight. by intros ->. Qed.

Lemma weight_valued k v : valued k = true -> weight k v = value_of v.
Proof. unfold weight. by intros ->. Qed.

Lemma slot_unvalued s k : valued k = false -> slot s k = 0.
Proof. intros Hk. unfold slot. destruct (persistent s !! k); [|done]. by apply weight_unvalued. Qed.

Lemma slot_i128 s k o :
  valued k = true -> persistent s !! k = enc cI128 <$> o -> slot s k = default 0 o.
Proof.
  intros Hv Hk. unfold slot. rewrite Hk. destruct o; [|done]. simpl. unfold weight.
  by rewrite Hv.
Qed.

Lemma balance_slot s u o :
  persistent s !! K_Balance u = enc cI128 <$> o -> slot s (K_Balance u) = default 0 o.
Proof. intros H. by apply slot_i128. Qed.

Lemma slot_insert s s' k k' v :
  persistent s' = <[k:=v]> (persistent s) ->
  slot s' k' = if decide (k = k') then weight k v else slot s k'.
Proof.
  intros H. unfold slot. rewrite H. case_decide as Hk.
  - subst. by rewrite lookup_insert_eq.
  - by rewrite lookup_insert_ne.
Qed.

Lemma agree_total P s s' : (∀ k, valued k = true -> P k) -> agree P s s' -> total s' = total s.
Proof. intros HP H. apply total_agree. intros k Hk. apply H, HP, Hk. Qed.

(** A program that touches no valued slot keeps the total. *)
Lemma wp_neutral {A} (m : M A) (Q : A -> State -> Prop) c s :
  frame vkeys m -> (∀ a s', total s' = total s -> Q a s') -> wp m Q c s.
Proof. intros Hf HQ. apply (wp_frame vkeys); [done|]. intros. by apply HQ, total_agree. Qed.

(** ** Specifications of the helpers *)

Lemma wp_extend k (Q : () -> State -> Prop) c s :
  (∀ s', persistent s' = persistent s -> Q () s') -> wp (_extend_persistent_ttl k) Q c s.
Proof.
  intros H. apply wp_bind, wp_phas. intros [] _; [by apply wp_pextend_ttl|by apply wp_ret, H].
Qed.

(** Straight-line stepping, over the life-time extensions too. *)
Ltac wp_go :=
  repeat first [apply wp_bind | apply wp_extend; intros ?? | wp_step].

(** Both life-time forms reduce to a no-op on the entries. *)
Lemma wp_balance u (Q : Z -> State -> Prop) c s :
  (∀ s' o, persistent s' = persistent s -> persistent s !! K_Balance u = enc cI128 <$> o ->
     Q (default 0 o) s') ->
  wp (balance u) Q c s.
Proof.
  intros H. apply wp_bind, wp_extend. intros s1 H1. apply wp_pget_or. intros o Ho.
  apply H; congruence.
Qed.

Lemma wp_set_balance u a (Q : () -> State -> Prop) c s :
  (∀ s', persistent s' = <[K_Balance u:=VI128 a]> (persistent s) -> Q () s') ->
  wp (_set_balance u a) Q c s.
Proof.
  intros H. apply wp_bind, wp_pset. intros s1 H1. apply wp_extend. intros s2 H2.
  apply H. by rewrite H2, H1.
Qed.

Lemma wp_accumulate u a (Q : () -> State -> Prop) c s :
  (∀ s', total s' = total s + a ->
     (∀ k, k ≠ K_PendingWinnings u -> k ≠ K_PendingWinningsUpdatedAt u ->
           persistent s' !! k = persistent s !! k) ->
     slot s' (K_PendingWinnings u) = slot s (K_PendingWinnings u) + a ->
     Q () s') ->
  wp (_accumulate_pending u a) Q c s.
Proof.
  intros H. unfold _accumulate_pending. apply wp_bind, wp_pget_or. intros o Ho.
  apply wp_bind, wp_lift. intros np Hnp.
  unfold payout_add in Hnp. apply some_or_Ok, i128_checked_add_Some in Hnp as [-> _].
  apply wp_bind, wp_pget. intros cap _. apply wp_bind.
  eapply wp_mono with (Q := λ _ s', s' = s).
  { destruct cap; repeat wp_step; done. }
  intros _ s' ->. apply wp_bind, wp_pset. intros s1 H1. apply wp_bind, wp_extend. intros s2 H2.
  apply wp_bind, wp_asks. apply wp_bind, wp_pset. intros s3 H3. apply wp_extend. intros s4 H4.
  assert (slot s (K_PendingWinnings u) = default 0 o) as Hs by by apply slot_i128.
  apply H.
  - rewrite (total_same s3 s4), (total_insert s2 s3 _ _ H3), (total_same s1 s2),
      (total_insert s s1 _ _ H1), Hs, (slot_unvalued s2), (weight_unvalued (K_PendingWinningsUpdatedAt u)) by done.
    rewrite weight_valued by done. simpl. lia.
  - intros k Hk1 Hk2. by rewrite H4, H3, H2, H1, !lookup_insert_ne.
  - unfold slot at 1. rewrite H4, H3, H2, H1, lookup_insert_ne by done.
    rewrite lookup_insert_eq.
    rewrite Hs. unfold weight. simpl. lia.
Qed.

Lemma run_extend k (Q : outcome () -> State -> Prop) c s :
  (∀ s', persistent s' = persistent s -> Q (Ok ()) s') -> run (_extend_persistent_ttl k) Q c s.
Proof.
  intros H. apply run_bind, run_phas. case_bool_decide as Hk; [|by apply H].
  destruct Hk as [v Hv]. unfold run, pextend_ttl. rewrite Hv. by apply H.
Qed.

(** ** Value accounting automation

    [money] normalises the totals and slots of later states to those of the
    first one through the equations the [wp] rules leave in the context, and
    closes the arithmetic. *)

Lemma slot_read {A} (cd : Codec A) s k o :
  valued k = true -> persistent s !! k = enc cd <$> o ->
  slot s k = from_option (λ x, value_of (enc cd x)) 0 o.
Proof.
  intros Hv Hk. unfold slot. rewrite Hk. destruct o; [|done]. simpl. by rewrite weight_valued.
Qed.

Lemma slot_found s k v : valued k = true -> persistent s !! k = Some v -> slot s k = value_of v.
Proof. intros Hv Hk. unfold slot. rewrite Hk. simpl. by rewrite weight_valued. Qed.

Lemma slot_none s k : persistent s !! k = None -> slot s k = 0.
Proof. intros Hk. unfold slot. by rewrite Hk. Qed.

Lemma slot_delete s s' k k' :
  persistent s' = delete k (persistent s) ->
  slot s' k' = if decide (k = k') then 0 else slot s k'.
Proof.
  intros H. unfold slot. rewrite H. case_decide as Hk.
  - subst. by rewrite lookup_delete_eq.
  - by rewrite lookup_delete_ne.
Qed.

Lemma slot_bool s k b :
  bool_decide (is_Some (persistent s !! k)) = b -> b = false -> slot s k = 0.
Proof. intros <- H. apply slot_none. apply bool_decide_eq_false in H. by apply eq_None_not_Some. Qed.

Lemma slot_eq s s' k : persistent s' !! k = persistent s !! k -> slot s' k = slot s k.
Proof. unfold slot. by intros ->. Qed.

Ltac slot_facts :=
  repeat match goal with
  | Ho : persistent ?s !! ?k = enc cI128 <$> ?o |- _ =>
      lazymatch goal with
      | _ : slot s k = _ |- _ => fail
      | _ => pose proof (slot_i128 s k o eq_refl Ho)
      end
  | Ho : persistent ?s !! ?k = Some ?v |- _ =>
      lazymatch goal with
      | _ : slot s k = _ |- _ => fail
      | _ => pose proof (slot_found s k v eq_refl Ho)
      end
  | Ho : persistent ?s !! ?k = None |- _ =>
      lazymatch goal with
      | _ : slot s k = _ |- _ => fail
      | _ => pose proof (slot_none s k Ho)
      end
  | Ho : bool_decide (is_Some (persistent ?s !! ?k)) = false |- _ =>
      lazymatch goal with
      | _ : slot s k = _ |- _ => fail
      | _ => pose proof (slot_bool s k _ Ho eq_refl)
      end
  end.

Ltac key_case :=
  match goal with
  | |- context [decide (?k = ?k)] => rewrite (decide_True (P := k = k)) by reflexivity
  | |- context [decide (?k = ?k')] =>
      rewrite (decide_False (P := k = k')) by (first [assumption | discriminate | congruence])
  | H : context [decide (?k = ?k)] |- _ => rewrite (decide_True (P := k = k)) in H by reflexivity
  | H : context [decide (?k = ?k')] |- _ =>
      rewrite (decide_False (P := k = k')) in H by (first [assumption | discriminate | congruence])
  end.

Ltac chain :=
  match goal with
  | H : persistent ?s' = <[?k:=?v]> (persistent ?s) |- context [total ?s'] =>
      rewrite (total_insert s s' k v H)
  | H : persistent ?s' = delete ?k (persistent ?s) |- context [total ?s'] =>
      rewrite (total_delete s s' k H)
  | H : persistent ?s' = persistent ?s |- context [total ?s'] => rewrite (total_same s s' H)
  | H : persistent ?s' = <[?k:=?v]> (persistent ?s) |- context [slot ?s' ?k'] =>
      rewrite (slot_insert s s' k k' v H)
  | H : persistent ?s' = delete ?k (persistent ?s) |- context [slot ?s' ?k'] =>
      rewrite (slot_delete s s' k k' H)
  | H : persistent ?s' = persistent ?s |- context [slot ?s' ?k'] => rewrite (slot_same s s' k' H)
  | H : total ?s' = _ |- context [total ?s'] => rewrite H
  | H : ∀ k, _ |- context [slot ?s' ?k'] =>
      lazymatch type of H with
      | context [persistent s' !! _ = persistent ?s !! _] =>
          let E := fresh in
          assert (persistent s' !! k' = persistent s !! k') as E by (apply H; key_ne);
          rewrite (slot_eq s s' k' E); clear E
      end
  | H : ∀ k, _, H' : context [slot ?s' ?k'] |- _ =>
      lazymatch type of H with
      | context [persistent s' !! _ = persistent ?s !! _] =>
          let E := fresh in
          assert (persistent s' !! k' = persistent s !! k') as E by (apply H; key_ne);
          rewrite (slot_eq s s' k' E) in H'; clear E
      end
  | H : persistent ?s' = <[?k:=?v]> (persistent ?s), H' : context [slot ?s' ?k'] |- _ =>
      rewrite (slot_insert s s' k k' v H) in H'
  | H : persistent ?s' = delete ?k (persistent ?s), H' : context [slot ?s' ?k'] |- _ =>
      rewrite (slot_delete s s' k k' H) in H'
  | H : persistent ?s' = persistent ?s, H' : context [slot ?s' ?k'] |- _ =>
      rewrite (slot_same s s' k' H) in H'
  end.

Ltac weights :=
  cbn [oweight]; repeat match goal with
  | |- context [weight ?k ?v] =>
      first [rewrite (weight_valued k v) by reflexivity
            |rewrite (weight_unvalued k v) by reflexivity]
  | H : context [weight ?k ?v] |- _ =>
      first [rewrite (weight_valued k v) in H by reflexivity
            |rewrite (weight_unvalued k v) in H by reflexivity]
  | |- context [slot ?s ?k] => rewrite (slot_unvalued s k) by reflexivity
  end.

(** The total and the slots of a state given as a stack of writes. *)
Ltac stack_total E :=
  unfold total; rewrite E, ?msum_insert, ?msum_delete;
  repeat lstep;
  repeat match goal with
  | |- context [oweight weight ?k (persistent ?s !! ?k)] =>
      change (oweight weight k (persistent s !! k)) with (slot s k)
  | |- context [msum weight (persistent ?s)] =>
      change (msum weight (persistent s)) with (total s)
  end.
Ltac stack_slot :=
  unfold slot at 1; repeat lstep; cbn [oweight];
  repeat match goal with
  | |- context [oweight weight ?k (persistent ?s !! ?k)] =>
      change (oweight weight k (persistent s !! k)) with (slot s k)
  end.

Ltac stack_money E :=
  stack_total E; weights; cbn [value_of pos_amount pred_amount com_amount revealed]; try lia.

Ltac money_simpl := slot_facts; repeat first [chain | key_case]; weights; cbn [value_of enc cI128] in *.
Ltac money := money_simpl; try lia.
