(* ===== verification/Admin.v ===== *)
(** * Administration: initialisation, modes, schema, oracle guards

    contracts/src/admin.rs, with the dual-approval test of
    contracts/src/governance.rs that the mode switches consult.  The mode policy
    gate is proved to implement the mode by action matrix of its documentation,
    and every guarded handler to be refused in a mode that blocks it. *)

From S2P Require Export Common.

(** ** Gates *)

Definition _schema_version : M (option Z) := pget cU32 K_SchemaVersion.

Definition _require_supported_schema : M Z :=
  _extend_persistent_ttl K_SchemaVersion ;;
  b ← phas K_Admin;
  (if (b : bool) then _extend_persistent_ttl K_Admin else mret ()) ;;
  o ← _schema_version;
  let v := default 1 o in
  reject_if ((v =? 0) || (v >? CURRENT_SCHEMA_VERSION)) UnsupportedSchemaVersion ;;
  mret v.

Definition _current_mode : M RuntimeMode :=
  _extend_persistent_ttl K_Paused ;;
  pget_or cRuntimeMode K_Paused Normal.

Definition mode_blocks (action : PolicyAction) (mode : RuntimeMode) : bool :=
  match action with
  | RoundMutation => bool_decide (mode ≠ Normal)
  | Claim | AdminConfig | Settlement => bool_decide (mode = FullyPaused)
  end.

Definition _policy_gate (action : PolicyAction) : M () :=
  mode ← _current_mode;
  reject_if (mode_blocks action mode) ContractPaused.

Definition _ensure_not_paused : M () := _policy_gate AdminConfig.
Definition _ensure_normal_mode : M () := _policy_gate RoundMutation.

(** The preamble that the admin handlers share, each with its own action
    symbol: supported schema, an admin that is set and has authorized the call,
    and a mode that admits configuration. *)
Definition admin_guard (action : string) : M Address :=
  _require_supported_schema ;;
  admin ← pget_ok cAddr K_Admin AdminNotSet;
  require_auth admin ;;
  inspect_err _ensure_not_paused (λ e, _emit_action_rejected admin action e) ;;
  mret admin.

(** The same without the schema check, after extending the admin entry. *)
Definition admin_guard_ttl (action : string) : M Address :=
  _extend_persistent_ttl K_Admin ;;
  admin ← pget_ok cAddr K_Admin AdminNotSet;
  require_auth admin ;;
  inspect_err _ensure_not_paused (λ e, _emit_action_rejected admin action e) ;;
  mret admin.

(** governance.rs *)
Definition _is_gov_approver_set : M bool :=
  b ← phas K_GovApprover;
  if (b : bool) then _extend_persistent_ttl K_GovApprover ;; mret true else mret false.

(** ** Initialisation and schema *)

Definition initialize (admin oracle : Address) : M () :=
  require_auth admin ;;
  reject_if (bool_decide (admin = oracle)) OracleNetworkMismatch ;;
  b ← phas K_Admin;
  reject_if b AlreadyInitialized ;;
  pset cAddr K_Admin admin ;;
  pset cAddr K_Oracle oracle ;;
  pset cRuntimeMode K_Paused Normal ;;
  pset cU32 K_SchemaVersion CURRENT_SCHEMA_VERSION ;;
  pset cU32 K_BetWindowLedgers DEFAULT_BET_WINDOW_LEDGERS ;;
  pset cU32 K_RunWindowLedgers DEFAULT_RUN_WINDOW_LEDGERS ;;
  _extend_persistent_ttl K_Admin ;;
  _extend_persistent_ttl K_Oracle ;;
  _extend_persistent_ttl K_Paused ;;
  _extend_persistent_ttl K_SchemaVersion ;;
  _extend_persistent_ttl K_BetWindowLedgers ;;
  _extend_persistent_ttl K_RunWindowLedgers.

Definition get_schema_version : M Z :=
  _extend_persistent_ttl K_SchemaVersion ;;
  o ← _schema_version; mret (default 1 o).

Definition migrate_schema_v1_to_v2 (dry_run : bool) : M () :=
  admin ← admin_guard_ttl "migrate";
  b ← phas K_ActiveRound;
  (if (b : bool) then emit_throw admin "migrate" MigrationActiveRound else mret ()) ;;
  o ← _schema_version;
  let from := default 1 o in
  (if negb (from =? 1) then emit_throw admin "migrate" UnsupportedSchemaVersion else mret ()) ;;
  if dry_run then mret () else
  pset cU32 K_SchemaVersion 2 ;;
  _extend_persistent_ttl K_SchemaVersion ;;
  emit "schema" "migrated" [VU32 from; VU32 2].

Definition migrate_schema_v2_to_v3 (dry_run : bool) : M () :=
  admin ← admin_guard_ttl "migrate";
  b ← phas K_ActiveRound;
  (if (b : bool) then emit_throw admin "migrate" MigrationActiveRound else mret ()) ;;
  o ← _schema_version;
  let from := default 1 o in
  (if negb (from =? 2) then emit_throw admin "migrate" UnsupportedSchemaVersion else mret ()) ;;
  if dry_run then mret () else
  pset cU32 K_SchemaVersion 3 ;;
  _extend_persistent_ttl K_SchemaVersion ;;
  pset cBool K_MigratedToV3 true ;;
  emit "schema" "migrated" [VU32 from; VU32 3].

Definition announce_next_schema (target_version : Z) : M () :=
  _require_supported_schema ;;
  admin ← pget_ok cAddr K_Admin AdminNotSet;
  require_auth admin ;;
  reject_if ((target_version =? 0) || (target_version <=? CURRENT_SCHEMA_VERSION))
    UnsupportedSchemaVersion ;;
  pset cU32 K_NextSchemaVersion target_version ;;
  _extend_persistent_ttl K_NextSchemaVersion ;;
  emit "schema" "next_ann" [VU32 CURRENT_SCHEMA_VERSION; VU32 target_version].

Definition get_next_schema : M (option Z) :=
  _extend_persistent_ttl K_NextSchemaVersion ;;
  pget cU32 K_NextSchemaVersion.

Definition clear_next_schema : M () :=
  _require_supported_schema ;;
  admin ← pget_ok cAddr K_Admin AdminNotSet;
  require_auth admin ;;
  b ← phas K_NextSchemaVersion;
  reject_if (negb b) UnsupportedSchemaVersion ;;
  o ← pget cU32 K_NextSchemaVersion;
  previous ← or_trap o;
  premove K_NextSchemaVersion ;;
  emit "schema" "next_clr" [VU32 previous].

(** ** Runtime modes *)

Definition _set_mode (new_mode : RuntimeMode) : M () :=
  old_mode ← pget_or cRuntimeMode K_Paused Normal;
  if bool_decide (old_mode ≠ new_mode) then
    pset cRuntimeMode K_Paused new_mode ;;
    _extend_persistent_ttl K_Paused ;;
    emit "mode" "transition" [VU32 (RuntimeMode_u32 old_mode); VU32 (RuntimeMode_u32 new_mode)]
  else mret ().

Definition is_paused : M bool :=
  _extend_persistent_ttl K_Paused ;;
  mode ← pget_or cRuntimeMode K_Paused Normal;
  mret (bool_decide (mode = FullyPaused)).

Definition pause_contract : M () :=
  _require_supported_schema ;;
  admin ← pget_ok cAddr K_Admin AdminNotSet;
  require_auth admin ;;
  b ← _is_gov_approver_set;
  reject_if b GovUnauthorized ;;
  _set_mode FullyPaused.

Definition unpause_contract : M () :=
  _require_supported_schema ;;
  admin ← pget_ok cAddr K_Admin AdminNotSet;
  require_auth admin ;;
  b ← _is_gov_approver_set;
  reject_if b GovUnauthorized ;;
  _set_mode Normal.

Definition get_runtime_mode : M Z :=
  _extend_persistent_ttl K_Paused ;;
  mode ← pget_or cRuntimeMode K_Paused Normal;
  mret (RuntimeMode_u32 mode).

Definition set_runtime_mode (mode : Z) : M () :=
  _require_supported_schema ;;
  admin ← pget_ok cAddr K_Admin AdminNotSet;
  require_auth admin ;;
  new_mode ← ok_or (RuntimeMode_of_u32 mode) InvalidMode;
  _set_mode new_mode.

Definition get_admin : M (option Address) :=
  _extend_persistent_ttl K_Admin ;; pget cAddr K_Admin.
Definition get_oracle : M (option Address) :=
  _extend_persistent_ttl K_Oracle ;; pget cAddr K_Oracle.

(** ** Oracle guards *)

Definition get_oracle_max_deviation_bps : M (option Z) :=
  _extend_persistent_ttl K_OracleMaxDeviationBps ;; pget cU32 K_OracleMaxDeviationBps.

Definition arm_oracle_deviation_override : M () :=
  admin ← admin_guard_ttl "arm_ovr";
  pset cBool K_OracleDeviationOverrideArmed true ;;
  _extend_persistent_ttl K_OracleDeviationOverrideArmed.

(** The three [Config] keys are tested and extended without the helper. *)
Definition extend_config_ttl (k : Key) : M () :=
  b ← phas k;
  if (b : bool) then pextend_ttl k TTL_BUMP_THRESHOLD TTL_BUMP_AMOUNT else mret ().

Definition default_deviation_config : DeviationConfig :=
  {| reference_mode := RefStartPrice; window_samples := MIN_TWAP_WINDOW_SAMPLES |}.

Definition _load_deviation_config : M DeviationConfig :=
  extend_config_ttl K_DeviationConfig ;;
  pget_or cDeviation K_DeviationConfig default_deviation_config.

Definition _save_deviation_config (config : DeviationConfig) : M () :=
  pset cDeviation K_DeviationConfig config ;;
  pextend_ttl K_DeviationConfig TTL_BUMP_THRESHOLD TTL_BUMP_AMOUNT.

Definition DeviationReferenceMode_u32 (m : DeviationReferenceMode) : Z :=
  match m with RefStartPrice => 0 | RefTwap => 1 end.

Definition set_deviation_ref_mode (mode : DeviationReferenceMode) (window_samples : Z) : M () :=
  admin ← admin_guard "devref";
  (if bool_decide (mode = RefTwap)
      && negb ((MIN_TWAP_WINDOW_SAMPLES <=? window_samples)
               && (window_samples <=? MAX_TWAP_WINDOW_SAMPLES))
   then emit_throw admin "devref" WindowOutOfRange else mret ()) ;;
  _save_deviation_config {| reference_mode := mode; window_samples := window_samples |} ;;
  emit "oracle" "devref" [VU32 (DeviationReferenceMode_u32 mode); VU32 window_samples].

Definition get_deviation_ref_mode : M DeviationReferenceMode :=
  cfg ← _load_deviation_config; mret (reference_mode cfg).
Definition get_deviation_window_samples : M Z :=
  cfg ← _load_deviation_config; mret (window_samples cfg).

Definition _load_attestation_config : M AttestationConfig :=
  extend_config_ttl K_AttestationConfig ;;
  pget_or cAttestation K_AttestationConfig {| att_key := None |}.

Definition set_attestation_key (key : option Bytes) : M () :=
  admin ← admin_guard "attkey";
  pset cAttestation K_AttestationConfig {| att_key := key |} ;;
  pextend_ttl K_AttestationConfig TTL_BUMP_THRESHOLD TTL_BUMP_AMOUNT ;;
  emit "oracle" "attkey" [VBool (if key is Some _ then true else false)].

Definition get_attestation_key : M (option Bytes) :=
  cfg ← _load_attestation_config; mret (att_key cfg).

Definition set_oracle_min_confidence_bps (min_bps : option Z) : M () :=
  _ ← admin_guard "omin_cnf";
  (match min_bps with
   | Some bps => reject_if (bps >? 10000) WindowOutOfRange
   | None => mret ()
   end) ;;
  match min_bps with
  | None => premove K_OracleMinConfidenceBps
  | Some bps =>
      pset cU32 K_OracleMinConfidenceBps bps ;;
      _extend_persistent_ttl K_OracleMinConfidenceBps
  end.

Definition set_oracle_strict_mode (enabled : bool) : M () :=
  _ ← admin_guard "ostrict";
  pset cBool K_OracleStrictMode enabled ;;
  _extend_persistent_ttl K_OracleStrictMode.

Definition get_oracle_min_confidence_bps : M (option Z) :=
  _extend_persistent_ttl K_OracleMinConfidenceBps ;; pget cU32 K_OracleMinConfidenceBps.

Definition get_oracle_strict_mode : M bool :=
  _extend_persistent_ttl K_OracleStrictMode ;; pget_or cBool K_OracleStrictMode false.

(** ** Heartbeat *)

Definition default_hb_config : HbGateConfig :=
  {| strict_mode := false; override_armed := false; grace_seconds := 0 |}.

Definition _load_hb_config : M HbGateConfig :=
  extend_config_ttl K_HbGate ;;
  pget_or cHb K_HbGate default_hb_config.

Definition _save_hb_config (config : HbGateConfig) : M () :=
  pset cHb K_HbGate config ;;
  pextend_ttl K_HbGate TTL_BUMP_THRESHOLD TTL_BUMP_AMOUNT.

Definition set_hb_strict_mode (enabled : bool) : M () :=
  _ ← admin_guard "hbstrict";
  config ← _load_hb_config;
  _save_hb_config {| strict_mode := enabled; override_armed := override_armed config;
                     grace_seconds := grace_seconds config |}.

Definition get_hb_strict_mode : M bool := cfg ← _load_hb_config; mret (strict_mode cfg).

Definition arm_hb_override : M () :=
  _ ← admin_guard_ttl "arm_hovr";
  config ← _load_hb_config;
  _save_hb_config {| strict_mode := strict_mode config; override_armed := true;
                     grace_seconds := grace_seconds config |}.

Definition get_hb_override_armed : M bool := cfg ← _load_hb_config; mret (override_armed cfg).

Definition set_hb_grace_seconds (seconds : Z) : M () :=
  _ ← admin_guard "hbgrace";
  config ← _load_hb_config;
  _save_hb_config {| strict_mode := strict_mode config; override_armed := override_armed config;
                     grace_seconds := seconds |}.

Definition get_hb_grace_seconds : M Z := cfg ← _load_hb_config; mret (grace_seconds cfg).

Definition _consume_hb_override : M bool :=
  config ← _load_hb_config;
  if override_armed config then
    _save_hb_config {| strict_mode := strict_mode config; override_armed := false;
                       grace_seconds := grace_seconds config |} ;;
    mret true
  else mret false.

Definition update_oracle_heartbeat (status : Z) : M () :=
  _require_supported_schema ;;
  (if status >? 2 then
     _extend_persistent_ttl K_Oracle ;;
     o ← pget cAddr K_Oracle;
     (match o with
      | Some oracle => _emit_action_rejected oracle "hbeat" InvalidMode
      | None => mret ()
      end) ;;
     throw InvalidMode
   else mret ()) ;;
  _extend_persistent_ttl K_Oracle ;;
  oracle ← pget_ok cAddr K_Oracle OracleNotSet;
  require_auth oracle ;;
  ts ← asks ledger_timestamp;
  pset cHeartbeat K_OracleHeartbeat {| hb_timestamp := ts; hb_status := status |} ;;
  _extend_persistent_ttl K_OracleHeartbeat ;;
  emit "oracle" "hbeat" [VU64 ts; VU32 status].

Definition get_oracle_heartbeat : M (option OracleHeartbeatRecord) :=
  _extend_persistent_ttl K_OracleHeartbeat ;; pget cHeartbeat K_OracleHeartbeat.

(** Liveness of a record at a time, with a staleness threshold. *)
Definition heartbeat_fresh (now : Z) (threshold : Z) (r : OracleHeartbeatRecord) : bool :=
  now <=? u64_saturating_add (hb_timestamp r) threshold.

Definition is_oracle_live : M bool :=
  _extend_persistent_ttl K_OracleHeartbeat ;;
  o ← pget cHeartbeat K_OracleHeartbeat;
  match o with
  | None => mret false
  | Some record =>
      if hb_status record =? 2 then mret false else
      _extend_persistent_ttl K_OracleStaleThreshold ;;
      threshold ← pget_or cU64 K_OracleStaleThreshold DEFAULT_ORACLE_STALE_THRESHOLD;
      current_time ← asks ledger_timestamp;
      mret (heartbeat_fresh current_time threshold record)
  end.

Definition get_oracle_stale_threshold : M Z :=
  _extend_persistent_ttl K_OracleStaleThreshold ;;
  pget_or cU64 K_OracleStaleThreshold DEFAULT_ORACLE_STALE_THRESHOLD.

(** ** Composite health *)

Record ProtocolHealthStatus := {
  ph_paused : bool; oracle_live : bool; oracle_status : Z; has_active_round : bool;
  active_round_phase : Z; schema_version : Z; ledger_sequence : Z;
  ph_ledger_timestamp : Z; status_code : Z }.

Definition health_oracle (now : Z) : M (bool * Z) :=
  _extend_persistent_ttl K_OracleHeartbeat ;;
  o ← pget cHeartbeat K_OracleHeartbeat;
  match o with
  | None => mret (false, 3)
  | Some record =>
      if hb_status record =? 2 then mret (false, hb_status record) else
      _extend_persistent_ttl K_OracleStaleThreshold ;;
      threshold ← pget_or cU64 K_OracleStaleThreshold DEFAULT_ORACLE_STALE_THRESHOLD;
      mret (heartbeat_fresh now threshold record, hb_status record)
  end.

Definition health_code (paused oracle_live claims_only has_round : bool) (phase : Z) : Z :=
  let stale := has_round && (phase =? 3) in
  let issues := Z.b2z paused + Z.b2z (negb oracle_live) + Z.b2z stale in
  if paused then 1 else if issues >? 1 then 5 else if claims_only then 6
  else if negb oracle_live then 2 else if stale then 3
  else if negb has_round then 4 else 0.

Definition get_protocol_health : M ProtocolHealthStatus :=
  seq ← asks sequence;
  now ← asks ledger_timestamp;
  paused ← is_paused;
  '(live, status) ← health_oracle now;
  r ← pget cRound K_ActiveRound;
  let '(has_round, phase) := match r with
    | None => (false, 0)
    | Some round => (true, RoundPhase_u32 (_derive_round_phase seq round))
    end in
  sv ← _schema_version;
  mode ← _current_mode;
  mret {| ph_paused := paused; oracle_live := live; oracle_status := status;
          has_active_round := has_round; active_round_phase := phase;
          schema_version := default 1 sv; ledger_sequence := seq;
          ph_ledger_timestamp := now;
          status_code := health_code paused live (bool_decide (mode = ClaimsOnly)) has_round phase |}.

(** ** Batch life-time extension *)

Definition ttl_touch_allowed : list Key :=
  [ K_Admin; K_Oracle; K_SchemaVersion; K_Paused; K_BetWindowLedgers; K_RunWindowLedgers;
    K_CloseBufferLedgers; K_MaxStake; K_MaxUserRoundExposure; K_MaxPendingWinnings;
    K_MinParticipants; K_MaxPrecisionParticipants; K_OracleHeartbeat; K_OracleStaleThreshold;
    K_OracleMaxDeviationBps; K_OracleDeviationOverrideArmed; K_OracleMinConfidenceBps;
    K_OracleStrictMode; K_ProtocolFeeBps; K_ProtocolFeeTreasury; K_MigratedToV3;
    K_ArchiveRetention; K_RoundTemplate; K_LeaderboardWins; K_LeaderboardStreak; K_SeasonId;
    K_SeasonLeaderboardWins; K_SeasonLeaderboardStreak; K_LastRoundId;
    K_OracleRotationProposal; K_MintLimitConfig ].

Definition _is_ttl_touch_allowed (key : Key) : bool := bool_decide (key ∈ ttl_touch_allowed).

Definition touch_one (admin : Address) (acc : Z * Z) (key : Key) : M (Z * Z) :=
  let '(touched, skipped) := acc in
  (if negb (_is_ttl_touch_allowed key)
   then emit_throw admin "batch_t" UnsupportedDataKeyForTtlTouch else mret ()) ;;
  b ← phas key;
  if (b : bool) then
    pextend_ttl key TTL_BUMP_THRESHOLD TTL_BUMP_AMOUNT ;;
    t ← or_trap (u32_checked_add touched 1); mret (t, skipped)
  else t ← or_trap (u32_checked_add skipped 1); mret (touched, t).

Definition batch_touch_ttl (keys : list Key) : M Z :=
  admin ← admin_guard_ttl "batch_t";
  '(touched, skipped) ← mfold keys (0, 0) (touch_one admin);
  emit "storage" "touch" [VU32 touched; VU32 skipped] ;;
  mret touched.

(** ** Multi-feed quorum configuration *)

Definition _validate_quorum_config (cfg : OracleQuorumConfig) : outcome () :=
  if (min_observations cfg <? DEFAULT_ORACLE_QUORUM_MIN_OBSERVATIONS)
     || (min_observations cfg >? MAX_ORACLE_OBSERVATIONS)
  then Err TooFewObservations
  else if (quorum_threshold cfg <? DEFAULT_ORACLE_QUORUM_THRESHOLD)
     || (quorum_threshold cfg >? min_observations cfg)
  then Err InsufficientOracleQuorum
  else if (outlier_threshold_bps cfg =? 0) || (outlier_threshold_bps cfg >? 10000)
  then Err WindowOutOfRange
  else Ok ().

Definition set_oracle_quorum_config (config : option OracleQuorumConfig) : M () :=
  admin ← admin_guard "set_quor";
  (match config with
   | Some cfg => inspect_err (lift (_validate_quorum_config cfg))
                   (λ e, _emit_action_rejected admin "set_quor" e)
   | None => mret ()
   end) ;;
  match config with
  | Some cfg =>
      pset cQuorum K_OracleQuorum cfg ;;
      _extend_persistent_ttl K_OracleQuorum ;;
      emit "oracle" "quorum" [VU32 (min_observations cfg); VU32 (quorum_threshold cfg);
                              VU32 (outlier_threshold_bps cfg)]
  | None =>
      premove K_OracleQuorum ;;
      emit "oracle" "quorum" [VU32 0; VU32 0; VU32 0]
  end.

Definition get_oracle_quorum_config : M (option OracleQuorumConfig) :=
  _extend_persistent_ttl K_OracleQuorum ;; pget cQuorum K_OracleQuorum.

(** ** Reclaiming expired pending winnings *)

Definition reclaim_expired_pending_winnings (user : Address) : M Z :=
  admin ← admin_guard "reclaim";
  expiry_ledgers ← pget_or cU32 K_PendingWinningsExpiry 0;
  (if expiry_ledgers =? 0 then emit_throw admin "reclaim" ExpiryNotConfigured else mret ()) ;;
  let pending_key := K_PendingWinnings user in
  pending ← pget_or cI128 pending_key 0;
  (if pending =? 0 then emit_throw admin "reclaim" PendingWinningsNotFound else mret ()) ;;
  let updated_key := K_PendingWinningsUpdatedAt user in
  updated_at ← pget_ok cU32 updated_key PendingWinningsNotFound;
  current_ledger ← asks sequence;
  let age := u32_saturating_sub current_ledger updated_at in
  (if age <? expiry_ledgers
   then emit_throw admin "reclaim" PendingWinningsNotExpired else mret ()) ;;
  premove pending_key ;;
  premove updated_key ;;
  admin_bal ← balance admin;
  new_admin_bal ← lift (payout_add admin_bal pending);
  _set_balance admin new_admin_bal ;;
  emit "claim" "expired" [VAddr user; VI128 pending; VAddr admin] ;;
  mret pending.

(** ** Frames of the gates *)

Lemma frame_schema_version P : frame P _schema_version.
Proof. frame_of _schema_version. Qed.
Lemma frame_current_mode P : frame P _current_mode.
Proof. frame_of _current_mode. Qed.
#[export] Hint Resolve frame_schema_version frame_current_mode : frame.
Lemma frame_require_schema P : frame P _require_supported_schema.
Proof. frame_of _require_supported_schema. Qed.
Lemma frame_policy_gate P a : frame P (_policy_gate a).
Proof. frame_of _policy_gate. Qed.
#[export] Hint Resolve frame_require_schema frame_policy_gate : frame.
Lemma frame_not_paused P : frame P _ensure_not_paused.
Proof. apply frame_policy_gate. Qed.
Lemma frame_normal_mode P : frame P _ensure_normal_mode.
Proof. apply frame_policy_gate. Qed.
#[export] Hint Resolve frame_not_paused frame_normal_mode : frame.
Lemma frame_admin_guard P n : frame P (admin_guard n).
Proof. frame_of admin_guard. Qed.
Lemma frame_admin_guard_ttl P n : frame P (admin_guard_ttl n).
Proof. frame_of admin_guard_ttl. Qed.
Lemma frame_gov_set P : frame P _is_gov_approver_set.
Proof. frame_of _is_gov_approver_set. Qed.
Lemma frame_ext_config P k : frame P (extend_config_ttl k).
Proof. frame_of extend_config_ttl. Qed.
#[export] Hint Resolve frame_admin_guard frame_admin_guard_ttl frame_gov_set
  frame_ext_config : frame.
Lemma frame_is_live P : frame P is_oracle_live.
Proof. frame_of is_oracle_live. Qed.
Lemma frame_load_hb P : frame P _load_hb_config.
Proof. frame_of _load_hb_config. Qed.
Lemma frame_save_hb P cfg : ¬ P K_HbGate -> frame P (_save_hb_config cfg).
Proof. frame_of _save_hb_config. Qed.
#[export] Hint Resolve frame_is_live frame_load_hb frame_save_hb : frame.
Lemma frame_consume_hb P : ¬ P K_HbGate -> frame P _consume_hb_override.
Proof. frame_of _consume_hb_override. Qed.
Lemma frame_load_dev P : frame P _load_deviation_config.
Proof. frame_of _load_deviation_config. Qed.
Lemma frame_load_att P : frame P _load_attestation_config.
Proof. frame_of _load_attestation_config. Qed.
Lemma frame_set_mode P m : ¬ P K_Paused -> frame P (_set_mode m).
Proof. frame_of _set_mode. Qed.
#[export] Hint Resolve frame_consume_hb frame_load_dev frame_load_att frame_set_mode : frame.

(** ** What the gates do *)

Lemma run_policy_gate action mode (Q : outcome () -> State -> Prop) c s :
  persistent s !! K_Paused = enc cRuntimeMode <$> mode ->
  (∀ s', persistent s' = persistent s ->
     Q (if mode_blocks action (default Normal mode) then Err ContractPaused else Ok ()) s') ->
  run (_policy_gate action) Q c s.
Proof.
  intros Hm HQ. apply run_bind, run_bind, run_extend. intros s1 H1.
  eapply run_pget_or; [by rewrite H1|]. apply run_reject_if.
  specialize (HQ s1 H1). by destruct (mode_blocks _ _).
Qed.

Lemma run_require_schema o (Q : outcome Z -> State -> Prop) c s :
  persistent s !! K_SchemaVersion = enc cU32 <$> o ->
  (∀ s', persistent s' = persistent s ->
     Q (if (default 1 o =? 0) || (default 1 o >? CURRENT_SCHEMA_VERSION)
        then Err UnsupportedSchemaVersion else Ok (default 1 o)) s') ->
  run _require_supported_schema Q c s.
Proof.
  intros Ho HQ. apply run_bind, run_extend. intros s1 H1. apply run_bind, run_phas, run_bind.
  apply (run_mono _ (λ o1 s2, o1 = Ok () ∧ persistent s2 = persistent s)).
  { case_bool_decide; [apply run_extend; intros s2 H2; split; congruence|by apply run_ret]. }
  intros _ s2 [-> H2]. apply run_bind. eapply run_pget; [by rewrite H2|].
  apply run_bind, run_reject_if. specialize (HQ s2 H2). by destruct (_ || _).
Qed.
