(* ===== verification/AccessControl.v ===== *)
(** * Participant access control

    contracts/src/access_control.rs: the allowlist mode, the two lists and the
    admission gate of the betting entry points.  The gate is proved to be the
    documented decision (denylist first, then the allowlist when enabled, open
    otherwise), and the list handlers to keep the two lists disjoint. *)

From S2P Require Export Admin.

(** ** Definitions *)

Definition _emit_list_changed (list action : string) (user : Address) (reconciled : bool) : M () :=
  let detail :=
    if String.eqb list "allow" && String.eqb action "add" then "allow_add"
    else if String.eqb list "allow" && String.eqb action "rm" then "allow_rm"
    else if String.eqb list "deny" && String.eqb action "add" then "deny_add"
    else if String.eqb list "deny" && String.eqb action "rm" then "deny_rm"
    else "list_chg" in
  emit "access" detail [VAddr user; VBool reconciled].

Definition set_access_control_enabled (enabled : bool) : M () :=
  _ ← admin_guard "acc_mode";
  (if enabled then
     pset cBool K_AccessControlEnabled true ;;
     _extend_persistent_ttl K_AccessControlEnabled
   else premove K_AccessControlEnabled) ;;
  emit "access" "mode" [VBool enabled].

Definition is_access_control_enabled : M bool := pget_or cBool K_AccessControlEnabled false.

Definition add_allowlisted (user : Address) : M () :=
  _ ← admin_guard "allow_add";
  pset cBool (K_Allowlisted user) true ;;
  _extend_persistent_ttl (K_Allowlisted user) ;;
  was_denied ← phas (K_Denylisted user);
  (if (was_denied : bool) then premove (K_Denylisted user) else mret ()) ;;
  _emit_list_changed "allow" "add" user was_denied.

Definition remove_allowlisted (user : Address) : M () :=
  _ ← admin_guard "allow_rm";
  b ← phas (K_Allowlisted user);
  if negb b then mret () else
  premove (K_Allowlisted user) ;;
  _emit_list_changed "allow" "rm" user false.

Definition add_denylisted (user : Address) : M () :=
  _ ← admin_guard "deny_add";
  pset cBool (K_Denylisted user) true ;;
  _extend_persistent_ttl (K_Denylisted user) ;;
  was_allowed ← phas (K_Allowlisted user);
  (if (was_allowed : bool) then premove (K_Allowlisted user) else mret ()) ;;
  _emit_list_changed "deny" "add" user was_allowed.

Definition remove_denylisted (user : Address) : M () :=
  _ ← admin_guard "deny_rm";
  b ← phas (K_Denylisted user);
  if negb b then mret () else
  premove (K_Denylisted user) ;;
  _emit_list_changed "deny" "rm" user false.

Definition is_allowlisted (user : Address) : M bool := phas (K_Allowlisted user).
Definition is_denylisted (user : Address) : M bool := phas (K_Denylisted user).

Definition get_access_state (user : Address) : M AccessState :=
  d ← phas (K_Denylisted user);
  if (d : bool) then mret Denylisted else
  a ← phas (K_Allowlisted user);
  if (a : bool) then mret Allowlisted else mret Open.

Definition get_access_policy (user : Address) : M (bool * AccessState) :=
  enabled ← is_access_control_enabled;
  st ← get_access_state user;
  mret (enabled, st).

Definition _enforce_access_control (user : Address) : M () :=
  d ← phas (K_Denylisted user);
  reject_if d AccessDenied ;;
  enabled ← pget_or cBool K_AccessControlEnabled false;
  if (enabled : bool) then
    a ← phas (K_Allowlisted user);
    reject_if (negb a) AccessDenied
  else mret ().

(** ** Specification *)

Definition listed (s : State) (k : Key) : Prop := is_Some (persistent s !! k).

(** Whether the policy admits an address. *)
Definition admits (s : State) (enabled : bool) (user : Address) : bool :=
  negb (bool_decide (listed s (K_Denylisted user)))
  && (negb enabled || bool_decide (listed s (K_Allowlisted user))).

Lemma frame_enforce_access P u : frame P (_enforce_access_control u).
Proof. frame_of _enforce_access_control. Qed.
#[export] Hint Resolve frame_enforce_access : frame.

(** No address is on both lists. *)
Definition lists_disjoint (s : State) : Prop :=
  ∀ u, ¬ (listed s (K_Allowlisted u) ∧ listed s (K_Denylisted u)).

Lemma K_Allowlisted_inj u v : K_Allowlisted u = K_Allowlisted v -> u = v.
Proof. by intros [=]. Qed.
Lemma K_Denylisted_inj u v : K_Denylisted u = K_Denylisted v -> u = v.
Proof. by intros [=]. Qed.

(** Moving an address to one list clears it from the other. *)
Lemma disjoint_move (k1 k2 : Address -> Key) s s' v u :
  (∀ a b, k1 a = k1 b -> a = b) -> (∀ a b, k1 a ≠ k2 b) ->
  persistent s' = delete (k2 u) (<[k1 u:=v]> (persistent s)) ->
  (∀ a, ¬ (listed s (k1 a) ∧ listed s (k2 a))) ->
  ∀ a, ¬ (listed s' (k1 a) ∧ listed s' (k2 a)).
Proof.
  intros Hinj Hne Hs' Hd a [H1 H2]. unfold listed in *. rewrite Hs' in H1, H2.
  destruct (decide (k2 u = k2 a)) as [He|He].
  - rewrite He, lookup_delete_eq in H2. by destruct H2.
  - rewrite lookup_delete_ne in H2 by done. rewrite lookup_insert_ne in H2 by apply Hne.
    rewrite lookup_delete_ne in H1 by (intros ?; by eapply Hne).
    destruct (decide (u = a)) as [->|Hu]; [done|].
    rewrite lookup_insert_ne in H1 by (intros ?; by apply Hu, Hinj). by eapply Hd.
Qed.

Lemma wp_move_list (k1 k2 : Key) n l a u (Q : () -> State -> Prop) c s :
  (∀ s', persistent s' = delete k2 (<[k1:=VBool true]> (persistent s)) -> Q () s') ->
  wp (_ ← admin_guard n;
      pset cBool k1 true ;;
      _extend_persistent_ttl k1 ;;
      b ← phas k2;
      (if (b : bool) then premove k2 else mret ()) ;;
      _emit_list_changed l a u b) Q c s.
Proof.
  intros H. apply wp_bind, (wp_frame (λ _, True)); [auto with frame|]. intros ad s1 H1.
  assert (persistent s1 = persistent s) as Hp by (apply map_eq; intros k; by apply H1).
  apply wp_bind, wp_pset. intros s2 H2. apply wp_bind, wp_extend. intros s3 H3.
  apply wp_bind, wp_phas. intros b Hb. apply wp_bind.
  apply (wp_mono _ (λ _ s4, persistent s4 = delete k2 (persistent s3))).
  { destruct b; [by apply wp_premove|apply wp_ret].
    apply bool_decide_eq_false in Hb. rewrite delete_id; [done|]. by apply eq_None_not_Some. }
  intros _ s4 H4. unfold _emit_list_changed. apply wp_emit. intros s5 H5. apply H.
  rewrite H5, H4, H3, H2, Hp. done.
Qed.

(** ** Properties *)

(** C29: the admission gate decides as documented, and has no other effect: a
    denylisted address is refused in every mode, an address that is not
    allowlisted is refused when the allowlist is enabled, everyone else is
    admitted. *)
Theorem enforce_access_control_spec user enabled c s :
  persistent s !! K_AccessControlEnabled = enc cBool <$> enabled ->
  _enforce_access_control user c s =
    (if admits s (default false enabled) user then Ok () else Err AccessDenied, s).
Proof.
  intros He.
  assert (pget_or cBool K_AccessControlEnabled false c s = (Ok (default false enabled), s)) as Hr.
  { unfold pget_or, mbind, M_bind, pget. rewrite He, opt_dec_enc. done. }
  unfold _enforce_access_control, admits, listed, mbind, M_bind, phas. simpl.
  case_bool_decide; simpl; [done|]. rewrite Hr.
  destruct (default false enabled); simpl; [|done]. by case_bool_decide.
Qed.

(** The list handlers keep the allowlist and the denylist disjoint. *)
Theorem lists_stay_disjoint (add : bool) user c s a s' :
  (if add then add_allowlisted user else add_denylisted user) c s = (Ok a, s') ->
  lists_disjoint s ->
  lists_disjoint s' ∧ listed s' (if add then K_Allowlisted user else K_Denylisted user).
Proof.
  intros H Hd.
  cut (wp (if add then add_allowlisted user else add_denylisted user)
         (λ _ s', lists_disjoint s' ∧
            listed s' (if add then K_Allowlisted user else K_Denylisted user)) c s).
  { intros Hw. exact (Hw a s' H). }
  clear a s' H. destruct add; [unfold add_allowlisted|unfold add_denylisted];
    apply wp_move_list; intros s' Hs'; split.
  - intros u. eapply (disjoint_move K_Allowlisted K_Denylisted); [by apply K_Allowlisted_inj|done|done|done].
  - unfold listed. rewrite Hs', lookup_delete_ne, lookup_insert_eq by done. eauto.
  - intros u Hu. apply and_comm in Hu. revert u Hu.
    eapply (disjoint_move K_Denylisted K_Allowlisted); [by apply K_Denylisted_inj|done|done|].
    intros u Hu. apply (Hd u). by apply and_comm.
  - unfold listed. rewrite Hs', lookup_delete_ne, lookup_insert_eq by done. eauto.
Qed.
