(* ===== verification/Insurance.v ===== *)
(** * Insurance fund

    contracts/src/insurance.rs: the segregated fund that takes a share of every
    protocol fee, pays coverage on eligible cancellations and can be topped up
    and withdrawn.  Every operation moves value between slots; coverage and
    withdrawals never exceed the fund. *)

From S2P Require Export Admin.

Definition MAX_INSURANCE_SPLIT_BPS : Z := 5000.
Definition MAX_INSURANCE_COVERAGE_BPS : Z := 10000.

(** ** Configuration *)

(** The guard of this module: no schema check. *)
Definition ins_guard (action : string) : M Address :=
  admin ← pget_ok cAddr K_Admin AdminNotSet;
  require_auth admin ;;
  inspect_err _ensure_not_paused (λ e, _emit_action_rejected admin action e) ;;
  mret admin.

Definition set_insurance_split_bps (bps : Z) : M () :=
  admin ← ins_guard "ins_cfg";
  (if bps >? MAX_INSURANCE_SPLIT_BPS
   then emit_throw admin "ins_cfg" InsuranceInvalidSplit else mret ()) ;;
  old_bps ← pget_or cU32 K_InsSplitBps 0;
  pset cU32 K_InsSplitBps bps ;;
  _extend_persistent_ttl K_InsSplitBps ;;
  emit "ins" "split" [VU32 old_bps; VU32 bps].

Definition get_insurance_split_bps : M Z :=
  b ← phas K_InsSplitBps;
  (if (b : bool) then _extend_persistent_ttl K_InsSplitBps else mret ()) ;;
  pget_or cU32 K_InsSplitBps 0.

Definition set_insurance_coverage_bps (bps : Z) : M () :=
  admin ← ins_guard "ins_cfg";
  (if bps >? MAX_INSURANCE_COVERAGE_BPS
   then emit_throw admin "ins_cfg" InsuranceInvalidSplit else mret ()) ;;
  old_bps ← pget_or cU32 K_InsCovBps 0;
  pset cU32 K_InsCovBps bps ;;
  _extend_persistent_ttl K_InsCovBps ;;
  emit "ins" "covcfg" [VU32 old_bps; VU32 bps].

Definition get_insurance_coverage_bps : M Z :=
  b ← phas K_InsCovBps;
  (if (b : bool) then _extend_persistent_ttl K_InsCovBps else mret ()) ;;
  pget_or cU32 K_InsCovBps 0.

Definition set_insurance_eligible_events (events : list Z) : M () :=
  _ ← ins_guard "ins_cfg";
  pset cU32s K_InsEligEvt events ;;
  _extend_persistent_ttl K_InsEligEvt ;;
  emit "ins" "evlist" [VU32 (Z.of_nat (length events))].

Definition get_insurance_eligible_events : M (list Z) :=
  b ← phas K_InsEligEvt;
  (if (b : bool) then _extend_persistent_ttl K_InsEligEvt else mret ()) ;;
  pget_or cU32s K_InsEligEvt [].

Definition get_insurance_fund_balance : M Z :=
  b ← phas K_InsFundBal;
  (if (b : bool) then _extend_persistent_ttl K_InsFundBal else mret ()) ;;
  pget_or cI128 K_InsFundBal 0.

(** ** Fee share *)

Definition collect_insurance_fee (round_id fee_amount : Z) : M Z :=
  split_bps ← get_insurance_split_bps;
  if (split_bps =? 0) || (fee_amount <=? 0) then mret 0 else
  product ← ok_or (i128_checked_mul fee_amount split_bps) Overflow;
  insurance_amount ← ok_or (i128_checked_div product BPS_DENOMINATOR) Overflow;
  if insurance_amount <=? 0 then mret 0 else
  let capped_amount := Z.min insurance_amount fee_amount in
  current ← pget_or cI128 K_InsFundBal 0;
  new_balance ← ok_or (i128_checked_add current capped_amount) Overflow;
  pset cI128 K_InsFundBal new_balance ;;
  _extend_persistent_ttl K_InsFundBal ;;
  emit "ins" "fee_coll" [VU64 round_id; VI128 capped_amount; VI128 new_balance] ;;
  mret capped_amount.

(** ** Coverage *)

Definition event_of_reason (cancel_reason : Z) : option InsuranceEvent :=
  if cancel_reason =? 1 then Some OracleOutage
  else if cancel_reason =? 2 then Some OracleDeviation
  else if cancel_reason =? 3 then Some FallbackRefund
  else None.

Definition _is_eligible_event (cancel_reason : Z) : M bool :=
  match event_of_reason cancel_reason with
  | None => mret false
  | Some event_type =>
      whitelist ← get_insurance_eligible_events;
      mret (bool_decide (InsuranceEvent_u32 event_type ∈ whitelist))
  end.

Definition is_coverage_eligible (cancel_reason : Z) : M bool :=
  b ← _is_eligible_event cancel_reason;
  if (b : bool) then bps ← get_insurance_coverage_bps; mret (bps >? 0) else mret false.

Definition calculate_coverage_amount (stake : Z) : M Z :=
  coverage_bps ← get_insurance_coverage_bps;
  if (coverage_bps =? 0) || (stake <=? 0) then mret 0 else
  product ← ok_or (i128_checked_mul stake coverage_bps) Overflow;
  ok_or (i128_checked_div product BPS_DENOMINATOR) Overflow.

Definition deduct_insurance_coverage (round_id requested : Z) : M Z :=
  if requested <=? 0 then mret 0 else
  current_fund ← pget_or cI128 K_InsFundBal 0;
  if current_fund <=? 0 then mret 0 else
  let distributed := Z.min requested current_fund in
  new_balance ← ok_or (i128_checked_sub current_fund distributed) Overflow;
  pset cI128 K_InsFundBal new_balance ;;
  _extend_persistent_ttl K_InsFundBal ;;
  emit "ins" "coverage" [VU64 round_id; VI128 distributed; VI128 new_balance] ;;
  mret distributed.

(** ** Top-up and withdrawal *)

Definition top_up_insurance_fund (amount : Z) : M () :=
  admin ← ins_guard "ins_tup";
  reject_if (amount <=? 0) InvalidBetAmount ;;
  current_balance ← balance admin;
  reject_if (current_balance <? amount) InsufficientBalance ;;
  new_balance ← ok_or (i128_checked_sub current_balance amount) InsufficientBalance;
  _set_balance admin new_balance ;;
  current_fund ← pget_or cI128 K_InsFundBal 0;
  new_fund ← ok_or (i128_checked_add current_fund amount) Overflow;
  pset cI128 K_InsFundBal new_fund ;;
  _extend_persistent_ttl K_InsFundBal ;;
  emit "ins" "topup" [VAddr admin; VI128 amount; VI128 new_fund].

(** Governance's withdrawal, and the body of the admin's one. *)
Definition execute_withdraw_insurance_fund (recipient : Address) (amount : Z) : M Z :=
  reject_if (amount <=? 0) InvalidBetAmount ;;
  current_fund ← pget_or cI128 K_InsFundBal 0;
  reject_if (amount >? current_fund) InsuranceInsufficientFund ;;
  new_fund ← ok_or (i128_checked_sub current_fund amount) InsufficientBalance;
  pset cI128 K_InsFundBal new_fund ;;
  _extend_persistent_ttl K_InsFundBal ;;
  recipient_bal ← balance recipient;
  new_recipient_bal ← lift (payout_add recipient_bal amount);
  _set_balance recipient new_recipient_bal ;;
  emit "ins" "withdraw" [VAddr recipient; VI128 amount; VI128 new_fund] ;;
  mret amount.

Definition withdraw_insurance_fund (recipient : Address) (amount : Z) : M Z :=
  admin ← pget_ok cAddr K_Admin AdminNotSet;
  require_auth admin ;;
  b ← _is_gov_approver_set;
  reject_if b GovUnauthorized ;;
  inspect_err _ensure_not_paused (λ e, _emit_action_rejected admin "ins_wd" e) ;;
  execute_withdraw_insurance_fund recipient amount.

(** ** Facts *)

Lemma frame_ins_guard P n : frame P (ins_guard n).
Proof. frame_of ins_guard. Qed.
Lemma frame_split_bps P : frame P get_insurance_split_bps.
Proof. frame_of get_insurance_split_bps. Qed.
Lemma frame_cov_bps P : frame P get_insurance_coverage_bps.
Proof. frame_of get_insurance_coverage_bps. Qed.
Lemma frame_elig P : frame P get_insurance_eligible_events.
Proof. frame_of get_insurance_eligible_events. Qed.
#[export] Hint Resolve frame_ins_guard frame_split_bps frame_cov_bps frame_elig : frame.
Lemma frame_is_elig P r : frame P (_is_eligible_event r).
Proof. frame_of _is_eligible_event. Qed.
#[export] Hint Resolve frame_is_elig : frame.
Lemma frame_coverage_elig P r : frame P (is_coverage_eligible r).
Proof. frame_of is_coverage_eligible. Qed.
Lemma frame_coverage_amount P r : frame P (calculate_coverage_amount r).
Proof. frame_of calculate_coverage_amount. Qed.
Lemma frame_collect_insurance P r f : ¬ P K_InsFundBal -> frame P (collect_insurance_fee r f).
Proof. frame_of collect_insurance_fee. Qed.
Lemma frame_deduct P r f : ¬ P K_InsFundBal -> frame P (deduct_insurance_coverage r f).
Proof. frame_of deduct_insurance_coverage. Qed.
#[export] Hint Resolve frame_coverage_elig frame_coverage_amount frame_collect_insurance
  frame_deduct : frame.

(** The share credited to the fund is what is returned, within the fee. *)
Lemma wp_collect_insurance r fee (Q : Z -> State -> Prop) c s :
  (∀ x s', 0 ≤ x ≤ Z.max 0 fee -> total s' = total s + x ->
     (∀ k, k ≠ K_InsFundBal -> persistent s' !! k = persistent s !! k) -> Q x s') ->
  wp (collect_insurance_fee r fee) Q c s.
Proof.
  intros H. unfold collect_insurance_fee.
  apply wp_bind, (wp_frame (λ _, True)); [auto with frame|]. intros bps s1 Hs1.
  assert (persistent s1 = persistent s) as Hp by (apply map_eq; intros k; by apply Hs1).
  destruct (_ || _) eqn:E0.
  { apply wp_ret, H; [lia|rewrite (total_same s s1) by done; lia|by rewrite Hp]. }
  zbool. apply wp_bind, wp_ok_or. intros pr Hpr. apply wp_bind, wp_ok_or. intros ia Hia.
  destruct (ia <=? 0) eqn:Hi.
  { apply wp_ret, H; [lia|rewrite (total_same s s1) by done; lia|by rewrite Hp]. }
  zbool. apply wp_bind, wp_pget_or. intros o Ho.
  apply wp_bind, wp_ok_or. intros nb Hnb. checked_inv.
  apply wp_bind, wp_pset. intros s2 Hs2. apply wp_bind, wp_extend. intros s3 Hs3.
  apply wp_bind, wp_emit. intros s4 Hs4. apply wp_ret. apply H; [lia| |].
  - rewrite (total_same s3 s4), (total_same s2 s3), (total_insert s1 s2 _ _ Hs2),
      (total_same s s1), (slot_i128 s1 K_InsFundBal _ eq_refl Ho), weight_valued by done. simpl. lia.
  - intros k Hk. by rewrite Hs4, Hs3, Hs2, lookup_insert_ne, Hp.
Qed.

(** The smaller of the request and the fund, nothing when one of them is not
    positive. *)
Definition granted (requested fund : Z) : Z := Z.max 0 (Z.min requested fund).

(** Coverage leaves the fund by exactly what is returned. *)
Lemma wp_deduct r req (Q : Z -> State -> Prop) c s :
  (∀ x s', x = granted req (slot s K_InsFundBal) ->
     total s' = total s - x -> slot s' K_InsFundBal = slot s K_InsFundBal - x ->
     (∀ k, k ≠ K_InsFundBal -> persistent s' !! k = persistent s !! k) -> Q x s') ->
  wp (deduct_insurance_coverage r req) Q c s.
Proof.
  intros H. unfold deduct_insurance_coverage, granted in *.
  destruct (req <=? 0) eqn:E0; [apply wp_ret, H; try done; lia|]. zbool.
  apply wp_bind, wp_pget_or. intros o Ho.
  pose proof (slot_i128 s K_InsFundBal _ eq_refl Ho) as Hsl.
  destruct (_ <=? 0) eqn:E1; [apply wp_ret, H; try done; lia|]. zbool.
  apply wp_bind, wp_ok_or. intros nb Hnb. checked_inv.
  apply wp_bind, wp_pset. intros s2 Hs2. apply wp_bind, wp_extend. intros s3 Hs3.
  apply wp_bind, wp_emit. intros s4 Hs4. apply wp_ret. apply H; [lia| | |].
  - rewrite (total_same s3 s4), (total_same s2 s3), (total_insert s s2 _ _ Hs2),
      Hsl, weight_valued by done. simpl. lia.
  - rewrite (slot_same s3 s4), (slot_same s2 s3), (slot_insert s s2 _ _ _ Hs2) by done.
    rewrite decide_True, Hsl, weight_valued by done. simpl. lia.
  - intros k Hk. by rewrite Hs4, Hs3, Hs2, lookup_insert_ne.
Qed.

(** What the configuration in storage says: the coverage rate, the insured events,
    and whether a cancellation for [reason] is covered at all. *)
Definition coverage_rate (s : State) : Z := default 0 (persistent s !! K_InsCovBps ≫= dec cU32).
Definition insured_events (s : State) : list Z :=
  default [] (persistent s !! K_InsEligEvt ≫= dec cU32s).
Definition insured (s : State) (reason : Z) : bool :=
  match event_of_reason reason with
  | None => false
  | Some e => bool_decide (InsuranceEvent_u32 e ∈ insured_events s) && (coverage_rate s >? 0)
  end.

Lemma stored_default {A} (cd : Codec A) (v : option Val) o d :
  v = enc cd <$> o -> default d (v ≫= dec cd) = default d o.
Proof. intros ->. destruct o as [x|]; [|done]. simpl. by rewrite dec_enc. Qed.

Lemma wp_coverage_rate (Q : Z -> State -> Prop) c s :
  (∀ s', persistent s' = persistent s -> Q (coverage_rate s) s') -> wp get_insurance_coverage_bps Q c s.
Proof.
  intros H. unfold get_insurance_coverage_bps.
  apply wp_bind, wp_phas. intros b _. apply wp_bind.
  apply (wp_mono _ (λ _ s1, persistent s1 = persistent s)).
  { destruct b; [by apply wp_extend|by apply wp_ret]. }
  intros _ s1 H1. apply wp_pget_or. intros o Ho. rewrite H1 in Ho.
  rewrite <-(stored_default cU32 _ o 0 Ho). by apply H.
Qed.

Lemma wp_insured_events (Q : list Z -> State -> Prop) c s :
  (∀ s', persistent s' = persistent s -> Q (insured_events s) s') ->
  wp get_insurance_eligible_events Q c s.
Proof.
  intros H. unfold get_insurance_eligible_events.
  apply wp_bind, wp_phas. intros b _. apply wp_bind.
  apply (wp_mono _ (λ _ s1, persistent s1 = persistent s)).
  { destruct b; [by apply wp_extend|by apply wp_ret]. }
  intros _ s1 H1. apply wp_pget_or. intros o Ho. rewrite H1 in Ho.
  rewrite <-(stored_default cU32s _ o [] Ho). by apply H.
Qed.

(** The eligibility check decides [insured]. *)
Lemma wp_eligible reason (Q : bool -> State -> Prop) c s :
  (∀ s', persistent s' = persistent s -> Q (insured s reason) s') ->
  wp (is_coverage_eligible reason) Q c s.
Proof.
  intros H. unfold is_coverage_eligible, _is_eligible_event, insured in *.
  destruct (event_of_reason reason) as [e|].
  2:{ apply wp_bind, wp_ret, wp_ret. by apply H. }
  apply wp_bind, wp_bind, wp_insured_events. intros s1 H1. apply wp_ret.
  destruct (bool_decide _).
  - apply wp_bind, wp_coverage_rate. intros s2 H2. apply wp_ret.
    assert (coverage_rate s1 = coverage_rate s) as -> by (unfold coverage_rate; by rewrite H1).
    apply H. by rewrite H2.
  - apply wp_ret. by apply H.
Qed.

(** The coverage of one stake at the stored rate. *)
Lemma wp_coverage_amount stake (Q : Z -> State -> Prop) c s :
  0 < stake -> 0 < coverage_rate s ->
  (∀ s', persistent s' = persistent s -> Q (stake * coverage_rate s / BPS_DENOMINATOR) s') ->
  wp (calculate_coverage_amount stake) Q c s.
Proof.
  intros Hs Hr H. unfold calculate_coverage_amount.
  apply wp_bind, wp_coverage_rate. intros s1 H1.
  destruct (_ || _) eqn:E; [apply orb_true_iff in E as [E|E]; zbool; lia|].
  apply wp_bind, wp_ok_or. intros p Hp. apply wp_ok_or. intros q Hq.
  apply i128_checked_mul_Some in Hp as [-> _]. unfold i128_checked_div in Hq. simpl in Hq. apply checked_Some in Hq as [-> _].
  rewrite quot_div_nonneg by (unfold BPS_DENOMINATOR; nia). by apply H.
Qed.

(** Topping up and withdrawing move value between a balance and the fund. *)
Lemma wp_execute_withdraw r amt (Q : Z -> State -> Prop) c s :
  (∀ s', total s' = total s -> amt ≤ slot s K_InsFundBal -> Q amt s') ->
  wp (execute_withdraw_insurance_fund r amt) Q c s.
Proof.
  intros H. unfold execute_withdraw_insurance_fund. repeat wp_step. arith_inv.
  apply wp_extend. intros s2 Hs2. apply wp_bind, wp_balance. intros s3 o' Hs3 Ho'.
  repeat wp_step. arith_inv.
  apply wp_set_balance. intros s4 Hs4. repeat wp_step. apply H; money.
Qed.
