(* ===== verification/Config.v ===== *)
(** * Configuration

    contracts/src/config.rs: validators, protocol fee computation and
    collection, direct setters, and the timelocked changes (schedule, apply,
    cancel).  The fee facts say how a fee moves between slots; the timelock
    theorems say that a scheduled change takes effect only after its activation
    ledger, with the payload that was scheduled. *)

From S2P Require Export Insurance.

(** ** Validators *)

Definition oreject_if (b : bool) (e : ContractError) : outcome () :=
  if b then Err e else Ok ().

Definition _validate_pending_winnings_expiry (ledgers : Z) : outcome () :=
  oreject_if (negb (ledgers =? 0)
              && ((ledgers <? MIN_PENDING_WINNINGS_EXPIRY) || (ledgers >? MAX_PENDING_WINNINGS_EXPIRY)))
    InvalidDuration.

Definition _validate_round_template (start_price : Z) (mode : option Z) : outcome () :=
  if (start_price <? MIN_START_PRICE) || (start_price >? MAX_START_PRICE)
  then Err InvalidStartPrice
  else match mode with
       | Some m => oreject_if (m >? 1) InvalidMode
       | None => Ok ()
       end.

Definition _validate_windows (bet_ledgers run_ledgers : Z) : outcome () :=
  if (bet_ledgers =? 0) || (run_ledgers =? 0) then Err InvalidDuration
  else if (bet_ledgers >? MAX_BET_WINDOW_LEDGERS) || (run_ledgers >? MAX_RUN_WINDOW_LEDGERS)
  then Err WindowOutOfRange
  else oreject_if (bet_ledgers >=? run_ledgers) InvalidDuration.

Definition _validate_close_buffer_ledgers (buffer_ledgers : Z) : outcome () :=
  oreject_if (buffer_ledgers >? MAX_CLOSE_BUFFER_LEDGERS) WindowOutOfRange.

Definition _validate_max_stake (max_amount : option Z) : outcome () :=
  match max_amount with
  | Some v => oreject_if (v <? MIN_CAP_VALUE) InvalidBetAmount
  | None => Ok ()
  end.

Definition _validate_min_bet (min_amount : option Z) : outcome () :=
  match min_amount with
  | Some v => oreject_if (v <? MIN_CAP_VALUE) InvalidBetAmount
  | None => Ok ()
  end.

Definition _validate_oracle_stale_threshold (seconds : Z) : outcome () :=
  oreject_if (negb ((MIN_ORACLE_STALE_THRESHOLD <=? seconds)
                    && (seconds <=? MAX_ORACLE_STALE_THRESHOLD))) InvalidDuration.

Definition _validate_oracle_timestamp_skew (seconds : Z) : outcome () :=
  oreject_if (negb ((MIN_ORACLE_TIMESTAMP_SKEW <=? seconds)
                    && (seconds <=? MAX_ORACLE_TIMESTAMP_SKEW))) InvalidDuration.

Definition _validate_oracle_max_deviation_bps (bps : option Z) : outcome () :=
  match bps with
  | Some v => oreject_if ((v =? 0) || (v >? MAX_ORACLE_DEVIATION_BPS)) WindowOutOfRange
  | None => Ok ()
  end.

Definition _validate_protocol_fee_bps (bps : option Z) : outcome () :=
  match bps with
  | Some v => oreject_if ((v =? 0) || (v >? MAX_PROTOCOL_FEE_BPS)) InvalidProtocolFeeBps
  | None => Ok ()
  end.

(** ** Protocol fee *)

Definition _read_fee_model : M FeeModel :=
  v ← pget cFeeModel K_FeeModel;
  (if v is Some _ then _extend_persistent_ttl K_FeeModel else mret ()) ;;
  mret (default FeeOnPot v).

Definition _read_protocol_fee_bps : M (option Z) :=
  v ← pget cU32 K_ProtocolFeeBps;
  (if v is Some _ then _extend_persistent_ttl K_ProtocolFeeBps else mret ()) ;;
  mret v.

Definition _collect_protocol_fee (round_id fee_amount : Z) (bps_active : option Z)
    (model : FeeModel) : M () :=
  if fee_amount <=? 0 then mret () else
  insurance_amount ← collect_insurance_fee round_id fee_amount;
  ops_amount ← ok_or (i128_checked_sub fee_amount insurance_amount) Overflow;
  current ← pget_or cI128 K_ProtocolFeeTreasury 0;
  new_treasury ← ok_or (i128_checked_add current ops_amount) Overflow;
  pset cI128 K_ProtocolFeeTreasury new_treasury ;;
  _extend_persistent_ttl K_ProtocolFeeTreasury ;;
  emit "protocol" "fee_coll"
    [VU64 round_id; VI128 fee_amount; VI128 new_treasury; VU32 (default 0 bps_active);
     VU32 (FeeModel_u32 model)].

(** The fee of an UpDown round on its pot, or on the losing pool. *)
Definition updown_fee_amount (bps_value : Z) (model : FeeModel) (winning_pool losing_pool : Z)
  : outcome Z :=
  match model with
  | FeeOnPot =>
      total_pot ← payout_add winning_pool losing_pool;
      product ← some_or (i128_checked_mul total_pot bps_value) Overflow;
      Ok (Z.quot product BPS_DENOMINATOR)
  | FeeOnWinnings =>
      product ← some_or (i128_checked_mul losing_pool bps_value) Overflow;
      Ok (Z.quot product BPS_DENOMINATOR)
  end.

Definition calculate_protocol_fee_updown (bps : option Z) (model : FeeModel)
    (winning_pool losing_pool : Z) : outcome (Z * Z * Z) :=
  match bps with
  | None => Ok (winning_pool, losing_pool, 0)
  | Some bps_value =>
      fee_amount ← updown_fee_amount bps_value model winning_pool losing_pool;
      if fee_amount =? 0 then Ok (winning_pool, losing_pool, 0) else
      match model with
      | FeeOnPot =>
          let fee_from_losing := Z.min fee_amount losing_pool in
          fee_from_winning ← some_or (i128_checked_sub fee_amount fee_from_losing) Overflow;
          dist_winning ← some_or (i128_checked_sub winning_pool fee_from_winning) Overflow;
          dist_losing ← some_or (i128_checked_sub losing_pool fee_from_losing) Overflow;
          Ok (dist_winning, dist_losing, fee_amount)
      | FeeOnWinnings =>
          dist_losing ← some_or (i128_checked_sub losing_pool fee_amount) Overflow;
          Ok (winning_pool, dist_losing, fee_amount)
      end
  end.

Definition _apply_protocol_fee_updown (round_id winning_pool losing_pool : Z) : M (Z * Z * Z) :=
  bps ← _read_protocol_fee_bps;
  model ← _read_fee_model;
  '(dist_winning, dist_losing, fee_amount) ←
    lift (calculate_protocol_fee_updown bps model winning_pool losing_pool);
  (if fee_amount >? 0 then _collect_protocol_fee round_id fee_amount bps model else mret ()) ;;
  mret (dist_winning, dist_losing, fee_amount).

Definition calculate_protocol_fee_precision (bps : option Z) (model : FeeModel)
    (total_pot winner_stakes : Z) : outcome (Z * Z) :=
  match bps with
  | None => Ok (total_pot, 0)
  | Some bps_value =>
      if total_pot <=? 0 then Ok (total_pot, 0) else
      taxable_base ←
        match model with
        | FeeOnPot => Ok (Some total_pot)
        | FeeOnWinnings =>
            profit ← some_or (i128_checked_sub total_pot winner_stakes) Overflow;
            Ok (if profit <=? 0 then None else Some profit)
        end;
      match taxable_base with
      | None => Ok (total_pot, 0)
      | Some taxable_base =>
          product ← some_or (i128_checked_mul taxable_base bps_value) Overflow;
          let fee_amount := Z.quot product BPS_DENOMINATOR in
          if fee_amount =? 0 then Ok (total_pot, 0) else
          distributable ← some_or (i128_checked_sub total_pot fee_amount) Overflow;
          Ok (distributable, fee_amount)
      end
  end.

Definition _apply_protocol_fee_precision (round_id total_pot winner_stakes : Z) : M (Z * Z) :=
  bps ← _read_protocol_fee_bps;
  model ← _read_fee_model;
  '(distributable, fee_amount) ←
    lift (calculate_protocol_fee_precision bps model total_pot winner_stakes);
  (if fee_amount >? 0 then _collect_protocol_fee round_id fee_amount bps model else mret ()) ;;
  mret (distributable, fee_amount).

Definition withdraw_protocol_fee (recipient : Address) (amount : Z) : M Z :=
  _require_supported_schema ;;
  admin ← pget_ok cAddr K_Admin AdminNotSet;
  require_auth admin ;;
  b ← _is_gov_approver_set;
  reject_if b GovUnauthorized ;;
  inspect_err _ensure_not_paused (λ e, _emit_action_rejected admin "withdraw" e) ;;
  reject_if (amount <=? 0) InvalidBetAmount ;;
  current ← pget_or cI128 K_ProtocolFeeTreasury 0;
  reject_if (amount >? current) InsufficientBalance ;;
  new_treasury ← ok_or (i128_checked_sub current amount) InsufficientBalance;
  pset cI128 K_ProtocolFeeTreasury new_treasury ;;
  _extend_persistent_ttl K_ProtocolFeeTreasury ;;
  recipient_bal ← balance recipient;
  new_bal ← lift (payout_add recipient_bal amount);
  _set_balance recipient new_bal ;;
  emit "protocol" "fee_with" [VAddr recipient; VI128 amount; VI128 new_treasury] ;;
  mret amount.

(** ** Reads *)

Definition get_extended {A} (cd : Codec A) (k : Key) : M (option A) :=
  _extend_persistent_ttl k ;; pget cd k.
Definition get_extended_or {A} (cd : Codec A) (k : Key) (d : A) : M A :=
  _extend_persistent_ttl k ;; pget_or cd k d.

Definition get_max_stake : M (option Z) := get_extended cI128 K_MaxStake.
Definition get_min_bet : M (option Z) := get_extended cI128 K_MinBet.
Definition get_max_user_exposure : M (option Z) := get_extended cI128 K_MaxUserRoundExposure.
Definition get_max_pending_winnings : M (option Z) := get_extended cI128 K_MaxPendingWinnings.
Definition get_oracle_timestamp_skew : M Z := iget_or cU64 K_otskew DEFAULT_ORACLE_TIMESTAMP_SKEW.
Definition get_protocol_fee_bps : M (option Z) := get_extended cU32 K_ProtocolFeeBps.
Definition get_protocol_fee_treasury : M Z := get_extended_or cI128 K_ProtocolFeeTreasury 0.
Definition get_fee_model : M FeeModel := _read_fee_model.
Definition get_pending_config_change (kind : ConfigChangeKind) : M (option PendingConfigChange) :=
  pget cPendingConfig (K_PendingConfigChange kind).
Definition get_close_buffer_ledgers : M Z :=
  get_extended_or cU32 K_CloseBufferLedgers DEFAULT_CLOSE_BUFFER_LEDGERS.
Definition get_bet_window_ledgers : M Z :=
  get_extended_or cU32 K_BetWindowLedgers DEFAULT_BET_WINDOW_LEDGERS.
Definition get_run_window_ledgers : M Z :=
  get_extended_or cU32 K_RunWindowLedgers DEFAULT_RUN_WINDOW_LEDGERS.
Definition get_min_participants : M (option Z) := get_extended cU32 K_MinParticipants.
Definition get_max_precision_participants : M Z :=
  get_extended_or cU32 K_MaxPrecisionParticipants DEFAULT_MAX_PRECISION_PARTICIPANTS.
Definition get_precision_payout_policy : M Z := get_extended_or cU32 K_PrecisionPayoutPolicy 0.
Definition _read_precision_payout_policy : M PrecisionPayoutPolicy :=
  policy_val ← get_extended_or cU32 K_PrecisionPayoutPolicy 0;
  mret (if policy_val =? 1 then StakeWeighted else Equal).
Definition get_mint_limit : M Z := iget_or cU32 K_MintLimitConfig 0.
Definition get_epoch_mint_budget : M Z := iget_or cI128 K_EpMintBgt 0.
Definition get_archive_retention : M Z :=
  get_extended_or cU32 K_ArchiveRetention DEFAULT_ARCHIVE_RETENTION.
Definition get_round_template : M (option RoundTemplate) := get_extended cTemplate K_RoundTemplate.
Definition get_early_cashout_bps : M (option Z) := get_extended cU32 K_EarlyCashoutBps.
Definition get_pending_winnings_expiry : M Z :=
  get_extended_or cU32 K_PendingWinningsExpiry DEFAULT_PENDING_WINNINGS_EXPIRY.
Definition get_dispute_ledgers : M Z :=
  v ← pget_or cU32 K_DisputeLedgers DEFAULT_DISPUTE_LEDGERS;
  (if v >? 0 then _extend_ttl_symbol K_DisputeLedgers else mret ()) ;;
  mret v.

(** ** Direct setters *)

Definition set_ext {A} (cd : Codec A) (k : Key) (x : A) : M () :=
  pset cd k x ;; _extend_persistent_ttl k.

(** [if let Some(v) = o { set; extend } else { remove }] *)
Definition set_or_remove {A} (cd : Codec A) (k : Key) (o : option A) : M () :=
  match o with Some v => set_ext cd k v | None => premove k end.

Definition emit_throw_if (b : bool) (admin : Address) (action : string) (e : ContractError) : M () :=
  if b then emit_throw admin action e else mret ().

Definition set_fee_model (model : FeeModel) : M () :=
  _ ← admin_guard "fee_mod";
  old_model ← _read_fee_model;
  set_ext cFeeModel K_FeeModel model ;;
  _emit_config_updated KFeeModel (PFeeModel old_model) (PFeeModel model).

Definition set_close_buffer_ledgers (buffer_ledgers : Z) : M () :=
  _ ← admin_guard "closebuf";
  lift (_validate_close_buffer_ledgers buffer_ledgers) ;;
  old_buffer ← pget_or cU32 K_CloseBufferLedgers DEFAULT_CLOSE_BUFFER_LEDGERS;
  set_ext cU32 K_CloseBufferLedgers buffer_ledgers ;;
  _emit_config_updated KCloseBufferLedgers (PCloseBufferLedgers old_buffer)
    (PCloseBufferLedgers buffer_ledgers).

Definition min_participants_invalid (min : option Z) : bool :=
  match min with Some v => (v =? 0) || (v >? MAX_MIN_PARTICIPANTS) | None => false end.

Definition set_min_participants (min : option Z) : M () :=
  admin ← admin_guard "min_par";
  old_min ← pget cU32 K_MinParticipants;
  emit_throw_if (min_participants_invalid min) admin "min_par" InvalidMinParticipants ;;
  set_or_remove cU32 K_MinParticipants min ;;
  _emit_config_updated KMinParticipants (PMinParticipants old_min) (PMinParticipants min).

Definition set_max_precision_participants (max : Z) : M () :=
  admin ← admin_guard "max_prec";
  emit_throw_if ((max =? 0) || (max >? MAX_PRECISION_PARTICIPANTS_LIMIT)) admin "max_prec"
    InvalidPrecisionCap ;;
  old_max ← pget_or cU32 K_MaxPrecisionParticipants DEFAULT_MAX_PRECISION_PARTICIPANTS;
  set_ext cU32 K_MaxPrecisionParticipants max ;;
  _emit_config_updated KMaxPrecisionParticipants (PMaxPrecisionParticipants old_max)
    (PMaxPrecisionParticipants max).

Definition set_precision_payout_policy (policy : Z) : M () :=
  admin ← admin_guard "prec_pol";
  emit_throw_if (policy >? 1) admin "prec_pol" InvalidMode ;;
  old_policy ← pget_or cU32 K_PrecisionPayoutPolicy 0;
  set_ext cU32 K_PrecisionPayoutPolicy policy ;;
  _emit_config_updated KPrecisionPayoutPolicy (PPrecisionPayoutPolicy old_policy)
    (PPrecisionPayoutPolicy policy).

Definition set_mint_limit (limit : Z) : M () :=
  _ ← admin_guard "mint_lim";
  old_limit ← iget_or cU32 K_MintLimitConfig 0;
  iset cU32 K_MintLimitConfig limit ;;
  _emit_config_updated KMintLimit (PMintLimit old_limit) (PMintLimit limit).

Definition set_epoch_mint_budget (budget : Z) : M () :=
  admin ← admin_guard "epch_bgt";
  emit_throw_if (budget <? 0) admin "epch_bgt" InvalidBetAmount ;;
  old_budget ← iget_or cI128 K_EpMintBgt 0;
  iset cI128 K_EpMintBgt budget ;;
  _emit_config_updated KEpochMintBudget (PEpochMintBudget old_budget) (PEpochMintBudget budget).

Definition retention_invalid (limit : Z) : bool :=
  negb ((MIN_ARCHIVE_RETENTION <=? limit) && (limit <=? MAX_ARCHIVE_RETENTION)).

Definition set_archive_retention (limit : Z) : M () :=
  admin ← admin_guard "set_arch";
  emit_throw_if (retention_invalid limit) admin "set_arch" WindowOutOfRange ;;
  old_limit ← pget_or cU32 K_ArchiveRetention DEFAULT_ARCHIVE_RETENTION;
  set_ext cU32 K_ArchiveRetention limit ;;
  emit "archive" "retention" [VU32 limit] ;;
  _emit_config_updated KArchiveRetention (PArchiveRetention old_limit) (PArchiveRetention limit).

Definition set_round_template (start_price : Z) (mode : option Z) : M () :=
  admin ← admin_guard "set_tmpl";
  inspect_err (lift (_validate_round_template start_price mode))
    (λ e, _emit_action_rejected admin "set_tmpl" e) ;;
  set_ext cTemplate K_RoundTemplate {| tmpl_start_price := start_price; tmpl_mode := mode |} ;;
  emit "template" "set" [VU128 start_price; VU32 (default 0 mode)].

Definition clear_round_template : M () :=
  admin ← admin_guard "clr_tmpl";
  b ← phas K_RoundTemplate;
  emit_throw_if (negb b) admin "clr_tmpl" CommitmentNotFound ;;
  premove K_RoundTemplate ;;
  seq ← asks sequence;
  emit "template" "cleared" [VU32 seq].

Definition set_dispute_ledgers (ledgers : Z) : M () :=
  admin ← admin_guard "set_dsp";
  emit_throw_if (ledgers >? MAX_DISPUTE_LEDGERS) admin "set_dsp" WindowOutOfRange ;;
  old ← pget_or cU32 K_DisputeLedgers DEFAULT_DISPUTE_LEDGERS;
  pset cU32 K_DisputeLedgers ledgers ;;
  _extend_ttl_symbol K_DisputeLedgers ;;
  _emit_config_updated KDisputeLedgers (PDisputeLedgers old) (PDisputeLedgers ledgers).

Definition fee_bps_invalid (bps : option Z) : bool :=
  match bps with Some v => (v =? 0) || (v >? MAX_PROTOCOL_FEE_BPS) | None => false end.

Definition set_early_cashout_bps (bps : option Z) : M () :=
  admin ← admin_guard "ec_bps";
  emit_throw_if (fee_bps_invalid bps) admin "ec_bps" InvalidProtocolFeeBps ;;
  old_bps ← pget cU32 K_EarlyCashoutBps;
  set_or_remove cU32 K_EarlyCashoutBps bps ;;
  emit "config" "ec_bps" [VOptU32 bps] ;;
  _emit_config_updated KEarlyCashoutBps (PEarlyCashoutBps old_bps) (PEarlyCashoutBps bps).

(** ** Timelocked changes *)

Definition _schedule_config_change (kind : ConfigChangeKind) (payload : ConfigChangePayload) : M () :=
  admin ← pget_ok cAddr K_Admin AdminNotSet;
  require_auth admin ;;
  inspect_err _ensure_not_paused (λ e, _emit_action_rejected admin "sched" e) ;;
  let key := K_PendingConfigChange kind in
  b ← phas key;
  emit_throw_if b admin "sched" RoundAlreadyActive ;;
  scheduled_at_ledger ← asks sequence;
  activation_ledger ← ok_or (u32_checked_add scheduled_at_ledger CONFIG_TIMELOCK_LEDGERS) Overflow;
  pset cPendingConfig key
    {| payload := payload; activation_ledger := activation_ledger;
       scheduled_at_ledger := scheduled_at_ledger |} ;;
  _extend_persistent_ttl key ;;
  emit "config" "sched" [VU32 (ConfigChangeKind_u32 kind); VU32 activation_ledger].

(** The public schedulers: schema, validation of the value, then the schedule. *)
Definition schedule_change (check : outcome ()) (kind : ConfigChangeKind)
    (payload : ConfigChangePayload) : M () :=
  _require_supported_schema ;;
  lift check ;;
  _schedule_config_change kind payload.

Definition schedule_min_bet (min_amount : option Z) : M () :=
  schedule_change (_validate_min_bet min_amount) KMinBet (PMinBet min_amount).
Definition schedule_windows (bet_ledgers run_ledgers : Z) : M () :=
  schedule_change (_validate_windows bet_ledgers run_ledgers) KWindows (PWindows bet_ledgers run_ledgers).
Definition schedule_max_stake (max_amount : option Z) : M () :=
  schedule_change (_validate_max_stake max_amount) KMaxStake (PMaxStake max_amount).
Definition schedule_max_user_exposure (max_exposure : option Z) : M () :=
  schedule_change (_validate_max_stake max_exposure) KMaxUserRoundExposure
    (PMaxUserRoundExposure max_exposure).
Definition schedule_max_pending_winnings (max_pending : option Z) : M () :=
  schedule_change (_validate_max_stake max_pending) KMaxPendingWinnings
    (PMaxPendingWinnings max_pending).
Definition schedule_oracle_stale_threshold (seconds : Z) : M () :=
  schedule_change (_validate_oracle_stale_threshold seconds) KOracleStaleThreshold
    (POracleStaleThreshold seconds).
Definition schedule_oracle_deviation_bps (bps : option Z) : M () :=
  schedule_change (_validate_oracle_max_deviation_bps bps) KOracleMaxDeviationBps
    (POracleMaxDeviationBps bps).
Definition schedule_oracle_timestamp_skew (seconds : Z) : M () :=
  schedule_change (_validate_oracle_timestamp_skew seconds) KOracleTimestampSkew
    (POracleTimestampSkew seconds).
Definition schedule_protocol_fee_bps (bps : option Z) : M () :=
  schedule_change (_validate_protocol_fee_bps bps) KProtocolFeeBps (PProtocolFeeBps bps).
Definition schedule_pending_winnings_expiry (ledgers : Z) : M () :=
  schedule_change (_validate_pending_winnings_expiry ledgers) KPendingWinningsExpiry
    (PPendingWinningsExpiry ledgers).

Definition _current_config_payload (kind : ConfigChangeKind) : M ConfigChangePayload :=
  match kind with
  | KWindows =>
      bet ← pget_or cU32 K_BetWindowLedgers DEFAULT_BET_WINDOW_LEDGERS;
      run ← pget_or cU32 K_RunWindowLedgers DEFAULT_RUN_WINDOW_LEDGERS;
      mret (PWindows bet run)
  | KMaxStake => v ← pget cI128 K_MaxStake; mret (PMaxStake v)
  | KMaxUserRoundExposure => v ← pget cI128 K_MaxUserRoundExposure; mret (PMaxUserRoundExposure v)
  | KMaxPendingWinnings => v ← pget cI128 K_MaxPendingWinnings; mret (PMaxPendingWinnings v)
  | KOracleStaleThreshold =>
      v ← pget_or cU64 K_OracleStaleThreshold DEFAULT_ORACLE_STALE_THRESHOLD;
      mret (POracleStaleThreshold v)
  | KOracleMaxDeviationBps => v ← pget cU32 K_OracleMaxDeviationBps; mret (POracleMaxDeviationBps v)
  | KProtocolFeeBps => v ← pget cU32 K_ProtocolFeeBps; mret (PProtocolFeeBps v)
  | KMinParticipants => v ← pget cU32 K_MinParticipants; mret (PMinParticipants v)
  | KMaxPrecisionParticipants =>
      v ← pget_or cU32 K_MaxPrecisionParticipants DEFAULT_MAX_PRECISION_PARTICIPANTS;
      mret (PMaxPrecisionParticipants v)
  | KMintLimit => v ← iget_or cU32 K_MintLimitConfig 0; mret (PMintLimit v)
  | KArchiveRetention =>
      v ← pget_or cU32 K_ArchiveRetention DEFAULT_ARCHIVE_RETENTION; mret (PArchiveRetention v)
  | KCloseBufferLedgers =>
      v ← pget_or cU32 K_CloseBufferLedgers DEFAULT_CLOSE_BUFFER_LEDGERS;
      mret (PCloseBufferLedgers v)
  | KOracleTimestampSkew =>
      v ← iget_or cU64 K_otskew DEFAULT_ORACLE_TIMESTAMP_SKEW; mret (POracleTimestampSkew v)
  | KPendingWinningsExpiry =>
      v ← pget_or cU32 K_PendingWinningsExpiry DEFAULT_PENDING_WINNINGS_EXPIRY;
      mret (PPendingWinningsExpiry v)
  | KMinBet => v ← pget cI128 K_MinBet; mret (PMinBet v)
  | KEpochMintBudget => v ← iget_or cI128 K_EpMintBgt 0; mret (PEpochMintBudget v)
  | KPrecisionPayoutPolicy => v ← pget_or cU32 K_PrecisionPayoutPolicy 0; mret (PPrecisionPayoutPolicy v)
  | KDisputeLedgers => v ← pget_or cU32 K_DisputeLedgers DEFAULT_DISPUTE_LEDGERS; mret (PDisputeLedgers v)
  | KFeeModel => v ← _read_fee_model; mret (PFeeModel v)
  | KEarlyCashoutBps => v ← pget cU32 K_EarlyCashoutBps; mret (PEarlyCashoutBps v)
  end.

(** The arms of [_apply_config_payload]: validate again, then write. *)
Definition apply_arm (kind : ConfigChangeKind) (payload : ConfigChangePayload) : M () :=
  match kind, payload with
  | KWindows, PWindows bet run =>
      lift (_validate_windows bet run) ;;
      set_ext cU32 K_BetWindowLedgers bet ;;
      set_ext cU32 K_RunWindowLedgers run ;;
      emit "windows" "updated" [VU32 bet; VU32 run]
  | KMaxStake, PMaxStake max =>
      lift (_validate_max_stake max) ;; set_or_remove cI128 K_MaxStake max
  | KCloseBufferLedgers, PCloseBufferLedgers buffer =>
      lift (_validate_close_buffer_ledgers buffer) ;; set_ext cU32 K_CloseBufferLedgers buffer
  | KMaxUserRoundExposure, PMaxUserRoundExposure max =>
      lift (_validate_max_stake max) ;; set_or_remove cI128 K_MaxUserRoundExposure max
  | KMaxPendingWinnings, PMaxPendingWinnings max =>
      lift (_validate_max_stake max) ;; set_or_remove cI128 K_MaxPendingWinnings max
  | KOracleStaleThreshold, POracleStaleThreshold seconds =>
      lift (_validate_oracle_stale_threshold seconds) ;; set_ext cU64 K_OracleStaleThreshold seconds
  | KOracleMaxDeviationBps, POracleMaxDeviationBps bps =>
      lift (_validate_oracle_max_deviation_bps bps) ;; set_or_remove cU32 K_OracleMaxDeviationBps bps
  | KOracleTimestampSkew, POracleTimestampSkew seconds =>
      lift (_validate_oracle_timestamp_skew seconds) ;; iset cU64 K_otskew seconds
  | KPendingWinningsExpiry, PPendingWinningsExpiry ledgers =>
      lift (_validate_pending_winnings_expiry ledgers) ;;
      set_ext cU32 K_PendingWinningsExpiry ledgers ;;
      emit "pending" "expiry" [VU32 ledgers]
  | KMinBet, PMinBet min =>
      lift (_validate_min_bet min) ;; set_or_remove cI128 K_MinBet min
  | KProtocolFeeBps, PProtocolFeeBps bps =>
      lift (_validate_protocol_fee_bps bps) ;;
      set_or_remove cU32 K_ProtocolFeeBps bps ;;
      emit "protocol" "fee_bps" [VOptU32 bps]
  | KPrecisionPayoutPolicy, PPrecisionPayoutPolicy policy =>
      reject_if (policy >? 1) InvalidMode ;; set_ext cU32 K_PrecisionPayoutPolicy policy
  | KDisputeLedgers, PDisputeLedgers ledgers =>
      reject_if (ledgers >? MAX_DISPUTE_LEDGERS) WindowOutOfRange ;;
      pset cU32 K_DisputeLedgers ledgers ;; _extend_ttl_symbol K_DisputeLedgers
  | KFeeModel, PFeeModel model => set_ext cFeeModel K_FeeModel model
  | KEpochMintBudget, PEpochMintBudget budget =>
      reject_if (budget <? 0) InvalidBetAmount ;; iset cI128 K_EpMintBgt budget
  | KMintLimit, PMintLimit limit => iset cU32 K_MintLimitConfig limit
  | KArchiveRetention, PArchiveRetention limit =>
      reject_if (retention_invalid limit) WindowOutOfRange ;; set_ext cU32 K_ArchiveRetention limit
  | KMinParticipants, PMinParticipants min =>
      reject_if (min_participants_invalid min) InvalidMinParticipants ;;
      set_or_remove cU32 K_MinParticipants min
  | KMaxPrecisionParticipants, PMaxPrecisionParticipants max =>
      reject_if ((max =? 0) || (max >? MAX_PRECISION_PARTICIPANTS_LIMIT)) InvalidPrecisionCap ;;
      set_ext cU32 K_MaxPrecisionParticipants max
  | KEarlyCashoutBps, PEarlyCashoutBps bps =>
      reject_if (fee_bps_invalid bps) InvalidProtocolFeeBps ;;
      set_or_remove cU32 K_EarlyCashoutBps bps
  | _, _ => throw InvalidMode
  end.

Definition _apply_config_payload (kind : ConfigChangeKind) (payload : ConfigChangePayload) : M () :=
  old_value ← _current_config_payload kind;
  apply_arm kind payload ;;
  _emit_config_updated kind old_value payload.

Definition apply_scheduled_changes (kind : ConfigChangeKind) : M () :=
  _require_supported_schema ;;
  _ensure_normal_mode ;;
  let key := K_PendingConfigChange kind in
  pending ← pget_ok cPendingConfig key CommitmentNotFound;
  current_ledger ← asks sequence;
  reject_if (current_ledger <? activation_ledger pending) RoundNotEnded ;;
  _apply_config_payload kind (payload pending) ;;
  premove key ;;
  emit "config" "applied" [VU32 (ConfigChangeKind_u32 kind); VU32 (activation_ledger pending)].

Definition cancel_config_change (kind : ConfigChangeKind) : M () :=
  admin ← admin_guard "cncl_cfg";
  let key := K_PendingConfigChange kind in
  pending ← pget_ok cPendingConfig key CommitmentNotFound;
  seq ← asks sequence;
  emit_throw_if (seq >=? activation_ledger pending) admin "cncl_cfg" RoundNotCancellable ;;
  premove key ;;
  emit "config" "cancel" [VU32 (ConfigChangeKind_u32 kind); VU32 seq].

(** ** Frames *)

Lemma frame_read_fee_model P : frame P _read_fee_model.
Proof. frame_of _read_fee_model. Qed.
Lemma frame_read_fee_bps P : frame P _read_protocol_fee_bps.
Proof. frame_of _read_protocol_fee_bps. Qed.
Lemma frame_get_ext {A} P (cd : Codec A) k : frame P (get_extended cd k).
Proof. frame_of get_extended. Qed.
Lemma frame_get_ext_or {A} P (cd : Codec A) k d : frame P (get_extended_or cd k d).
Proof. frame_of get_extended_or. Qed.
Lemma frame_set_ext {A} (P : Key -> Prop) (cd : Codec A) k x : ¬ P k -> frame P (set_ext cd k x).
Proof. frame_of set_ext. Qed.
#[export] Hint Resolve frame_read_fee_model frame_read_fee_bps frame_get_ext frame_get_ext_or
  frame_set_ext : frame.
Lemma frame_set_or_remove {A} (P : Key -> Prop) (cd : Codec A) k o :
  ¬ P k -> frame P (set_or_remove cd k o).
Proof. frame_of set_or_remove. Qed.
Lemma frame_throw_if P b a n e : frame P (emit_throw_if b a n e).
Proof. frame_of emit_throw_if. Qed.
Lemma frame_max_precision P : frame P get_max_precision_participants.
Proof. apply frame_get_ext_or. Qed.
Lemma frame_cashout_bps P : frame P get_early_cashout_bps.
Proof. apply frame_get_ext. Qed.
Lemma frame_min_participants P : frame P get_min_participants.
Proof. apply frame_get_ext. Qed.
Lemma frame_dispute_ledgers P : frame P get_dispute_ledgers.
Proof. frame_of get_dispute_ledgers. Qed.
Lemma frame_payout_policy P : frame P _read_precision_payout_policy.
Proof. frame_of _read_precision_payout_policy. Qed.
Lemma frame_collect_fee (P : Key -> Prop) r f b m :
  ¬ P K_InsFundBal -> ¬ P K_ProtocolFeeTreasury -> frame P (_collect_protocol_fee r f b m).
Proof. frame_of _collect_protocol_fee. Qed.
#[export] Hint Resolve frame_set_or_remove frame_throw_if frame_max_precision frame_cashout_bps
  frame_min_participants frame_dispute_ledgers frame_payout_policy frame_collect_fee : frame.
Lemma frame_apply_fee_updown (P : Key -> Prop) r w l :
  ¬ P K_InsFundBal -> ¬ P K_ProtocolFeeTreasury -> frame P (_apply_protocol_fee_updown r w l).
Proof. frame_of _apply_protocol_fee_updown. Qed.
Lemma frame_apply_fee_precision (P : Key -> Prop) r w l :
  ¬ P K_InsFundBal -> ¬ P K_ProtocolFeeTreasury -> frame P (_apply_protocol_fee_precision r w l).
Proof. frame_of _apply_protocol_fee_precision. Qed.
#[export] Hint Resolve frame_apply_fee_updown frame_apply_fee_precision : frame.

(** ** How fees move *)

Lemma calculate_fee_updown_inv bps model w l dw dl fee :
  calculate_protocol_fee_updown bps model w l = Ok (dw, dl, fee) ->
  0 ≤ w -> 0 ≤ l -> 0 ≤ fee_rate bps ≤ BPS_DENOMINATOR ->
  dw + dl + fee = w + l ∧ 0 ≤ dw ≤ w ∧ 0 ≤ dl ≤ l ∧ 0 ≤ fee ∧
  fee = match model with
        | FeeOnPot => (w + l) * fee_rate bps / BPS_DENOMINATOR
        | FeeOnWinnings => l * fee_rate bps / BPS_DENOMINATOR
        end.
Proof.
  unfold calculate_protocol_fee_updown, fee_rate, BPS_DENOMINATOR. intros H Hw Hl Hb.
  destruct bps as [b|]; simpl in *.
  2:{ simplify_eq. rewrite !Z.mul_0_r. destruct model; change (0 / 10000) with 0; lia. }
  apply obind_Ok in H as (f & Ef & H).
  assert (f = match model with
              | FeeOnPot => (w + l) * b / 10000
              | FeeOnWinnings => l * b / 10000
              end ∧ 0 ≤ f ≤ match model with FeeOnPot => w + l | FeeOnWinnings => l end)
    as [Hf Hfb].
  { unfold updown_fee_amount, BPS_DENOMINATOR in Ef. destruct model; ok_inv Ef; arith_inv; subst f;
      rewrite quot_div_nonneg by nia; (split; [done|]);
      (split; [apply Z.div_pos; nia|apply Z.div_le_upper_bound; nia]). }
  destruct (f =? 0) eqn:?; zbool; [simplify_eq; lia|].
  destruct model; ok_inv H; simplify_eq; arith_inv; lia.
Qed.

Lemma calculate_fee_precision_inv bps model pot ws d fee :
  calculate_protocol_fee_precision bps model pot ws = Ok (d, fee) ->
  0 ≤ pot -> 0 ≤ ws -> 0 ≤ fee_rate bps ≤ BPS_DENOMINATOR ->
  d + fee = pot ∧ 0 ≤ d ∧ 0 ≤ fee.
Proof.
  unfold calculate_protocol_fee_precision, fee_rate, BPS_DENOMINATOR. intros H Hp Hws Hb.
  destruct bps as [b|]; simpl in *; [|simplify_eq; lia].
  destruct (pot <=? 0) eqn:?; zbool; [simplify_eq; lia|].
  apply obind_Ok in H as (base & Eb & H).
  assert (∀ x, base = Some x -> 0 < x ≤ pot) as Hbase.
  { intros x ->. destruct model; ok_inv Eb; simplify_eq; [lia|]. arith_inv.
    destruct (pot - ws <=? 0) eqn:?; zbool; simplify_eq. lia. }
  destruct base as [x|]; [|simplify_eq; lia]. specialize (Hbase x eq_refl).
  apply obind_Ok in H as (p & Ep & H). arith_inv.
  rewrite quot_div_nonneg in H by nia.
  assert (0 ≤ x * b / 10000 ≤ x).
  { split; [apply Z.div_pos; nia|apply Z.div_le_upper_bound; nia]. }
  destruct (_ =? 0) eqn:?; [simplify_eq; lia|].
  apply obind_Ok in H as (d' & Ed & H). simplify_eq. arith_inv. lia.
Qed.

(** Collecting a fee credits the treasury and the insurance fund with exactly
    the fee. *)
Lemma wp_collect_fee r fee b m (Q : () -> State -> Prop) c s :
  (∀ s', total s' = total s + Z.max 0 fee ->
     (∀ k, k ≠ K_InsFundBal -> k ≠ K_ProtocolFeeTreasury ->
           persistent s' !! k = persistent s !! k) -> Q () s') ->
  wp (_collect_protocol_fee r fee b m) Q c s.
Proof.
  intros H. unfold _collect_protocol_fee.
  destruct (fee <=? 0) eqn:?; zbool; [apply wp_ret, H; [lia|done]|].
  apply wp_bind, wp_collect_insurance. intros x s1 Hx Ht1 Hp1.
  repeat wp_step. arith_inv. apply wp_extend. intros s2 Hs2. repeat wp_step. apply H.
  - money.
  - intros k Hk1 Hk2. match goal with E : persistent ?x = persistent s2 |- _ => rewrite E end.
    rewrite Hs2. match goal with E : persistent ?x = insert _ _ _ |- _ => rewrite E end.
    by rewrite lookup_insert_ne, Hp1.
Qed.

(** The configured fee rate is one the validators admit. *)
Definition fee_config_ok (s : State) : Prop :=
  ∀ b, persistent s !! K_ProtocolFeeBps = Some (VU32 b) -> 0 ≤ b ≤ MAX_PROTOCOL_FEE_BPS.

Lemma fee_config_ok_rate s bps :
  fee_config_ok s -> persistent s !! K_ProtocolFeeBps = enc cU32 <$> bps ->
  0 ≤ fee_rate bps ≤ BPS_DENOMINATOR.
Proof.
  intros Hok Hb. unfold fee_rate, BPS_DENOMINATOR. destruct bps as [b|]; simpl in *; [|lia].
  specialize (Hok b Hb). unfold MAX_PROTOCOL_FEE_BPS in Hok. lia.
Qed.

(** The terms a round is settled under: the fee rate and model in storage. *)
Definition stored_bps (s : State) (bps : option Z) : Prop :=
  persistent s !! K_ProtocolFeeBps = enc cU32 <$> bps.
Definition stored_model (s : State) (model : FeeModel) : Prop :=
  ∃ o, persistent s !! K_FeeModel = enc cFeeModel <$> o ∧ model = default FeeOnPot o.

(** What the fee functions return on the stored terms. *)
Definition charged_updown (s : State) (w l : Z) (split : Z * Z * Z) : Prop :=
  ∃ bps model, stored_bps s bps ∧ stored_model s model ∧
    calculate_protocol_fee_updown bps model w l = Ok split.
Definition charged_precision (s : State) (pot ws : Z) (split : Z * Z) : Prop :=
  ∃ bps model, stored_bps s bps ∧ stored_model s model ∧
    calculate_protocol_fee_precision bps model pot ws = Ok split.

Lemma stored_bps_det s b1 b2 : stored_bps s b1 -> stored_bps s b2 -> b1 = b2.
Proof. apply stored_det. Qed.
Lemma stored_model_det s m1 m2 : stored_model s m1 -> stored_model s m2 -> m1 = m2.
Proof. intros (o1 & H1 & ->) (o2 & H2 & ->). f_equal. by eapply stored_det. Qed.

Lemma charged_updown_det s w l f1 f2 :
  charged_updown s w l f1 -> charged_updown s w l f2 -> f1 = f2.
Proof.
  intros (b1 & m1 & Hb1 & Hm1 & E1) (b2 & m2 & Hb2 & Hm2 & E2).
  rewrite (stored_bps_det s b1 b2), (stored_model_det s m1 m2) in E1 by done. congruence.
Qed.
Lemma charged_precision_det s p w f1 f2 :
  charged_precision s p w f1 -> charged_precision s p w f2 -> f1 = f2.
Proof.
  intros (b1 & m1 & Hb1 & Hm1 & E1) (b2 & m2 & Hb2 & Hm2 & E2).
  rewrite (stored_bps_det s b1 b2), (stored_model_det s m1 m2) in E1 by done. congruence.
Qed.

Lemma wp_fee_bps (Q : option Z -> State -> Prop) c s :
  (∀ bps s', persistent s' = persistent s -> stored_bps s bps -> Q bps s') ->
  wp _read_protocol_fee_bps Q c s.
Proof.
  intros H. unfold _read_protocol_fee_bps. apply wp_bind, wp_pget. intros v Hv.
  apply wp_bind. apply (wp_mono _ (λ _ s', persistent s' = persistent s)).
  { destruct v; [by apply wp_extend|by apply wp_ret]. }
  intros _ s' Hs'. by apply wp_ret, H.
Qed.

Lemma wp_fee_model (Q : FeeModel -> State -> Prop) c s :
  (∀ model s', persistent s' = persistent s -> stored_model s model -> Q model s') ->
  wp _read_fee_model Q c s.
Proof.
  intros H. unfold _read_fee_model. apply wp_bind, wp_pget. intros v Hv.
  apply wp_bind. apply (wp_mono _ (λ _ s', persistent s' = persistent s)).
  { destruct v; [by apply wp_extend|by apply wp_ret]. }
  intros _ s' Hs'. apply wp_ret, H; [done|]. by exists v.
Qed.

(** Both terms, read in the same call. *)
Lemma wp_fee_terms {A} (f : option Z -> FeeModel -> M A) (Q : A -> State -> Prop) c s :
  (∀ bps model s', persistent s' = persistent s -> stored_bps s bps -> stored_model s model ->
     wp (f bps model) Q c s') ->
  wp (bps ← _read_protocol_fee_bps; model ← _read_fee_model; f bps model) Q c s.
Proof.
  intros H. apply wp_bind, wp_fee_bps. intros bps s1 Hs1 Hb. apply wp_bind, wp_fee_model.
  intros model s2 Hs2 (o & Ho & ->). apply H; [congruence|done|]. exists o. by rewrite <-Hs1.
Qed.

(** Collecting the fee after the split. *)
Lemma wp_collect_if r fee b m (Q : () -> State -> Prop) c s t :
  persistent t = persistent s -> 0 ≤ fee ->
  (∀ s', total s' = total s + fee ->
     (∀ k, k ≠ K_InsFundBal -> k ≠ K_ProtocolFeeTreasury ->
           persistent s' !! k = persistent s !! k) -> Q () s') ->
  wp (if fee >? 0 then _collect_protocol_fee r fee b m else mret ()) Q c t.
Proof.
  intros Hs Hf H. assert (total t = total s) as Ht by by apply total_same.
  destruct (fee >? 0) eqn:?; zbool.
  - apply wp_collect_fee. intros s3 Ht3 Hk. apply H; [lia|]. intros k ??. by rewrite Hk, Hs.
  - apply wp_ret, H; [lia|]. intros. by rewrite Hs.
Qed.

Lemma wp_apply_fee_updown r w l (Q : Z * Z * Z -> State -> Prop) c s :
  fee_config_ok s -> 0 ≤ w -> 0 ≤ l ->
  (∀ dw dl fee s', charged_updown s w l (dw, dl, fee) ->
     dw + dl + fee = w + l -> 0 ≤ dw ≤ w -> 0 ≤ dl ≤ l -> 0 ≤ fee ->
     total s' = total s + fee ->
     (∀ k, k ≠ K_InsFundBal -> k ≠ K_ProtocolFeeTreasury ->
           persistent s' !! k = persistent s !! k) -> Q (dw, dl, fee) s') ->
  wp (_apply_protocol_fee_updown r w l) Q c s.
Proof.
  intros Hok Hw Hl H. apply wp_fee_terms. intros bps model s1 Hs1 Hb Hmod.
  apply wp_bind, wp_lift. intros [[dw dl] fee] E.
  pose proof (calculate_fee_updown_inv _ _ _ _ _ _ _ E Hw Hl (fee_config_ok_rate _ _ Hok Hb))
    as (? & ? & ? & ? & _).
  apply wp_bind, (wp_collect_if _ _ _ _ _ _ s); [done..|]. intros s2 Ht Hk.
  apply wp_ret, H; try done. by exists bps, model.
Qed.

Lemma wp_apply_fee_precision r pot ws (Q : Z * Z -> State -> Prop) c s :
  fee_config_ok s -> 0 ≤ pot -> 0 ≤ ws ->
  (∀ d fee s', charged_precision s pot ws (d, fee) -> d + fee = pot -> 0 ≤ d -> 0 ≤ fee ->
     total s' = total s + fee ->
     (∀ k, k ≠ K_InsFundBal -> k ≠ K_ProtocolFeeTreasury ->
           persistent s' !! k = persistent s !! k) -> Q (d, fee) s') ->
  wp (_apply_protocol_fee_precision r pot ws) Q c s.
Proof.
  intros Hok Hw Hl H. apply wp_fee_terms. intros bps model s1 Hs1 Hb Hmod.
  apply wp_bind, wp_lift. intros [d fee] E.
  pose proof (calculate_fee_precision_inv _ _ _ _ _ _ E Hw Hl (fee_config_ok_rate _ _ Hok Hb))
    as (? & ? & ?).
  apply wp_bind, (wp_collect_if _ _ _ _ _ _ s); [done..|]. intros s2 Ht Hk.
  apply wp_ret, H; try done. by exists bps, model.
Qed.

(** The payout policy in storage. *)
Definition stored_policy (s : State) (policy : PrecisionPayoutPolicy) : Prop :=
  ∃ o, persistent s !! K_PrecisionPayoutPolicy = enc cU32 <$> o ∧
       policy = (if default 0 o =? 1 then StakeWeighted else Equal).

Lemma stored_policy_det s p1 p2 : stored_policy s p1 -> stored_policy s p2 -> p1 = p2.
Proof. intros (o1 & H1 & ->) (o2 & H2 & ->). by rewrite (stored_det cU32 _ _ _ H1 H2). Qed.
(** The terms are three entries. *)
Definition terms_key (k : Key) : Prop :=
  k = K_ProtocolFeeBps ∨ k = K_FeeModel ∨ k = K_PrecisionPayoutPolicy.

Lemma terms_same s t :
  agree terms_key s t ->
  (∀ w l f, charged_updown t w l f <-> charged_updown s w l f) ∧
  (∀ p w f, charged_precision t p w f <-> charged_precision s p w f) ∧
  (∀ p, stored_policy t p <-> stored_policy s p).
Proof.
  unfold agree, terms_key. intros H.
  unfold charged_updown, charged_precision, stored_policy, stored_bps, stored_model.
  rewrite !H by auto. done.
Qed.

Lemma wp_payout_policy (Q : PrecisionPayoutPolicy -> State -> Prop) c s :
  (∀ policy s', persistent s' = persistent s -> stored_policy s policy -> Q policy s') ->
  wp _read_precision_payout_policy Q c s.
Proof.
  intros H. unfold _read_precision_payout_policy, get_extended_or.
  apply wp_bind, wp_bind, wp_extend. intros s1 Hs1. apply wp_pget_or. intros o Ho.
  apply wp_ret, H; [done|]. exists o. by rewrite <-Hs1.
Qed.
