(* ===== verification/Governance.v ===== *)
(** * Governance

    contracts/src/governance.rs: the dual-approval pipeline for critical
    actions (propose, approve, execute, cancel) and the amendment records of
    the on-chain constitution. *)

From S2P Require Export Config.

(** ** Membership *)

(** The administrator, or the second approver when one is set. *)
Definition _is_authorized_gov_user (user : Address) : M bool :=
  admin ← pget cAddr K_Admin;
  if bool_decide (admin = Some user) then mret true else
  approver ← pget cAddr K_GovApprover;
  mret (bool_decide (approver = Some user)).

(** Every entry point starts with it. *)
Definition gov_guard (user : Address) (action : string) : M () :=
  _require_supported_schema ;;
  require_auth user ;;
  b ← _is_authorized_gov_user user;
  if (b : bool) then mret () else emit_throw user action GovUnauthorized.

Definition set_gov_approver (approver : Address) : M () :=
  _require_supported_schema ;;
  admin ← pget_ok cAddr K_Admin AdminNotSet;
  require_auth admin ;;
  pset cAddr K_GovApprover approver ;;
  _extend_persistent_ttl K_GovApprover ;;
  emit "gov" "appr_set" [VAddr admin; VAddr approver].

Definition get_gov_approver : M (option Address) :=
  _extend_persistent_ttl K_GovApprover ;; pget cAddr K_GovApprover.

Definition set_gov_proposal_ttl (ttl_ledgers : Z) : M () :=
  _require_supported_schema ;;
  admin ← pget_ok cAddr K_Admin AdminNotSet;
  require_auth admin ;;
  reject_if (ttl_ledgers =? 0) WindowOutOfRange ;;
  pset cU32 K_GovProposalTtlLedgers ttl_ledgers ;;
  _extend_persistent_ttl K_GovProposalTtlLedgers.

Definition get_gov_proposal_ttl : M Z :=
  _extend_persistent_ttl K_GovProposalTtlLedgers ;;
  pget_or cU32 K_GovProposalTtlLedgers DEFAULT_GOV_PROPOSAL_TTL_LEDGERS.

Definition _action_code (action : GovAction) : Z :=
  match action with
  | PauseProtocol => 0 | UnpauseProtocol => 1 | SetProtocolFeeBps _ => 2
  | WithdrawProtocolFee _ _ => 3 | SetTreasuryAddress _ => 4 | SetAdmin _ => 5
  | SetOracle _ => 6 | WithdrawInsuranceFund _ _ => 7 | SetInsuranceSplitBps _ => 8
  | SetInsuranceCoverageBps _ => 9
  end.

(** ** Proposals *)

Definition with_status (p : GovProposal) (st : GovProposalStatus) : GovProposal :=
  {| gp_id := gp_id p; gp_proposer := gp_proposer p; gp_approver := gp_approver p;
     gp_action := gp_action p; gp_created_at_ledger := gp_created_at_ledger p;
     gp_expires_at_ledger := gp_expires_at_ledger p; gp_status := st |}.

Definition with_approver (p : GovProposal) (a : Address) : GovProposal :=
  {| gp_id := gp_id p; gp_proposer := gp_proposer p; gp_approver := Some a;
     gp_action := gp_action p; gp_created_at_ledger := gp_created_at_ledger p;
     gp_expires_at_ledger := gp_expires_at_ledger p; gp_status := Approved |}.

Definition store_proposal (id : Z) (p : GovProposal) : M () :=
  pset cProposal (K_GovProposal id) p ;;
  _extend_persistent_ttl (K_GovProposal id).

(** An expired proposal is marked so before the call fails. *)
Definition reject_expired (id : Z) (p : GovProposal) : M () :=
  current_ledger ← asks sequence;
  if current_ledger >? gp_expires_at_ledger p then
    store_proposal id (with_status p Expired) ;;
    emit "gov" "expired" [VU64 id; VU32 current_ledger] ;;
    throw ProposalExpired
  else mret ().

Definition propose (proposer : Address) (action : GovAction) (custom_ttl : option Z) : M Z :=
  gov_guard proposer "propose" ;;
  proposal_id ← pget_or cU64 K_NextGovProposalId 1;
  next ← or_trap (u64_checked_add proposal_id 1);
  pset cU64 K_NextGovProposalId next ;;
  _extend_persistent_ttl K_NextGovProposalId ;;
  ttl ← match custom_ttl with Some t => mret t | None => get_gov_proposal_ttl end;
  created_at_ledger ← asks sequence;
  let expires_at_ledger := u32_saturating_add created_at_ledger ttl in
  store_proposal proposal_id
    {| gp_id := proposal_id; gp_proposer := proposer; gp_approver := None; gp_action := action;
       gp_created_at_ledger := created_at_ledger; gp_expires_at_ledger := expires_at_ledger;
       gp_status := Pending |} ;;
  emit "gov" "proposed"
    [VU64 proposal_id; VAddr proposer; VU32 (_action_code action); VU32 expires_at_ledger] ;;
  mret proposal_id.

Definition approve (approver : Address) (proposal_id : Z) : M () :=
  gov_guard approver "approve" ;;
  proposal ← pget_ok cProposal (K_GovProposal proposal_id) ProposalNotFound;
  reject_expired proposal_id proposal ;;
  match gp_status proposal with
  | Cancelled | Executed | Approved => throw GovInvalidState
  | Expired => throw ProposalExpired
  | Pending =>
      (if bool_decide (gp_proposer proposal = approver)
       then emit_throw approver "approve" GovInvalidState else mret ()) ;;
      store_proposal proposal_id (with_approver proposal approver) ;;
      emit "gov" "approved" [VU64 proposal_id; VAddr approver]
  end.

Definition _execute_withdraw_fee (recipient : Address) (amount : Z) : M Z :=
  reject_if (amount <=? 0) InvalidBetAmount ;;
  current ← pget_or cI128 K_ProtocolFeeTreasury 0;
  reject_if (amount >? current) InsufficientBalance ;;
  new_treasury ← ok_or (i128_checked_sub current amount) InsufficientBalance;
  pset cI128 K_ProtocolFeeTreasury new_treasury ;;
  _extend_persistent_ttl K_ProtocolFeeTreasury ;;
  recipient_bal ← balance recipient;
  new_bal ← lift (payout_add recipient_bal amount);
  _set_balance recipient new_bal ;;
  emit "protocol" "fee_with" [VAddr recipient; VI128 amount; VI128 new_treasury] ;;
  mret amount.

Definition execute_action (action : GovAction) : M () :=
  match action with
  | PauseProtocol => _set_mode FullyPaused
  | UnpauseProtocol => _set_mode Normal
  | SetProtocolFeeBps bps =>
      lift (_validate_protocol_fee_bps bps) ;; set_or_remove cU32 K_ProtocolFeeBps bps
  | WithdrawProtocolFee recipient amount => _execute_withdraw_fee recipient amount ;; mret ()
  | SetTreasuryAddress treasury => set_ext cAddr K_ProtocolFeeTreasury treasury
  | SetAdmin new_admin => set_ext cAddr K_Admin new_admin
  | SetOracle new_oracle => set_ext cAddr K_Oracle new_oracle
  | WithdrawInsuranceFund recipient amount =>
      execute_withdraw_insurance_fund recipient amount ;; mret ()
  | SetInsuranceSplitBps bps => set_insurance_split_bps bps
  | SetInsuranceCoverageBps bps => set_insurance_coverage_bps bps
  end.

Definition execute (executor : Address) (proposal_id : Z) : M () :=
  gov_guard executor "execute" ;;
  proposal ← pget_ok cProposal (K_GovProposal proposal_id) ProposalNotFound;
  reject_expired proposal_id proposal ;;
  match gp_status proposal with
  | Cancelled | Executed | Pending => throw GovInvalidState
  | Expired => throw ProposalExpired
  | Approved =>
      execute_action (gp_action proposal) ;;
      store_proposal proposal_id (with_status proposal Executed) ;;
      emit "gov" "executed"
        [VU64 proposal_id; VAddr executor; VU32 (_action_code (gp_action proposal))]
  end.

Definition cancel (canceller : Address) (proposal_id : Z) : M () :=
  gov_guard canceller "cancel" ;;
  proposal ← pget_ok cProposal (K_GovProposal proposal_id) ProposalNotFound;
  match gp_status proposal with
  | Executed | Cancelled => throw GovInvalidState
  | _ =>
      store_proposal proposal_id (with_status proposal Cancelled) ;;
      emit "gov" "cancel" [VU64 proposal_id; VAddr canceller]
  end.

Definition get_gov_proposal (proposal_id : Z) : M (option GovProposal) :=
  _extend_persistent_ttl (K_GovProposal proposal_id) ;;
  o ← pget cProposal (K_GovProposal proposal_id);
  match o with
  | None => mret None
  | Some p =>
      current_ledger ← asks sequence;
      mret (Some (if bool_decide (gp_status p = Pending ∨ gp_status p = Approved)
                     && (current_ledger >? gp_expires_at_ledger p)
                  then with_status p Expired else p))
  end.

(** ** Constitution and amendments *)

Definition establish_constitution (veto timelock : Z) (dual : bool) : M () :=
  _require_supported_schema ;;
  admin ← pget_ok cAddr K_Admin AdminNotSet;
  require_auth admin ;;
  b ← phas K_ConstitutionMetadata;
  reject_if b AlreadyInitialized ;;
  seq ← asks sequence;
  pset cConstitution K_ConstitutionMetadata
    {| veto_window_ledgers := veto; timelock_ledgers := timelock;
       dual_approval_required := dual; established_at_ledger := seq |} ;;
  _extend_persistent_ttl K_ConstitutionMetadata ;;
  emit "const" "estab" [VU32 veto; VU32 timelock; VBool dual].

Definition get_constitution : M (option ConstitutionMetadata) :=
  _extend_persistent_ttl K_ConstitutionMetadata ;; pget cConstitution K_ConstitutionMetadata.

Definition with_am_status (a : Amendment) (st : AmendmentStatus) : Amendment :=
  {| am_id := am_id a; am_proposer := am_proposer a; am_parameter_name := am_parameter_name a;
     am_new_value := am_new_value a; am_created_at_ledger := am_created_at_ledger a;
     am_veto_deadline_ledger := am_veto_deadline_ledger a;
     am_activation_deadline_ledger := am_activation_deadline_ledger a; am_status := st |}.

Definition store_amendment (id : Z) (a : Amendment) : M () :=
  pset cAmendment (K_Amendment id) a ;;
  _extend_persistent_ttl (K_Amendment id).

Definition propose_amendment (proposer : Address) (parameter_name : string) (new_value : Z) : M Z :=
  gov_guard proposer "amend" ;;
  constitution ← pget_ok cConstitution K_ConstitutionMetadata GovInvalidState;
  amendment_id ← pget_or cU64 K_NextAmendmentId 1;
  next ← or_trap (u64_checked_add amendment_id 1);
  pset cU64 K_NextAmendmentId next ;;
  _extend_persistent_ttl K_NextAmendmentId ;;
  current_ledger ← asks sequence;
  let veto_deadline := u32_saturating_add current_ledger (veto_window_ledgers constitution) in
  let activation_deadline := u32_saturating_add veto_deadline (timelock_ledgers constitution) in
  store_amendment amendment_id
    {| am_id := amendment_id; am_proposer := proposer; am_parameter_name := parameter_name;
       am_new_value := new_value; am_created_at_ledger := current_ledger;
       am_veto_deadline_ledger := veto_deadline;
       am_activation_deadline_ledger := activation_deadline; am_status := AmPending |} ;;
  emit "const" "amend"
    [VU64 amendment_id; VAddr proposer; VSym parameter_name; VU32 veto_deadline;
     VU32 activation_deadline] ;;
  mret amendment_id.

Definition veto_amendment (vetoer : Address) (amendment_id : Z) : M () :=
  gov_guard vetoer "veto" ;;
  amendment ← pget_ok cAmendment (K_Amendment amendment_id) ProposalNotFound;
  current_ledger ← asks sequence;
  reject_if (current_ledger >? am_veto_deadline_ledger amendment) GovInvalidState ;;
  reject_if (bool_decide (am_status amendment ≠ AmPending)) GovInvalidState ;;
  store_amendment amendment_id (with_am_status amendment AmVetoed) ;;
  emit "const" "vetoed" [VU64 amendment_id; VAddr vetoer].

Definition activate_amendment (activator : Address) (amendment_id : Z) : M () :=
  gov_guard activator "activate" ;;
  amendment ← pget_ok cAmendment (K_Amendment amendment_id) ProposalNotFound;
  current_ledger ← asks sequence;
  reject_if (current_ledger <=? am_activation_deadline_ledger amendment) GovInvalidState ;;
  reject_if (bool_decide (am_status amendment ≠ AmPending)) GovInvalidState ;;
  store_amendment amendment_id (with_am_status amendment AmActivated) ;;
  emit "const" "actv" [VU64 amendment_id; VAddr activator; VU32 current_ledger].

(** Reading an amendment past its activation deadline stores it as expired. *)
Definition get_amendment (amendment_id : Z) : M (option Amendment) :=
  _extend_persistent_ttl (K_Amendment amendment_id) ;;
  o ← pget cAmendment (K_Amendment amendment_id);
  match o with
  | None => mret None
  | Some a =>
      current_ledger ← asks sequence;
      if bool_decide (am_status a = AmPending)
         && (current_ledger >? am_activation_deadline_ledger a)
      then let a' := with_am_status a AmExpired in
           store_amendment amendment_id a' ;; mret (Some a')
      else mret (Some a)
  end.
