(* ===== verification/GovernanceSpec.v ===== *)
(** * What governance guarantees

    The two-person rule as an invariant of every reachable state, the exact
    effect of executing each action, and the life cycle of an amendment. *)

From S2P Require Export Governance.

(** ** Frames *)

Lemma frame_gov_user P u : frame P (_is_authorized_gov_user u).
Proof. frame_of _is_authorized_gov_user. Qed.
Lemma frame_approver_set P : frame P _is_gov_approver_set.
Proof. frame_of _is_gov_approver_set. Qed.
Lemma frame_store_proposal (P : Key -> Prop) id p :
  ¬ P (K_GovProposal id) -> frame P (store_proposal id p).
Proof. frame_of store_proposal. Qed.
Lemma frame_gov_ttl P : frame P get_gov_proposal_ttl.
Proof. frame_of get_gov_proposal_ttl. Qed.
#[export] Hint Resolve frame_gov_user frame_approver_set frame_store_proposal frame_gov_ttl : frame.

(** ** Rules of the helpers *)

(** Who may act: the administrator and the approver. *)
Definition gov_member (s : State) (u : Address) : Prop :=
  persistent s !! K_Admin = Some (VAddr u) ∨ persistent s !! K_GovApprover = Some (VAddr u).

Lemma wp_gov_guard u n (Q : () -> State -> Prop) c s :
  (∀ s', persistent s' = persistent s -> authorised c u = true -> gov_member s u -> Q () s') ->
  wp (gov_guard u n) Q c s.
Proof.
  intros H. unfold gov_guard. apply wp_bind, wp_readonly; [auto with frame|]. intros ? s1 H1.
  apply wp_bind, wp_require_auth. intros Ha. apply wp_bind.
  apply (wp_mono _ (λ b t, t = s1 ∧ (b = true -> gov_member s u))).
  { unfold _is_authorized_gov_user. apply wp_bind, wp_pget. intros o Ho. rewrite H1 in Ho.
    case_bool_decide as Hu.
    - apply wp_ret. split; [done|]. intros _. left. by rewrite Ho, Hu.
    - apply wp_bind, wp_pget. intros o' Ho'. rewrite H1 in Ho'. apply wp_ret. split; [done|].
      intros Hb%bool_decide_eq_true. right. by rewrite Ho', Hb. }
  intros b t [-> Hb]. destruct b; [apply wp_ret; auto|].
  unfold emit_throw, _emit_action_rejected. wp_step. wp_step. apply wp_throw.
Qed.

Lemma wp_store_proposal id p (Q : () -> State -> Prop) c s :
  (∀ s', persistent s' = <[K_GovProposal id := VProposal p]> (persistent s) -> Q () s') ->
  wp (store_proposal id p) Q c s.
Proof.
  intros H. unfold store_proposal. apply wp_bind, wp_pset. intros s1 H1. apply wp_extend.
  intros s2 H2. apply H. by rewrite H2, H1.
Qed.

Lemma wp_reject_expired id p (Q : () -> State -> Prop) c s :
  (sequence c ≤ gp_expires_at_ledger p -> Q () s) -> wp (reject_expired id p) Q c s.
Proof.
  intros H. unfold reject_expired. do 2 wp_step. destruct (_ >? _) eqn:?; zbool; [|by apply wp_ret, H].
  wp_step. apply wp_store_proposal. intros. do 2 wp_step. apply wp_throw.
Qed.

Lemma wp_set_ext {A} (cd : Codec A) k x (Q : () -> State -> Prop) c s :
  (∀ s', persistent s' = <[k := enc cd x]> (persistent s) -> Q () s') ->
  wp (set_ext cd k x) Q c s.
Proof.
  intros H. unfold set_ext. apply wp_bind, wp_pset. intros s1 H1. apply wp_extend.
  intros s2 H2. apply H. by rewrite H2, H1.
Qed.

Lemma wp_set_or_remove {A} (cd : Codec A) k o (Q : () -> State -> Prop) c s :
  (∀ s', persistent s' !! k = enc cd <$> o ->
     (∀ k', k' ≠ k -> persistent s' !! k' = persistent s !! k') -> Q () s') ->
  wp (set_or_remove cd k o) Q c s.
Proof.
  intros H. unfold set_or_remove. destruct o.
  - apply wp_set_ext. intros s' Hs'. apply H; [|intros k' Hk']; rewrite Hs'.
    + by rewrite lookup_insert_eq.
    + by rewrite lookup_insert_ne.
  - apply wp_premove. intros s' Hs'. apply H; [|intros k' Hk']; rewrite Hs'.
    + by rewrite lookup_delete_eq.
    + by rewrite lookup_delete_ne.
Qed.

(** ** Executing an action *)

(** [amount] moves from the slot [from] to the balance of [u]; nothing else
    changes. *)
Record pays_out (from : Key) (u : Address) (amount : Z) (s s' : State) : Prop := {
  po_amount : 0 < amount ≤ slot s from;
  po_from : slot s' from = slot s from - amount;
  po_to : slot s' (K_Balance u) = slot s (K_Balance u) + amount;
  po_total : total s' = total s;
  po_rest k : k ≠ from -> k ≠ K_Balance u -> persistent s' !! k = persistent s !! k }.

(** What each action does to the persistent entries. *)
Definition action_effect (a : GovAction) (s s' : State) : Prop :=
  match a with
  | PauseProtocol =>
      agree (λ k, k ≠ K_Paused) s s' ∧ persistent s' !! K_Paused = Some (enc cRuntimeMode FullyPaused)
  | UnpauseProtocol =>
      agree (λ k, k ≠ K_Paused) s s' ∧
      default (enc cRuntimeMode Normal) (persistent s' !! K_Paused) = enc cRuntimeMode Normal
  | SetProtocolFeeBps bps =>
      agree (λ k, k ≠ K_ProtocolFeeBps) s s' ∧
      persistent s' !! K_ProtocolFeeBps = enc cU32 <$> bps ∧
      ∀ b, bps = Some b -> b ≠ 0 ∧ b ≤ MAX_PROTOCOL_FEE_BPS
  | WithdrawProtocolFee u amount => pays_out K_ProtocolFeeTreasury u amount s s'
  | WithdrawInsuranceFund u amount => pays_out K_InsFundBal u amount s s'
  | SetTreasuryAddress a => persistent s' = <[K_ProtocolFeeTreasury := VAddr a]> (persistent s)
  | SetAdmin a => persistent s' = <[K_Admin := VAddr a]> (persistent s)
  | SetOracle a => persistent s' = <[K_Oracle := VAddr a]> (persistent s)
  | SetInsuranceSplitBps bps =>
      bps ≤ MAX_INSURANCE_SPLIT_BPS ∧ persistent s' = <[K_InsSplitBps := VU32 bps]> (persistent s)
  | SetInsuranceCoverageBps bps =>
      bps ≤ MAX_INSURANCE_COVERAGE_BPS ∧ persistent s' = <[K_InsCovBps := VU32 bps]> (persistent s)
  end.
(** The two writes of a withdrawal. *)
Lemma pays_out_writes from u amount o o' s s' :
  valued from = true -> from ≠ K_Balance u ->
  persistent s !! from = enc cI128 <$> o -> persistent s !! K_Balance u = enc cI128 <$> o' ->
  0 < amount ≤ default 0 o ->
  persistent s' = <[K_Balance u := VI128 (default 0 o' + amount)]>
    (<[from := VI128 (default 0 o - amount)]> (persistent s)) ->
  pays_out from u amount s s'.
Proof.
  intros Hv Hne Ho Ho' Ha Hs'.
  pose proof (slot_i128 _ _ _ Hv Ho) as Hf. pose proof (balance_slot _ _ _ Ho') as Hb.
  split.
  - lia.
  - rewrite Hf. stack_slot. by rewrite weight_valued.
  - rewrite Hb. stack_slot. weights. done.
  - stack_total Hs'. rewrite (weight_valued from) by done. weights. simpl. lia.
  - intros k K1 K2. by rewrite Hs', !lookup_insert_ne.
Qed.

Lemma wp_pay_out from u amount e1 e2 e3 (ev : Z -> M ()) (Q : Z -> State -> Prop) c s :
  valued from = true -> from ≠ K_Balance u ->
  (∀ x, frame (λ _, True) (ev x)) ->
  (∀ s', pays_out from u amount s s' -> Q amount s') ->
  wp (reject_if (amount <=? 0) e1 ;;
      current ← pget_or cI128 from 0;
      reject_if (amount >? current) e2 ;;
      rest ← ok_or (i128_checked_sub current amount) e3;
      pset cI128 from rest ;;
      _extend_persistent_ttl from ;;
      recipient_bal ← balance u;
      new_bal ← lift (payout_add recipient_bal amount);
      _set_balance u new_bal ;;
      ev rest ;;
      mret amount) Q c s.
Proof.
  intros Hv Hne Hev H. repeat wp_step. arith_inv.
  apply wp_extend. intros s2 Hs2. apply wp_bind, wp_balance. intros s3 o' Hs3 Ho'.
  wp_step. wp_step. wp_step. arith_inv. apply wp_set_balance. intros s4 Hs4.
  apply wp_bind, wp_readonly; [apply Hev|]. intros ? s5 Hs5. apply wp_ret, H.
  apply (pays_out_writes _ _ _ o o'); try done.
  - rewrite Hs2, H4, lookup_insert_ne in Ho' by done. done.
  - rewrite Hs5, Hs4, Hs3, Hs2. by rewrite H4.
Qed.

Lemma wp_withdraw_fee u amount (Q : Z -> State -> Prop) c s :
  (∀ s', pays_out K_ProtocolFeeTreasury u amount s s' -> Q amount s') ->
  wp (_execute_withdraw_fee u amount) Q c s.
Proof.
  intros H. unfold _execute_withdraw_fee.
  apply (wp_pay_out _ _ _ _ _ _ (λ x, emit "protocol" "fee_with" [VAddr u; VI128 amount; VI128 x]));
    [done..|auto with frame|done].
Qed.

Lemma wp_withdraw_insurance u amount (Q : Z -> State -> Prop) c s :
  (∀ s', pays_out K_InsFundBal u amount s s' -> Q amount s') ->
  wp (execute_withdraw_insurance_fund u amount) Q c s.
Proof.
  intros H. unfold execute_withdraw_insurance_fund.
  apply (wp_pay_out _ _ _ _ _ _ (λ x, emit "ins" "withdraw" [VAddr u; VI128 amount; VI128 x]));
    [done..|auto with frame|done].
Qed.

Lemma wp_set_mode m (Q : () -> State -> Prop) c s :
  (∀ s', agree (λ k, k ≠ K_Paused) s s' ->
     default (enc cRuntimeMode Normal) (persistent s' !! K_Paused) = enc cRuntimeMode m ->
     (m ≠ Normal -> persistent s' !! K_Paused = Some (enc cRuntimeMode m)) -> Q () s') ->
  wp (_set_mode m) Q c s.
Proof.
  intros H. unfold _set_mode. apply wp_bind, wp_pget_or. intros o Ho. case_bool_decide as Hne.
  - apply wp_bind, wp_pset. intros s1 H1. apply wp_bind, wp_extend. intros s2 H2.
    apply wp_emit. intros s3 H3. apply H; [intros k Hk|intros..];
      rewrite H3, H2, H1; [by rewrite lookup_insert_ne|by rewrite lookup_insert_eq..].
  - apply wp_ret, H; [done|..]; rewrite Ho; destruct o; by simplify_eq/=.
Qed.

Lemma wp_ins_setter (k : Key) max bps (ev : Z -> M ()) (Q : () -> State -> Prop) c s :
  (∀ x, frame (λ _, True) (ev x)) ->
  (∀ s', bps ≤ max -> persistent s' = <[k := VU32 bps]> (persistent s) -> Q () s') ->
  wp (admin ← ins_guard "ins_cfg";
      (if bps >? max then emit_throw admin "ins_cfg" InsuranceInvalidSplit else mret ()) ;;
      old_bps ← pget_or cU32 k 0;
      pset cU32 k bps ;;
      _extend_persistent_ttl k ;;
      ev old_bps) Q c s.
Proof.
  intros Hev H. apply wp_bind, wp_readonly; [auto with frame|]. intros ad s1 H1.
  wp_step. destruct (bps >? max) eqn:Hb; zbool.
  { apply wp_mono with (Q := λ _ _, False); [|done]. unfold emit_throw, _emit_action_rejected.
    wp_step. wp_step. apply wp_throw. }
  wp_step. apply wp_bind, wp_pget_or. intros o _. apply wp_bind, wp_pset. intros s2 H2.
  apply wp_bind, wp_extend. intros s3 H3. apply wp_readonly; [apply Hev|]. intros [] s4 H4.
  apply H; [done|]. by rewrite H4, H3, H2, H1.
Qed.

Lemma fee_bps_valid bps b :
  _validate_protocol_fee_bps bps = Ok () -> bps = Some b -> b ≠ 0 ∧ b ≤ MAX_PROTOCOL_FEE_BPS.
Proof.
  intros H ->. unfold _validate_protocol_fee_bps, oreject_if in H. destruct (_ || _) eqn:E; [done|].
  apply orb_false_iff in E as [? ?]. zbool. done.
Qed.

Lemma wp_execute_action a (Q : () -> State -> Prop) c s :
  (∀ s', action_effect a s s' -> Q () s') -> wp (execute_action a) Q c s.
Proof.
  intros H. destruct a; cbn [execute_action].
  - apply wp_set_mode. intros s' Ha _ Hm. apply H. split; [done|by apply Hm].
  - apply wp_set_mode. intros s' Ha Hm _. by apply H.
  - apply wp_bind, wp_lift. intros [] Hv. apply wp_set_or_remove. intros s' Hk Ho. apply H.
    split_and!; [intros k Hk'; by apply Ho|done|]. intros b. by apply fee_bps_valid.
  - apply wp_bind, wp_withdraw_fee. intros s' Hs'. by apply wp_ret, H.
  - by apply wp_set_ext.
  - by apply wp_set_ext.
  - by apply wp_set_ext.
  - apply wp_bind, wp_withdraw_insurance. intros s' Hs'. by apply wp_ret, H.
  - apply wp_ins_setter with (ev := λ o, emit "ins" "split" [VU32 o; VU32 bps]); [auto with frame|].
    intros s' Hb Hs'. by apply H.
  - apply wp_ins_setter with (ev := λ o, emit "ins" "covcfg" [VU32 o; VU32 bps]); [auto with frame|].
    intros s' Hb Hs'. by apply H.
Qed.

Lemma action_effect_same s t a s' :
  persistent t = persistent s -> action_effect a t s' -> action_effect a s s'.
Proof.
  intros Ht. pose proof (total_same _ _ Ht) as Htot.
  assert (∀ k, slot t k = slot s k) as Hsl by (intros; by apply slot_same).
  destruct a; simpl; unfold agree; rewrite ?Ht; try done;
    (intros [H1 H2 H3 H4 H5]; rewrite Hsl in H1, H2; rewrite Hsl in H3; rewrite Htot in H4;
     split; [done..|intros k; rewrite <-Ht; apply H5]).
Qed.

(** An action leaves the proposals alone. *)
Definition gov_key (k : Key) : Prop :=
  match k with
  | KVec n [AU64 _] => n = "GovProposal"
  | KVec n [] => n = "NextGovProposalId"
  | _ => False
  end.

Lemma action_effect_gov a s s' : action_effect a s s' -> agree gov_key s s'.
Proof.
  intros H k Hk. destruct a; simpl in H;
    try (rewrite H; apply lookup_insert_ne; intros <-; by simpl in Hk);
    try (destruct H as [_ H]; rewrite H; apply lookup_insert_ne; intros <-; by simpl in Hk);
    try (destruct H as [H _]; apply H; intros ->; by simpl in Hk);
    destruct H as [_ _ _ _ H]; apply H; intros ->; by simpl in Hk.
Qed.

(** ** The two-person rule *)

Definition proposal_at (s : State) (id : Z) (p : GovProposal) : Prop :=
  persistent s !! K_GovProposal id = Some (VProposal p).

Definition next_proposal (s : State) (n : Z) : Prop :=
  ∃ o, persistent s !! K_NextGovProposalId = enc cU64 <$> o ∧ n = default 1 o.

(** Stored proposals carry their number, are below the counter, and one that is
    approved or executed was approved by someone other than its proposer. *)
Record proposals_ok (s : State) : Prop := {
  pk_next : ∃ n, next_proposal s n ∧ ∀ id v, persistent s !! K_GovProposal id = Some v -> id < n;
  pk_typed id v : persistent s !! K_GovProposal id = Some v -> ∃ p, v = VProposal p ∧ gp_id p = id;
  pk_two id p : proposal_at s id p -> gp_status p = Approved ∨ gp_status p = Executed ->
    ∃ a, gp_approver p = Some a ∧ a ≠ gp_proposer p }.

Lemma proposals_ok_agree s s' : agree gov_key s s' -> proposals_ok s -> proposals_ok s'.
Proof.
  intros Ha [(n & (o & Ho & ->) & Hlt) Ht H2].
  assert (∀ id, persistent s' !! K_GovProposal id = persistent s !! K_GovProposal id) as Hg
    by (intros; by apply Ha).
  split.
  - exists (default 1 o). split.
    + exists o. split; [|done]. by rewrite Ha.
    + intros id v. rewrite Hg. apply Hlt.
  - intros id v. rewrite Hg. apply Ht.
  - unfold proposal_at. intros id p. rewrite Hg. apply H2.
Qed.

(** Rewriting one proposal. *)
Lemma proposals_ok_store s s' id p p' :
  proposals_ok s -> proposal_at s id p -> gp_id p' = gp_id p ->
  persistent s' = <[K_GovProposal id := VProposal p']> (persistent s) ->
  (gp_status p' = Approved ∨ gp_status p' = Executed ->
   ∃ a, gp_approver p' = Some a ∧ a ≠ gp_proposer p') ->
  proposals_ok s'.
Proof.
  intros [(n & (o & Ho & ->) & Hlt) Ht H2] Hp Hid Hs' Htwo. split.
  - exists (default 1 o). split; [exists o; split; [by lchain|done]|].
    intros id' v Hv. destruct (decide (id' = id)) as [->|Hne]; [by eapply Hlt|].
    rewrite Hs', lookup_insert_ne in Hv by (intros [=]; done). by eapply Hlt.
  - intros id' v Hv. rewrite Hs' in Hv. destruct (decide (id' = id)) as [->|Hne].
    + rewrite lookup_insert_eq in Hv. injection Hv as <-. exists p'. split; [done|].
      destruct (Ht _ _ Hp) as (q & [= ->] & <-). done.
    + rewrite lookup_insert_ne in Hv by (intros [=]; done). by apply Ht.
  - intros id' q Hq. unfold proposal_at in Hq. rewrite Hs' in Hq. destruct (decide (id' = id)) as [->|Hne].
    + rewrite lookup_insert_eq in Hq. by injection Hq as <-.
    + rewrite lookup_insert_ne in Hq by (intros [=]; done). by eapply H2.
Qed.

(** ** Rules of the entry points *)

Lemma wp_propose u a t (Q : Z -> State -> Prop) c s :
  (∀ n p s', authorised c u = true -> gov_member s u -> next_proposal s n ->
     gp_id p = n -> gp_proposer p = u -> gp_approver p = None -> gp_action p = a ->
     gp_status p = Pending -> gp_created_at_ledger p = sequence c ->
     persistent s' = <[K_GovProposal n := VProposal p]>
       (<[K_NextGovProposalId := VU64 (n + 1)]> (persistent s)) -> Q n s') ->
  wp (propose u a t) Q c s.
Proof.
  intros H. unfold propose. apply wp_bind, wp_gov_guard. intros s1 H1 Hau Hm.
  apply wp_bind, wp_pget_or. intros o Ho. apply wp_bind, wp_or_trap. intros nx Hnx.
  unfold u64_checked_add in Hnx. arith_inv.
  apply wp_bind, wp_pset. intros s2 H2. apply wp_bind, wp_extend. intros s3 H3.
  apply wp_bind, wp_readonly; [destruct t; auto with frame|]. intros ttl s4 H4.
  do 2 wp_step. apply wp_bind, wp_store_proposal. intros s5 H5.
  apply wp_bind, wp_emit. intros s6 H6. apply wp_ret.
  rewrite H4, H3, H2, H1, <-H6 in H5. rewrite H1 in Ho.
  match type of H5 with _ = <[_ := VProposal ?p]> _ => apply (H (default 1 o) p s6) end; try done.
  by exists o.
Qed.

Lemma wp_approve u id (Q : () -> State -> Prop) c s :
  (∀ p s', authorised c u = true -> gov_member s u -> proposal_at s id p ->
     gp_status p = Pending -> gp_proposer p ≠ u -> sequence c ≤ gp_expires_at_ledger p ->
     persistent s' = <[K_GovProposal id := VProposal (with_approver p u)]> (persistent s) -> Q () s') ->
  wp (approve u id) Q c s.
Proof.
  intros H. unfold approve. apply wp_bind, wp_gov_guard. intros s1 H1 Hau Hm.
  apply wp_bind, wp_pget_ok. intros p Hp. rewrite H1 in Hp.
  apply wp_bind, wp_reject_expired. intros Hx. destruct (gp_status p) eqn:Hst; try apply wp_throw.
  wp_step. case_bool_decide as Hu; [unfold emit_throw, _emit_action_rejected; do 2 wp_step; apply wp_throw|].
  wp_step. apply wp_bind, wp_store_proposal. intros s2 H2. apply wp_emit. intros s3 H3.
  apply (H p); try done. by rewrite H3, H2, H1.
Qed.

Lemma wp_execute u id (Q : () -> State -> Prop) c s :
  (∀ p t s', authorised c u = true -> gov_member s u -> proposal_at s id p ->
     gp_status p = Approved -> sequence c ≤ gp_expires_at_ledger p ->
     action_effect (gp_action p) s t ->
     persistent s' = <[K_GovProposal id := VProposal (with_status p Executed)]> (persistent t) ->
     Q () s') ->
  wp (execute u id) Q c s.
Proof.
  intros H. unfold execute. apply wp_bind, wp_gov_guard. intros s1 H1 Hau Hm.
  apply wp_bind, wp_pget_ok. intros p Hp. rewrite H1 in Hp.
  apply wp_bind, wp_reject_expired. intros Hx. destruct (gp_status p) eqn:Hst; try apply wp_throw.
  apply wp_bind, wp_execute_action. intros t Ht.
  apply wp_bind, wp_store_proposal. intros s2 H2. apply wp_emit. intros s3 H3.
  apply (H p t); try done; [by apply (action_effect_same s s1)|by rewrite H3, H2].
Qed.

Lemma wp_cancel u id (Q : () -> State -> Prop) c s :
  (∀ p s', authorised c u = true -> gov_member s u -> proposal_at s id p ->
     gp_status p ≠ Executed -> gp_status p ≠ Cancelled ->
     persistent s' = <[K_GovProposal id := VProposal (with_status p Cancelled)]> (persistent s) ->
     Q () s') ->
  wp (cancel u id) Q c s.
Proof.
  intros H. unfold cancel. apply wp_bind, wp_gov_guard. intros s1 H1 Hau Hm.
  apply wp_bind, wp_pget_ok. intros p Hp. rewrite H1 in Hp.
  destruct (gp_status p) eqn:Hst; try apply wp_throw;
    (apply wp_bind, wp_store_proposal; intros s2 H2; apply wp_emit; intros s3 H3;
     apply (H p); try done; [by rewrite Hst|by rewrite Hst|by rewrite H3, H2, H1]).
Qed.

(** ** Reachable states *)

(** A successful governance call, or any step that leaves the proposals alone. *)
Inductive gov_step (s s' : State) : Prop :=
  | step_propose c u a t id : propose u a t c s = (Ok id, s') -> gov_step s s'
  | step_approve c u id : approve u id c s = (Ok (), s') -> gov_step s s'
  | step_execute c u id : execute u id c s = (Ok (), s') -> gov_step s s'
  | step_cancel c u id : cancel u id c s = (Ok (), s') -> gov_step s s'
  | step_elsewhere : agree gov_key s s' -> gov_step s s'.

(** A state with no proposal yet. *)
Definition no_proposals (s : State) : Prop :=
  persistent s !! K_NextGovProposalId = None ∧ ∀ id, persistent s !! K_GovProposal id = None.

Lemma no_proposals_ok s : no_proposals s -> proposals_ok s.
Proof.
  intros [Hn Hp]. split.
  - exists 1. split; [by exists None|]. intros id v. by rewrite Hp.
  - intros id v. by rewrite Hp.
  - unfold proposal_at. intros id p. by rewrite Hp.
Qed.

Lemma propose_ok u a t c s id s' :
  propose u a t c s = (Ok id, s') -> proposals_ok s -> proposals_ok s'.
Proof.
  intros E [(n & Hn & Hlt) Ht H2]. wp_intro E. apply wp_propose.
  intros m p t' _ _ Hm Hid Hpr Hap _ Hst _ Hs'.
  assert (m = n) as -> by (destruct Hn as (o1 & E1 & ->), Hm as (o2 & E2 & ->); rewrite E1 in E2;
    destruct o1, o2; by simplify_eq/=).
  assert (∀ i v, i ≠ n -> persistent t' !! K_GovProposal i = Some v ->
                 persistent s !! K_GovProposal i = Some v) as Hold.
  { intros i v Hi Hv. rewrite Hs', lookup_insert_ne, lookup_insert_ne in Hv by (intros [=]; done). done. }
  split.
  - exists (n + 1). split; [exists (Some (n + 1)); split; [by lchain|done]|].
    intros i v Hv. destruct (decide (i = n)) as [->|Hi]; [lia|]. specialize (Hlt i v (Hold i v Hi Hv)). lia.
  - intros i v Hv. destruct (decide (i = n)) as [->|Hi]; [|by apply Ht, Hold].
    rewrite Hs', lookup_insert_eq in Hv. injection Hv as <-. by exists p.
  - intros i q Hq. destruct (decide (i = n)) as [->|Hi]; [|by eapply H2, Hold].
    unfold proposal_at in Hq. rewrite Hs', lookup_insert_eq in Hq. injection Hq as <-.
    rewrite Hst. by intros [|].
Qed.

Lemma gov_step_ok s s' : gov_step s s' -> proposals_ok s -> proposals_ok s'.
Proof.
  intros [c u a t id E|c u id E|c u id E|c u id E|Ha] Hok.
  - by eapply propose_ok.
  - wp_intro E. apply wp_approve. intros p t _ _ Hp Hst Hne _ Hs'.
    apply (proposals_ok_store s t id p (with_approver p u)); [done..|]. intros _. by exists u.
  - wp_intro E. apply wp_execute. intros p t1 t _ _ Hp Hst _ He Hs'.
    pose proof (proposals_ok_agree _ _ (action_effect_gov _ _ _ He) Hok) as Hok1.
    apply (proposals_ok_store t1 t id p (with_status p Executed)); try done.
    + unfold proposal_at. rewrite (action_effect_gov _ _ _ He); [done|by simpl].
    + intros _. apply (pk_two _ Hok id p Hp). by left.
  - wp_intro E. apply wp_cancel. intros p t _ _ Hp Hne1 Hne2 Hs'.
    apply (proposals_ok_store s t id p (with_status p Cancelled)); [done..|]. by intros [|].
  - by apply (proposals_ok_agree s).
Qed.

Lemma reachable_ok s0 s : no_proposals s0 -> rtc gov_step s0 s -> proposals_ok s.
Proof.
  intros H0 Hr. apply no_proposals_ok in H0. revert H0.
  induction Hr as [|s1 s2 s3 Hstep _ IH]; [done|]. intros H1. by apply IH, (gov_step_ok s1).
Qed.

(** ** Properties *)

(** In every state reached from one without proposals by governance calls
    (and anything that leaves the proposals alone), a call that executes a
    proposal carries out an action that two different addresses signed: the
    proposer and the approver recorded for it. The call itself is authorized by
    a governance member and the proposal has not expired. *)
Theorem two_person_rule s0 s c u id s' :
  no_proposals s0 -> rtc gov_step s0 s -> execute u id c s = (Ok (), s') ->
  authorised c u = true ∧ gov_member s u ∧
  ∃ p approver, proposal_at s id p ∧ gp_status p = Approved ∧ gp_approver p = Some approver ∧
    approver ≠ gp_proposer p ∧ sequence c ≤ gp_expires_at_ledger p.
Proof.
  intros H0 Hr E. pose proof (reachable_ok _ _ H0 Hr) as Hok. wp_intro E. apply wp_execute.
  intros p t t' Hau Hm Hp Hst Hx _ _. split; [done|]. split; [done|].
  destruct (pk_two _ Hok id p Hp (or_introl Hst)) as (a & Ha & Hne). by exists p, a.
Qed.

(** C23: executing an approved proposal does exactly what its action says (each
    of the ten actions, validation included), changes nothing else but the
    status of the proposal, which becomes executed, and in the resulting state no
    call executes, approves or cancels it again. *)
Theorem execute_once u id c s s' :
  execute u id c s = (Ok (), s') ->
  ∃ p t, proposal_at s id p ∧ gp_status p = Approved ∧ action_effect (gp_action p) s t ∧
    persistent s' = <[K_GovProposal id := VProposal (with_status p Executed)]> (persistent t) ∧
    ∀ c' u' s'', execute u' id c' s' ≠ (Ok (), s'') ∧ approve u' id c' s' ≠ (Ok (), s'') ∧
                 cancel u' id c' s' ≠ (Ok (), s'').
Proof.
  intros E. wp_intro E. apply wp_execute. intros p t t' _ _ Hp Hst _ He Hs'.
  exists p, t. split_and!; try done. intros c' u' s''.
  assert (∀ q, proposal_at t' id q -> gp_status q = Executed) as Hq.
  { intros q Hq. unfold proposal_at in Hq. rewrite Hs', lookup_insert_eq in Hq. by injection Hq as <-. }
  split_and!; intros E'; wp_intro E'.
  - apply wp_execute. intros q ? ? _ _ Hq' Hst' _ _ _. by rewrite (Hq q Hq') in Hst'.
  - apply wp_approve. intros q ? _ _ Hq' Hst' _ _ _. by rewrite (Hq q Hq') in Hst'.
  - apply wp_cancel. intros q ? _ _ Hq' Hst' _ _. by rewrite (Hq q Hq') in Hst'.
Qed.

(** ** Amendments *)

Definition amendment_at (s : State) (id : Z) (a : Amendment) : Prop :=
  persistent s !! K_Amendment id = Some (VAmendment a).

Lemma wp_store_amendment id a (Q : () -> State -> Prop) c s :
  (∀ s', persistent s' = <[K_Amendment id := VAmendment a]> (persistent s) -> Q () s') ->
  wp (store_amendment id a) Q c s.
Proof.
  intros H. unfold store_amendment. apply wp_bind, wp_pset. intros s1 H1. apply wp_extend.
  intros s2 H2. apply H. by rewrite H2, H1.
Qed.

Lemma wp_activate u id (Q : () -> State -> Prop) c s :
  (∀ a s', authorised c u = true -> gov_member s u -> amendment_at s id a ->
     am_status a = AmPending -> am_activation_deadline_ledger a < sequence c ->
     persistent s' = <[K_Amendment id := VAmendment (with_am_status a AmActivated)]> (persistent s) ->
     Q () s') ->
  wp (activate_amendment u id) Q c s.
Proof.
  intros H. unfold activate_amendment. apply wp_bind, wp_gov_guard. intros s1 H1 Hau Hm.
  apply wp_bind, wp_pget_ok. intros a Ha. rewrite H1 in Ha. do 2 wp_step.
  apply wp_bind, wp_reject_if. intros Hd. apply wp_bind, wp_reject_if. intros Hst. zbool.
  apply bool_decide_eq_false, dec_stable in Hst. apply wp_bind, wp_store_amendment. intros s2 H2.
  apply wp_emit. intros s3 H3. apply (H a); try done. by rewrite H3, H2, H1.
Qed.

Lemma wp_veto u id (Q : () -> State -> Prop) c s :
  (∀ a s', authorised c u = true -> gov_member s u -> amendment_at s id a ->
     am_status a = AmPending -> sequence c ≤ am_veto_deadline_ledger a ->
     persistent s' = <[K_Amendment id := VAmendment (with_am_status a AmVetoed)]> (persistent s) ->
     Q () s') ->
  wp (veto_amendment u id) Q c s.
Proof.
  intros H. unfold veto_amendment. apply wp_bind, wp_gov_guard. intros s1 H1 Hau Hm.
  apply wp_bind, wp_pget_ok. intros a Ha. rewrite H1 in Ha. do 2 wp_step.
  apply wp_bind, wp_reject_if. intros Hd. apply wp_bind, wp_reject_if. intros Hst. zbool.
  apply bool_decide_eq_false, dec_stable in Hst. apply wp_bind, wp_store_amendment. intros s2 H2.
  apply wp_emit. intros s3 H3. apply (H a); try done. by rewrite H3, H2, H1.
Qed.

(** C31: an amendment is only vetoed while pending and no later than its veto
    deadline, and only activated while pending and strictly after its
    activation deadline; in the resulting state neither succeeds again.
    A single member suffices for both, and activation writes the amendment's
    record and no parameter. *)
Theorem amendment_decided_once u id (veto : bool) c s s' :
  (if veto then veto_amendment else activate_amendment) u id c s = (Ok (), s') ->
  ∃ a, amendment_at s id a ∧ am_status a = AmPending ∧ gov_member s u ∧ authorised c u = true ∧
    (if veto then sequence c ≤ am_veto_deadline_ledger a
     else am_activation_deadline_ledger a < sequence c) ∧
    persistent s' = <[K_Amendment id := VAmendment (with_am_status a
                        (if veto then AmVetoed else AmActivated))]> (persistent s) ∧
    ∀ u' c' s'', veto_amendment u' id c' s' ≠ (Ok (), s'') ∧
                 activate_amendment u' id c' s' ≠ (Ok (), s'').
Proof.
  intros E.
  assert (∀ st t, st ≠ AmPending -> (∃ a, amendment_at t id (with_am_status a st)) ->
    ∀ u' c' s'', veto_amendment u' id c' t ≠ (Ok (), s'') ∧
                 activate_amendment u' id c' t ≠ (Ok (), s'')) as Hfinal.
  { intros st t Hst (a & Ha) u' c' s''. unfold amendment_at in Ha.
    split; intros E'; wp_intro E'; [apply wp_veto|apply wp_activate];
      intros a' ? _ _ Ha' Hp _ _; unfold amendment_at in Ha'; rewrite Ha in Ha';
      injection Ha' as <-; by simpl in Hp. }
  destruct veto; wp_intro E; [apply wp_veto|apply wp_activate];
    intros a t Hau Hm Ha Hp Hd Hs'; exists a; split_and!; try done;
    (eapply Hfinal; [|exists a; unfold amendment_at; by rewrite Hs', lookup_insert_eq]; done).
Qed.

(** Reading a pending amendment after its activation deadline, which anyone
    may do, stores it as expired: the activation that was then due can no
    longer happen. *)
Theorem reading_expires_amendment id a c s o s' :
  get_amendment id c s = (Ok o, s') -> amendment_at s id a ->
  am_status a = AmPending -> am_activation_deadline_ledger a < sequence c ->
  o = Some (with_am_status a AmExpired) ∧ amendment_at s' id (with_am_status a AmExpired) ∧
  ∀ u c' s'', activate_amendment u id c' s' ≠ (Ok (), s'').
Proof.
  intros E Ha Hp Hd. wp_intro E. unfold get_amendment. apply wp_bind, wp_extend. intros s1 H1.
  apply wp_bind, wp_pget. intros o' Ho. rewrite H1, Ha in Ho. destruct o' as [a'|]; [|done].
  injection Ho as <-. do 2 wp_step. rewrite bool_decide_true by done.
  destruct (_ >? _) eqn:?; zbool; [|lia]. apply wp_bind, wp_store_amendment. intros s2 H2.
  apply wp_ret. split_and!; [done|unfold amendment_at; by rewrite H2, lookup_insert_eq|].
  intros u c' s'' E'. wp_intro E'. apply wp_activate. intros a2 ? _ _ Ha2 Hp2 _ _.
  unfold amendment_at in Ha2. rewrite H2, lookup_insert_eq in Ha2. injection Ha2 as <-.
  by simpl in Hp2.
Qed.
