(* ===== verification/Leaderboard.v ===== *)
(** * Leaderboards and seasons

    contracts/src/leaderboard.rs and the statistics updates of
    contracts/src/settlement.rs.  The code recomputes [stats_of] of an address
    at every comparison; as those reads change nothing, the model reads the
    statistics of each candidate once and sorts the pairs.  A bounded index is
    proved sorted by the current statistics, duplicate free and within its
    limit after every update. *)

From S2P Require Export Admin.

(** ** Bounded indexes *)

Definition ranked : Type := Address * UserStats.

(** Metric descending, address ascending as the tie-breaker. *)
Definition better_by (metric : UserStats -> Z) (x y : ranked) : bool :=
  (metric x.2 >? metric y.2) || ((metric x.2 =? metric y.2) && addr_lt x.1 y.1).

Definition better_wins : ranked -> ranked -> bool := better_by total_wins.
Definition better_streak : ranked -> ranked -> bool := better_by best_streak.

(** The inner loop: before the first entry that [x] beats, else at the end. *)
Fixpoint insert_ranked (better : ranked -> ranked -> bool) (x : ranked) (sorted : list ranked)
  : list ranked :=
  match sorted with
  | [] => [x]
  | y :: rest => if better x y then x :: y :: rest else y :: insert_ranked better x rest
  end.

Definition reinsert_sorted (better : ranked -> ranked -> bool) (l : list ranked) : list ranked :=
  fold_left (λ sorted x, insert_ranked better x sorted) l [].

Definition reinsert_sorted_by_wins (l : list ranked) : list Address :=
  (reinsert_sorted better_wins l).*1.
Definition reinsert_sorted_by_streak (l : list ranked) : list Address :=
  (reinsert_sorted better_streak l).*1.

Definition upsert_bounded_index (key : Key) (sorted : list Address) : M () :=
  let bounded := take (Z.to_nat (Z.min LEADERBOARD_LIMIT (Z.of_nat (length sorted)))) sorted in
  pset cAddrs key bounded ;;
  _extend_persistent_ttl key.

Definition without_user (l : list Address) (user : Address) : list Address :=
  filter (λ a, a ≠ user) l.

Definition lifetime_user_stats (user : Address) : M UserStats :=
  pget_or cStats (K_UserStats user) zero_stats.

Definition season_user_stats_raw (season_id : Z) (user : Address) : M UserStats :=
  pget_or cStats (K_SeasonUserStats season_id user) zero_stats.

Definition with_stats (stats_of : Address -> M UserStats) (l : list Address) : M (list ranked) :=
  mfold l [] (λ acc a, st ← stats_of a; mret (acc ++ [(a, st)])).

(** One index update: drop the user, append it, sort, truncate. *)
Definition update_index (key : Key) (sort : list ranked -> list Address)
    (stats_of : Address -> M UserStats) (user : Address) : M () :=
  l ← pget_or cAddrs key [];
  ranked ← with_stats stats_of (without_user l user ++ [user]);
  upsert_bounded_index key (sort ranked).

Definition _update_leaderboards (user : Address) : M () :=
  update_index K_LeaderboardWins reinsert_sorted_by_wins lifetime_user_stats user ;;
  update_index K_LeaderboardStreak reinsert_sorted_by_streak lifetime_user_stats user.

(** ** Seasons *)

Definition _current_season_id : M Z := pget_or cU32 K_SeasonId 1.

Definition get_current_season_id : M Z :=
  _extend_persistent_ttl K_SeasonId ;; _current_season_id.

Definition get_season_user_stats (season_id : Z) (user : Address) : M UserStats :=
  _extend_persistent_ttl (K_SeasonUserStats season_id user) ;;
  pget_or cStats (K_SeasonUserStats season_id user) zero_stats.

Definition _update_season_leaderboards (season_id : Z) (user : Address) : M () :=
  update_index K_SeasonLeaderboardWins reinsert_sorted_by_wins
    (season_user_stats_raw season_id) user ;;
  update_index K_SeasonLeaderboardStreak reinsert_sorted_by_streak
    (season_user_stats_raw season_id) user.

(** The counters after a win and after a loss ([u32] fields, checked). *)
Definition stats_win (stats : UserStats) : outcome UserStats :=
  wins ← some_or (u32_checked_add (total_wins stats) 1) Overflow;
  streak ← some_or (u32_checked_add (current_streak stats) 1) Overflow;
  Ok {| total_wins := wins; total_losses := total_losses stats; current_streak := streak;
        best_streak := if streak >? best_streak stats then streak else best_streak stats |}.

Definition stats_loss (stats : UserStats) : outcome UserStats :=
  losses ← some_or (u32_checked_add (total_losses stats) 1) Overflow;
  Ok {| total_wins := total_wins stats; total_losses := losses; current_streak := 0;
        best_streak := best_streak stats |}.

Definition _update_season_stats_win (user : Address) : M () :=
  season_id ← _current_season_id;
  let key := K_SeasonUserStats season_id user in
  stats ← pget_or cStats key zero_stats;
  stats' ← lift (stats_win stats);
  pset cStats key stats' ;;
  _extend_persistent_ttl key ;;
  _update_season_leaderboards season_id user.

Definition _update_season_stats_loss (user : Address) : M () :=
  season_id ← _current_season_id;
  let key := K_SeasonUserStats season_id user in
  stats ← pget_or cStats key zero_stats;
  stats' ← lift (stats_loss stats);
  pset cStats key stats' ;;
  _extend_persistent_ttl key ;;
  _update_season_leaderboards season_id user.

(** settlement.rs *)
Definition _update_stats_win (user : Address) : M () :=
  let key := K_UserStats user in
  stats ← pget_or cStats key zero_stats;
  stats' ← lift (stats_win stats);
  pset cStats key stats' ;;
  _extend_persistent_ttl key ;;
  _update_leaderboards user ;;
  _update_season_stats_win user.

Definition _update_stats_loss (user : Address) : M () :=
  let key := K_UserStats user in
  stats ← pget_or cStats key zero_stats;
  stats' ← lift (stats_loss stats);
  pset cStats key stats' ;;
  _extend_persistent_ttl key ;;
  _update_leaderboards user ;;
  _update_season_stats_loss user.

(** ** Season reset *)

Definition season_entry (season_id : Z) (user : Address) : M SeasonLeaderboardEntry :=
  stats ← season_user_stats_raw season_id user;
  mret {| sl_user := user; sl_wins := total_wins stats; sl_best_streak := best_streak stats |}.

Definition season_entries (season_id : Z) (l : list Address) : M (list SeasonLeaderboardEntry) :=
  mfold l [] (λ acc a, e ← season_entry season_id a; mret (acc ++ [e])).

Definition distinct_participants (wins streak : list Address) : list Address :=
  fold_left (λ acc a, if bool_decide (a ∈ acc) then acc else acc ++ [a]) streak wins.

Definition reset_leaderboard_season : M Z :=
  _ ← admin_guard "rst_seas";
  season_id ← _current_season_id;
  wins_list ← pget_or cAddrs K_SeasonLeaderboardWins [];
  streak_list ← pget_or cAddrs K_SeasonLeaderboardStreak [];
  wins_entries ← season_entries season_id wins_list;
  streak_entries ← season_entries season_id streak_list;
  let participant_count := Z.of_nat (length (distinct_participants wins_list streak_list)) in
  ended_at_ledger ← asks sequence;
  pset cSeasonArchive (K_SeasonArchive season_id)
    {| sa_season_id := season_id; sa_ended_at_ledger := ended_at_ledger;
       sa_wins := wins_entries; sa_streak := streak_entries;
       sa_participant_count := participant_count |} ;;
  _extend_persistent_ttl (K_SeasonArchive season_id) ;;
  new_season_id ← ok_or (u32_checked_add season_id 1) Overflow;
  pset cU32 K_SeasonId new_season_id ;;
  _extend_persistent_ttl K_SeasonId ;;
  premove K_SeasonLeaderboardWins ;;
  premove K_SeasonLeaderboardStreak ;;
  emit "season" "reset" [VU32 season_id; VU32 new_season_id; VU32 ended_at_ledger;
                         VU32 participant_count] ;;
  mret new_season_id.

Definition get_season_archive (season_id : Z) : M (option SeasonArchive) :=
  _extend_persistent_ttl (K_SeasonArchive season_id) ;;
  pget cSeasonArchive (K_SeasonArchive season_id).

(** ** Paging *)

(** The slice [offset .. min(offset + limit, total)] of a list. *)
Definition page {A} (l : list A) (offset limit : Z) : list A :=
  let total := Z.of_nat (length l) in
  if offset >=? total then [] else
  let end_ := Z.min (u32_saturating_add offset limit) total in
  take (Z.to_nat (end_ - offset)) (drop (Z.to_nat offset) l).

Definition page_entries (entries : list SeasonLeaderboardEntry) (offset limit : Z)
  : list SeasonLeaderboardEntry := page entries offset limit.

Definition get_leaderboard (key : Key) (offset limit : Z) : M (list ranked) :=
  let limit := Z.min limit MAX_PAGE_SIZE in
  if limit =? 0 then mret [] else
  _extend_persistent_ttl key ;;
  l ← pget_or cAddrs key [];
  with_stats lifetime_user_stats (page l offset limit).

Definition get_leaderboard_by_wins (offset limit : Z) : M (list ranked) :=
  get_leaderboard K_LeaderboardWins offset limit.
Definition get_leaderboard_by_streak (offset limit : Z) : M (list ranked) :=
  get_leaderboard K_LeaderboardStreak offset limit.

Definition get_season_leaderboard (key : Key)
    (archived : SeasonArchive -> list SeasonLeaderboardEntry) (season_id offset limit : Z)
  : M (list SeasonLeaderboardEntry) :=
  let limit := Z.min limit MAX_PAGE_SIZE in
  if limit =? 0 then mret [] else
  current ← _current_season_id;
  if season_id =? current then
    _extend_persistent_ttl key ;;
    l ← pget_or cAddrs key [];
    season_entries season_id (page l offset limit)
  else
    a ← get_season_archive season_id;
    match a with
    | None => mret []
    | Some archive => mret (page_entries (archived archive) offset limit)
    end.

Definition get_season_leaderboard_by_wins (season_id offset limit : Z) :=
  get_season_leaderboard K_SeasonLeaderboardWins sa_wins season_id offset limit.
Definition get_season_leaderboard_by_streak (season_id offset limit : Z) :=
  get_season_leaderboard K_SeasonLeaderboardStreak sa_streak season_id offset limit.

(** ** Frames: the indexes and counters hold no value *)

Definition lb_key (k : Key) : Prop :=
  match k with
  | KExt _ _ => True
  | KVec n [AU32 _; AAddr _] => n = "SeasonUserStats"
  | KVec n [AAddr _] => n = "UserStats"
  | _ => False
  end.

Lemma frame_lifetime P u : frame P (lifetime_user_stats u).
Proof. frame_of lifetime_user_stats. Qed.
Lemma frame_season_raw P n u : frame P (season_user_stats_raw n u).
Proof. frame_of season_user_stats_raw. Qed.
Lemma frame_with_stats P f l : (∀ u, frame P (f u)) -> frame P (with_stats f l).
Proof. frame_of with_stats. Qed.
Lemma frame_season_id P : frame P _current_season_id.
Proof. frame_of _current_season_id. Qed.
#[export] Hint Resolve frame_lifetime frame_season_raw frame_with_stats frame_season_id : frame.
Lemma frame_update_index (P : Key -> Prop) k sort f u :
  ¬ P k -> (∀ u, frame P (f u)) -> frame P (update_index k sort f u).
Proof.
  intros Hk Hf. unfold update_index, upsert_bounded_index.
  frame_with ltac:(assumption).
Qed.
#[export] Hint Resolve frame_update_index : frame.

Section Frames.
Context (P : Key -> Prop) (HP : ∀ k, lb_key k -> ¬ P k).

Lemma frame_season_win u : frame P (_update_season_stats_win u).
Proof.
  unfold _update_season_stats_win, _update_season_leaderboards.
  frame_with ltac:(apply HP; done); apply frame_update_index; auto with frame; by apply HP.
Qed.
Lemma frame_season_loss u : frame P (_update_season_stats_loss u).
Proof.
  unfold _update_season_stats_loss, _update_season_leaderboards.
  frame_with ltac:(apply HP; done); apply frame_update_index; auto with frame; by apply HP.
Qed.
Lemma frame_leaderboards u : frame P (_update_leaderboards u).
Proof.
  unfold _update_leaderboards.
  apply frame_bind; [|intros _]; apply frame_update_index; auto with frame; by apply HP.
Qed.
Lemma frame_stats_win u : frame P (_update_stats_win u).
Proof.
  unfold _update_stats_win.
  frame_with ltac:(by apply HP); auto using frame_leaderboards, frame_season_win.
Qed.
Lemma frame_stats_loss u : frame P (_update_stats_loss u).
Proof.
  unfold _update_stats_loss.
  frame_with ltac:(by apply HP); auto using frame_leaderboards, frame_season_loss.
Qed.
End Frames.

(** ** The order of an index *)

(** [x] may stand before [y]: [y] does not beat it. *)
Definition ranks_before (metric : UserStats -> Z) (x y : ranked) : Prop :=
  better_by metric y x = false.

Lemma better_by_spec metric x y :
  better_by metric x y = true <->
  metric y.2 < metric x.2 ∨ (metric x.2 = metric y.2 ∧ (x.1 < y.1)%N).
Proof.
  unfold better_by, addr_lt.
  rewrite orb_true_iff, andb_true_iff, Z.gtb_lt, Z.eqb_eq, N.ltb_lt. done.
Qed.

Lemma ranks_before_spec metric x y :
  ranks_before metric x y <->
  metric y.2 < metric x.2 ∨ (metric x.2 = metric y.2 ∧ (x.1 ≤ y.1)%N).
Proof.
  unfold ranks_before. rewrite <-not_true_iff_false, better_by_spec. lia.
Qed.

#[export] Instance ranks_before_trans metric : Transitive (ranks_before metric).
Proof. intros x y z. rewrite !ranks_before_spec. lia. Qed.

Lemma better_ranks metric x y : better_by metric x y = true -> ranks_before metric x y.
Proof. rewrite better_by_spec, ranks_before_spec. lia. Qed.

Lemma insert_ranked_perm better x l : insert_ranked better x l ≡ₚ x :: l.
Proof.
  induction l as [|y l IH]; simpl; [done|]. destruct (better x y); [done|].
  rewrite IH. constructor.
Qed.

Lemma insert_ranked_sorted metric x l :
  StronglySorted (ranks_before metric) l ->
  StronglySorted (ranks_before metric) (insert_ranked (better_by metric) x l).
Proof.
  induction 1 as [|y l Hl IH Hy]; simpl; [by repeat constructor|].
  destruct (better_by metric x y) eqn:Hb.
  - constructor; [by constructor|]. pose proof (better_ranks _ _ _ Hb) as Hxy.
    constructor; [done|]. eapply Forall_impl; [exact Hy|]. intros z Hz. by etrans.
  - constructor; [done|]. rewrite insert_ranked_perm. by constructor.
Qed.

Lemma reinsert_sorted_spec metric l :
  StronglySorted (ranks_before metric) (reinsert_sorted (better_by metric) l) ∧
  reinsert_sorted (better_by metric) l ≡ₚ l.
Proof.
  unfold reinsert_sorted. induction l as [|x l [IHs IHp]] using rev_ind; [split; constructor|].
  rewrite fold_left_app. simpl. split; [by apply insert_ranked_sorted|].
  rewrite insert_ranked_perm, IHp. apply Permutation_cons_append.
Qed.

Lemma fmap_pair_fst {A B} (f : A -> B) l : ((λ a, (a, f a)) <$> l).*1 = l.
Proof. induction l; csimpl; by f_equal. Qed.

Lemma StronglySorted_take {A} (R : A -> A -> Prop) n l :
  StronglySorted R l -> StronglySorted R (take n l).
Proof.
  intros H. revert n. induction H as [|x l Hl IH Hx]; intros [|n]; simpl; constructor; [done|].
  by apply Forall_take.
Qed.

Lemma StronglySorted_app_le {A} (R : A -> A -> Prop) l1 l2 x y :
  StronglySorted R (l1 ++ l2) -> x ∈ l1 -> y ∈ l2 -> R x y.
Proof.
  intros Hs Hx Hy. induction l1 as [|z l1 IH]; [set_solver|]. simpl in Hs.
  apply StronglySorted_inv in Hs as [Hs Hz]. apply elem_of_cons in Hx as [->|Hx]; [|auto].
  rewrite Forall_forall in Hz. apply Hz. set_solver.
Qed.

(** ** What an index update does *)

(** The statistics a slot holds. *)
Definition stats_at (s : State) (k : Key) : UserStats :=
  match persistent s !! k with Some (VStats st) => st | _ => zero_stats end.

(** [l] is a correct index of its candidates under [stats]. *)
Record good_index (metric : UserStats -> Z) (stats : Address -> UserStats) (l : list Address) : Prop := {
  gi_nodup : NoDup l;
  gi_bound : Z.of_nat (length l) ≤ LEADERBOARD_LIMIT;
  gi_sorted : StronglySorted (λ a b, ranks_before metric (a, stats a) (b, stats b)) l }.

Lemma wp_with_stats (key : Address -> Key) l (Q : list ranked -> State -> Prop) c s :
  Q ((λ a, (a, stats_at s (key a))) <$> l) s ->
  wp (with_stats (λ a, pget_or cStats (key a) zero_stats) l) Q c s.
Proof.
  intros HQ. unfold with_stats.
  apply (wp_mfold (λ pre acc s', acc = (λ a, (a, stats_at s (key a))) <$> pre ∧ s' = s)); [done| |].
  - intros pre a post acc s1 _ [-> ->]. apply wp_bind, wp_pget_or. intros o Ho.
    apply wp_ret. rewrite fmap_app. split; [|done]. csimpl.
    assert (stats_at s (key a) = default zero_stats o) as ->; [|done].
    unfold stats_at. rewrite Ho. by destruct o.
  - by intros acc s' [-> ->].
Qed.

Lemma wp_update_index metric (key : Address -> Key) ikey user (Q : () -> State -> Prop) c s :
  let stats a := stats_at s (key a) in
  (∀ l0 s', persistent s !! ikey = enc cAddrs <$> l0 -> NoDup (default [] l0) ->
     ∀ l, persistent s' = <[ikey := VAddrs l]> (persistent s) ->
     good_index metric stats l ->
     (user ∈ l ∨ (Z.of_nat (length l) = LEADERBOARD_LIMIT ∧
                  ∀ a, a ∈ l -> ranks_before metric (a, stats a) (user, stats user))) ->
     Q () s') ->
  (∀ l, persistent s !! ikey = Some (VAddrs l) -> NoDup l) ->
  wp (update_index ikey (λ l, (reinsert_sorted (better_by metric) l).*1)
        (λ a, pget_or cStats (key a) zero_stats) user) Q c s.
Proof.
  intros stats HQ Hnd. unfold update_index. apply wp_bind, wp_pget_or. intros o Ho.
  assert (NoDup (default [] o)) as Hnd0.
  { destruct o as [l0|]; [by apply Hnd|constructor]. }
  set (cand := without_user (default [] o) user ++ [user]).
  apply wp_bind, wp_with_stats. unfold upsert_bounded_index.
  destruct (reinsert_sorted_spec metric ((λ a, (a, stats a)) <$> cand)) as [Hs Hp].
  fold stats. set (srt := reinsert_sorted _ _) in *.
  assert (NoDup cand) as Hndc.
  { unfold cand, without_user. apply NoDup_app. split; [by apply NoDup_filter|].
    split; [|apply NoDup_singleton]. intros x Hx ->%list_elem_of_singleton.
    apply list_elem_of_filter in Hx. naive_solver. }
  assert (srt.*1 ≡ₚ cand) as Hp1.
  { by rewrite Hp, fmap_pair_fst. }
  assert (∀ p, p ∈ srt -> p = (p.1, stats p.1)) as Hpair.
  { intros p Hin. rewrite Hp in Hin. by apply list_elem_of_fmap in Hin as (a & -> & _). }
  set (n := Z.to_nat _). apply wp_bind, wp_pset. intros s1 H1. apply wp_extend. intros s2 H2.
  assert (take n srt.*1 = (take n srt).*1) as Htk by by rewrite fmap_take.
  assert (StronglySorted (λ a b, ranks_before metric (a, stats a) (b, stats b)) srt.*1) as Hss.
  { clear -Hs Hpair. induction Hs as [|p l Hl IH Hx]; csimpl; constructor.
    - apply IH. intros q Hq. apply Hpair. set_solver.
    - rewrite Forall_fmap. rewrite Forall_forall in *. intros q Hq. simpl.
      rewrite <-(Hpair p), <-(Hpair q) by set_solver. auto. }
  apply (HQ o s2 Ho Hnd0 (take n srt.*1)); [by rewrite H2, H1| |].
  - constructor.
    + assert (NoDup srt.*1) as Hn by by rewrite Hp1.
      rewrite <-(take_drop n srt.*1) in Hn. by apply NoDup_app in Hn as [? _].
    + rewrite length_take. unfold n, LEADERBOARD_LIMIT. lia.
    + by apply StronglySorted_take.
  - destruct (decide (user ∈ take n srt.*1)) as [Hin|Hin]; [by left|right].
    assert (user ∈ drop n srt.*1) as Hdrop.
    { assert (user ∈ srt.*1) as Hu by (rewrite Hp1; unfold cand; set_solver).
      rewrite <-(take_drop n srt.*1) in Hu. apply elem_of_app in Hu as [?|?]; done. }
    split.
    + rewrite length_take. destruct (Z.le_gt_cases (Z.of_nat (length srt.*1)) LEADERBOARD_LIMIT) as [Hle|Hgt].
      * rewrite drop_ge in Hdrop by (unfold n; lia). set_solver.
      * unfold n, LEADERBOARD_LIMIT in *. lia.
    + intros a Ha. rewrite <-(take_drop n srt.*1) in Hss.
      apply (StronglySorted_app_le _ _ _ a user Hss Ha Hdrop).
Qed.

Lemma good_index_ext metric f g l :
  (∀ a, f a = g a) -> good_index metric f l -> good_index metric g l.
Proof.
  intros Hfg [Hn Hb Hs]. split; [done|done|].
  clear Hn Hb. induction Hs as [|x l Hl IH Hx]; constructor; [done|].
  eapply Forall_impl; [exact Hx|]. simpl. intros a. by rewrite !Hfg.
Qed.

(** The lifetime indexes hold duplicate-free lists. *)
Definition indexes_nodup (s : State) : Prop :=
  ∀ k l, k ∈ [K_LeaderboardWins; K_LeaderboardStreak; K_SeasonLeaderboardWins;
              K_SeasonLeaderboardStreak] ->
  persistent s !! k = Some (VAddrs l) -> NoDup l.

(** ** Properties *)

(** C30: after a result is recorded both lifetime indexes are duplicate free, no
    longer than the limit, and sorted by the statistics now stored, wins or
    streak descending with the address as tie-breaker; the user is ranked, or
    the index is full of users who rank before them. *)
Theorem leaderboards_ranked user c s a s' :
  _update_leaderboards user c s = (Ok a, s') -> indexes_nodup s ->
  let stats a := stats_at s' (K_UserStats a) in
  ∀ ikey metric, (ikey, metric) ∈ [(K_LeaderboardWins, total_wins); (K_LeaderboardStreak, best_streak)] ->
  ∃ l, persistent s' !! ikey = Some (VAddrs l) ∧ good_index metric stats l ∧
    (user ∈ l ∨ (Z.of_nat (length l) = LEADERBOARD_LIMIT ∧
       ∀ a, a ∈ l -> ranks_before metric (a, stats a) (user, stats user))).
Proof.
  intros H Hnd. revert a s' H.
  change (wp (_update_leaderboards user) (λ _ s',
    let stats a := stats_at s' (K_UserStats a) in
    ∀ ikey metric, (ikey, metric) ∈ [(K_LeaderboardWins, total_wins); (K_LeaderboardStreak, best_streak)] ->
    ∃ l, persistent s' !! ikey = Some (VAddrs l) ∧ good_index metric stats l ∧
    (user ∈ l ∨ (Z.of_nat (length l) = LEADERBOARD_LIMIT ∧
       ∀ a, a ∈ l -> ranks_before metric (a, stats a) (user, stats user)))) c s).
  unfold _update_leaderboards. apply wp_bind.
  apply (wp_update_index total_wins K_UserStats).
  2:{ intros l Hl. eapply Hnd; [|exact Hl]. set_solver. }
  intros _ s1 _ _ l1 H1 Hg1 Hu1.
  apply (wp_update_index best_streak K_UserStats).
  2:{ intros l Hl. rewrite H1, lookup_insert_ne in Hl by done. eapply Hnd; [|exact Hl]. set_solver. }
  intros _ s2 _ _ l2 H2 Hg2 Hu2. simpl.
  assert (∀ a, stats_at s1 (K_UserStats a) = stats_at s2 (K_UserStats a)) as E2.
  { intros a. unfold stats_at. by rewrite H2, lookup_insert_ne. }
  assert (∀ a, stats_at s (K_UserStats a) = stats_at s2 (K_UserStats a)) as E1.
  { intros a. rewrite <-E2. unfold stats_at. by rewrite H1, lookup_insert_ne. }
  intros ikey metric [[= -> ->]|[[= -> ->]|?%elem_of_nil]%elem_of_cons]%elem_of_cons; [..|done].
  - exists l1. split; [by rewrite H2, lookup_insert_ne, H1, lookup_insert_eq by done|].
    split; [exact (good_index_ext _ _ _ _ E1 Hg1)|].
    destruct Hu1 as [|[? Hu1]]; [by left|right; split; [done|]]. intros a Ha.
    rewrite <-!E1. auto.
  - exists l2. split; [by rewrite H2, lookup_insert_eq|].
    split; [exact (good_index_ext _ _ _ _ E2 Hg2)|].
    destruct Hu2 as [|[? Hu2]]; [by left|right; split; [done|]]. intros a Ha.
    rewrite <-!E2. auto.
Qed.
