(* ===== verification/Archive.v ===== *)
(** * Round archive and per-user outcomes

    The history half of contracts/src/settlement.rs: the outcome record of a
    participant (written once), the archived summary of a round, the per-user
    index of archived rounds and the retention-bounded list of recent rounds.
    Built without the legacy-map-settlement feature, as the default build is. *)

From S2P Require Export Config.

(** ** Outcome records *)

Definition _persist_user_outcome (round_id round_mode : Z) (user : Address)
    (prediction_side predicted_price stake payout : Z) (outcome : UserOutcomeType) : M () :=
  let key := K_UserRoundOutcome round_id user in
  b ← phas key;
  if (b : bool) then mret () else
  pset cOutcome key
    {| out_user := user; out_round_mode := round_mode; out_prediction_side := prediction_side;
       out_predicted_price := predicted_price; out_stake := stake; out_payout := payout;
       out_outcome := outcome |} ;;
  _extend_persistent_ttl key ;;
  emit "payout" "outcome"
    [VU64 round_id; VU32 round_mode; VAddr user; VI128 payout; VU32 (UserOutcomeType_u32 outcome)].

Definition side_u32 (side : BetSide) : Z := match side with Up => 0 | Down => 1 end.

(** ** Archiving a round *)

Definition index_user (round_id : Z) (user : Address) : M () :=
  user_rounds ← pget_or cU64s (K_UserArchivedRoundIds user) [];
  pset cU64s (K_UserArchivedRoundIds user) (user_rounds ++ [round_id]).

(** The stake of a precision participant: the prediction, else the commitment. *)
Definition precision_amount (pred : option PrecisionPrediction) (commit : option PrecisionCommitment) : Z :=
  match pred, commit with
  | Some p, _ => pred_amount p
  | None, Some c => com_amount c
  | None, None => 0
  end.

Definition add_precision_pot (round_id total_pot : Z) (user : Address) : M Z :=
  pred ← pget cPrediction (K_PrecisionPosition round_id user);
  commit ← pget cCommitment (K_PrecisionCommitment round_id user);
  mret (default total_pot (i128_checked_add total_pot (precision_amount pred commit))).

Definition archived_pot (round : Round) : M Z :=
  match mode round with
  | UpDown => mret (total_pot_updown (pool_up round) (pool_down round))
  | Precision =>
      participants ← pget_or cAddrs (K_RoundParticipants (round_id round)) [];
      mfold participants 0 (add_precision_pot (round_id round))
  end.

(** One iteration of the retention loop on its oldest entry. *)
Definition prune_entry (oldest retention_limit : Z) : M () :=
  premove (K_ArchivedRound oldest) ;;
  b ← phas (K_CancelledRound oldest);
  (if (b : bool) then premove (K_CancelledRound oldest) else mret ()) ;;
  emit "archive" "pruned" [VU64 oldest; VU32 retention_limit].

(** [while recent.len() > retention_limit]: an iteration drops the head twice,
    once inside the [if let] and once after it; dropping from an empty vector
    does nothing, and an empty vector never exceeds the limit. *)
Fixpoint prune_recent (retention_limit : Z) (recent : list Z) : M (list Z) :=
  match recent with
  | [] => mret []
  | oldest :: rest =>
      if Z.of_nat (length recent) >? retention_limit then
        prune_entry oldest retention_limit ;;
        match rest with
        | [] => mret []
        | _ :: rest' => prune_recent retention_limit rest'
        end
      else mret recent
  end.

Definition archive_summary (round : Round) (status : RoundArchiveStatus) (final_price : Z)
    (participant_count settled_at_ledger : Z) : ArchivedRoundSummary :=
  {| ar_round_id := round_id round; ar_price_start := price_start round;
     ar_price_final := final_price; ar_mode := mode round; ar_status := status;
     ar_pool_up := pool_up round; ar_pool_down := pool_down round;
     ar_participant_count := participant_count; ar_settled_at_ledger := settled_at_ledger |}.

Definition retain_recent (id : Z) : M () :=
  recent ← pget_or cU64s K_RecentArchivedRoundIds [];
  retention_limit ← pget_or cU32 K_ArchiveRetention DEFAULT_ARCHIVE_RETENTION;
  recent' ← prune_recent retention_limit (recent ++ [id]);
  pset cU64s K_RecentArchivedRoundIds recent'.

Definition _archive_round (round : Round) (status : RoundArchiveStatus) (final_price : Z)
    (participants : list Address) (fee_amount : Z) (confidence : option Z) : M () :=
  let participant_count := Z.of_nat (length participants) in
  settled_at_ledger ← asks sequence;
  mfor participants (index_user (round_id round)) ;;
  pset cSummary (K_ArchivedRound (round_id round))
    (archive_summary round status final_price participant_count settled_at_ledger) ;;
  total_pot ← archived_pot round;
  model ← _read_fee_model;
  emit "round" "summary"
    [VU64 (round_id round); VU32 (RoundArchiveStatus_u32 status); VU32 (RoundMode_u32 (mode round));
     VU128 final_price; VU32 participant_count; VI128 total_pot; VI128 fee_amount;
     VU32 settled_at_ledger; VU32 (default 0 confidence); VU32 (FeeModel_u32 model)] ;;
  retain_recent (round_id round).

(** ** Frames: history holds no value *)

Definition history_key (k : Key) : Prop :=
  match k with
  | KVec n [AU64 _; AAddr _] => n = "UserRoundOutcome"
  | KVec n [AAddr _] => n = "UserArchivedRoundIds"
  | KVec n [AU64 _] => n = "ArchivedRound" ∨ n = "CancelledRound"
  | KVec n [] => n = "RecentArchivedRoundIds"
  | _ => False
  end.

Section Frames.
Context (P : Key -> Prop) (HP : ∀ k, history_key k -> ¬ P k).

Lemma frame_persist r m u a b s' p o : frame P (_persist_user_outcome r m u a b s' p o).
Proof. unfold _persist_user_outcome. frame_with ltac:(by apply HP). Qed.

Lemma frame_archived_pot r : frame P (archived_pot r).
Proof. unfold archived_pot, add_precision_pot. frame_with idtac. Qed.

Lemma frame_prune l recent : frame P (prune_recent l recent).
Proof.
  assert (∀ n recent, (length recent ≤ n)%nat -> frame P (prune_recent l recent)) as Hg;
    [|by eapply Hg].
  induction n as [|n IH]; intros [|x [|y r]] Hlen; simpl in Hlen; try lia;
    try apply frame_ret; simpl; unfold prune_entry;
    frame_with ltac:(apply HP; simpl; auto). apply IH. lia.
Qed.

Lemma frame_retain i : frame P (retain_recent i).
Proof. unfold retain_recent. frame_with ltac:(by apply HP). all: try apply frame_prune. Qed.

Lemma frame_archive r st p ps f cf : frame P (_archive_round r st p ps f cf).
Proof.
  unfold _archive_round, index_user.
  frame_with ltac:(apply HP; simpl; auto); auto using frame_archived_pot, frame_retain.
Qed.
End Frames.
