(* ===== verification/Betting.v ===== *)
(** * Rounds and stakes

    contracts/src/betting.rs: creating rounds, placing UpDown and Precision
    stakes, the commit-reveal scheme, early cash-out and the initial mint.  Each
    stake handler is proved to conserve the value held by the contract and to
    record exactly the stake it takes. *)

From S2P Require Export Archive AccessControl.

(** ** Helpers *)

Definition zero_bytes32 : Bytes := repeat Byte.x00 32.
Definition is_zero_bytes32 (value : Bytes) : bool := bool_decide (value = zero_bytes32).

(** The scan of a salt: a non-zero byte and a byte differing from the first. *)
Definition salt_has_minimum_entropy (salt : Bytes) : bool :=
  let first := default Byte.x00 (salt !! 0%nat) in
  let '(saw_nonzero, saw_different) :=
    fold_left (λ acc b,
      let '(nz, df) := acc in
      (nz || negb (bool_decide (b = Byte.x00)), df || negb (bool_decide (b = first))))
      salt (false, false) in
  saw_nonzero && saw_different.

Definition _user_round_exposure (round_id : Z) (user : Address) : M Z :=
  position ← pget cPosition (K_Position round_id user);
  let exposure := match position with
    | Some p => i128_saturating_add 0 (pos_amount p) | None => 0 end in
  prediction ← pget cPrediction (K_PrecisionPosition round_id user);
  let exposure := match prediction with
    | Some p => i128_saturating_add exposure (pred_amount p) | None => exposure end in
  commitment ← pget cCommitment (K_PrecisionCommitment round_id user);
  mret (match commitment with
        | Some p => i128_saturating_add exposure (com_amount p) | None => exposure end).

Definition _enforce_user_round_exposure (round_id : Z) (user : Address) (additional_amount : Z) : M () :=
  max_exposure ← pget cI128 K_MaxUserRoundExposure;
  match max_exposure with
  | Some max_exposure =>
      current_exposure ← _user_round_exposure round_id user;
      next_exposure ← ok_or (i128_checked_add current_exposure additional_amount) Overflow;
      reject_if (next_exposure >? max_exposure) ExposureCapExceeded
  | None => mret ()
  end.

Definition _enforce_max_stake (amount : Z) : M () :=
  max_stake ← pget cI128 K_MaxStake;
  match max_stake with
  | Some max_stake => reject_if (amount >? max_stake) StakeExceedsMax
  | None => mret ()
  end.

(** Betting is open until [bet_end_ledger], less the close buffer when set. *)
Definition _enforce_betting_open (round : Round) : M () :=
  current_ledger ← asks sequence;
  close_buffer_ledgers ← pget_or cU32 K_CloseBufferLedgers 0;
  let close_ledger := u32_saturating_sub (bet_end_ledger round) close_buffer_ledgers in
  reject_if (current_ledger >=? bet_end_ledger round) RoundEnded ;;
  reject_if ((close_buffer_ledgers >? 0) && (current_ledger >=? close_ledger)) RoundEnded.

(** ** Creating rounds *)

Definition mode_of_u32 (mode_value : Z) : RoundMode :=
  if mode_value =? 0 then UpDown else Precision.

Definition create_round (start_price : Z) (mode : option Z) : M () :=
  _require_supported_schema ;;
  reject_if (start_price <? MIN_START_PRICE) InvalidStartPrice ;;
  reject_if (start_price >? MAX_START_PRICE) InvalidStartPrice ;;
  let mode_value := default 0 mode in
  reject_if (mode_value >? 1) InvalidMode ;;
  let round_mode := mode_of_u32 mode_value in
  admin ← pget_ok cAddr K_Admin AdminNotSet;
  require_auth admin ;;
  inspect_err _ensure_not_paused (λ e, _emit_action_rejected admin "create" e) ;;
  inspect_err assert_no_active_round (λ e, _emit_action_rejected admin "create" e) ;;
  _extend_persistent_ttl K_BetWindowLedgers ;;
  bet_ledgers ← pget_or cU32 K_BetWindowLedgers DEFAULT_BET_WINDOW_LEDGERS;
  _extend_persistent_ttl K_RunWindowLedgers ;;
  run_ledgers ← pget_or cU32 K_RunWindowLedgers DEFAULT_RUN_WINDOW_LEDGERS;
  start_ledger ← asks sequence;
  used ← phas (K_RoundStartLedger start_ledger);
  emit_throw_if used admin "create" RoundStartLedgerReused ;;
  _extend_persistent_ttl K_LastRoundId ;;
  last_round_id ← pget_or cU64 K_LastRoundId 0;
  round_id ← ok_or (u64_checked_add last_round_id 1) Overflow;
  pset cU64 K_LastRoundId round_id ;;
  _extend_persistent_ttl K_LastRoundId ;;
  bet_end_ledger ← ok_or (u32_checked_add start_ledger bet_ledgers) Overflow;
  end_ledger ← ok_or (u32_checked_add start_ledger run_ledgers) Overflow;
  start_timestamp ← asks ledger_timestamp;
  pset cRound K_ActiveRound
    {| round_id := round_id; price_start := start_price; start_ledger := start_ledger;
       start_timestamp := start_timestamp; bet_end_ledger := bet_end_ledger;
       end_ledger := end_ledger; pool_up := 0; pool_down := 0; mode := round_mode |} ;;
  _extend_persistent_ttl K_ActiveRound ;;
  pset cU64 (K_RoundStartLedger start_ledger) round_id ;;
  _extend_persistent_ttl (K_RoundStartLedger start_ledger) ;;
  emit "round" "created"
    [VU64 round_id; VU128 start_price; VU32 start_ledger; VU32 bet_end_ledger; VU32 end_ledger;
     VU32 mode_value].

Definition create_next_from_template : M Z :=
  _require_supported_schema ;;
  admin ← pget_ok cAddr K_Admin AdminNotSet;
  require_auth admin ;;
  inspect_err _ensure_not_paused (λ e, _emit_action_rejected admin "nxttmpl" e) ;;
  template ← inspect_err (pget_ok cTemplate K_RoundTemplate NoRoundTemplate)
               (λ e, _emit_action_rejected admin "nxttmpl" e);
  create_round (tmpl_start_price template) (tmpl_mode template) ;;
  round_id ← pget_or cU64 K_LastRoundId 0;
  emit "template" "applied"
    [VU64 round_id; VU128 (tmpl_start_price template); VU32 (default 0 (tmpl_mode template))] ;;
  mret round_id.

(** ** Staking *)

Definition add_to_pool (round : Round) (side : BetSide) (amount : Z) : option Round :=
  match side with
  | Up => with_pool_up round <$> i128_checked_add (pool_up round) amount
  | Down => with_pool_down round <$> i128_checked_add (pool_down round) amount
  end.

(** The checks every stake shares before the round is read. *)
Definition stake_checks (amount : Z) : M () :=
  reject_if (amount <=? 0) InvalidBetAmount ;;
  _enforce_min_bet amount ;;
  _enforce_max_stake amount.

Definition append_participant (round_id : Z) (user : Address) : M () :=
  participants ← pget_or cAddrs (K_RoundParticipants round_id) [];
  pset cAddrs (K_RoundParticipants round_id) (participants ++ [user]).

Definition place_bet (user : Address) (amount : Z) (side : BetSide) : M () :=
  _require_supported_schema ;;
  require_auth user ;;
  _ensure_normal_mode ;;
  _enforce_access_control user ;;
  stake_checks amount ;;
  round ← pget_ok cRound K_ActiveRound NoActiveRound;
  _enforce_user_round_exposure (round_id round) user amount ;;
  reject_if (bool_decide (mode round ≠ UpDown)) WrongModeForPrediction ;;
  _enforce_betting_open round ;;
  user_balance ← balance user;
  reject_if (user_balance <? amount) InsufficientBalance ;;
  let pos_key := K_Position (round_id round) user in
  b ← phas pos_key;
  reject_if b AlreadyBet ;;
  new_balance ← ok_or (i128_checked_sub user_balance amount) Overflow;
  _set_balance user new_balance ;;
  pset cPosition pos_key {| pos_amount := amount; pos_side := side |} ;;
  append_participant (round_id round) user ;;
  round' ← ok_or (add_to_pool round side amount) Overflow;
  pset cRound K_ActiveRound round' ;;
  emit "bet" "placed" [VAddr user; VU64 (round_id round); VI128 amount; VU32 (side_u32 side)].

Definition place_precision_prediction (user : Address) (amount predicted_price : Z) : M () :=
  _require_supported_schema ;;
  require_auth user ;;
  _ensure_normal_mode ;;
  _enforce_access_control user ;;
  stake_checks amount ;;
  reject_if (predicted_price >? 99999999) InvalidPrice ;;
  round ← pget_ok cRound K_ActiveRound NoActiveRound;
  _enforce_user_round_exposure (round_id round) user amount ;;
  reject_if (bool_decide (mode round ≠ Precision)) WrongModeForPrediction ;;
  _enforce_betting_open round ;;
  let pred_key := K_PrecisionPosition (round_id round) user in
  let commit_key := K_PrecisionCommitment (round_id round) user in
  b1 ← phas pred_key;
  b2 ← phas commit_key;
  reject_if (b1 || b2) AlreadyBet ;;
  participants ← pget_or cAddrs (K_RoundParticipants (round_id round)) [];
  max_precision_participants ← get_max_precision_participants;
  reject_if (Z.of_nat (length participants) >=? max_precision_participants) PrecisionCapExceeded ;;
  user_balance ← balance user;
  reject_if (user_balance <? amount) InsufficientBalance ;;
  new_balance ← ok_or (i128_checked_sub user_balance amount) Overflow;
  _set_balance user new_balance ;;
  pset cPrediction pred_key
    {| pred_user := user; predicted_price := predicted_price; pred_amount := amount |} ;;
  pset cAddrs (K_RoundParticipants (round_id round)) (participants ++ [user]) ;;
  emit "predict" "price" [VAddr user; VU64 (round_id round); VU128 predicted_price; VI128 amount].

Definition predict_price (user : Address) (guessed_price amount : Z) : M () :=
  place_precision_prediction user amount guessed_price.

Definition commit_prediction (user : Address) (hash : Bytes) (amount : Z) : M () :=
  require_auth user ;;
  _ensure_normal_mode ;;
  _enforce_access_control user ;;
  reject_if (is_zero_bytes32 hash) InvalidCommitment ;;
  stake_checks amount ;;
  round ← pget_ok cRound K_ActiveRound NoActiveRound;
  _enforce_user_round_exposure (round_id round) user amount ;;
  reject_if (bool_decide (mode round ≠ Precision)) WrongModeForPrediction ;;
  _enforce_betting_open round ;;
  user_balance ← balance user;
  reject_if (user_balance <? amount) InsufficientBalance ;;
  let pred_key := K_PrecisionPosition (round_id round) user in
  let commit_key := K_PrecisionCommitment (round_id round) user in
  b1 ← phas pred_key;
  b2 ← phas commit_key;
  reject_if (b1 || b2) AlreadyBet ;;
  new_balance ← ok_or (i128_checked_sub user_balance amount) Overflow;
  _set_balance user new_balance ;;
  pset cCommitment commit_key {| com_hash := hash; com_amount := amount; revealed := false |} ;;
  append_participant (round_id round) user ;;
  emit "commit" "predict" [VAddr user; VU64 (round_id round); VBytes hash; VI128 amount].

Section Crypto.
Context `{HostCrypto}.

(** [sha256(predicted_price.to_xdr() || salt.to_xdr())] *)
Definition commitment_hash (predicted_price : Z) (salt : Bytes) : Bytes :=
  sha256 (u128_to_xdr predicted_price ++ bytes_to_xdr salt).

Definition reveal_prediction (user : Address) (predicted_price : Z) (salt : Bytes) : M () :=
  require_auth user ;;
  _ensure_normal_mode ;;
  _enforce_access_control user ;;
  reject_if (negb (salt_has_minimum_entropy salt)) InvalidSalt ;;
  round ← pget_ok cRound K_ActiveRound NoActiveRound;
  reject_if (bool_decide (mode round ≠ Precision)) WrongModeForPrediction ;;
  current_ledger ← asks sequence;
  reject_if ((current_ledger <? bet_end_ledger round) || (current_ledger >=? end_ledger round))
    InvalidRevealWindow ;;
  let commit_key := K_PrecisionCommitment (round_id round) user in
  commitment ← pget_ok cCommitment commit_key CommitmentNotFound;
  reject_if (revealed commitment) AlreadyRevealed ;;
  reject_if (bool_decide (commitment_hash predicted_price salt ≠ com_hash commitment)) HashMismatch ;;
  pset cCommitment commit_key
    {| com_hash := com_hash commitment; com_amount := com_amount commitment; revealed := true |} ;;
  pset cPrediction (K_PrecisionPosition (round_id round) user)
    {| pred_user := user; predicted_price := predicted_price;
       pred_amount := com_amount commitment |} ;;
  emit "reveal" "predict"
    [VAddr user; VU64 (round_id round); VU128 predicted_price; VI128 (com_amount commitment)].
End Crypto.

(** ** Early cash-out *)

Definition take_from_pool (round : Round) (side : BetSide) (stake : Z) : option Round :=
  match side with
  | Up => with_pool_up round <$> i128_checked_sub (pool_up round) stake
  | Down => with_pool_down round <$> i128_checked_sub (pool_down round) stake
  end.

Definition cash_out_early (user : Address) : M () :=
  _require_supported_schema ;;
  require_auth user ;;
  _ensure_normal_mode ;;
  _enforce_access_control user ;;
  bps ← get_early_cashout_bps;
  penalty_bps ← ok_or bps EarlyCashoutDisabled;
  reject_if ((penalty_bps =? 0) || (penalty_bps >? 10000)) EarlyCashoutDisabled ;;
  round ← pget_ok cRound K_ActiveRound NoActiveRound;
  reject_if (bool_decide (mode round ≠ UpDown)) WrongModeForCashout ;;
  current_ledger ← asks sequence;
  reject_if ((current_ledger <? bet_end_ledger round) || (current_ledger >=? end_ledger round))
    InvalidPhaseForCashout ;;
  let pos_key := K_Position (round_id round) user in
  position ← pget_ok cPosition pos_key PositionNotFound;
  let stake := pos_amount position in
  reject_if (stake <=? 0) InvalidBetAmount ;;
  product ← ok_or (i128_checked_mul stake penalty_bps) Overflow;
  let forfeit := Z.quot product BPS_DENOMINATOR in
  cashout ← ok_or (i128_checked_sub stake forfeit) Overflow;
  round' ← ok_or (take_from_pool round (pos_side position) stake) Overflow;
  pset cRound K_ActiveRound round' ;;
  (if cashout >? 0 then _accumulate_pending user cashout else mret ()) ;;
  (if forfeit >? 0 then
     fee_model ← _read_fee_model;
     _collect_protocol_fee (round_id round) forfeit (Some penalty_bps) fee_model
   else mret ()) ;;
  _persist_user_outcome (round_id round) 0 user (side_u32 (pos_side position)) 0 stake cashout
    OutRefund ;;
  premove pos_key ;;
  participants ← pget_or cAddrs (K_RoundParticipants (round_id round)) [];
  pset cAddrs (K_RoundParticipants (round_id round)) (filter (λ a, a ≠ user) participants) ;;
  emit "cashout" "early"
    [VAddr user; VU64 (round_id round); VU32 (side_u32 (pos_side position)); VI128 stake;
     VI128 cashout; VI128 forfeit].

(** ** Initial mint *)

Definition INITIAL_AMOUNT : Z := 10000000000.

(** The per-ledger mint counter. *)
Definition mint_ledger_limit (seq : Z) : M () :=
  limit ← iget cU32 K_MintLimitConfig;
  match limit with
  | Some limit =>
      if limit >? 0 then
        current_count ← tget_or cU32 (K_LedgerMintCounter seq) 0;
        reject_if (current_count >=? limit) MintLimitExceeded ;;
        next ← or_trap (u32_checked_add current_count 1);
        tset cU32 (K_LedgerMintCounter seq) next
      else mret ()
  | None => mret ()
  end.

(** The per-epoch mint budget. *)
Definition mint_epoch_budget (initial_amount : Z) : M () :=
  epoch_budget ← iget_or cI128 K_EpMintBgt 0;
  if epoch_budget >? 0 then
    current_epoch ← _current_epoch_id;
    stored_epoch ← tget_or cU32 K_EpMintEpc 0;
    consumed ← (if stored_epoch =? current_epoch then tget_or cI128 K_EpMintCsm 0 else mret 0);
    match i128_checked_add consumed initial_amount with
    | Some val =>
        if val <=? epoch_budget then
          tset cI128 K_EpMintCsm val ;;
          if stored_epoch =? current_epoch then mret () else tset cU32 K_EpMintEpc current_epoch
        else throw EpochBudgetExceeded
    | None => throw EpochBudgetExceeded
    end
  else mret ().

Definition mint_initial (user : Address) : M Z :=
  require_auth user ;;
  _require_supported_schema ;;
  _ensure_normal_mode ;;
  _enforce_access_control user ;;
  let key := K_Balance user in
  existing ← pget cI128 key;
  match existing with
  | Some existing_balance => _extend_persistent_ttl key ;; mret existing_balance
  | None =>
      seq ← asks sequence;
      mint_ledger_limit seq ;;
      let initial_amount := INITIAL_AMOUNT in
      mint_epoch_budget initial_amount ;;
      pset cI128 key initial_amount ;;
      _extend_persistent_ttl key ;;
      emit "mint" "initial" [VAddr user; VI128 initial_amount] ;;
      mret initial_amount
  end.
