(* ===== verification/BettingFacts.v ===== *)
(** * Facts about rounds and stakes *)

From S2P Require Export Betting.

Lemma frame_exposure P r u : frame P (_user_round_exposure r u).
Proof. frame_of _user_round_exposure. Qed.
#[export] Hint Resolve frame_exposure : frame.
Lemma frame_enforce_exposure P r u a : frame P (_enforce_user_round_exposure r u a).
Proof. frame_of _enforce_user_round_exposure. Qed.
Lemma frame_enforce_max_stake P a : frame P (_enforce_max_stake a).
Proof. frame_of _enforce_max_stake. Qed.
Lemma frame_betting_open P r : frame P (_enforce_betting_open r).
Proof. frame_of _enforce_betting_open. Qed.
#[export] Hint Resolve frame_enforce_exposure frame_enforce_max_stake frame_betting_open : frame.
Lemma frame_stake_checks P a : frame P (stake_checks a).
Proof. frame_of stake_checks. Qed.
#[export] Hint Resolve frame_stake_checks : frame.

Lemma wp_stake_checks a (Q : () -> State -> Prop) c s :
  (∀ s', persistent s' = persistent s -> 0 < a -> Q () s') -> wp (stake_checks a) Q c s.
Proof.
  intros H. unfold stake_checks. repeat wp_step. zbool. wp_ro.
  apply wp_readonly; [auto with frame|]. intros [] s2 Hs2. apply H; [congruence|done].
Qed.

Lemma wp_betting_open r (Q : () -> State -> Prop) c s :
  (sequence c < bet_end_ledger r -> Q () s) -> wp (_enforce_betting_open r) Q c s.
Proof. intros H. unfold _enforce_betting_open. repeat wp_step. zbool. auto. Qed.

Lemma add_to_pool_inv r side a r' :
  add_to_pool r side a = Some r' ->
  r' = (match side with Up => with_pool_up r (pool_up r + a)
                      | Down => with_pool_down r (pool_down r + a) end).
Proof.
  destruct side; simpl; intros H; apply fmap_Some in H as (x & H & ->); checked_inv; done.
Qed.

(** The exact effect of a successful UpDown bet on the entries. *)
Lemma wp_place_bet user amount side (Q : () -> State -> Prop) c s :
  (∀ r r' bal ps s',
     persistent s !! K_ActiveRound = Some (VRound r) ->
     persistent s !! K_Balance user = enc cI128 <$> bal ->
     persistent s !! K_RoundParticipants (round_id r) = enc cAddrs <$> ps ->
     persistent s !! K_Position (round_id r) user = None ->
     mode r = UpDown -> sequence c < bet_end_ledger r -> 0 < amount ≤ default 0 bal ->
     add_to_pool r side amount = Some r' ->
     persistent s' =
       <[K_ActiveRound := VRound r']>
         (<[K_RoundParticipants (round_id r) := VAddrs (default [] ps ++ [user])]>
            (<[K_Position (round_id r) user :=
                 VPosition {| pos_amount := amount; pos_side := side |}]>
               (<[K_Balance user := VI128 (default 0 bal - amount)]> (persistent s)))) ->
     Q () s') ->
  wp (place_bet user amount side) Q c s.
Proof.
  intros H. unfold place_bet. wp_ro. wp_step; wp_step. wp_ro. wp_ro.
  apply wp_bind, wp_stake_checks. intros s1 Hs1 Ha. wp_step. wp_step. wp_ro.
  wp_step. wp_step. apply wp_bind, wp_betting_open. intros Hopen.
  apply wp_bind, wp_balance. intros s2 bal Hs2 Hbal. wp_step. wp_step. wp_step. wp_step.
  wp_step. wp_step. wp_step. wp_step. apply wp_bind, wp_set_balance. intros s3 Hs3.
  wp_step. wp_step. unfold append_participant. wp_step. wp_step. wp_step. wp_step.
  wp_step. wp_step. wp_step. wp_step. wp_step. zbool. arith_inv.
  apply bool_decide_eq_false in H6 as Hm%dec_stable.
  eapply (H x a4 bal o); try done; try plook; try lia. all: by pchain.
Qed.

Lemma orb_false_split a b : a || b = false -> a = false ∧ b = false.
Proof. by destruct a, b. Qed.

(** Recording a precision stake: [k] is the prediction or the commitment slot,
    [v] what it gets. *)
Definition stake_effect (user : Address) (amount : Z) (r : Round) (bal : option Z)
    (ps : option (list Address)) (k : Key) (v : Val) (m : gmap Key Val) : gmap Key Val :=
  <[K_RoundParticipants (round_id r) := VAddrs (default [] ps ++ [user])]>
    (<[k := v]> (<[K_Balance user := VI128 (default 0 bal - amount)]> m)).

Lemma wp_place_precision user amount price (Q : () -> State -> Prop) c s :
  (∀ r bal ps s',
     persistent s !! K_ActiveRound = Some (VRound r) ->
     persistent s !! K_Balance user = enc cI128 <$> bal ->
     persistent s !! K_RoundParticipants (round_id r) = enc cAddrs <$> ps ->
     persistent s !! K_PrecisionPosition (round_id r) user = None ->
     persistent s !! K_PrecisionCommitment (round_id r) user = None ->
     mode r = Precision -> sequence c < bet_end_ledger r -> 0 < amount ≤ default 0 bal ->
     price ≤ 99999999 ->
     persistent s' = stake_effect user amount r bal ps (K_PrecisionPosition (round_id r) user)
       (VPrediction {| pred_user := user; predicted_price := price; pred_amount := amount |})
       (persistent s) ->
     Q () s') ->
  wp (place_precision_prediction user amount price) Q c s.
Proof.
  intros H. unfold place_precision_prediction. wp_ro. wp_step; wp_step. wp_ro. wp_ro.
  apply wp_bind, wp_stake_checks. intros s1 Hs1 Ha. wp_step. wp_step. wp_step. wp_step. wp_ro.
  wp_step. wp_step. apply wp_bind, wp_betting_open. intros Hopen.
  do 8 wp_step. wp_ro. wp_step. wp_step.
  apply wp_bind, wp_balance. intros s2 bal Hs2 Hbal. do 4 wp_step.
  apply wp_bind, wp_set_balance. intros s3 Hs3. do 5 wp_step.
  match goal with Hm : bool_decide (mode _ ≠ _) = false |- _ =>
    apply bool_decide_eq_false in Hm as Hmode%dec_stable end.
  match goal with Hm : _ || _ = false |- _ => apply orb_false_split in Hm as [Hn1 Hn2] end.
  arith_inv. unfold stake_effect in H.
  eapply (H x bal o); try done; try plook; try lia. by pchain.
Qed.

Lemma wp_commit user hash amount (Q : () -> State -> Prop) c s :
  (∀ r bal ps s',
     persistent s !! K_ActiveRound = Some (VRound r) ->
     persistent s !! K_Balance user = enc cI128 <$> bal ->
     persistent s !! K_RoundParticipants (round_id r) = enc cAddrs <$> ps ->
     persistent s !! K_PrecisionPosition (round_id r) user = None ->
     persistent s !! K_PrecisionCommitment (round_id r) user = None ->
     mode r = Precision -> sequence c < bet_end_ledger r -> 0 < amount ≤ default 0 bal ->
     is_zero_bytes32 hash = false ->
     persistent s' = stake_effect user amount r bal ps (K_PrecisionCommitment (round_id r) user)
       (VCommitment {| com_hash := hash; com_amount := amount; revealed := false |})
       (persistent s) ->
     Q () s') ->
  wp (commit_prediction user hash amount) Q c s.
Proof.
  intros H. unfold commit_prediction. wp_step; wp_step. wp_ro. wp_ro. wp_step. wp_step.
  apply wp_bind, wp_stake_checks. intros s1 Hs1 Ha. wp_step. wp_step. wp_ro.
  wp_step. wp_step. apply wp_bind, wp_betting_open. intros Hopen.
  apply wp_bind, wp_balance. intros s2 bal Hs2 Hbal. do 10 wp_step.
  apply wp_bind, wp_set_balance. intros s3 Hs3. unfold append_participant. do 7 wp_step.
  match goal with Hm : bool_decide (mode _ ≠ _) = false |- _ =>
    apply bool_decide_eq_false in Hm as Hmode%dec_stable end.
  match goal with Hm : _ || _ = false |- _ => apply orb_false_split in Hm as [Hn1 Hn2] end.
  arith_inv. unfold stake_effect in H.
  eapply (H x bal o); try done; try plook; try lia. by pchain.
Qed.

Lemma wp_reveal `{HostCrypto} user price salt (Q : () -> State -> Prop) c s :
  (∀ r cm s',
     persistent s !! K_ActiveRound = Some (VRound r) ->
     persistent s !! K_PrecisionCommitment (round_id r) user = Some (VCommitment cm) ->
     mode r = Precision -> bet_end_ledger r ≤ sequence c < end_ledger r ->
     revealed cm = false -> commitment_hash price salt = com_hash cm ->
     salt_has_minimum_entropy salt = true ->
     persistent s' =
       <[K_PrecisionPosition (round_id r) user :=
           VPrediction {| pred_user := user; predicted_price := price; pred_amount := com_amount cm |}]>
         (<[K_PrecisionCommitment (round_id r) user :=
              VCommitment {| com_hash := com_hash cm; com_amount := com_amount cm; revealed := true |}]>
            (persistent s)) ->
     Q () s') ->
  wp (reveal_prediction user price salt) Q c s.
Proof.
  intros HQ. unfold reveal_prediction. wp_step; wp_step. wp_ro. wp_ro.
  repeat wp_step.
  repeat match goal with Hm : bool_decide (_ ≠ _) = false |- _ =>
    apply bool_decide_eq_false in Hm; apply dec_stable in Hm end.
  zbool. eapply HQ; try done; try plook. by pchain.
Qed.

(** ** Early cash-out *)

Lemma take_from_pool_inv r side a r' :
  take_from_pool r side a = Some r' ->
  r' = (match side with Up => with_pool_up r (pool_up r - a)
                      | Down => with_pool_down r (pool_down r - a) end).
Proof.
  destruct side; simpl; intros H; apply fmap_Some in H as (x & H & ->); checked_inv; done.
Qed.

(** Keys a cash-out writes besides the position, the round and its list. *)
Definition cashout_key (rid : Z) (user : Address) (k : Key) : Prop :=
  k = K_PendingWinnings user ∨ k = K_PendingWinningsUpdatedAt user ∨ k = K_InsFundBal ∨
  k = K_ProtocolFeeTreasury ∨ k = K_UserRoundOutcome rid user.

(** What the protocol holds: the treasury and the insurance fund. *)
Definition protocol_funds (s : State) : Z := slot s K_ProtocolFeeTreasury + slot s K_InsFundBal.

Lemma protocol_funds_same s s' :
  persistent s' !! K_ProtocolFeeTreasury = persistent s !! K_ProtocolFeeTreasury ->
  persistent s' !! K_InsFundBal = persistent s !! K_InsFundBal ->
  protocol_funds s' = protocol_funds s.
Proof. intros H1 H2. unfold protocol_funds. by rewrite (slot_eq s s' _ H1), (slot_eq s s' _ H2). Qed.

(** When nothing but the two funds changed, they account for the difference. *)
Lemma protocol_funds_total s s' :
  (∀ k, k ≠ K_InsFundBal -> k ≠ K_ProtocolFeeTreasury -> persistent s' !! k = persistent s !! k) ->
  protocol_funds s' - protocol_funds s = total s' - total s.
Proof.
  intros Hk. unfold protocol_funds, total, slot.
  set (m := persistent s) in *. set (m' := persistent s') in *.
  assert (delete K_ProtocolFeeTreasury (delete K_InsFundBal m')
          = delete K_ProtocolFeeTreasury (delete K_InsFundBal m)) as E.
  { apply map_eq. intros k. destruct (decide (k = K_ProtocolFeeTreasury)) as [->|H1];
      [by rewrite !lookup_delete_eq|]. rewrite !(lookup_delete_ne _ K_ProtocolFeeTreasury) by done.
    destruct (decide (k = K_InsFundBal)) as [->|H2]; [by rewrite !lookup_delete_eq|].
    rewrite !lookup_delete_ne by done. by apply Hk. }
  apply (f_equal (msum weight)) in E. rewrite !msum_delete, !lookup_delete_ne in E by done. lia.
Qed.

Lemma wp_pay_if (x : Z) user (Q : () -> State -> Prop) c s :
  0 ≤ x ->
  (∀ s', total s' = total s + x ->
     slot s' (K_PendingWinnings user) = slot s (K_PendingWinnings user) + x ->
     (∀ k, k ≠ K_PendingWinnings user -> k ≠ K_PendingWinningsUpdatedAt user ->
           persistent s' !! k = persistent s !! k) -> Q () s') ->
  wp (if x >? 0 then _accumulate_pending user x else mret ()) Q c s.
Proof.
  intros Hx H. destruct (x >? 0) eqn:?; zbool.
  - apply wp_accumulate. auto.
  - apply wp_ret, H; [lia|lia|done].
Qed.

Lemma wp_fee_if r (x : Z) b (Q : () -> State -> Prop) c s :
  0 ≤ x ->
  (∀ s', total s' = total s + x -> protocol_funds s' = protocol_funds s + x ->
     (∀ k, k ≠ K_InsFundBal -> k ≠ K_ProtocolFeeTreasury ->
           persistent s' !! k = persistent s !! k) -> Q () s') ->
  wp (if x >? 0 then fee_model ← _read_fee_model; _collect_protocol_fee r x b fee_model
      else mret ()) Q c s.
Proof.
  intros Hx H. destruct (x >? 0) eqn:?; zbool.
  - wp_ro. apply wp_collect_fee. intros s2 Ht Hk.
    assert (total s2 = total s + x) as Ht2 by (rewrite Ht, (total_same s s') by done; lia).
    assert (∀ k, k ≠ K_InsFundBal -> k ≠ K_ProtocolFeeTreasury -> persistent s2 !! k = persistent s !! k)
      as Hk2 by (intros k ??; rewrite Hk by done; congruence).
    apply H; [done| |done]. pose proof (protocol_funds_total s s2 Hk2). lia.
  - apply wp_ret, H; [lia|lia|done].
Qed.

Lemma wp_persist rid m user a b st p o (Q : () -> State -> Prop) c s :
  (∀ s', total s' = total s ->
     (∀ k, k ≠ K_UserRoundOutcome rid user -> persistent s' !! k = persistent s !! k) -> Q () s') ->
  wp (_persist_user_outcome rid m user a b st p o) Q c s.
Proof.
  intros H. unfold _persist_user_outcome. wp_step. wp_step.
  case_bool_decide; [apply wp_ret; by apply H|].
  wp_step. wp_step. apply wp_bind, wp_extend. intros s2 H2. wp_step. apply H; [by money|].
  intros k Hk. pchain. by rewrite lookup_insert_ne.
Qed.

(** The penalty rate is a u32. *)
Definition penalty_ok (s : State) : Prop :=
  ∀ b, persistent s !! K_EarlyCashoutBps = Some (VU32 b) -> 0 ≤ b.

Lemma wp_cashout_bps (Q : option Z -> State -> Prop) c s :
  (∀ o s', persistent s' = persistent s -> persistent s !! K_EarlyCashoutBps = enc cU32 <$> o ->
     Q o s') ->
  wp get_early_cashout_bps Q c s.
Proof.
  intros H. unfold get_early_cashout_bps, get_extended. apply wp_bind, wp_extend. intros s1 H1.
  apply wp_pget. intros o Ho. apply H; congruence.
Qed.

Lemma cashout_split stake b :
  0 < stake -> 0 ≤ b ≤ 10000 ->
  0 ≤ Z.quot (stake * b) BPS_DENOMINATOR ≤ stake.
Proof.
  intros Hs Hb. rewrite Z.quot_div_nonneg by (unfold BPS_DENOMINATOR; nia).
  unfold BPS_DENOMINATOR. split; [apply Z.div_pos; nia|apply Z.div_le_upper_bound; nia].
Qed.

(** The penalty of leaving with [stake] at the rate [bps]. *)
Definition cashout_penalty (stake bps : Z) : Z := stake * bps / BPS_DENOMINATOR.

(** Who gets what of the stake [amount] of [user] at the penalty rate [b]. *)
Record cashed_out (user : Address) (amount b : Z) (s s' : State) : Prop := {
  co_rate : persistent s !! K_EarlyCashoutBps = Some (VU32 b) ∧ 0 < b ≤ 10000;
  co_user : slot s' (K_PendingWinnings user)
    = slot s (K_PendingWinnings user) + (amount - cashout_penalty amount b);
  co_protocol : protocol_funds s' = protocol_funds s + cashout_penalty amount b;
  co_range : 0 ≤ cashout_penalty amount b ≤ amount;
  co_total : total s' = total s }.

Lemma wp_cash_out user (Q : () -> State -> Prop) c s :
  penalty_ok s ->
  (∀ r r' p ps b s',
     persistent s !! K_ActiveRound = Some (VRound r) ->
     persistent s !! K_Position (round_id r) user = Some (VPosition p) ->
     persistent s !! K_RoundParticipants (round_id r) = enc cAddrs <$> ps ->
     mode r = UpDown -> bet_end_ledger r ≤ sequence c < end_ledger r -> 0 < pos_amount p ->
     take_from_pool r (pos_side p) (pos_amount p) = Some r' ->
     cashed_out user (pos_amount p) b s s' ->
     persistent s' !! K_ActiveRound = Some (VRound r') ->
     persistent s' !! K_Position (round_id r) user = None ->
     persistent s' !! K_RoundParticipants (round_id r)
       = Some (VAddrs (filter (λ a, a ≠ user) (default [] ps))) ->
     (∀ k, ¬ cashout_key (round_id r) user k -> k ≠ K_ActiveRound ->
           k ≠ K_Position (round_id r) user -> k ≠ K_RoundParticipants (round_id r) ->
           persistent s' !! k = persistent s !! k) ->
     Q () s') ->
  wp (cash_out_early user) Q c s.
Proof.
  intros Hok H. unfold cash_out_early. wp_ro. wp_step; wp_step. wp_ro. wp_ro.
  apply wp_bind, wp_cashout_bps. intros bps s4 Hs4 Hbps. do 20 wp_step. zbool. subst bps.
  match goal with Hm : bool_decide (mode ?x ≠ _) = false |- _ =>
    apply bool_decide_eq_false in Hm as Hmode%dec_stable; rename x into r end.
  match goal with Hp : _ = Some (enc cPosition ?x) |- _ => rename x into p; rename Hp into Hpos end.
  match goal with Hp : _ = Some (enc cRound r) |- _ => rename Hp into Hact end.
  pchain_in Hact. pchain_in Hpos. pchain_in Hbps. pose proof Hbps as Hrate. apply Hok in Hbps. arith_inv.
  match goal with |- context [Z.quot (pos_amount p * ?b0) _] =>
    rename b0 into b; pose proof (cashout_split (pos_amount p) b) as Hsp;
    rewrite (quot_div_nonneg (pos_amount p * b)) in * by (unfold BPS_DENOMINATOR; nia);
    change (pos_amount p * b / BPS_DENOMINATOR) with (cashout_penalty (pos_amount p) b) in *;
    set (fee := cashout_penalty (pos_amount p) b) in * end.
  do 4 wp_step. apply wp_bind, wp_pay_if; [lia|]. intros s5 Ht5 Hu5 Hk5.
  apply wp_bind, wp_fee_if; [lia|]. intros s6 Ht6 Hf6 Hk6.
  apply wp_bind, wp_persist. intros s7 Ht7 Hk7. wp_step. wp_step. wp_step. do 4 wp_step.
  match goal with Hp : take_from_pool _ _ _ = Some ?x |- _ => rename x into r'; rename Hp into Htake end.
  match goal with Hp : _ = enc cAddrs <$> ?o |- _ => rename o into ps; rename Hp into Hps end.
  pchain_in Hps. rewrite lookup_delete_ne, Hk7, Hk6, Hk5 in Hps by done.
  eapply (H r r' p ps b).
  all: try done.
  - rewrite <-Hps. by lchain.
  - split; [|..].
    + split; [done|lia].
    + rewrite (slot_eq s5), Hu5, (slot_eq s) by by lchain. fold fee. lia.
    + rewrite (protocol_funds_same s6), Hf6, (protocol_funds_same s) by by lchain. done.
    + fold fee. lia.
    + apply (slot_found _ _ (VPosition p)) in Hpos; [|done]. money.
  - by lchain.
  - by lchain.
  - by lchain.
  - intros k Hk ???. unfold cashout_key in Hk. by lchain.
Qed.

(** ** Initial mint *)

Lemma frame_mint_ledger P seq : frame P (mint_ledger_limit seq).
Proof. frame_of mint_ledger_limit. Qed.
Lemma frame_mint_epoch P a : frame P (mint_epoch_budget a).
Proof. frame_of mint_epoch_budget. Qed.
#[export] Hint Resolve frame_mint_ledger frame_mint_epoch : frame.

Lemma wp_mint user (Q : Z -> State -> Prop) c s :
  (∀ b s', persistent s !! K_Balance user = Some (VI128 b) -> persistent s' = persistent s ->
     Q b s') ->
  (∀ s', persistent s !! K_Balance user = None ->
     persistent s' = <[K_Balance user := VI128 INITIAL_AMOUNT]> (persistent s) ->
     Q INITIAL_AMOUNT s') ->
  wp (mint_initial user) Q c s.
Proof.
  intros Hold Hnew. unfold mint_initial. wp_step; wp_step. wp_ro. wp_ro. wp_ro.
  wp_step. wp_step. destruct o as [b|].
  - apply wp_bind, wp_extend. intros s1 H1'. wp_step. eapply Hold; [by plook|by pchain].
  - wp_step. wp_step. wp_ro. wp_ro. wp_step. wp_step. apply wp_bind, wp_extend. intros s1 Hs1.
    repeat wp_step. apply Hnew; [by plook|by pchain].
Qed.

(** ** Creating rounds *)

Lemma wp_no_active (Q : () -> State -> Prop) c s :
  (persistent s !! K_ActiveRound = None -> Q () s) -> wp assert_no_active_round Q c s.
Proof.
  intros H. unfold assert_no_active_round. repeat wp_step. apply H. by plook.
Qed.

Lemma wp_throw_if b a act e (Q : () -> State -> Prop) c s :
  (b = false -> Q () s) -> wp (emit_throw_if b a act e) Q c s.
Proof.
  intros H. destruct b; [|apply wp_ret; by apply H].
  unfold emit_throw_if, emit_throw. wp_ro. apply wp_throw.
Qed.

(** The round [create_round] opens from the state [s]. *)
Definition opened (c : Ctx) (s : State) (start_price rid bet run : Z) (md : RoundMode) : Round :=
  {| round_id := rid; price_start := start_price; start_ledger := sequence c;
     start_timestamp := ledger_timestamp c; bet_end_ledger := sequence c + bet;
     end_ledger := sequence c + run; pool_up := 0; pool_down := 0; mode := md |}.

Lemma wp_create_round start_price m (Q : () -> State -> Prop) c s :
  (∀ last bet run r s',
     persistent s !! K_ActiveRound = None ->
     persistent s !! K_RoundStartLedger (sequence c) = None ->
     persistent s !! K_LastRoundId = enc cU64 <$> last ->
     persistent s !! K_BetWindowLedgers = enc cU32 <$> bet ->
     persistent s !! K_RunWindowLedgers = enc cU32 <$> run ->
     MIN_START_PRICE ≤ start_price ≤ MAX_START_PRICE -> default 0 m ≤ 1 ->
     0 ≤ default 0 last + 1 ≤ U64_MAX ->
     r = opened c s start_price (default 0 last + 1) (default DEFAULT_BET_WINDOW_LEDGERS bet)
           (default DEFAULT_RUN_WINDOW_LEDGERS run) (mode_of_u32 (default 0 m)) ->
     end_ledger r ≤ U32_MAX ->
     persistent s' = <[K_RoundStartLedger (sequence c) := VU64 (round_id r)]>
       (<[K_ActiveRound := VRound r]> (<[K_LastRoundId := VU64 (round_id r)]> (persistent s))) ->
     Q () s') ->
  wp (create_round start_price m) Q c s.
Proof.
  intros HQ. unfold create_round. wp_ro. do 12 wp_step. wp_ro. wp_step. wp_step.
  apply wp_no_active. intros Hna.
  apply wp_bind, wp_extend. intros t1 T1. wp_step. wp_step.
  apply wp_bind, wp_extend. intros t2 T2. wp_step. wp_step. wp_step. wp_step. wp_step. wp_step.
  apply wp_bind, wp_throw_if. intros Hfresh.
  wp_go. arith_inv. unfold u64_checked_add, u32_checked_add in *. checked_inv.
  rewrite ?in_u32_spec, ?in_u64_spec in *.
  eapply HQ; [.. |reflexivity| |]; try done; try plook; try lia.
  - cbn [end_ledger opened]. lia.
  - by pchain.
Qed.
