(* ===== verification/Blind.v ===== *)
(** * Programs that do not look at some slots

    [blind P m]: putting entries under slots of [P], or changing those there, makes no
    difference to what [m] does.  Two data layouts that differ in such slots then run
    in step, which is how the migration of a layout is proved. *)

From S2P Require Export BettingFacts Leaderboard.

(** The state with the entries [e] put over its own. *)
Definition with_entries (e : gmap Key Val) (s : State) : State :=
  mk_state (e ∪ persistent s) (instance s) (temporary s) (ttl s) (events s).

(** A run carried over to a state with these entries. *)
Definition over {A} (e : gmap Key Val) (r : outcome A * State) : outcome A * State :=
  (r.1, with_entries e r.2).

Definition within (P : Key -> Prop) (e : gmap Key Val) : Prop := ∀ k, is_Some (e !! k) -> P k.

Definition blind {A} (P : Key -> Prop) (m : M A) : Prop :=
  ∀ e c s, within P e -> m c (with_entries e s) = over e (m c s).

(** ** The rules *)

Section Blind.
Context (P : Key -> Prop) {A B : Type}.

Lemma entries_other e s k :
  within P e -> ¬ P k -> persistent (with_entries e s) !! k = persistent s !! k.
Proof.
  intros He Hk. simpl. apply lookup_union_r. destruct (e !! k) eqn:E; [|done].
  by destruct Hk; apply He.
Qed.

Lemma entries_put e s k v : e !! k = Some v -> persistent (with_entries e s) !! k = Some v.
Proof. intros Hk. simpl. by apply lookup_union_Some_l. Qed.

Lemma blind_bind (m : M A) (f : A -> M B) : blind P m -> (∀ a, blind P (f a)) -> blind P (m ≫= f).
Proof.
  intros Hm Hf e c s He. unfold mbind, M_bind. rewrite (Hm e c s He). unfold over.
  destruct (m c s) as [[a|er|] s1]; simpl; [|done..]. by rewrite (Hf a e c s1 He).
Qed.
Lemma blind_ret (a : A) : blind P (mret a).
Proof. by intros e c s _. Qed.
Lemma blind_throw er : blind P (throw (A:=A) er).
Proof. by intros e c s _. Qed.
Lemma blind_trap : blind P (trap (A:=A)).
Proof. by intros e c s _. Qed.
Lemma blind_lift (o : outcome A) : blind P (lift o).
Proof. by intros e c s _. Qed.
Lemma blind_asks (f : Ctx -> A) : blind P (asks f).
Proof. by intros e c s _. Qed.
Lemma blind_reject_if b er : blind P (reject_if b er).
Proof. intros e c s _. by destruct b. Qed.
Lemma blind_ok_or (o : option A) er : blind P (ok_or o er).
Proof. intros e c s _. by destruct o. Qed.
Lemma blind_or_trap (o : option A) : blind P (or_trap o).
Proof. intros e c s _. by destruct o. Qed.
Lemma blind_emit t1 t2 vs : blind P (emit t1 t2 vs).
Proof. by intros e c s _. Qed.
Lemma blind_iget (cd : Codec A) k : blind P (iget cd k).
Proof. by intros e c s _. Qed.
Lemma blind_tget (cd : Codec A) k : blind P (tget cd k).
Proof. by intros e c s _. Qed.
Lemma blind_pget (cd : Codec A) k : ¬ P k -> blind P (pget cd k).
Proof. intros Hk e c s He. unfold pget, over. by rewrite (entries_other e s k He Hk). Qed.
Lemma blind_phas k : ¬ P k -> blind P (phas k).
Proof. intros Hk e c s He. unfold phas, over. by rewrite (entries_other e s k He Hk). Qed.
Lemma blind_pset (cd : Codec A) k x : ¬ P k -> blind P (pset cd k x).
Proof.
  intros Hk e c s He. unfold pset, over. rewrite (entries_other e s k He Hk). unfold with_entries. simpl.
  rewrite insert_union_r; [done|]. destruct (e !! k) eqn:E; [by destruct Hk; apply He|done].
Qed.
Lemma blind_premove k : ¬ P k -> blind P (premove k).
Proof.
  intros Hk e c s He. unfold premove, over, with_entries. simpl. rewrite delete_union.
  rewrite (delete_id e); [done|]. destruct (e !! k) eqn:E; [by destruct Hk; apply He|done].
Qed.
Lemma blind_pextend_ttl k t n : ¬ P k -> blind P (pextend_ttl k t n).
Proof.
  intros Hk e c s He. unfold pextend_ttl, over. rewrite (entries_other e s k He Hk).
  by destruct (persistent s !! k).
Qed.
Lemma blind_mfor (l : list A) body : (∀ x, blind P (body x)) -> blind P (mfor l body).
Proof.
  intros Hb e c s He. revert s. induction l as [|x l IH]; intros s; simpl; [done|].
  unfold mbind, M_bind. rewrite (Hb x e c s He). unfold over.
  destruct (body x c s) as [[[]|er|] s1]; simpl; [|done..]. by rewrite IH.
Qed.
Lemma blind_mfold (l : list A) (acc : B) body :
  (∀ acc x, blind P (body acc x)) -> blind P (mfold l acc body).
Proof.
  intros Hb e c s He. revert s acc. induction l as [|x l IH]; intros s acc; simpl; [done|].
  unfold mbind, M_bind. rewrite (Hb acc x e c s He). unfold over.
  destruct (body acc x c s) as [[b|er|] s1]; simpl; [|done..]. by rewrite IH.
Qed.
Lemma blind_inspect_err (m : M A) f :
  blind P m -> (∀ er, blind P (f er)) -> blind P (inspect_err m f).
Proof.
  intros Hm Hf e c s He. unfold inspect_err. rewrite (Hm e c s He). unfold over.
  destruct (m c s) as [[a|er|] s1]; simpl; [done| |done]. rewrite (Hf er e c s1 He). unfold over.
  by destruct (f er c s1) as [[] s2].
Qed.
End Blind.

Create HintDb blind discriminated.
#[export] Hint Resolve blind_ret blind_throw blind_trap blind_lift blind_asks blind_reject_if
  blind_ok_or blind_or_trap blind_emit blind_iget blind_tget : blind.

(** [blind P m] by walking [m] and unfolding what it calls; [side] proves that a key read
    or written is outside [P]. *)
Ltac blind_calls side :=
  let rec head t := match t with ?f _ => head f | _ => t end in
  repeat first
    [ progress intros
    | match goal with
      | |- blind _ (match ?x with _ => _ end) => destruct x
      | |- blind _ (match ?x with _ => _ end _ _) => destruct x
      | |- blind _ (if ?x then _ else _) => destruct x
      | |- blind _ _ => solve [auto with blind nocore]
      | |- blind _ (_ ≫= _) => apply blind_bind
      | |- blind _ (inspect_err _ _) => apply blind_inspect_err
      | |- blind _ (mfor _ _) => apply blind_mfor
      | |- blind _ (mfold _ _ _) => apply blind_mfold
      | |- blind _ (pget _ _) => apply blind_pget; side
      | |- blind _ (phas _) => apply blind_phas; side
      | |- blind _ (pset _ _ _) => apply blind_pset; side
      | |- blind _ (premove _) => apply blind_premove; side
      | |- blind _ (pextend_ttl _ _ _) => apply blind_pextend_ttl; side
      | |- blind _ ?m => let h := head m in unfold h
      end ].

(** ** The entries of a round *)

(** The slots that say who takes part in a round and with what. *)
Definition entry_key (k : Key) : bool :=
  match k with
  | KVec n [AU64 _; AAddr _] => bool_decide (n ∈ ["Position"; "PrecisionPosition"; "PrecisionCommitment"])
  | KVec n [AU64 _] => String.eqb n "RoundParticipants"
  | _ => false
  end.
Notation entries := (λ k, entry_key k = true).

(** The bookkeeping of a payout looks at none of them. *)
Ltac no_entry := blind_calls ltac:(intros ?; discriminate).

Lemma blind_accumulate u n : blind entries (_accumulate_pending u n).
Proof. no_entry. Qed.
Lemma blind_stats_win u : blind entries (_update_stats_win u).
Proof. no_entry. Qed.
Lemma blind_stats_loss u : blind entries (_update_stats_loss u).
Proof. no_entry. Qed.
Lemma blind_persist r m u a b x p o : blind entries (_persist_user_outcome r m u a b x p o).
Proof. no_entry. Qed.
Lemma blind_fee_updown r w l : blind entries (_apply_protocol_fee_updown r w l).
Proof. no_entry. Qed.
Lemma blind_fee_precision r p w : blind entries (_apply_protocol_fee_precision r p w).
Proof. no_entry. Qed.
#[export] Hint Resolve blind_accumulate blind_stats_win blind_stats_loss blind_persist
  blind_fee_updown blind_fee_precision : blind.

(** ** Two programs that run in step

    [m1] on a state with the entries [e] does what [m2] does without them. *)

Definition in_step {A} (e : gmap Key Val) (m1 m2 : M A) : Prop :=
  ∀ c s, m1 c (with_entries e s) = over e (m2 c s).

Section In_step.
Context {A B : Type} (e : gmap Key Val).

Lemma in_step_blind P (m : M A) : within P e -> blind P m -> in_step e m m.
Proof. intros He Hm c s. by apply Hm. Qed.

Lemma in_step_bind (m1 m2 : M A) (f1 f2 : A -> M B) :
  in_step e m1 m2 -> (∀ a, in_step e (f1 a) (f2 a)) -> in_step e (m1 ≫= f1) (m2 ≫= f2).
Proof.
  intros Hm Hf c s. unfold mbind, M_bind. rewrite Hm. unfold over.
  destruct (m2 c s) as [[a|er|] s1]; simpl; [apply Hf|done..].
Qed.

(** Reading one of the entries. *)
Lemma in_step_pget (cd : Codec A) k x (f : option A -> M B) m2 :
  e !! k = Some (enc cd x) -> in_step e (f (Some x)) m2 -> in_step e (pget cd k ≫= f) m2.
Proof.
  intros Hk Hf c s. unfold mbind, M_bind, pget. rewrite (entries_put e s k _ Hk). simpl.
  rewrite dec_enc. apply Hf.
Qed.

Lemma in_step_mfor (l1 : list A) (l2 : list B) body1 body2 :
  Forall2 (λ x y, in_step e (body1 x) (body2 y)) l1 l2 -> in_step e (mfor l1 body1) (mfor l2 body2).
Proof.
  induction 1 as [|x y l1 l2 Hxy _ IH]; [by intros c s|]. simpl. intros c s.
  unfold mbind, M_bind. rewrite Hxy. unfold over.
  destruct (body2 y c s) as [[[]|er|] s1]; simpl; [|done..]. apply IH.
Qed.
End In_step.

Lemma mfor_in_step {A} e (l : list A) body1 body2 :
  (∀ x, x ∈ l -> in_step e (body1 x) (body2 x)) -> in_step e (mfor l body1) (mfor l body2).
Proof. intros H. apply in_step_mfor, Forall_Forall2_diag, Forall_forall, H. Qed.
