(* ===== verification/Book.v ===== *)
(** * The book of a round

    What storage holds for a round while it is open or waits for settlement:
    a duplicate-free participant list, one stake entry per listed participant
    and none for anyone else, pools that are the sums of the stakes of each
    side.  Every staking operation keeps the book and moves value without
    creating or losing any. *)

From S2P Require Export BettingFacts.

(** ** Entries *)

(** The slots a round owns. *)
Definition round_key (rid : Z) (k : Key) : Prop :=
  match k with
  | KVec n [AU64 r] => r = rid ∧ n = "RoundParticipants"
  | KVec n [AU64 r; AAddr _] =>
      r = rid ∧ (n = "Position" ∨ n = "PrecisionPosition" ∨ n = "PrecisionCommitment")
  | _ => False
  end.

Section Entries.
Context (s : State) (rid : Z) (u : Address).

Definition pos_at : option Val := persistent s !! K_Position rid u.
Definition pred_at : option Val := persistent s !! K_PrecisionPosition rid u.
Definition com_at : option Val := persistent s !! K_PrecisionCommitment rid u.

Definition vacant : Prop := pos_at = None ∧ pred_at = None ∧ com_at = None.

(** A listed participant holds one live stake: a position, a prediction, an
    unrevealed commitment, or a prediction with the commitment it revealed. *)
Definition entry (m : RoundMode) : Prop :=
  match m with
  | UpDown =>
      (∃ p, pos_at = Some (VPosition p) ∧ 0 < pos_amount p) ∧ pred_at = None ∧ com_at = None
  | Precision =>
      pos_at = None ∧
      ((∃ p, pred_at = Some (VPrediction p) ∧ com_at = None ∧
             0 < pred_amount p ∧ pred_user p = u) ∨
       (∃ cm, pred_at = None ∧ com_at = Some (VCommitment cm) ∧
              0 < com_amount cm ∧ revealed cm = false) ∨
       (∃ p cm, pred_at = Some (VPrediction p) ∧ com_at = Some (VCommitment cm) ∧
                0 < pred_amount p ∧ pred_user p = u ∧ revealed cm = true))
  end.

(** The value held for the participant in this round. *)
Definition stake : Z :=
  slot s (K_Position rid u) + slot s (K_PrecisionPosition rid u)
  + slot s (K_PrecisionCommitment rid u).

(** The stake on one side of an UpDown round. *)
Definition side_stake (side : BetSide) : Z :=
  match pos_at with
  | Some (VPosition p) => if bool_decide (pos_side p = side) then pos_amount p else 0
  | _ => 0
  end.
End Entries.

Record book (s : State) (r : Round) (ps : list Address) : Prop := {
  book_list : ∃ o, persistent s !! K_RoundParticipants (round_id r) = enc cAddrs <$> o ∧
                   ps = default [] o;
  book_nodup : NoDup ps;
  book_entry u : u ∈ ps -> entry s (round_id r) u (mode r);
  book_vacant u : u ∉ ps -> vacant s (round_id r) u;
  book_up : mode r = UpDown -> pool_up r = zsum (λ u, side_stake s (round_id r) u Up) ps;
  book_down : mode r = UpDown -> pool_down r = zsum (λ u, side_stake s (round_id r) u Down) ps }.

(** ** The book depends on the slots of the round alone *)

Definition same_user (s s' : State) (rid : Z) (u : Address) : Prop :=
  pos_at s' rid u = pos_at s rid u ∧ pred_at s' rid u = pred_at s rid u ∧
  com_at s' rid u = com_at s rid u.

Lemma entry_same s s' rid u m : same_user s s' rid u -> entry s rid u m -> entry s' rid u m.
Proof. unfold entry. intros (-> & -> & ->). done. Qed.

Lemma vacant_same s s' rid u : same_user s s' rid u -> vacant s rid u -> vacant s' rid u.
Proof. unfold vacant. intros (-> & -> & ->). done. Qed.

Lemma side_stake_same s s' rid u side :
  same_user s s' rid u -> side_stake s' rid u side = side_stake s rid u side.
Proof. unfold side_stake. by intros (-> & _). Qed.

Lemma stake_same s s' rid u : same_user s s' rid u -> stake s' rid u = stake s rid u.
Proof. unfold stake, slot, same_user, pos_at, pred_at, com_at. by intros (-> & -> & ->). Qed.

Lemma agree_same s s' rid u : agree (round_key rid) s s' -> same_user s s' rid u.
Proof. intros H. repeat split; apply H; simpl; auto. Qed.

Lemma book_agree s s' r ps : agree (round_key (round_id r)) s s' -> book s r ps -> book s' r ps.
Proof.
  intros H [Hl Hn He Hv Hu Hd]. split.
  - destruct Hl as (o & Ho & ->). exists o. split; [|done]. rewrite H; [done|]. by simpl.
  - done.
  - intros u Hin. eapply entry_same; [by apply agree_same|auto].
  - intros u Hin. eapply vacant_same; [by apply agree_same|auto].
  - intros Hm. rewrite (Hu Hm). apply zsum_ext. intros u _. symmetry.
    by apply side_stake_same, agree_same.
  - intros Hm. rewrite (Hd Hm). apply zsum_ext. intros u _. symmetry.
    by apply side_stake_same, agree_same.
Qed.

(** A new participant at the end of the list. *)
Lemma book_add s s' r r' ps u :
  book s r ps -> round_id r' = round_id r -> mode r' = mode r -> u ∉ ps ->
  persistent s' !! K_RoundParticipants (round_id r) = Some (VAddrs (ps ++ [u])) ->
  (∀ v, v ≠ u -> same_user s s' (round_id r) v) ->
  entry s' (round_id r) u (mode r) ->
  pool_up r' = pool_up r + side_stake s' (round_id r) u Up ->
  pool_down r' = pool_down r + side_stake s' (round_id r) u Down ->
  book s' r' (ps ++ [u]).
Proof.
  intros [Hl Hn He Hv Hu Hd] Hid Hmode Hnew Hlist Hsame Hent Hup Hdn.
  assert (∀ side, zsum (λ v, side_stake s' (round_id r) v side) ps
                  = zsum (λ v, side_stake s (round_id r) v side) ps) as Hside.
  { intros side. apply zsum_ext. intros v Hin. apply side_stake_same, Hsame. by intros ->. }
  split; rewrite ?Hid, ?Hmode.
  - by exists (Some (ps ++ [u])).
  - apply NoDup_app. split; [done|]. split; [|apply NoDup_singleton]. set_solver.
  - intros v [Hin|Hin]%elem_of_app.
    + apply (entry_same s); [|by apply He]. apply Hsame. by intros ->.
    + apply list_elem_of_singleton in Hin as ->. done.
  - intros v Hin. apply (vacant_same s); [apply Hsame|apply Hv]; set_solver.
  - intros Hm. rewrite zsum_app, Hside, Hup, (Hu Hm). simpl. lia.
  - intros Hm. rewrite zsum_app, Hside, Hdn, (Hd Hm). simpl. lia.
Qed.

(** A participant of a Precision round whose entry changes. *)
Lemma book_update s s' r ps u :
  book s r ps -> mode r = Precision ->
  persistent s' !! K_RoundParticipants (round_id r) = persistent s !! K_RoundParticipants (round_id r) ->
  (∀ v, v ≠ u -> same_user s s' (round_id r) v) ->
  u ∈ ps -> entry s' (round_id r) u Precision ->
  book s' r ps.
Proof.
  intros [Hl Hn He Hv Hu Hd] Hm Hlist Hsame Hin Hent. split; try done.
  - destruct Hl as (o & Ho & ->). exists o. by rewrite Hlist.
  - intros v Hv'. rewrite Hm in *. destruct (decide (v = u)) as [->|]; [done|].
    apply (entry_same s); auto.
  - intros v Hv'. apply (vacant_same s); [|auto]. apply Hsame. by intros ->.
  - by rewrite Hm.
  - by rewrite Hm.
Qed.

(** A participant who leaves. *)
Lemma book_remove s s' r r' ps u :
  book s r ps -> round_id r' = round_id r -> mode r' = mode r -> u ∈ ps ->
  persistent s' !! K_RoundParticipants (round_id r) = Some (VAddrs (filter (λ v, v ≠ u) ps)) ->
  (∀ v, v ≠ u -> same_user s s' (round_id r) v) ->
  vacant s' (round_id r) u ->
  pool_up r' = pool_up r - side_stake s (round_id r) u Up ->
  pool_down r' = pool_down r - side_stake s (round_id r) u Down ->
  book s' r' (filter (λ v, v ≠ u) ps).
Proof.
  intros [Hl Hn He Hv Hu Hd] Hid Hmode Hin Hlist Hsame Hvac Hup Hdn.
  assert (∀ side, zsum (λ v, side_stake s' (round_id r) v side) (filter (λ v, v ≠ u) ps)
                  = zsum (λ v, side_stake s (round_id r) v side) ps
                    - side_stake s (round_id r) u side) as Hside.
  { intros side. rewrite <-(zsum_remove (λ v, side_stake s (round_id r) v side)) by done. apply zsum_ext.
    intros v [Hne _]%list_elem_of_filter. by apply side_stake_same, Hsame. }
  split; rewrite ?Hid, ?Hmode.
  - by eexists (Some _).
  - by apply NoDup_filter.
  - intros v [Hne Hv']%list_elem_of_filter. apply (entry_same s); auto.
  - intros v Hv'. destruct (decide (v = u)) as [->|Hne]; [done|].
    apply (vacant_same s); [by apply Hsame|]. apply Hv. intros ?. apply Hv'.
    by apply list_elem_of_filter.
  - intros Hm. rewrite Hside, Hup, (Hu Hm). lia.
  - intros Hm. rewrite Hside, Hdn, (Hd Hm). lia.
Qed.

(** ** The staking operations keep the book *)

Definition active (s : State) (r : Round) : Prop := persistent s !! K_ActiveRound = Some (VRound r).

Lemma active_inj s r r' :
  active s r -> persistent s !! K_ActiveRound = Some (VRound r') -> r' = r.
Proof. unfold active. congruence. Qed.

Lemma book_participants s r ps o :
  book s r ps -> persistent s !! K_RoundParticipants (round_id r) = enc cAddrs <$> o ->
  default [] o = ps.
Proof.
  intros [(o' & Ho' & ->) _ _ _ _ _] Ho. rewrite Ho in Ho'.
  destruct o, o'; simpl in *; congruence.
Qed.

(** Someone without an entry is not listed. *)
Lemma unlisted s r ps u :
  book s r ps ->
  match mode r with
  | UpDown => pos_at s (round_id r) u = None
  | Precision => pred_at s (round_id r) u = None ∧ com_at s (round_id r) u = None
  end -> u ∉ ps.
Proof.
  intros Hb Hn Hin. pose proof (book_entry _ _ _ Hb u Hin) as He. unfold entry in He.
  destruct (mode r); naive_solver.
Qed.

Lemma vacant_slots s rid u :
  vacant s rid u ->
  slot s (K_Position rid u) = 0 ∧ slot s (K_PrecisionPosition rid u) = 0 ∧
  slot s (K_PrecisionCommitment rid u) = 0.
Proof.
  unfold vacant, pos_at, pred_at, com_at. intros (?&?&?). by repeat split; apply slot_none.
Qed.

(** What a stake operation does to value: the staker's balance pays for the
    new entry. *)
Definition moved_stake (s s' : State) (user : Address) (amount : Z) : Prop :=
  0 < amount ≤ slot s (K_Balance user) ∧
  slot s' (K_Balance user) = slot s (K_Balance user) - amount ∧ total s' = total s.

(** The writes of an UpDown bet add the bettor to the book. *)
Lemma bet_book s s' r r' bal o user amount side :
  book s r (default [] o) -> user ∉ default [] o -> mode r = UpDown ->
  persistent s !! K_Balance user = enc cI128 <$> bal -> 0 < amount ≤ default 0 bal ->
  add_to_pool r side amount = Some r' ->
  persistent s' =
    <[K_ActiveRound := VRound r']>
      (<[K_RoundParticipants (round_id r) := VAddrs (default [] o ++ [user])]>
         (<[K_Position (round_id r) user := VPosition {| pos_amount := amount; pos_side := side |}]>
            (<[K_Balance user := VI128 (default 0 bal - amount)]> (persistent s)))) ->
  active s' r' ∧ round_id r' = round_id r ∧ book s' r' (default [] o ++ [user]) ∧
  moved_stake s s' user amount.
Proof.
  intros Hb Hnew Hm Hbal Ha Hpool Hs'. apply add_to_pool_inv in Hpool.
  pose proof (vacant_slots _ _ _ (book_vacant _ _ _ Hb _ Hnew)) as (Hz & _).
  pose proof (balance_slot _ _ _ Hbal) as Hbs.
  split_and!; [unfold active; by lchain|rewrite Hpool; by destruct side| |].
  - apply (book_add s _ r); try done; try (rewrite Hpool; by destruct side).
    + by lchain.
    + intros v Hv. repeat split; unfold pos_at, pred_at, com_at; by lchain.
    + rewrite Hm. destruct (book_vacant _ _ _ Hb _ Hnew) as (? & ? & ?).
      unfold entry, pos_at, pred_at, com_at in *. split_and!; [|by lchain..].
      eexists. split; [by lchain|simpl; lia].
    + unfold side_stake, pos_at. lchain. rewrite Hpool. destruct side; simpl; lia.
    + unfold side_stake, pos_at. lchain. rewrite Hpool. destruct side; simpl; lia.
  - split_and!; [lia|lia|rewrite Hbs; stack_slot; weights; done|stack_money Hs'].
Qed.

(** C17: a successful UpDown bet appends the bettor to the book of the active
    round with exactly the stake and side asked for, adds the stake to that
    side's pool, takes it from the bettor's balance, and creates or destroys
    no value. *)
Theorem place_bet_keeps_book user amount side c s s' r ps :
  place_bet user amount side c s = (Ok (), s') -> active s r -> book s r ps ->
  ∃ r', active s' r' ∧ round_id r' = round_id r ∧ book s' r' (ps ++ [user]) ∧ user ∉ ps ∧
    pos_at s' (round_id r) user = Some (VPosition {| pos_amount := amount; pos_side := side |}) ∧
    sequence c < bet_end_ledger r ∧ moved_stake s s' user amount.
Proof.
  intros E Hact Hb. wp_intro E. apply wp_place_bet.
  intros r0 r' bal o t Hact' Hbal Hps Hpos Hm Hopen Ha Hpool Hs'.
  apply (active_inj s r) in Hact' as ->; [|done].
  pose proof (book_participants _ _ _ _ Hb Hps) as <-.
  assert (user ∉ default [] o) as Hnew by (eapply unlisted; [done|by rewrite Hm]).
  destruct (bet_book _ _ _ _ _ _ _ _ _ Hb Hnew Hm Hbal Ha Hpool Hs') as (? & ? & ? & ?).
  exists r'. split_and!; try done. unfold pos_at. by lchain.
Qed.

Lemma side_stake_none s rid u side : pos_at s rid u = None -> side_stake s rid u side = 0.
Proof. unfold side_stake. by intros ->. Qed.

(** A stake recorded by [stake_effect] joins the book of a Precision round. *)
Lemma stake_effect_book s s' r bal o user amount k v :
  book s r (default [] o) -> mode r = Precision -> user ∉ default [] o ->
  persistent s !! K_Balance user = enc cI128 <$> bal -> 0 < amount ≤ default 0 bal ->
  k = K_PrecisionPosition (round_id r) user ∨ k = K_PrecisionCommitment (round_id r) user ->
  value_of v = amount ->
  persistent s' = stake_effect user amount r bal o k v (persistent s) ->
  entry s' (round_id r) user Precision ->
  active s r ->
  active s' r ∧ book s' r (default [] o ++ [user]) ∧ moved_stake s s' user amount.
Proof.
  intros Hb Hm Hnew Hbal Ha Hk Hv Hs' Hent Hact. unfold stake_effect in Hs'.
  pose proof (vacant_slots _ _ _ (book_vacant _ _ _ Hb _ Hnew)) as (_ & Hz1 & Hz2).
  pose proof (balance_slot _ _ _ Hbal) as Hbs.
  assert (k ≠ K_Balance user ∧ k ≠ K_ActiveRound ∧ k ≠ K_RoundParticipants (round_id r) ∧
          (∀ u, k ≠ K_Position (round_id r) u) ∧
          (∀ u, u ≠ user -> k ≠ K_PrecisionPosition (round_id r) u ∧
                            k ≠ K_PrecisionCommitment (round_id r) u)) as (K1 & K2 & K3 & K4 & K5).
  { destruct Hk as [-> | ->]; repeat split; intros; key_ne. }
  unfold moved_stake. split_and!; try lia.
  - unfold active. by lchain.
  - apply (book_add s _ r); try done.
    + by lchain.
    + intros u Hu. destruct (K5 u Hu).
      repeat split; unfold pos_at, pred_at, com_at; by lchain.
    + by rewrite Hm.
    + rewrite side_stake_none by apply Hent. lia.
    + rewrite side_stake_none by apply Hent. lia.
  - rewrite Hbs. stack_slot. weights. done.
  - stack_total Hs'. rewrite (weight_valued k) by (by destruct Hk as [-> | ->]).
    assert (slot s k = 0) as -> by (by destruct Hk as [-> | ->]).
    weights. simpl. lia.
Qed.

(** C18: a successful Precision prediction appends the predictor to the book of
    the active round with the predicted price and the stake, takes the stake
    from the balance, and creates or destroys no value. *)
Theorem place_precision_keeps_book user amount price c s s' r ps :
  place_precision_prediction user amount price c s = (Ok (), s') -> active s r -> book s r ps ->
  active s' r ∧ book s' r (ps ++ [user]) ∧ user ∉ ps ∧ price ≤ 99999999 ∧
  pred_at s' (round_id r) user
    = Some (VPrediction {| pred_user := user; predicted_price := price; pred_amount := amount |}) ∧
  sequence c < bet_end_ledger r ∧ moved_stake s s' user amount.
Proof.
  intros E Hact Hb. wp_intro E. apply wp_place_precision.
  intros r0 bal o t Hact' Hbal Hps Hpred Hcom Hm Hopen Ha Hpr Hs'.
  apply (active_inj s r) in Hact' as ->; [|done].
  pose proof (book_participants _ _ _ _ Hb Hps) as <-.
  assert (user ∉ default [] o) as Hnew by (eapply unlisted; [done|by rewrite Hm]).
  destruct (book_vacant _ _ _ Hb _ Hnew) as (V1 & V2 & V3). unfold pos_at, com_at in V1, V3.
  pose proof Hs' as Hs''. unfold stake_effect in Hs''.
  eapply stake_effect_book in Hs' as (? & ? & ?); try done; [|by left|].
  - split_and!; try done. unfold pred_at. by lchain.
  - unfold entry, pos_at, pred_at, com_at. split; [by lchain|]. left. eexists.
    split_and!; [by lchain..|simpl; lia|done].
Qed.

(** A successful commitment appends the committer to the book of the
    active round with an unrevealed entry of the stake, takes the stake from
    the balance, and creates or destroys no value. *)
Theorem commit_keeps_book user hash amount c s s' r ps :
  commit_prediction user hash amount c s = (Ok (), s') -> active s r -> book s r ps ->
  active s' r ∧ book s' r (ps ++ [user]) ∧ user ∉ ps ∧
  com_at s' (round_id r) user
    = Some (VCommitment {| com_hash := hash; com_amount := amount; revealed := false |}) ∧
  sequence c < bet_end_ledger r ∧ moved_stake s s' user amount.
Proof.
  intros E Hact Hb. wp_intro E. apply wp_commit.
  intros r0 bal o t Hact' Hbal Hps Hpred Hcom Hm Hopen Ha Hz Hs'.
  apply (active_inj s r) in Hact' as ->; [|done].
  pose proof (book_participants _ _ _ _ Hb Hps) as <-.
  assert (user ∉ default [] o) as Hnew by (eapply unlisted; [done|by rewrite Hm]).
  destruct (book_vacant _ _ _ Hb _ Hnew) as (V1 & V2 & V3). unfold pos_at, pred_at in V1, V2.
  pose proof Hs' as Hs''. unfold stake_effect in Hs''.
  eapply stake_effect_book in Hs' as (? & ? & ?); try done; [|by right|].
  - split_and!; try done. unfold com_at. by lchain.
  - unfold entry, pos_at, pred_at, com_at. split; [by lchain|]. right. left. eexists.
    split_and!; [by lchain..|simpl; lia|done].
Qed.

(** The writes of a reveal keep the book. *)
Lemma reveal_book s s' r ps user price cm :
  book s r ps -> mode r = Precision ->
  persistent s !! K_PrecisionCommitment (round_id r) user = Some (VCommitment cm) ->
  revealed cm = false ->
  persistent s' =
    <[K_PrecisionPosition (round_id r) user :=
        VPrediction {| pred_user := user; predicted_price := price; pred_amount := com_amount cm |}]>
      (<[K_PrecisionCommitment (round_id r) user :=
           VCommitment {| com_hash := com_hash cm; com_amount := com_amount cm; revealed := true |}]>
         (persistent s)) ->
  persistent s !! K_PrecisionPosition (round_id r) user = None ∧ book s' r ps ∧
  total s' = total s.
Proof.
  intros Hb Hm Hcm Hrev Hs'.
  assert (user ∈ ps) as Hin.
  { apply dec_stable. intros Hno. destruct (book_vacant _ _ _ Hb _ Hno) as (_ & _ & V).
    unfold com_at in V. congruence. }
  pose proof (book_entry _ _ _ Hb _ Hin) as He. rewrite Hm in He.
  destruct He as [Hpos [(p & _ & V & _)|[(cm' & V & V' & Ha & _)|(p & cm' & _ & V & _ & _ & V')]]];
    unfold pos_at, pred_at, com_at in *; [congruence| |assert (cm' = cm) as -> by congruence; congruence].
  assert (cm' = cm) as -> by congruence. split_and!; [done| |].
  - apply (book_update s _ _ _ user); try done.
    + by lchain.
    + intros v Hv. repeat split; unfold pos_at, pred_at, com_at; by lchain.
    + unfold entry, pos_at, pred_at, com_at. split; [by lchain|]. right. right.
      eexists _, _. split_and!; [by lchain..|done|done|done].
  - apply slot_none in V as Hz. apply slot_found in Hcm as Hc; [|done]. simpl in Hc.
    rewrite Hrev in Hc. stack_money Hs'.
Qed.

(** C19: a successful reveal opens the stored commitment: the revealed price and
    salt hash to it, it happens after betting closes and before the round ends,
    the prediction gets the committed stake, the book keeps its participants and
    no value is created or destroyed; the same commitment cannot be revealed
    again. *)
Theorem reveal_keeps_book `{HostCrypto} user price salt c s s' r ps :
  reveal_prediction user price salt c s = (Ok (), s') -> active s r -> book s r ps ->
  ∃ cm, com_at s (round_id r) user = Some (VCommitment cm) ∧
    commitment_hash price salt = com_hash cm ∧ salt_has_minimum_entropy salt = true ∧
    bet_end_ledger r ≤ sequence c < end_ledger r ∧
    revealed cm = false ∧
    com_at s' (round_id r) user
      = Some (VCommitment {| com_hash := com_hash cm; com_amount := com_amount cm; revealed := true |}) ∧
    pred_at s' (round_id r) user
      = Some (VPrediction {| pred_user := user; predicted_price := price;
                             pred_amount := com_amount cm |}) ∧
    active s' r ∧ book s' r ps ∧ total s' = total s.
Proof.
  intros E Hact Hb. wp_intro E. apply wp_reveal.
  intros r0 cm t Hact' Hcm Hm Hwin Hrev Hhash Hsalt Hs'.
  apply (active_inj s r) in Hact' as ->; [|done].
  destruct (reveal_book _ _ _ _ _ _ _ Hb Hm Hcm Hrev Hs') as (V & Hb' & Ht).
  unfold com_at, pred_at. exists cm. split_and!; try done; try lia.
  - by lchain.
  - by lchain.
  - unfold active. by lchain.
Qed.

(** The writes of a cash-out take the user out of the book. *)
Lemma cash_book s s' r r' o user p :
  book s r (default [] o) -> mode r = UpDown ->
  persistent s !! K_Position (round_id r) user = Some (VPosition p) ->
  take_from_pool r (pos_side p) (pos_amount p) = Some r' ->
  persistent s' !! K_Position (round_id r) user = None ->
  persistent s' !! K_RoundParticipants (round_id r)
    = Some (VAddrs (filter (λ a, a ≠ user) (default [] o))) ->
  (∀ k, ¬ cashout_key (round_id r) user k -> k ≠ K_ActiveRound ->
        k ≠ K_Position (round_id r) user -> k ≠ K_RoundParticipants (round_id r) ->
        persistent s' !! k = persistent s !! k) ->
  user ∈ default [] o ∧ round_id r' = round_id r ∧ book s' r' (filter (λ v, v ≠ user) (default [] o)).
Proof.
  intros Hb Hm Hpos Htake Hpos2 Hps2 Hsame.
  assert (user ∈ default [] o) as Hin.
  { apply dec_stable. intros Hno. destruct (book_vacant _ _ _ Hb _ Hno) as (V & _).
    unfold pos_at in V. congruence. }
  pose proof (book_entry _ _ _ Hb _ Hin) as He. rewrite Hm in He. destruct He as (_ & V1 & V2).
  apply take_from_pool_inv in Htake. unfold cashout_key in Hsame.
  assert (∀ side, side_stake s (round_id r) user side
                  = if bool_decide (pos_side p = side) then pos_amount p else 0) as Hss.
  { intros side. unfold side_stake, pos_at. by rewrite Hpos. }
  split; [done|]. split; [rewrite Htake; by destruct (pos_side p)|].
  apply (book_remove s _ r); try done; try (rewrite Htake; by destruct (pos_side p)).
  - intros v Hv. repeat split; unfold pos_at, pred_at, com_at; apply Hsame; key_ne.
  - unfold vacant, pos_at, pred_at, com_at in *.
    split_and!; [done| |]; rewrite Hsame; try done; key_ne.
  - rewrite Hss, Htake. destruct (pos_side p); simpl; lia.
  - rewrite Hss, Htake. destruct (pos_side p); simpl; lia.
Qed.

(** C20: a successful early cash-out happens between the end of betting and the
    end of the round, at a stored penalty rate of at most the whole stake. It
    removes the participant and the stake from the book, takes the stake off the
    pool of the side it was on and leaves the other pool alone. The stake is split
    between the user and the protocol: the penalty (the rate of the stake, rounded
    down) goes to the treasury and the insurance fund, the rest to the user's
    pending winnings, and no value is created or destroyed. *)
Theorem cash_out_keeps_book user c s s' r ps :
  cash_out_early user c s = (Ok (), s') -> active s r -> book s r ps -> penalty_ok s ->
  ∃ r' p b, active s' r' ∧ round_id r' = round_id r ∧
    book s' r' (filter (λ v, v ≠ user) ps) ∧ user ∈ ps ∧
    pos_at s (round_id r) user = Some (VPosition p) ∧
    pool_up r' = pool_up r - (if pos_side p is Up then pos_amount p else 0) ∧
    pool_down r' = pool_down r - (if pos_side p is Down then pos_amount p else 0) ∧
    bet_end_ledger r ≤ sequence c < end_ledger r ∧ cashed_out user (pos_amount p) b s s'.
Proof.
  intros E Hact Hb Hw. wp_intro E. apply wp_cash_out; [done|].
  intros r0 r' p o b t Hact' Hpos Hps Hm Hwin Ha Htake Hco Hact2 Hpos2 Hps2 Hsame.
  apply (active_inj s r) in Hact' as ->; [|done].
  pose proof (book_participants _ _ _ _ Hb Hps) as <-.
  destruct (cash_book _ _ _ _ _ _ _ Hb Hm Hpos Htake Hpos2 Hps2 Hsame) as (Hin & Hid & Hb').
  apply take_from_pool_inv in Htake. exists r', p, b. split_and!; try done; try lia.
  all: rewrite Htake; destruct (pos_side p); simpl; lia.
Qed.

(** ** Opening a round *)

(** The identifier the last round got. *)
Definition last_round (s : State) (n : Z) : Prop :=
  ∃ o, persistent s !! K_LastRoundId = enc cU64 <$> o ∧ n = default 0 o.

(** The slots of the rounds still to come are empty. *)
Definition unopened (s : State) (rid : Z) : Prop :=
  persistent s !! K_RoundParticipants rid = None ∧ ∀ u, vacant s rid u.

Lemma book_empty s r :
  unopened s (round_id r) -> pool_up r = 0 -> pool_down r = 0 -> book s r [].
Proof.
  intros [Hl Hv] Hu Hd. split; try done.
  - by exists None.
  - apply NoDup_nil_2.
  - intros u Hin. by apply not_elem_of_nil in Hin.
Qed.

Lemma unopened_agree s s' rid : agree (round_key rid) s s' -> unopened s rid -> unopened s' rid.
Proof.
  intros H [Hl Hv]. split; [rewrite H; [done|by simpl]|].
  intros u. eapply vacant_same; [by apply agree_same|done].
Qed.

(** C27: [create_round] only opens a round when none is active and its ledger
    has started no round before; the new round has the next identifier and
    empty pools, its windows start at the current ledger, its book is empty
    when its slots are, and no value is created or destroyed. *)
Theorem create_round_opens start_price m c s s' n :
  create_round start_price m c s = (Ok (), s') -> last_round s n -> unopened s (n + 1) ->
  persistent s !! K_ActiveRound = None ∧
  persistent s !! K_RoundStartLedger (sequence c) = None ∧
  ∃ r, active s' r ∧ book s' r [] ∧ round_id r = n + 1 ∧ last_round s' (n + 1) ∧
    price_start r = start_price ∧ MIN_START_PRICE ≤ start_price ≤ MAX_START_PRICE ∧
    start_ledger r = sequence c ∧ end_ledger r ≤ U32_MAX ∧
    mode r = mode_of_u32 (default 0 m) ∧ default 0 m ≤ 1 ∧
    persistent s' !! K_RoundStartLedger (sequence c) = Some (VU64 (n + 1)) ∧
    total s' = total s.
Proof.
  intros E (o & Ho & ->) Hun. wp_intro E. apply wp_create_round.
  intros last bet run r t Hna Hfresh Hlast Hbet Hrun Hpr Hm Hid Hr Hend Hs'.
  assert (default 0 last = default 0 o) as Hlo
    by (rewrite Ho in Hlast; destruct o, last; simpl in *; congruence).
  rewrite Hlo in *. assert (round_id r = default 0 o + 1) as Hrid by by rewrite Hr.
  split; [done|]. split; [done|]. exists r. split_and!; try lia; try (by rewrite Hr).
  - unfold active. by lchain.
  - apply book_empty; [|by rewrite Hr..]. rewrite Hrid. apply (unopened_agree s); [|done].
    intros k Hk. rewrite Hs'. rewrite !lookup_insert_ne; [done|..]; intros <-; by simpl in Hk.
  - exists (Some (default 0 o + 1)). split; [|done]. lchain. by rewrite Hrid.
  - lchain. by rewrite Hrid.
  - stack_money Hs'.
Qed.

(** [mint_initial] credits an address at most once: an existing balance is
    returned unchanged, a fresh one becomes exactly the initial grant, the only
    value the contract ever creates. *)
Theorem mint_initial_once user c s b s' :
  mint_initial user c s = (Ok b, s') ->
  persistent s' !! K_Balance user = Some (VI128 b) ∧
  ((persistent s !! K_Balance user = Some (VI128 b) ∧ persistent s' = persistent s) ∨
   (persistent s !! K_Balance user = None ∧ b = INITIAL_AMOUNT ∧
    total s' = total s + INITIAL_AMOUNT)).
Proof.
  intros E. wp_intro E. apply wp_mint.
  - intros x t Hb Ht. rewrite Ht. auto.
  - intros t Hb Ht. split; [by lchain|]. right. split_and!; try done.
    apply slot_none in Hb. stack_money Ht.
Qed.
