(* ===== verification/Credits.v ===== *)
(** * Crediting pending winnings

    The effect every payout loop of the contract has, as a relation between
    states: [credited pay x s s'] when the pending winnings of each address [u]
    grew by [pay u], the value held in all grew by [x], and nothing but payout
    bookkeeping was written.  Loops over participants compose through it. *)

From S2P Require Export Book Leaderboard.

(** The slots a payout may write: pending winnings, fees, outcome records,
    history and leaderboards. *)
Definition payout_key (k : Key) : Prop :=
  history_key k ∨ lb_key k ∨
  match k with
  | KVec n [AAddr _] => n = "PendingWinnings"
  | KTup [AAddr _] => True
  | KVec n [] => n = "ProtocolFeeTreasury"
  | KSym n => n = "InsFundBal"
  | _ => False
  end.

Notation kept := (λ k, ¬ payout_key k).

Record credited (pay : Address -> Z) (x : Z) (s s' : State) : Prop := {
  cr_total : total s' = total s + x;
  cr_pending u : slot s' (K_PendingWinnings u) = slot s (K_PendingWinnings u) + pay u;
  cr_kept : agree kept s s' }.

Definition nobody (u : Address) : Z := 0.
(** [x] for [u] alone, and [f] for everyone on a list. *)
Definition only (u : Address) (x : Z) (v : Address) : Z := if bool_decide (u = v) then x else 0.
Definition each {A} (addr : A -> Address) (f : A -> Z) (l : list A) (v : Address) : Z :=
  zsum (λ a, only (addr a) (f a) v) l.

Lemma credited_refl s s' : persistent s' = persistent s -> credited nobody 0 s s'.
Proof.
  intros H. split; [rewrite (total_same s s'); [lia|done]| |].
  - intros u. rewrite (slot_same s s') by done. unfold nobody. lia.
  - intros k _. by rewrite H.
Qed.

Lemma credited_trans p q x y s1 s2 s3 :
  credited p x s1 s2 -> credited q y s2 s3 -> credited (λ u, p u + q u) (x + y) s1 s3.
Proof.
  intros [T1 P1 K1] [T2 P2 K2]. split; [lia| |by etrans].
  intros u. rewrite P2, P1. lia.
Qed.

Lemma credited_ext p q x y s s' :
  credited p x s s' -> (∀ u, p u = q u) -> x = y -> credited q y s s'.
Proof. intros [T P K] Hpq <-. split; [done| |done]. intros u. by rewrite P, Hpq. Qed.

Lemma each_app {A} (addr : A -> Address) f l1 l2 v :
  each addr f (l1 ++ l2) v = each addr f l1 v + each addr f l2 v.
Proof. apply zsum_app. Qed.

(** Over a duplicate-free list everyone listed gets their own share. *)
Lemma each_nodup f l v : NoDup l -> each id f l v = if bool_decide (v ∈ l) then f v else 0.
Proof.
  unfold each. induction l as [|a l IH]; intros Hn; cbn [zsum]; [done|].
  apply NoDup_cons in Hn as [Ha Hn]. rewrite IH by done. unfold only, id.
  destruct (decide (a = v)) as [->|Hne].
  - rewrite bool_decide_true by done. rewrite bool_decide_false by done.
    rewrite bool_decide_true by set_solver. lia.
  - rewrite (bool_decide_false (a = v)) by done.
    assert (v ∈ a :: l <-> v ∈ l) as Hiff by set_solver.
    rewrite (bool_decide_ext _ _ Hiff). lia.
Qed.

Lemma round_key_kept rid k : round_key rid k -> kept k.
Proof.
  unfold payout_key. destruct k as [n [|[] [|[] [|]]]| | |]; simpl; try done; try tauto.
  - intros [_ ->]. naive_solver.
  - intros [_ H]. naive_solver.
Qed.

Lemma credited_book p x s s' r ps : credited p x s s' -> book s r ps -> book s' r ps.
Proof.
  intros [_ _ K] Hb. apply (book_agree s); [|done]. intros k Hk. apply K.
  by eapply round_key_kept.
Qed.

(** ** The payout operations credit *)

Lemma wp_accumulate_credits u a (Q : () -> State -> Prop) c s :
  (∀ s', credited (only u a) a s s' -> Q () s') -> wp (_accumulate_pending u a) Q c s.
Proof.
  intros H. apply wp_accumulate. intros s' Ht Hk Hp. apply H. split; [done| |].
  - intros v. unfold only. case_bool_decide as Huv; [by subst|].
    rewrite (slot_eq s s'); [lia|]. apply Hk; key_ne.
  - intros k Hk'. apply Hk; intros ->; apply Hk'; right; right; by simpl.
Qed.

Lemma wp_kept_credits {A} (m : M A) (Q : A -> State -> Prop) c s :
  frame (λ k, valued k = true ∨ ¬ payout_key k) m ->
  (∀ a s', credited nobody 0 s s' -> Q a s') -> wp m Q c s.
Proof.
  intros Hf H. eapply wp_frame; [exact Hf|]. intros a s' Ha. apply H. split.
  - rewrite (agree_total _ _ _ (λ k Hk, or_introl Hk) Ha). lia.
  - intros u. rewrite (slot_agree _ _ _ _ Ha) by (by left). unfold nobody. lia.
  - intros k Hk. apply Ha. by right.
Qed.

Lemma history_unvalued k : history_key k -> valued k = false.
Proof.
  destruct k as [n [|[] [|[] [|]]]| | |]; simpl; try done; intros; destruct_or?; by subst.
Qed.
Lemma lb_unvalued k : lb_key k -> valued k = false.
Proof. destruct k as [n [|[] [|[] [|]]]| | |]; simpl; try done; intros; by subst. Qed.

Lemma wp_persist_credits rid m u a b st p o (Q : () -> State -> Prop) c s :
  (∀ s', credited nobody 0 s s' -> Q () s') ->
  wp (_persist_user_outcome rid m u a b st p o) Q c s.
Proof.
  intros H. apply wp_kept_credits; [|by intros []]. apply frame_persist.
  intros k Hk [Hv|Hn]; [by rewrite history_unvalued in Hv|]. apply Hn. by left.
Qed.

Lemma stats_frame k : lb_key k -> ¬ (valued k = true ∨ ¬ payout_key k).
Proof. intros Hk [Hv|Hn]; [by rewrite lb_unvalued in Hv|]. apply Hn. right. by left. Qed.

Lemma wp_stats_win_credits u (Q : () -> State -> Prop) c s :
  (∀ s', credited nobody 0 s s' -> Q () s') -> wp (_update_stats_win u) Q c s.
Proof.
  intros H. apply wp_kept_credits; [|by intros []]. apply frame_stats_win, stats_frame.
Qed.
Lemma wp_stats_loss_credits u (Q : () -> State -> Prop) c s :
  (∀ s', credited nobody 0 s s' -> Q () s') -> wp (_update_stats_loss u) Q c s.
Proof.
  intros H. apply wp_kept_credits; [|by intros []]. apply frame_stats_loss, stats_frame.
Qed.
Lemma wp_emit_credits t1 t2 vs (Q : () -> State -> Prop) c s :
  (∀ s', credited nobody 0 s s' -> Q () s') -> wp (emit t1 t2 vs) Q c s.
Proof. intros H. apply wp_emit. intros s' Hs'. by apply H, credited_refl. Qed.

(** A loop whose body credits each element's address with its share. *)
(** The same, with a fact [P] each visit establishes. *)
Lemma wp_mfor_credits_and {A} (P : A -> Prop) (addr : A -> Address) (f : A -> Z) (l : list A) body
    (Q : () -> State -> Prop) c s :
  (∀ x s1, x ∈ l -> agree kept s s1 ->
     wp (body x) (λ _ s2, P x ∧ credited (only (addr x) (f x)) (f x) s1 s2) c s1) ->
  (∀ s', (∀ x, x ∈ l -> P x) -> credited (each addr f l) (zsum f l) s s' -> Q () s') ->
  wp (mfor l body) Q c s.
Proof.
  intros Hbody HQ.
  apply (wp_mfor (λ pre s1, (∀ x, x ∈ pre -> P x) ∧ credited (each addr f pre) (zsum f pre) s s1)).
  - split; [by intros x ?%not_elem_of_nil|]. eapply credited_ext; [by apply credited_refl|done|done].
  - intros pre x post s1 -> [HP Hpre]. eapply wp_mono; [apply Hbody; [set_solver|apply Hpre]|].
    intros ? s2 [Hx Hc]. cbv beta. split; [set_solver|].
    eapply credited_ext; [exact (credited_trans _ _ _ _ _ _ _ Hpre Hc)| |].
    + intros u. rewrite each_app. unfold each. simpl. lia.
    + rewrite zsum_app. simpl. lia.
  - intros s' [HP Hc]. by apply HQ.
Qed.

Lemma wp_mfor_credits {A} (addr : A -> Address) (f : A -> Z) (l : list A) body
    (Q : () -> State -> Prop) c s :
  (∀ x s1, x ∈ l -> agree kept s s1 ->
     wp (body x) (λ _ s2, credited (only (addr x) (f x)) (f x) s1 s2) c s1) ->
  (∀ s', credited (each addr f l) (zsum f l) s s' -> Q () s') ->
  wp (mfor l body) Q c s.
Proof.
  intros Hbody HQ. apply (wp_mfor_credits_and (λ _, True) addr f); [|auto].
  intros x s1 Hx Ha. eapply wp_mono; [by apply Hbody|]. done.
Qed.
