(* ===== verification/Claims.v ===== *)
(** * Claims

    contracts/src/settlement.rs: moving pending winnings to the balance, for one
    user and for a batch. *)

From S2P Require Export Book.

(** The part of a claim shared by [claim_winnings] and the loop of [claim_many]. *)
Definition claim_pending (user : Address) : M Z :=
  let key := K_PendingWinnings user in
  pending ← pget_or cI128 key 0;
  if pending =? 0 then mret 0 else
  current_balance ← balance user;
  new_balance ← lift (payout_add current_balance pending);
  premove key ;;
  premove (K_PendingWinningsUpdatedAt user) ;;
  _set_balance user new_balance ;;
  emit "claim" "winnings" [VAddr user; VI128 pending; VI128 current_balance; VI128 new_balance] ;;
  mret pending.

Definition claim_winnings (user : Address) : M Z :=
  _require_supported_schema ;;
  require_auth user ;;
  _ensure_not_paused ;;
  claim_pending user.

(** [sorted.get(i) == sorted.get(i - 1)] for some [i]. *)
Fixpoint adjacent_equal (l : list Address) : bool :=
  match l with
  | x :: ((y :: _) as rest) => bool_decide (x = y) || adjacent_equal rest
  | _ => false
  end.

Definition claim_one (amounts : list Z) (user : Address) : M (list Z) :=
  require_auth user ;;
  amount ← claim_pending user;
  mret (amounts ++ [amount]).

Definition claim_many (users : list Address) : M (list Z) :=
  _require_supported_schema ;;
  _ensure_not_paused ;;
  reject_if (Z.of_nat (length users) >? MAX_CLAIM_BATCH_SIZE) ClaimBatchTooLarge ;;
  reject_if (adjacent_equal (sort_addresses users)) DuplicateClaimAddress ;;
  mfold users [] claim_one.

(** ** Specifications *)

(** What claiming does for [user]: the pending winnings become balance. *)
Record claimed (user : Address) (amount : Z) (s s' : State) : Prop := {
  cl_amount : amount = slot s (K_PendingWinnings user);
  cl_pending : persistent s' !! K_PendingWinnings user = None ∨ amount = 0;
  cl_slot : slot s' (K_PendingWinnings user) = 0;
  cl_balance : slot s' (K_Balance user) = slot s (K_Balance user) + amount;
  cl_total : total s' = total s;
  cl_others k : k ≠ K_PendingWinnings user -> k ≠ K_PendingWinningsUpdatedAt user ->
                k ≠ K_Balance user -> persistent s' !! k = persistent s !! k }.

Lemma wp_claim_pending user (Q : Z -> State -> Prop) c s :
  (∀ a s', claimed user a s s' -> Q a s') -> wp (claim_pending user) Q c s.
Proof.
  intros H. unfold claim_pending. wp_step. wp_step.
  pose proof (slot_i128 s (K_PendingWinnings user) o eq_refl H0) as Hslot.
  destruct (_ =? 0) eqn:Hz; zbool.
  - wp_step. apply H. split; try done; try lia; by right.
  - wp_step. apply wp_balance. intros s1 b Hs1 Hb. pose proof (balance_slot _ _ _ Hb) as Hbs.
    wp_step. wp_step. apply payout_add_Ok in H1 as [-> _]. do 4 wp_step.
    wp_step. apply wp_set_balance. intros s4 Hs4. do 2 wp_step. wp_step. apply H. split.
    + done.
    + left. by lchain.
    + apply slot_none. by lchain.
    + rewrite Hbs. stack_slot. weights. simpl. lia.
    + money.
    + intros k ???. by lchain.
Qed.

(** The slots of the other users are untouched. *)
Lemma claimed_pending user a s s' u :
  claimed user a s s' ->
  slot s' (K_PendingWinnings u) = if bool_decide (u = user) then 0 else slot s (K_PendingWinnings u).
Proof.
  intros [_ _ Hp _ _ Ho]. case_bool_decide as Hu; [by subst|]. apply slot_eq, Ho; key_ne.
Qed.
Lemma claimed_balance user a s s' u :
  claimed user a s s' ->
  slot s' (K_Balance u) = slot s (K_Balance u)
    + if bool_decide (u = user) then slot s (K_PendingWinnings user) else 0.
Proof.
  intros [Ha _ _ Hb _ Ho]. case_bool_decide as Hu; [subst; lia|].
  rewrite (slot_eq s s'); [lia|]. apply Ho; key_ne.
Qed.

Lemma adjacent_equal_nodup l : Sorted N.le l -> adjacent_equal l = false -> NoDup l.
Proof.
  intros HS. apply Sorted_StronglySorted in HS; [|intros x y z; lia].
  induction HS as [|x l HS IH Hall]; intros H; [constructor|].
  destruct l as [|y l]; [apply NoDup_singleton|]. cbn [adjacent_equal] in H.
  apply orb_false_iff in H as [Hxy%bool_decide_eq_false H]. constructor; [|by apply IH].
  intros Hin. inversion HS as [|? ? HS' Hy]. inversion Hall as [|? ? Hxy' _]. subst.
  apply elem_of_cons in Hin as [->|Hin]; [done|].
  rewrite Forall_forall in Hy. specialize (Hy x Hin). lia.
Qed.

(** Every user of [done] has been claimed for, nobody else touched. *)
Record claimed_all (done : list Address) (amounts : list Z) (s s' : State) : Prop := {
  ca_amounts : amounts = (λ u, slot s (K_PendingWinnings u)) <$> done;
  ca_pending u : slot s' (K_PendingWinnings u)
                 = if bool_decide (u ∈ done) then 0 else slot s (K_PendingWinnings u);
  ca_balance u : slot s' (K_Balance u)
                 = slot s (K_Balance u)
                   + if bool_decide (u ∈ done) then slot s (K_PendingWinnings u) else 0;
  ca_total : total s' = total s }.

Lemma claimed_all_step pre user amounts a s s1 s2 :
  user ∉ pre -> claimed_all pre amounts s s1 -> claimed user a s1 s2 ->
  claimed_all (pre ++ [user]) (amounts ++ [a]) s s2.
Proof.
  intros Hnew [Ha Hp Hb Ht] Hc. pose proof Hc as [Ha' _ _ _ Ht' _].
  assert (∀ u, u ∈ pre ++ [user] <-> u ∈ pre ∨ u = user) as Hin by set_solver.
  split.
  - rewrite fmap_app, Ha, Ha', Hp. simpl. by rewrite bool_decide_false.
  - intros u. rewrite (claimed_pending _ _ _ _ _ Hc), Hp, (bool_decide_ext _ _ (Hin u)).
    destruct (decide (u = user)) as [->|].
    + by rewrite !bool_decide_true by auto.
    + rewrite (bool_decide_false (u = user)) by done.
      destruct (decide (u ∈ pre)); [by rewrite !bool_decide_true by tauto|].
      by rewrite !bool_decide_false by tauto.
  - intros u. rewrite (claimed_balance _ _ _ _ _ Hc), Hb, Hp, (bool_decide_ext _ _ (Hin u)).
    rewrite (bool_decide_false (user ∈ pre)) by done.
    destruct (decide (u = user)) as [->|].
    + rewrite (bool_decide_false (user ∈ pre)) by done. rewrite !bool_decide_true by auto. lia.
    + rewrite (bool_decide_false (u = user)) by done.
      destruct (decide (u ∈ pre)); [rewrite !bool_decide_true by tauto; lia|].
      rewrite !bool_decide_false by tauto. lia.
  - lia.
Qed.

Lemma wp_claim_winnings user (Q : Z -> State -> Prop) c s :
  (∀ a s', authorised c user = true -> claimed user a s s' -> Q a s') ->
  wp (claim_winnings user) Q c s.
Proof.
  intros H. unfold claim_winnings. wp_ro. wp_step; wp_step. wp_ro.
  assert (persistent s'0 = persistent s) as Heq by congruence.
  apply wp_claim_pending. intros b t [Ha Hp Hs Hb Ht Ho]. apply H; [done|].
  rewrite (slot_same s s'0) in Ha, Hb by done. rewrite (total_same s s'0) in Ht by done.
  rewrite Heq in Ho. by split.
Qed.

(** A successful claim needs the user's authorization, returns exactly the
    pending winnings of the user, empties them, adds them to the balance, and
    touches nothing else; claiming again returns zero. *)
Theorem claim_winnings_correct user c s a s' :
  claim_winnings user c s = (Ok a, s') ->
  authorised c user = true ∧ claimed user a s s' ∧
  ∀ a' s'', claim_winnings user c s' = (Ok a', s'') -> a' = 0.
Proof.
  intros E. wp_intro E. apply wp_claim_winnings. intros b t Hau Hc.
  split; [done|]. split; [done|]. intros a' s'' E2. wp_intro E2. apply wp_claim_winnings.
  intros b2 t2 _ [Ha2 _ _ _ _ _]. rewrite Ha2. apply Hc.
Qed.

(** C21: a successful batch claim lists no address twice and is the pointwise
    claim: each listed user's pending winnings become balance, the returned
    amounts are those pending winnings in order, nobody else is touched, and no
    value is created or destroyed. *)
Theorem claim_many_correct users c s amounts s' :
  claim_many users c s = (Ok amounts, s') ->
  NoDup users ∧ (length users ≤ 50)%nat ∧ claimed_all users amounts s s' ∧
  (∀ u, u ∈ users -> authorised c u = true).
Proof.
  intros E. wp_intro E. unfold claim_many. wp_ro. wp_ro. do 4 wp_step. zbool.
  assert (NoDup users) as Hnd.
  { rewrite <-(sort_addresses_perm users).
    by apply adjacent_equal_nodup; [apply sort_addresses_sorted|]. }
  apply (wp_mfold (λ pre am t, claimed_all pre am s t ∧ ∀ u, u ∈ pre -> authorised c u = true)).
  - split; [|by intros u ?%not_elem_of_nil]. 
    split; try done; intros; rewrite ?bool_decide_false by apply not_elem_of_nil.
    + apply slot_same. congruence.
    + rewrite (slot_same s) by congruence. lia.
    + apply total_same. congruence.
  - intros pre u post am t Hl [Hall Hauth]. unfold claim_one. wp_step. wp_step. wp_step.
    apply wp_claim_pending. intros a1 t1 Hc. wp_step. split.
    + eapply claimed_all_step; [|done..]. rewrite Hl in Hnd.
      apply NoDup_app in Hnd as (_ & Hd & _). intros Hu. apply (Hd u Hu). set_solver.
    + intros v [Hv|Hv%list_elem_of_singleton]%elem_of_app; [auto|by subst].
  - intros am t [Hall Hauth]. split_and!; try done. unfold MAX_CLAIM_BATCH_SIZE in *. lia.
Qed.
