(* ===== verification/Payouts.v ===== *)
(** * Payouts of a settled round

    The payout half of contracts/src/settlement.rs: refunds and winnings of an
    UpDown round, the one-sided policy, and the Precision settlement with its
    winner scan.  Built without the legacy-map-settlement feature. *)

From S2P Require Export BettingFacts Leaderboard.

(** ** UpDown *)

Definition refund_position (round_id round_mode : Z) (kind : UserOutcomeType) (user : Address) : M () :=
  position ← pget cPosition (K_Position round_id user);
  match position with
  | Some position =>
      _accumulate_pending user (pos_amount position) ;;
      _persist_user_outcome round_id round_mode user (side_u32 (pos_side position)) 0
        (pos_amount position) (pos_amount position) kind
  | None => mret ()
  end.

Definition _record_refunds_indexed (round_id round_mode : Z) (participants : list Address) : M () :=
  mfor participants (refund_position round_id round_mode OutRefund).

Definition pay_position (round_id : Z) (winning_side : BetSide)
    (original_winning_pool total_distributable : Z) (user : Address) : M () :=
  position ← pget cPosition (K_Position round_id user);
  match position with
  | None => mret ()
  | Some position =>
      if bool_decide (pos_side position = winning_side) then
        payout ← lift (compute_updown_winner_payout (pos_amount position)
                         original_winning_pool total_distributable);
        _accumulate_pending user payout ;;
        _update_stats_win user ;;
        _persist_user_outcome round_id 0 user (side_u32 (pos_side position)) 0
          (pos_amount position) payout OutWin
      else
        emit "outcome" "loss"
          [VAddr user; VU64 round_id; VU32 0; VI128 (pos_amount position);
           VU32 (side_u32 (pos_side position)); VU128 0] ;;
        _update_stats_loss user ;;
        _persist_user_outcome round_id 0 user (side_u32 (pos_side position)) 0
          (pos_amount position) 0 OutLoss
  end.

Definition _record_winnings_indexed (round_id : Z) (participants : list Address)
    (winning_side : BetSide) (winning_pool losing_pool : Z) : M Z :=
  if winning_pool =? 0 then mret 0 else
  f ← _apply_protocol_fee_updown round_id winning_pool losing_pool;
  let '(dist_winning, dist_losing, fee_amount) := f in
  total_distributable ← lift (payout_add dist_winning dist_losing);
  mfor participants (pay_position round_id winning_side winning_pool total_distributable) ;;
  mret fee_amount.

Definition _select_one_sided_policy (round : Round) : OneSidedPolicy := PolRefund.

Definition _apply_one_sided_policy (round : Round) (policy : OneSidedPolicy)
    (participants : list Address) : M Z :=
  let affected_side := if pool_up round >? 0 then 0 else if pool_down round >? 0 then 1 else 2 in
  (if bool_decide (participants = []) then mret ()
   else _record_refunds_indexed (round_id round) 0 participants) ;;
  let pot := i128_saturating_add (pool_up round) (pool_down round) in
  let '(refund_amount, carry_amount) :=
    match policy with
    | PolRefund | PolVoid => (pot, 0)
    | PolCarryForward => (0, pot)
    end in
  emit "pool" "onesided"
    [VU64 (round_id round); VU32 (OneSidedPolicy_u32 policy); VU32 affected_side;
     VI128 refund_amount; VI128 carry_amount; VI128 (pool_up round); VI128 (pool_down round)] ;;
  mret 0.

Definition _resolve_updown_mode (round : Round) (final_price : Z) : M (bool * Z) :=
  raw_participants ← pget_or cAddrs (K_RoundParticipants (round_id round)) [];
  let participants := sort_addresses raw_participants in
  let direction := classify_price_direction (price_start round) final_price in
  let is_one_sided := is_one_sided_pool (pool_up round) (pool_down round) in
  fee_amount ←
    (if is_one_sided then
       let policy := _select_one_sided_policy round in
       (if bool_decide (participants = []) then
          _ ← pget cPositionMap K_UpDownPositions; mret ()
        else mret ()) ;;
       _apply_one_sided_policy round policy participants
     else if bool_decide (participants = []) then mret 0
     else match direction with
          | Unchanged => _record_refunds_indexed (round_id round) 0 participants ;; mret 0
          | DirUp => _record_winnings_indexed (round_id round) participants Up
                       (pool_up round) (pool_down round)
          | DirDown => _record_winnings_indexed (round_id round) participants Down
                         (pool_down round) (pool_up round)
          end);
  mret (is_one_sided, fee_amount).

(** ** Precision *)

(** [payouts.push_back(p); total_paid = payout_add(total_paid, p)?] *)
Definition push_payout (acc : list Z * Z) (p : Z) : outcome (list Z * Z) :=
  let '(payouts, total_paid) := acc in
  total' ← payout_add total_paid p;
  Ok (payouts ++ [p], total').

Definition policy_payouts (policy : PrecisionPayoutPolicy) (winners : list PrecisionPrediction)
    (payout_pool : Z) : outcome (list Z * Z) :=
  match policy with
  | Equal =>
      let winner_count := Z.of_nat (length winners) in
      if winner_count >? 0 then
        payout_per_winner ← i128_div payout_pool winner_count;
        ofold winners ([], 0) (λ acc _, push_payout acc payout_per_winner)
      else Ok ([], 0)
  | StakeWeighted =>
      total_winner_stakes ← ofold winners 0 (λ acc w, payout_add acc (pred_amount w));
      if total_winner_stakes >? 0 then
        ofold winners ([], 0) (λ acc w,
          product ← payout_mul (pred_amount w) payout_pool;
          payout ← i128_div product total_winner_stakes;
          push_payout acc payout)
      else Ok (replicate (length winners) 0, 0)
  end.

Definition add_remainder (payouts : list Z) (remainder : Z) : outcome (list Z) :=
  match payouts with
  | [] => Ok []
  | base :: rest => payout_0 ← payout_add base remainder; Ok (payout_0 :: rest)
  end.

Definition _calculate_precision_payouts (winners : list PrecisionPrediction) (payout_pool : Z)
    : M (list Z) :=
  policy ← _read_precision_payout_policy;
  '(payouts, total_paid) ← lift (policy_payouts policy winners payout_pool);
  remainder ← ok_or (i128_checked_sub payout_pool total_paid) PayoutOverflow;
  lift (add_remainder payouts remainder).

(** The locals of the scan over the participants. *)
Record Scan := {
  sc_min_diff : option Z;
  sc_winners : list PrecisionPrediction;
  sc_total_pot : Z;
  sc_participant_amounts : list Z;
  sc_participant_prices : list Z;
  sc_participant_revealed : list bool;
  sc_is_winner_mask : list bool }.

Definition start_scan : Scan :=
  {| sc_min_diff := None; sc_winners := []; sc_total_pot := 0; sc_participant_amounts := [];
     sc_participant_prices := []; sc_participant_revealed := []; sc_is_winner_mask := [] |}.

Definition price_diff (predicted final : Z) : option Z :=
  if predicted >=? final then u128_checked_sub predicted final else u128_checked_sub final predicted.

(** What the [match min_diff] of the scan makes of the prediction at [idx]. *)
Definition rank_prediction (pred : PrecisionPrediction) (diff : Z) (idx : nat)
    (best : option Z) (ws : list PrecisionPrediction) (mask : list bool)
    : option Z * list PrecisionPrediction * list bool :=
  match best with
  | None => (Some diff, ws ++ [pred], <[idx := true]> mask)
  | Some current_min =>
      if diff <? current_min then
        (Some diff, [pred], <[idx := true]> (replicate idx false ++ drop idx mask))
      else if diff =? current_min then (best, ws ++ [pred], <[idx := true]> mask)
      else (best, ws, mask)
  end.

Definition scan_participant (round_id final_price : Z) (st : Scan) (user : Address) : M Scan :=
  pred_opt ← pget cPrediction (K_PrecisionPosition round_id user);
  commitment_opt ← pget cCommitment (K_PrecisionCommitment round_id user);
  let amount := precision_amount pred_opt commitment_opt in
  let cached_price := from_option predicted_price 0 pred_opt in
  let idx := length (sc_is_winner_mask st) in
  pot ← lift (payout_add (sc_total_pot st) amount);
  let mask := sc_is_winner_mask st ++ [false] in
  r ← match pred_opt with
      | Some pred =>
          diff ← ok_or (price_diff (predicted_price pred) final_price) Overflow;
          mret (rank_prediction pred diff idx (sc_min_diff st) (sc_winners st) mask)
      | None => mret (sc_min_diff st, sc_winners st, mask)
      end;
  let '(best, ws, mask) := r in
  mret {| sc_min_diff := best; sc_winners := ws; sc_total_pot := pot;
          sc_participant_amounts := sc_participant_amounts st ++ [amount];
          sc_participant_prices := sc_participant_prices st ++ [cached_price];
          sc_participant_revealed := sc_participant_revealed st ++ [bool_decide (is_Some pred_opt)];
          sc_is_winner_mask := mask |}.

(** The loops after the scan; [skip_payout] is false at every call. *)
Definition pay_winner (round_id : Z) (skip_payout : bool) (w : PrecisionPrediction * Z) : M () :=
  let '(winner, payout) := w in
  (if skip_payout then mret ()
   else _accumulate_pending (pred_user winner) payout ;; _update_stats_win (pred_user winner)) ;;
  _persist_user_outcome round_id 1 (pred_user winner) 2 (predicted_price winner)
    (pred_amount winner) payout OutWin.

Definition record_loser (round_id : Z) (st : Scan) (iu : nat * Address) : M () :=
  let '(idx, user) := iu in
  if default false (sc_is_winner_mask st !! idx) then mret () else
  stake ← or_trap (sc_participant_amounts st !! idx);
  predicted ← or_trap (sc_participant_prices st !! idx);
  revealed ← or_trap (sc_participant_revealed st !! idx);
  (if (revealed : bool) then mret ()
   else emit "forfeit" "predict" [VAddr user; VU64 round_id; VI128 stake]) ;;
  emit "outcome" "loss" [VAddr user; VU64 round_id; VU32 1; VI128 stake; VU32 0; VU128 predicted] ;;
  _update_stats_loss user ;;
  _persist_user_outcome round_id 1 user 2 predicted stake 0 OutLoss.

Definition refund_unrevealed (round_id : Z) (st : Scan) (iu : nat * Address) : M () :=
  let '(idx, user) := iu in
  let stake := default 0 (sc_participant_amounts st !! idx) in
  if stake >? 0 then
    _accumulate_pending user stake ;;
    _persist_user_outcome round_id 1 user 2 0 stake stake OutRefund
  else mret ().

Definition _resolve_precision_mode (round_id final_price : Z) (skip_payout : bool) : M (Z * Z) :=
  raw ← pget_or cAddrs (K_RoundParticipants round_id) [];
  let participants := sort_addresses raw in
  if bool_decide (participants = []) then mret (0, 0) else
  st ← mfold participants start_scan (scan_participant round_id final_price);
  if negb (bool_decide (sc_winners st = [])) && (sc_total_pot st >? 0) then
    winner_stakes ← lift (ofold (sc_winners st) 0 (λ acc w, payout_add acc (pred_amount w)));
    f ← _apply_protocol_fee_precision round_id (sc_total_pot st) winner_stakes;
    let '(payout_pool, fee_amount) := f in
    payouts ← _calculate_precision_payouts (sc_winners st) payout_pool;
    mfor (imap (λ i w, (w, default 0 (payouts !! i))) (sc_winners st)) (pay_winner round_id skip_payout) ;;
    mfor (imap pair participants) (record_loser round_id st) ;;
    mret (fee_amount, sc_total_pot st)
  else if sc_total_pot st >? 0 then
    mfor (imap pair participants) (refund_unrevealed round_id st) ;;
    mret (0, sc_total_pot st)
  else mret (0, sc_total_pot st).
