(* ===== verification/Queries.v ===== *)
(** * Read-only queries

    contracts/src/queries.rs: the active round and its pool, the archive, a
    user's statistics and stakes, paged and cursor-paged listings, and the
    payout preview.  A query may extend the life time of the entries it reads;
    it writes no value. *)

From S2P Require Export Payouts.

(** ** The active round *)

Definition get_active_round : M (option Round) := pget cRound K_ActiveRound.

(** contract.rs *)
Definition get_one_sided_policy : M OneSidedPolicy :=
  active_round ← pget cRound K_ActiveRound;
  mret (match active_round with
        | Some round => _select_one_sided_policy round
        | None => PolRefund
        end).

Definition round_participants (round : Round) : M (list Address) :=
  pget_or cAddrs (K_RoundParticipants (round_id round)) [].

(** [((pool as u128).saturating_mul(BPS) / total as u128) as u32] *)
Definition stake_ratio_bps (pool total_stake : Z) : Z :=
  as_u32 (u128_saturating_mul (as_u128 pool) BPS_DENOMINATOR / as_u128 total_stake).

Definition count_side (rid : Z) (acc : Z * Z) (user : Address) : M (Z * Z) :=
  let '(ups, downs) := acc in
  position ← pget cPosition (K_Position rid user);
  match position with
  | None => mret acc
  | Some p =>
      match pos_side p with
      | Up => ups ← or_trap (u32_checked_add ups 1); mret (ups, downs)
      | Down => downs ← or_trap (u32_checked_add downs 1); mret (ups, downs)
      end
  end.

Definition updown_pool_stats (round : Round) (participants : list Address) : M RoundPoolStats :=
  counts ← mfold participants (0, 0) (count_side (round_id round));
  let total_stake := default 0 (i128_checked_add (pool_up round) (pool_down round)) in
  mret {| st_round_id := round_id round; st_mode := mode round;
          total_up_stake := pool_up round; total_down_stake := pool_down round;
          up_participant_count := counts.1; down_participant_count := counts.2;
          up_stake_ratio_bps :=
            if total_stake >? 0 then stake_ratio_bps (pool_up round) total_stake else 0;
          down_stake_ratio_bps :=
            if total_stake >? 0 then stake_ratio_bps (pool_down round) total_stake else 0;
          precision_total_stake := 0; precision_participant_count := 0;
          precision_prediction_count := 0; precision_commitment_count := 0;
          precision_revealed_count := 0 |}.

(** The counters of the Precision loop. *)
Record PrecisionCounts := {
  pc_total_stake : Z; pc_predictions : Z; pc_commitments : Z; pc_revealed : Z }.

Definition count_precision (rid : Z) (acc : PrecisionCounts) (user : Address) : M PrecisionCounts :=
  prediction ← pget cPrediction (K_PrecisionPosition rid user);
  match prediction with
  | Some prediction =>
      n ← or_trap (u32_checked_add (pc_predictions acc) 1);
      total ← or_trap (i128_checked_add (pc_total_stake acc) (pred_amount prediction));
      mret {| pc_total_stake := total; pc_predictions := n;
              pc_commitments := pc_commitments acc; pc_revealed := pc_revealed acc |}
  | None =>
      commitment ← pget cCommitment (K_PrecisionCommitment rid user);
      match commitment with
      | None => mret acc
      | Some commitment =>
          n ← or_trap (u32_checked_add (pc_commitments acc) 1);
          total ← or_trap (i128_checked_add (pc_total_stake acc) (com_amount commitment));
          r ← (if revealed commitment then or_trap (u32_checked_add (pc_revealed acc) 1)
               else mret (pc_revealed acc));
          mret {| pc_total_stake := total; pc_predictions := pc_predictions acc;
                  pc_commitments := n; pc_revealed := r |}
      end
  end.

Definition precision_pool_stats (round : Round) (participants : list Address) : M RoundPoolStats :=
  counts ← mfold participants
    {| pc_total_stake := 0; pc_predictions := 0; pc_commitments := 0; pc_revealed := 0 |}
    (count_precision (round_id round));
  mret {| st_round_id := round_id round; st_mode := mode round;
          total_up_stake := 0; total_down_stake := 0; up_participant_count := 0;
          down_participant_count := 0; up_stake_ratio_bps := 0; down_stake_ratio_bps := 0;
          precision_total_stake := pc_total_stake counts;
          precision_participant_count := Z.of_nat (length participants);
          precision_prediction_count := pc_predictions counts;
          precision_commitment_count := pc_commitments counts;
          precision_revealed_count := pc_revealed counts |}.

Definition get_round_pool_stats : M (option RoundPoolStats) :=
  round ← pget cRound K_ActiveRound;
  match round with
  | None => mret None
  | Some round =>
      participants ← round_participants round;
      stats ← match mode round with
              | UpDown => updown_pool_stats round participants
              | Precision => precision_pool_stats round participants
              end;
      mret (Some stats)
  end.

Definition get_round_phase : M RoundPhase :=
  round ← pget_ok cRound K_ActiveRound NoActiveRound;
  seq ← asks sequence;
  mret (_derive_round_phase seq round).

Definition get_market_snapshot : M MarketSnapshot :=
  phase ← attempt get_round_phase;
  pool_stats ← get_round_pool_stats;
  bet_window_ledgers ← get_bet_window_ledgers;
  run_window_ledgers ← get_run_window_ledgers;
  close_buffer_ledgers ← get_close_buffer_ledgers;
  protocol_fee_bps ← _read_protocol_fee_bps;
  fee_model ← _read_fee_model;
  mret {| ms_phase := option_list phase; ms_pool_stats := option_list pool_stats;
          ms_bet_window_ledgers := bet_window_ledgers; ms_run_window_ledgers := run_window_ledgers;
          ms_close_buffer_ledgers := close_buffer_ledgers;
          ms_protocol_fee_bps := protocol_fee_bps; ms_fee_model := fee_model |}.

Definition get_last_round_id : M Z := pget_or cU64 K_LastRoundId 0.

(** ** The archive *)

Definition get_archived_round (rid : Z) : M (option ArchivedRoundSummary) :=
  pget cSummary (K_ArchivedRound rid).

(** [while idx > 0 && fetched < fetch_cap], from the newest identifier down. *)
Fixpoint fetch_recent (fetch_cap : Z) (newest_first : list Z) (result : list ArchivedRoundSummary)
  : M (list ArchivedRoundSummary) :=
  match newest_first with
  | [] => mret result
  | rid :: older =>
      if Z.of_nat (length result) <? fetch_cap then
        summary ← pget cSummary (K_ArchivedRound rid);
        fetch_recent fetch_cap older (result ++ option_list summary)
      else mret result
  end.

Definition get_recent_archived_rounds (limit : Z) : M (list ArchivedRoundSummary) :=
  recent ← pget_or cU64s K_RecentArchivedRoundIds [];
  if (limit =? 0) || bool_decide (recent = []) then mret [] else
  retention_limit ← pget_or cU32 K_ArchiveRetention DEFAULT_ARCHIVE_RETENTION;
  let fetch_cap := if limit >? retention_limit then retention_limit else limit in
  fetch_recent fetch_cap (reverse recent) [].

Definition get_user_archived_participation (user : Address) (rid : Z) : M (option UserRoundOutcome) :=
  b ← phas (K_ArchivedRound rid);
  if negb b then mret None else pget cOutcome (K_UserRoundOutcome rid user).

(** The [loop] of [get_user_archive_history]; [fuel] bounds its iterations. *)
Fixpoint history_loop (fuel : nat) (user_rounds : list Z) (limit end_ idx : Z)
    (result : list ArchivedRoundSummary) : M (list ArchivedRoundSummary) :=
  match fuel with
  | O => trap
  | S fuel =>
      summary ← match user_rounds !! Z.to_nat idx with
                | Some rid => pget cSummary (K_ArchivedRound rid)
                | None => mret None
                end;
      let result := result ++ option_list summary in
      if (idx =? end_) || (Z.of_nat (length result) =? limit) then mret result
      else history_loop fuel user_rounds limit end_ (u32_saturating_sub idx 1) result
  end.

Definition get_user_archive_history (user : Address) (offset limit : Z)
  : M (list ArchivedRoundSummary) :=
  reject_if ((limit =? 0) || (limit >? MAX_PAGE_SIZE)) PageSizeExceeded ;;
  user_rounds ← pget_or cU64s (K_UserArchivedRoundIds user) [];
  let total := Z.of_nat (length user_rounds) in
  if offset >=? total then mret [] else
  after_offset ← or_trap (u32_checked_add offset 1);
  let start := u32_saturating_sub total after_offset in
  let end_ := u32_saturating_sub start (u32_saturating_sub limit 1) in
  history_loop (S (Z.to_nat (start - end_))) user_rounds limit end_ start [].

(** ** A user *)

Definition get_user_stats (user : Address) : M UserStats :=
  _extend_persistent_ttl (K_UserStats user) ;;
  pget_or cStats (K_UserStats user) zero_stats.

Definition get_pending_winnings (user : Address) : M Z :=
  _extend_persistent_ttl (K_PendingWinnings user) ;;
  _extend_persistent_ttl (K_PendingWinningsUpdatedAt user) ;;
  pget_or cI128 (K_PendingWinnings user) 0.

(** The entry of [user] in the active round, if there is one. *)
Definition in_active_round {A} (read : Z -> M (option A)) : M (option A) :=
  round ← pget cRound K_ActiveRound;
  match round with
  | Some round => read (round_id round)
  | None => mret None
  end.

Definition get_user_position (user : Address) : M (option UserPosition) :=
  pos ← in_active_round (λ rid, pget cPosition (K_Position rid user));
  match pos with
  | Some pos => mret (Some pos)
  | None =>
      legacy_updown ← pget_or cPositionMap K_UpDownPositions ∅;
      match legacy_updown !! user with
      | Some p => mret (Some p)
      | None =>
          legacy_positions ← pget_or cPositionMap K_Positions ∅;
          mret (legacy_positions !! user)
      end
  end.

Definition get_user_precision_prediction (user : Address) : M (option PrecisionPrediction) :=
  pred ← in_active_round (λ rid, pget cPrediction (K_PrecisionPosition rid user));
  match pred with
  | Some p => mret (Some p)
  | None =>
      legacy ← pget_or cPredictionMap K_PrecisionPositions ∅;
      mret (legacy !! user)
  end.

(** ** Listings *)

(** [if let Some(x) = read(user) { result.push_back(x) }] over a list. *)
Definition collect {A} (read : Address -> M (option A)) (l : list Address) : M (list A) :=
  mfold l [] (λ acc user, o ← read user; mret (acc ++ option_list o)).

(** [Map::values]: in the order of the keys. *)
Definition map_values {A} (m : gmap Address A) : list A :=
  omap (λ a, m !! a) (merge_sort N.le (elements (dom m))).

Definition get_precision_predictions : M (list PrecisionPrediction) :=
  round ← pget cRound K_ActiveRound;
  match round with
  | None => mret []
  | Some round =>
      participants ← round_participants round;
      result ← collect (λ user, pget cPrediction (K_PrecisionPosition (round_id round) user)) participants;
      if bool_decide (result = []) then
        legacy ← pget_or cPredictionMap K_PrecisionPositions ∅;
        mret (map_values legacy)
      else mret result
  end.

Definition add_position (rid : Z) (result : gmap Address UserPosition) (user : Address)
  : M (gmap Address UserPosition) :=
  pos ← pget cPosition (K_Position rid user);
  match pos with
  | Some pos => mret (<[user := pos]> result)
  | None => mret result
  end.

Definition get_updown_positions : M (gmap Address UserPosition) :=
  round ← pget cRound K_ActiveRound;
  match round with
  | None => mret ∅
  | Some round =>
      participants ← round_participants round;
      result ← mfold participants ∅ (add_position (round_id round));
      if bool_decide (result = ∅) then pget_or cPositionMap K_UpDownPositions ∅
      else mret result
  end.

(** One row of a listing. *)
Definition prediction_row (rid : Z) (user : Address) : M (option PrecisionPrediction) :=
  pget cPrediction (K_PrecisionPosition rid user).
Definition position_row (rid : Z) (user : Address) : M (option (Address * UserPosition)) :=
  pos ← pget cPosition (K_Position rid user);
  mret (pair user <$> pos).

(** The slice [offset .. min(offset + limit, total)] of the sorted participants. *)
Definition listing_page {A} (row : Z -> Address -> M (option A)) (offset limit : Z) : M (list A) :=
  let limit := Z.min limit MAX_PAGE_SIZE in
  if limit =? 0 then mret [] else
  round ← pget cRound K_ActiveRound;
  match round with
  | None => mret []
  | Some round =>
      participants ← round_participants round;
      collect (row (round_id round)) (page (sort_addresses participants) offset limit)
  end.

Definition get_precision_predictions_page (offset limit : Z) : M (list PrecisionPrediction) :=
  listing_page prediction_row offset limit.
Definition get_updown_positions_page (offset limit : Z) : M (list (Address * UserPosition)) :=
  listing_page position_row offset limit.

(** ** Cursors *)

(** The index of the first address strictly above the cursor. *)
Fixpoint first_above (cursor : Address) (l : list Address) : nat :=
  match l with
  | [] => O
  | a :: l => if addr_lt cursor a then O else S (first_above cursor l)
  end.

Definition _find_cursor_position (sorted : list Address) (cursor : option Address) : Z :=
  match cursor with
  | None => 0
  | Some cursor_addr => Z.of_nat (first_above cursor_addr sorted)
  end.

Definition _find_cursor_in_leaderboard (sorted : list ranked) (cursor : option Address) : Z :=
  _find_cursor_position sorted.*1 cursor.

(** The items of a page, and the last address that gave one. *)
Definition push_row {A} (read : Address -> M (option A)) (acc : list A * option Address)
    (user : Address) : M (list A * option Address) :=
  o ← read user;
  match o with
  | Some x => mret (acc.1 ++ [x], Some user)
  | None => mret acc
  end.

Definition collect_last {A} (read : Address -> M (option A)) (l : list Address)
  : M (list A * option Address) := mfold l ([], None) (push_row read).

Definition listing_cursor {A} (row : Z -> Address -> M (option A)) (cursor : option Address)
    (limit : Z) : M (list A * option Address) :=
  reject_if ((limit =? 0) || (limit >? MAX_PAGE_SIZE)) PageSizeExceeded ;;
  round ← pget cRound K_ActiveRound;
  match round with
  | None => mret ([], None)
  | Some round =>
      participants ← round_participants round;
      let participants := sort_addresses participants in
      let start := _find_cursor_position participants cursor in
      if start >=? Z.of_nat (length participants) then mret ([], None)
      else collect_last (row (round_id round)) (page participants start limit)
  end.

Definition get_precision_predictions_cursor (cursor : option Address) (limit : Z)
  : M (list PrecisionPrediction * option Address) := listing_cursor prediction_row cursor limit.
Definition get_updown_positions_cursor (cursor : option Address) (limit : Z)
  : M (list (Address * UserPosition) * option Address) := listing_cursor position_row cursor limit.

(** [_collect_leaderboard_entries]: the participants of the active round, each
    once, with their statistics. *)
Definition _collect_leaderboard_entries : M (list ranked) :=
  round ← pget cRound K_ActiveRound;
  seen ← match round with
         | None => mret []
         | Some round =>
             participants ← round_participants round;
             mret (distinct_participants [] participants)
         end;
  with_stats get_user_stats seen.

Definition leaderboard_cursor (better : ranked -> ranked -> bool) (cursor : option Address)
    (limit : Z) : M (list ranked * option Address) :=
  reject_if ((limit =? 0) || (limit >? MAX_PAGE_SIZE)) PageSizeExceeded ;;
  entries ← _collect_leaderboard_entries;
  let sorted := reinsert_sorted better entries in
  let start := _find_cursor_in_leaderboard sorted cursor in
  if start >=? Z.of_nat (length sorted) then mret ([], None) else
  let items := page sorted start limit in
  mret (items, fst <$> last items).

Definition get_leaderboard_by_wins (cursor : option Address) (limit : Z)
  : M (list ranked * option Address) := leaderboard_cursor better_wins cursor limit.
Definition get_leaderboard_by_streak (cursor : option Address) (limit : Z)
  : M (list ranked * option Address) := leaderboard_cursor better_streak cursor limit.

(** ** The payout preview *)

(** The split of the pools the preview works with:
    winning side, winning pool, distributable winning and losing parts, fee. *)
Definition preview_split (bps : option Z) (fee_model : FeeModel) (round : Round) (final_price : Z)
  : outcome (BetSide * Z * Z * Z * Z) :=
  let price_went_up := final_price >? price_start round in
  let price_went_down := final_price <? price_start round in
  let price_unchanged := final_price =? price_start round in
  let is_one_sided := negb (Bool.eqb (pool_up round =? 0) (pool_down round =? 0)) in
  if negb price_unchanged && negb is_one_sided then
    if price_went_up then
      '(dw, dl, fee) ← calculate_protocol_fee_updown bps fee_model (pool_up round) (pool_down round);
      Ok (Up, pool_up round, dw, dl, fee)
    else if price_went_down then
      '(dw, dl, fee) ← calculate_protocol_fee_updown bps fee_model (pool_down round) (pool_up round);
      Ok (Down, pool_down round, dw, dl, fee)
    else Ok (Up, 0, 0, 0, 0)
  else Ok (Up, 0, 0, 0, 0).

(** The outcome previewed for one participant of an UpDown round. *)
Definition preview_position (refund : bool) (winning_side : BetSide)
    (winning_pool total_distributable : Z) (user : Address) (pos : UserPosition)
  : outcome UserRoundOutcome :=
  let record payout outcome_type :=
    {| out_user := user; out_round_mode := 0; out_prediction_side := side_u32 (pos_side pos);
       out_predicted_price := 0; out_stake := pos_amount pos; out_payout := payout;
       out_outcome := outcome_type |} in
  if refund then Ok (record (pos_amount pos) OutRefund)
  else if bool_decide (pos_side pos = winning_side) then
    product ← payout_mul (pos_amount pos) total_distributable;
    payout ← i128_div product winning_pool;
    Ok (record payout OutWin)
  else Ok (record 0 OutLoss).

Definition simulate_updown (bps : option Z) (fee_model : FeeModel) (round : Round) (final_price : Z)
    (participants : list Address) : M (Z * Z * list UserRoundOutcome) :=
  split ← lift (preview_split bps fee_model round final_price);
  let '(winning_side, winning_pool, dist_winning, dist_losing, fee) := split in
  total_distributable ← lift (payout_add dist_winning dist_losing);
  let refund := (final_price =? price_start round)
                || negb (Bool.eqb (pool_up round =? 0) (pool_down round =? 0)) in
  outcomes ← mfold participants [] (λ outcomes user,
    pos ← pget cPosition (K_Position (round_id round) user);
    match pos with
    | None => mret outcomes
    | Some pos =>
        o ← lift (preview_position refund winning_side winning_pool total_distributable user pos);
        mret (outcomes ++ [o])
    end);
  mret (fee, 0, outcomes).

(** The locals of the preview's scan of a Precision round. *)
Record Preview := {
  pv_min_diff : option Z;
  pv_winners : list PrecisionPrediction;
  pv_total_pot : Z;
  pv_is_winner_mask : list bool;
  pv_preds : list PrecisionPrediction;
  pv_user_amounts : list Z }.

Definition start_preview : Preview :=
  {| pv_min_diff := None; pv_winners := []; pv_total_pot := 0; pv_is_winner_mask := [];
     pv_preds := []; pv_user_amounts := [] |}.

Definition preview_pred (user : Address) (pred_opt : option PrecisionPrediction)
    (commit_opt : option PrecisionCommitment) : PrecisionPrediction :=
  match pred_opt, commit_opt with
  | Some p, _ => p
  | None, Some c => {| pred_user := user; predicted_price := 0; pred_amount := com_amount c |}
  | None, None => {| pred_user := user; predicted_price := 0; pred_amount := 0 |}
  end.

Definition preview_participant (rid final_price : Z) (pv : Preview) (user : Address) : M Preview :=
  pred_opt ← pget cPrediction (K_PrecisionPosition rid user);
  commit_opt ← pget cCommitment (K_PrecisionCommitment rid user);
  let pred := preview_pred user pred_opt commit_opt in
  let amt := pred_amount pred in
  let idx := length (pv_is_winner_mask pv) in
  total_pot ← ok_or (i128_checked_add (pv_total_pot pv) amt) Overflow;
  let mask := pv_is_winner_mask pv ++ [false] in
  r ← match pred_opt with
      | Some pred =>
          diff ← or_trap (price_diff (predicted_price pred) final_price);
          mret (rank_prediction pred diff idx (pv_min_diff pv) (pv_winners pv) mask)
      | None => mret (pv_min_diff pv, pv_winners pv, mask)
      end;
  let '(best, ws, mask) := r in
  mret {| pv_min_diff := best; pv_winners := ws; pv_total_pot := total_pot;
          pv_is_winner_mask := mask; pv_preds := pv_preds pv ++ [pred];
          pv_user_amounts := pv_user_amounts pv ++ [amt] |}.

(** The winners' payouts: the policy's, the first with the remainder when there
    are winners. *)
Definition preview_payouts (policy : PrecisionPayoutPolicy) (winners : list PrecisionPrediction)
    (payout_pool : Z) : outcome (list Z) :=
  '(payouts, total_paid) ← policy_payouts policy winners payout_pool;
  if Z.of_nat (length winners) >? 0 then
    remainder ← some_or (i128_checked_sub payout_pool total_paid) PayoutOverflow;
    add_remainder payouts remainder
  else Ok payouts.

(** The outcome previewed for the participant at [idx]; [winner_idx] counts the
    winners before it. *)
Definition preview_outcome (pv : Preview) (payouts : list Z) (acc : nat * list UserRoundOutcome)
    (iu : nat * Address) : nat * list UserRoundOutcome :=
  let '(winner_idx, outcomes) := acc in
  let '(idx, user) := iu in
  let amt := default 0 (pv_user_amounts pv !! idx) in
  let record payout outcome_type :=
    {| out_user := user; out_round_mode := 1; out_prediction_side := 2;
       out_predicted_price := from_option predicted_price 0 (pv_preds pv !! idx);
       out_stake := amt; out_payout := payout; out_outcome := outcome_type |} in
  if bool_decide (pv_winners pv = []) then (winner_idx, outcomes ++ [record amt OutRefund])
  else if default false (pv_is_winner_mask pv !! idx) then
    (S winner_idx, outcomes ++ [record (default 0 (payouts !! winner_idx)) OutWin])
  else (winner_idx, outcomes ++ [record 0 OutLoss]).

Definition simulate_precision (bps : option Z) (fee_model : FeeModel) (rid final_price : Z)
    (participants : list Address) : M (Z * Z * list UserRoundOutcome) :=
  pv ← mfold participants start_preview (preview_participant rid final_price);
  '(payout_pool, fee) ←
    (if negb (bool_decide (pv_winners pv = [])) && (pv_total_pot pv >? 0) then
       let winner_stakes :=
         foldl (λ acc w, default acc (i128_checked_add acc (pred_amount w))) 0 (pv_winners pv) in
       lift (calculate_protocol_fee_precision bps fee_model (pv_total_pot pv) winner_stakes)
     else mret (0, 0));
  policy ← _read_precision_payout_policy;
  payouts ← lift (preview_payouts policy (pv_winners pv) payout_pool);
  mret (fee, pv_total_pot pv,
        (foldl (preview_outcome pv payouts) (O, []) (imap pair participants)).2).

Definition simulate_payout (final_price : Z) : M SimulationResult :=
  round ← pget_ok cRound K_ActiveRound NoActiveRound;
  raw ← round_participants round;
  let participants := sort_addresses raw in
  bps ← _read_protocol_fee_bps;
  fee_model ← _read_fee_model;
  r ← match mode round with
      | UpDown => simulate_updown bps fee_model round final_price participants
      | Precision => simulate_precision bps fee_model (round_id round) final_price participants
      end;
  let '(fee, precision_total_stake, outcomes) := r in
  mret {| sim_mode := mode round; sim_pool_up := pool_up round; sim_pool_down := pool_down round;
          sim_precision_total_stake := precision_total_stake; sim_fee_amount := fee;
          sim_fee_model := FeeModel_u32 fee_model; sim_outcomes := outcomes |}.
