(* ===== verification/Legacy.v ===== *)
(** * Settlement from the maps of the first layout

    The functions of settlement.rs under the legacy-map-settlement feature: rounds
    opened before the per-user entries existed keep their positions in one map, and
    this build settles them from it.  A function that the feature changes in part is
    given here as that build compiles it, under its own name. *)

From S2P Require Export Queries.

(** [Map::keys]: in increasing order. *)
Definition map_keys {A} (m : gmap Address A) : list Address := merge_sort N.le (elements (dom m)).

(** ** UpDown *)

Definition refund_legacy_position (round_id : Z) (positions : gmap Address UserPosition)
    (user : Address) : M () :=
  match positions !! user with
  | Some position =>
      _accumulate_pending user (pos_amount position) ;;
      let prediction_side := match pos_side position with Up => 0 | Down => 1 end in
      _persist_user_outcome round_id 0 user prediction_side 0 (pos_amount position)
        (pos_amount position) OutRefund
  | None => mret ()
  end.

Definition _record_refunds_legacy (round_id : Z) (positions : gmap Address UserPosition) : M () :=
  let keys := map_keys positions in
  mfor keys (refund_legacy_position round_id positions).

Definition pay_legacy_position (round_id : Z) (positions : gmap Address UserPosition)
    (winning_side : BetSide) (original_winning_pool total_distributable : Z) (user : Address) : M () :=
  match positions !! user with
  | Some position =>
      let side_value := match pos_side position with Up => 0 | Down => 1 end in
      if bool_decide (pos_side position = winning_side) then
        payout ← lift (compute_updown_winner_payout (pos_amount position)
                         original_winning_pool total_distributable);
        _accumulate_pending user payout ;;
        _update_stats_win user ;;
        _persist_user_outcome round_id 0 user side_value 0 (pos_amount position) payout OutWin
      else
        emit "outcome" "loss"
          [VAddr user; VU64 round_id; VU32 0; VI128 (pos_amount position); VU32 side_value; VU128 0] ;;
        _update_stats_loss user ;;
        _persist_user_outcome round_id 0 user side_value 0 (pos_amount position) 0 OutLoss
  | None => mret ()
  end.

Definition _record_winnings_legacy (round_id : Z) (positions : gmap Address UserPosition)
    (winning_side : BetSide) (winning_pool losing_pool : Z) : M Z :=
  if winning_pool =? 0 then mret 0 else
  let original_winning_pool := winning_pool in
  '(dist_winning, dist_losing, fee_amount) ←
    _apply_protocol_fee_updown round_id winning_pool losing_pool;
  total_distributable ← lift (payout_add dist_winning dist_losing);
  let keys := map_keys positions in
  mfor keys (pay_legacy_position round_id positions winning_side original_winning_pool
               total_distributable) ;;
  mret fee_amount.

Definition _apply_one_sided_policy (round : Round) (policy : OneSidedPolicy)
    (participants : list Address) (positions : option (gmap Address UserPosition)) : M Z :=
  let affected_side := if pool_up round >? 0 then 0 else if pool_down round >? 0 then 1 else 2 in
  let refund :=
    if negb (bool_decide (participants = [])) then
      _record_refunds_indexed (round_id round) 0 participants
    else match positions with
         | Some pos_map => _record_refunds_legacy (round_id round) pos_map
         | None => mret ()
         end in
  let pot := i128_saturating_add (pool_up round) (pool_down round) in
  '(refund_amount, carry_amount) ←
    match policy with
    | PolRefund | PolVoid => refund ;; mret (pot, 0)
    | PolCarryForward => refund ;; mret (0, pot)
    end;
  emit "pool" "onesided"
    [VU64 (round_id round); VU32 (OneSidedPolicy_u32 policy); VU32 affected_side;
     VI128 refund_amount; VI128 carry_amount; VI128 (pool_up round); VI128 (pool_down round)] ;;
  mret 0.

Definition _resolve_updown_mode (round : Round) (final_price : Z) : M (bool * Z) :=
  raw_participants ← pget_or cAddrs (K_RoundParticipants (round_id round)) [];
  let participants := sort_addresses raw_participants in
  let direction := classify_price_direction (price_start round) final_price in
  let is_one_sided := is_one_sided_pool (pool_up round) (pool_down round) in
  fee_amount ←
    (if is_one_sided then
       let policy := _select_one_sided_policy round in
       positions ←
         (if bool_decide (participants = []) then
            m ← pget_or cPositionMap K_UpDownPositions ∅; mret (Some m)
          else mret None);
       _apply_one_sided_policy round policy participants positions
     else if negb (bool_decide (participants = [])) then
       match direction with
       | Unchanged => _record_refunds_indexed (round_id round) 0 participants ;; mret 0
       | DirUp => _record_winnings_indexed (round_id round) participants Up
                    (pool_up round) (pool_down round)
       | DirDown => _record_winnings_indexed (round_id round) participants Down
                      (pool_down round) (pool_up round)
       end
     else
       positions ← pget_or cPositionMap K_UpDownPositions ∅;
       if bool_decide (positions = ∅) then mret 0 else
       match direction with
       | Unchanged => _record_refunds_legacy (round_id round) positions ;; mret 0
       | DirUp => _record_winnings_legacy (round_id round) positions Up
                    (pool_up round) (pool_down round)
       | DirDown => _record_winnings_legacy (round_id round) positions Down
                      (pool_down round) (pool_up round)
       end);
  mret (is_one_sided, fee_amount).

(** ** Precision *)

(** The [match min_diff] of the legacy scan, which keeps no mask. *)
Definition rank_legacy (pred : PrecisionPrediction) (diff : Z)
    (acc : option Z * list PrecisionPrediction) : option Z * list PrecisionPrediction :=
  let '(min_diff, winners) := acc in
  match min_diff with
  | None => (Some diff, winners ++ [pred])
  | Some current_min =>
      if diff <? current_min then (Some diff, [pred])
      else if diff =? current_min then (min_diff, winners ++ [pred])
      else (min_diff, winners)
  end.

Definition legacy_winners (final_price : Z) (predictions : list PrecisionPrediction)
    : outcome (option Z * list PrecisionPrediction) :=
  ofold predictions (None, []) (λ acc pred,
    diff ← some_or (price_diff (predicted_price pred) final_price) Overflow;
    Ok (rank_legacy pred diff acc)).

Definition pay_legacy_winner (round_id : Z) (w : PrecisionPrediction * Z) : M () :=
  let '(winner, payout) := w in
  _accumulate_pending (pred_user winner) payout ;;
  _update_stats_win (pred_user winner) ;;
  _persist_user_outcome round_id 1 (pred_user winner) 2 (predicted_price winner)
    (pred_amount winner) payout OutWin.

Definition is_legacy_winner (winners : list PrecisionPrediction) (pred : PrecisionPrediction) : bool :=
  existsb (λ w, bool_decide (pred_user w = pred_user pred)) winners.

Definition record_legacy_loser (round_id : Z) (winners : list PrecisionPrediction)
    (pred : PrecisionPrediction) : M () :=
  if is_legacy_winner winners pred then mret () else
  emit "outcome" "loss"
    [VAddr (pred_user pred); VU64 round_id; VU32 1; VI128 (pred_amount pred); VU32 0;
     VU128 (predicted_price pred)] ;;
  _update_stats_loss (pred_user pred) ;;
  _persist_user_outcome round_id 1 (pred_user pred) 2 (predicted_price pred) (pred_amount pred) 0 OutLoss.

Definition _resolve_precision_legacy (round_id : Z) (predictions_map : gmap Address PrecisionPrediction)
    (final_price : Z) : M (Z * Z) :=
  let predictions := map_values predictions_map in
  if bool_decide (predictions = []) then mret (0, 0) else
  '(min_diff, winners) ← lift (legacy_winners final_price predictions);
  total_pot ← lift (ofold predictions 0 (λ acc p, payout_add acc (pred_amount p)));
  if negb (bool_decide (winners = [])) && (total_pot >? 0) then
    winner_stakes ← lift (ofold winners 0 (λ acc w, payout_add acc (pred_amount w)));
    '(payout_pool, fee) ← _apply_protocol_fee_precision round_id total_pot winner_stakes;
    payouts ← _calculate_precision_payouts winners payout_pool;
    mfor (imap (λ i w, (w, default 0 (payouts !! i))) winners) (pay_legacy_winner round_id) ;;
    mfor predictions (record_legacy_loser round_id winners) ;;
    mret (fee, total_pot)
  else mret (0, total_pot).

(** Past its first test the function is the one of the default build. *)
Definition _resolve_precision_mode (round_id final_price : Z) (skip_payout : bool) : M (Z * Z) :=
  raw ← pget_or cAddrs (K_RoundParticipants round_id) [];
  let participants := sort_addresses raw in
  if bool_decide (participants = []) then
    legacy ← pget_or cPredictionMap K_PrecisionPositions ∅;
    if bool_decide (legacy = ∅) then mret (0, 0)
    else _resolve_precision_legacy round_id legacy final_price
  else Payouts._resolve_precision_mode round_id final_price skip_payout.

(** The pot that the archive reports. *)
Definition archived_pot (round : Round) : M Z :=
  match mode round with
  | UpDown => mret (total_pot_updown (pool_up round) (pool_down round))
  | Precision =>
      participants ← pget_or cAddrs (K_RoundParticipants (round_id round)) [];
      if bool_decide (participants = []) then
        legacy ← pget_or cPredictionMap K_PrecisionPositions ∅;
        mret (foldl (λ total_pot entry, default total_pot (i128_checked_add total_pot (pred_amount entry)))
                0 (map_values legacy))
      else mfold participants 0 (add_precision_pot (round_id round))
  end.
