(* ===== verification/PayoutFacts.v ===== *)
(** * Facts about payouts

    What a settled round pays: refunds return every stake, an UpDown round pays
    each winner the pro-rata share of the pot after the fee, a Precision round
    pays the closest predictions the whole pot after the fee. *)

From S2P Require Export Payouts Credits.

(** ** UpDown *)

Lemma entry_updown_stake s rid u :
  entry s rid u UpDown ->
  ∃ p, pos_at s rid u = Some (VPosition p) ∧ 0 < pos_amount p ∧ stake s rid u = pos_amount p ∧
       slot s (K_Position rid u) = pos_amount p.
Proof.
  intros ((p & Hp & Ha) & Hpr & Hc). exists p. unfold pos_at, pred_at, com_at, stake in *.
  rewrite (slot_none _ _ Hpr), (slot_none _ _ Hc).
  apply slot_found in Hp as Hs; [|done]. simpl in Hs. split_and!; try done; lia.
Qed.

Lemma entry_side_sum s rid u :
  entry s rid u UpDown -> stake s rid u = side_stake s rid u Up + side_stake s rid u Down.
Proof.
  intros (p & Hp & _ & -> & _)%entry_updown_stake. unfold side_stake. rewrite Hp.
  destruct (pos_side p); simpl; lia.
Qed.

Lemma side_stake_nonneg s rid u side : entry s rid u UpDown -> 0 ≤ side_stake s rid u side.
Proof.
  intros (p & Hp & ? & _)%entry_updown_stake. unfold side_stake. rewrite Hp.
  case_bool_decide; lia.
Qed.

(** The pot of an UpDown book is the sum of its stakes. *)
Lemma book_pot s r ps :
  book s r ps -> mode r = UpDown -> zsum (stake s (round_id r)) ps = pool_up r + pool_down r.
Proof.
  intros Hb Hm. rewrite (book_up _ _ _ Hb Hm), (book_down _ _ _ Hb Hm), <-zsum_add.
  apply zsum_ext. intros u Hu. apply entry_side_sum. rewrite <-Hm. by apply (book_entry _ _ _ Hb).
Qed.

Lemma only_zero u v : only u 0 v = 0.
Proof. unfold only. by case_bool_decide. Qed.

Lemma credited_nobody_only u s s' : credited nobody 0 s s' -> credited (only u 0) 0 s s'.
Proof. intros H. eapply credited_ext; [exact H| |done]. intros v. by rewrite only_zero. Qed.

Lemma credited_then_nobody p x s1 s2 s3 :
  credited p x s1 s2 -> credited nobody 0 s2 s3 -> credited p x s1 s3.
Proof.
  intros H1 H2. eapply credited_ext; [exact (credited_trans _ _ _ _ _ _ _ H1 H2)| |lia].
  intros u. unfold nobody. lia.
Qed.
Lemma credited_after_nobody p x s1 s2 s3 :
  credited nobody 0 s1 s2 -> credited p x s2 s3 -> credited p x s1 s3.
Proof.
  intros H1 H2. eapply credited_ext; [exact (credited_trans _ _ _ _ _ _ _ H1 H2)| |lia].
  intros u. unfold nobody. lia.
Qed.

Lemma wp_refund_position rid m kind u (Q : () -> State -> Prop) c s :
  (∀ s', credited (only u (slot s (K_Position rid u))) (slot s (K_Position rid u)) s s' -> Q () s') ->
  wp (refund_position rid m kind u) Q c s.
Proof.
  intros H. unfold refund_position. wp_step. wp_step. destruct o as [p|].
  - apply slot_found in H0 as Hs; [|done]. simpl in Hs. rewrite Hs in H.
    wp_step. apply wp_accumulate_credits. intros s1 H1. apply wp_persist_credits. intros s2 H2.
    apply H. by eapply credited_then_nobody.
  - apply slot_none in H0 as Hs. rewrite Hs in H. apply wp_ret, H.
    by apply credited_nobody_only, credited_refl.
Qed.

Lemma slot_kept s s' k : agree kept s s' -> kept k -> slot s' k = slot s k.
Proof. intros Ha Hk. apply slot_eq. by apply Ha. Qed.

Lemma kept_user s s' rid u : agree kept s s' -> same_user s s' rid u.
Proof.
  intros Ha. apply agree_same. intros k Hk. apply Ha. by eapply round_key_kept.
Qed.

Lemma wp_refunds rid m l (Q : () -> State -> Prop) c s :
  (∀ s', credited (each id (λ u, slot s (K_Position rid u)) l)
           (zsum (λ u, slot s (K_Position rid u)) l) s s' -> Q () s') ->
  wp (_record_refunds_indexed rid m l) Q c s.
Proof.
  intros H. apply (wp_mfor_credits id (λ u, slot s (K_Position rid u))); [|done].
  intros u s1 _ Ha. apply wp_refund_position. intros s2 H2.
  rewrite (slot_kept s s1) in H2 by (done || (apply (round_key_kept rid); simpl; auto)).
  exact H2.
Qed.

(** What a contested round pays a participant. *)
Definition winner_share (s : State) (rid : Z) (side : BetSide) (pool pot : Z) (u : Address) : Z :=
  side_stake s rid u side * pot / pool.

(** The arithmetic of paying [pot] to [side] stays within an i128. *)
Definition payable (s : State) (rid : Z) (side : BetSide) (pot : Z) (ps : list Address) : Prop :=
  pot ≤ I128_MAX ∧ ∀ u, u ∈ ps -> side_stake s rid u side * pot ≤ I128_MAX.

Lemma winner_payout_fits a w d p :
  compute_updown_winner_payout a w d = Ok p -> 0 < w -> a * d ≤ I128_MAX.
Proof.
  unfold compute_updown_winner_payout. intros H Hw. destruct (w =? 0) eqn:?; zbool; [lia|].
  apply obind_Ok in H as (x & Hx & _). apply payout_mul_Ok in Hx as [_ [_ Hx]]. exact Hx.
Qed.

Lemma wp_pay_position rid side pool pot u (Q : () -> State -> Prop) c s :
  entry s rid u UpDown -> 0 < pool -> 0 ≤ pot ->
  (∀ s', side_stake s rid u side * pot ≤ I128_MAX ->
     credited (only u (winner_share s rid side pool pot u)) (winner_share s rid side pool pot u)
       s s' -> Q () s') ->
  wp (pay_position rid side pool pot u) Q c s.
Proof.
  intros He Hpool Hpot H. apply entry_updown_stake in He as (p & Hp & Ha & _).
  unfold winner_share, side_stake in H. rewrite Hp in H. unfold pos_at in Hp.
  unfold pay_position. wp_step. wp_step. rewrite Hp in H0. destruct o as [p'|]; [|done].
  injection H0 as <-. case_bool_decide.
  - wp_step. wp_step. pose proof (winner_payout_fits _ _ _ _ H1 Hpool) as Hfit.
    apply updown_winner_payout_inv in H1; [|lia..]. subst.
    wp_step. apply wp_accumulate_credits. intros s1 H1.
    wp_step. apply wp_stats_win_credits. intros s2 H2. apply wp_persist_credits. intros s3 H3.
    apply H; [done|]. by do 2 (eapply credited_then_nobody; [|done]).
  - wp_step. apply wp_emit_credits. intros s1 H1. wp_step. apply wp_stats_loss_credits. intros s2 H2.
    apply wp_persist_credits. intros s3 H3. apply H; [unfold I128_MAX; lia|].
    rewrite Z.mul_0_l, Zdiv_0_l. apply credited_nobody_only.
    by do 2 (eapply credited_then_nobody; [|done]).
Qed.

Lemma fee_credits x s s' :
  total s' = total s + x ->
  (∀ k, k ≠ K_InsFundBal -> k ≠ K_ProtocolFeeTreasury -> persistent s' !! k = persistent s !! k) ->
  credited nobody x s s'.
Proof.
  intros Ht Hk. split; [done| |].
  - intros u. rewrite (slot_eq s s') by (apply Hk; key_ne). unfold nobody. lia.
  - intros k Hn. apply Hk; intros ->; apply Hn; right; right; by simpl.
Qed.

Lemma wp_winnings rid l side wpool lpool (Q : Z -> State -> Prop) c s :
  fee_config_ok s -> (∀ u, u ∈ l -> entry s rid u UpDown) -> 0 < wpool -> 0 ≤ lpool ->
  (∀ dw dl fee s', charged_updown s wpool lpool (dw, dl, fee) -> 0 ≤ fee ≤ wpool + lpool ->
     payable s rid side (wpool + lpool - fee) l ->
     let share := winner_share s rid side wpool (wpool + lpool - fee) in
     credited (each id share l) (fee + zsum share l) s s' -> Q fee s') ->
  wp (_record_winnings_indexed rid l side wpool lpool) Q c s.
Proof.
  intros Hfee He Hw Hl H. unfold _record_winnings_indexed.
  destruct (wpool =? 0) eqn:?; zbool; [lia|].
  wp_step. apply wp_apply_fee_updown; [done|lia..|]. intros dw dl fee s1 Hch Hsum ??? Ht Hk.
  pose proof (fee_credits _ _ _ Ht Hk) as Hcr. clear Ht Hk. rename Hcr into Hk.
  wp_step. wp_step.
  match goal with Hp : payout_add _ _ = Ok _ |- _ => apply payout_add_Ok in Hp as [-> Hfit] end.
  assert (dw + dl = wpool + lpool - fee) as Hpot by lia. rewrite Hpot in *.
  set (share := winner_share s rid side wpool (wpool + lpool - fee)) in *.
  wp_step. apply (wp_mfor_credits_and (λ u, side_stake s rid u side * (wpool + lpool - fee) ≤ I128_MAX) id share).
  - intros u s2 Hu Ha. assert (same_user s s2 rid u) as Hsu by (eapply kept_user; by etrans; [apply Hk|]).
    apply wp_pay_position; [|lia..|].
    + eapply entry_same; [exact Hsu|by apply He].
    + intros s3 F3 H3. unfold share, winner_share in *.
      rewrite (side_stake_same s s2) in F3, H3 by done. done.
  - intros s2 Hall Hs2. wp_step. apply (H dw dl); [done|lia|split; [lia|done]|]. fold share.
    eapply credited_ext; [exact (credited_trans _ _ _ _ _ _ _ Hk Hs2)| |done].
    intros u. unfold nobody. lia.
Qed.

(** What [_resolve_updown_mode] owes each participant, once the fee is taken:
    the stake back when one side is empty or the price did not move, else the
    winner's share of the pot. *)
Definition updown_payoff (s : State) (r : Round) (final_price fee : Z) (u : Address) : Z :=
  if is_one_sided_pool (pool_up r) (pool_down r) then stake s (round_id r) u else
  let pot := pool_up r + pool_down r - fee in
  match classify_price_direction (price_start r) final_price with
  | Unchanged => stake s (round_id r) u
  | DirUp => winner_share s (round_id r) Up (pool_up r) pot u
  | DirDown => winner_share s (round_id r) Down (pool_down r) pot u
  end.

Definition participant_payoff (ps : list Address) (f : Address -> Z) (u : Address) : Z :=
  if bool_decide (u ∈ ps) then f u else 0.

Lemma each_participants f l ps u :
  NoDup ps -> l ≡ₚ ps -> each id f l u = participant_payoff ps f u.
Proof.
  intros Hn Hp. unfold each. rewrite Hp. by apply each_nodup.
Qed.

Lemma one_sided_spec a b :
  0 ≤ a -> 0 ≤ b -> is_one_sided_pool a b = false -> (a = 0 ∧ b = 0) ∨ (0 < a ∧ 0 < b).
Proof.
  unfold is_one_sided_pool. intros Ha Hb H.
  destruct (a =? 0) eqn:Ea, (b =? 0) eqn:Eb; simpl in H; try done; zbool; lia.
Qed.

Lemma updown_pools s r ps :
  book s r ps -> mode r = UpDown -> 0 ≤ pool_up r ∧ 0 ≤ pool_down r.
Proof.
  intros Hb Hm. rewrite (book_up _ _ _ Hb Hm), (book_down _ _ _ Hb Hm).
  split; apply zsum_nonneg; intros u Hu; apply side_stake_nonneg; rewrite <-Hm;
    by apply (book_entry _ _ _ Hb).
Qed.

(** Both pools of a contested round with participants hold something. *)
Lemma contested_pools s r ps :
  book s r ps -> mode r = UpDown -> ps ≠ [] -> is_one_sided_pool (pool_up r) (pool_down r) = false ->
  0 < pool_up r ∧ 0 < pool_down r.
Proof.
  intros Hb Hm Hne Hone. destruct (updown_pools _ _ _ Hb Hm) as [Hup Hdn].
  destruct (one_sided_spec _ _ Hup Hdn Hone) as [[Hz1 Hz2]|]; [|done]. exfalso.
  pose proof (book_pot _ _ _ Hb Hm) as Hpot.
  assert (0 < zsum (stake s (round_id r)) ps); [|lia]. apply zsum_pos; [|done].
  intros v Hv. apply (book_entry _ _ _ Hb) in Hv. rewrite Hm in Hv.
  by apply entry_updown_stake in Hv as (?&_&?&->&_).
Qed.

(** The dust a contested round leaves: less than one unit per participant. *)
Lemma winner_share_dust s rid side ps pool pot :
  pool = zsum (λ u, side_stake s rid u side) ps -> 0 < pool -> 0 ≤ pot ->
  pot - Z.of_nat (length ps) < zsum (winner_share s rid side pool pot) ps ≤ pot.
Proof. intros -> Hp Hpot. by apply pro_rata_bounds. Qed.

Lemma zsum_pos_slots s rid l :
  (∀ u, u ∈ l -> entry s rid u UpDown) ->
  zsum (λ u, slot s (K_Position rid u)) l = zsum (stake s rid) l.
Proof. intros H. apply zsum_ext. intros u Hu. by destruct (entry_updown_stake _ _ _ (H u Hu)) as (?&_&_&->&->). Qed.

Lemma only_ext u x y v : (u = v -> x = y) -> only u x v = only u y v.
Proof. unfold only. case_bool_decide; auto. Qed.

Lemma each_pos_slots s rid l v :
  (∀ u, u ∈ l -> entry s rid u UpDown) ->
  each id (λ u, slot s (K_Position rid u)) l v = each id (stake s rid) l v.
Proof.
  intros H. apply zsum_ext. intros u Hu.
  by destruct (entry_updown_stake _ _ _ (H u Hu)) as (?&_&_&->&->).
Qed.

Lemma wp_one_sided r pol l (Q : Z -> State -> Prop) c s :
  (∀ s', credited (each id (λ u, slot s (K_Position (round_id r) u)) l)
           (zsum (λ u, slot s (K_Position (round_id r) u)) l) s s' -> Q 0 s') ->
  wp (_apply_one_sided_policy r pol l) Q c s.
Proof.
  intros H. unfold _apply_one_sided_policy. wp_step.
  apply (wp_mono _ (λ _ s', credited (each id (λ u, slot s (K_Position (round_id r) u)) l)
           (zsum (λ u, slot s (K_Position (round_id r) u)) l) s s')).
  - case_bool_decide as Hl; [|by apply wp_refunds].
    rewrite Hl. apply wp_ret. eapply credited_ext; [by apply credited_refl|done|done].
  - intros _ s1 H1. destruct pol; wp_step; apply wp_emit_credits; intros s2 H2; wp_step; apply H;
      by eapply credited_then_nobody.
Qed.

(** The fee of a contested round: what the fee function takes of the pools on the
    stored terms, nothing when the price did not move. *)
Definition updown_charge (s : State) (r : Round) (fp fee : Z) : Prop :=
  match classify_price_direction (price_start r) fp with
  | Unchanged => fee = 0
  | DirUp => ∃ dw dl, charged_updown s (pool_up r) (pool_down r) (dw, dl, fee)
  | DirDown => ∃ dw dl, charged_updown s (pool_down r) (pool_up r) (dw, dl, fee)
  end.

(** The sums a contested round makes stay within an i128. *)
Definition updown_payable (s : State) (r : Round) (ps : list Address) (fp fee : Z) : Prop :=
  match classify_price_direction (price_start r) fp with
  | Unchanged => True
  | DirUp => payable s (round_id r) Up (pool_up r + pool_down r - fee) ps
  | DirDown => payable s (round_id r) Down (pool_down r + pool_up r - fee) ps
  end.

(** Settling an UpDown round with [fee] taken: the fee and the payoffs are
    credited, their sum misses the pot by at most one unit per participant, and
    by nothing when the round is refunded. *)
Record settles_updown (s : State) (r : Round) (ps : list Address) (fp fee : Z) (s' : State) : Prop := {
  su_fee : 0 ≤ fee ≤ pool_up r + pool_down r;
  su_credited : credited (participant_payoff ps (updown_payoff s r fp fee))
                  (fee + zsum (updown_payoff s r fp fee) ps) s s';
  su_dust : 0 ≤ pool_up r + pool_down r - fee - zsum (updown_payoff s r fp fee) ps
              ≤ Z.of_nat (length ps);
  su_charged : ps ≠ [] -> is_one_sided_pool (pool_up r) (pool_down r) = false ->
    updown_charge s r fp fee ∧ updown_payable s r ps fp fee;
  su_refund : is_one_sided_pool (pool_up r) (pool_down r) = true ∨
              classify_price_direction (price_start r) fp = Unchanged ->
              fee = 0 ∧ zsum (updown_payoff s r fp fee) ps = pool_up r + pool_down r }.

Section UpDown_settlement.
Context (s : State) (r : Round) (ps l : list Address) (fp : Z).
Hypotheses (Hb : book s r ps) (Hm : mode r = UpDown) (Hl : l ≡ₚ ps).

Lemma listed_entry u : u ∈ l -> entry s (round_id r) u UpDown.
Proof. rewrite Hl, <-Hm. apply (book_entry _ _ _ Hb). Qed.

Lemma settles_refund s' :
  (∀ u, u ∈ ps -> updown_payoff s r fp 0 u = stake s (round_id r) u) ->
  (ps ≠ [] -> is_one_sided_pool (pool_up r) (pool_down r) = false ->
     classify_price_direction (price_start r) fp = Unchanged) ->
  credited (each id (λ u, slot s (K_Position (round_id r) u)) l)
    (zsum (λ u, slot s (K_Position (round_id r) u)) l) s s' ->
  settles_updown s r ps fp 0 s'.
Proof.
  intros Hpay Hnone Hc. pose proof (book_pot _ _ _ Hb Hm) as Hpot.
  assert (zsum (updown_payoff s r fp 0) ps = pool_up r + pool_down r) as Hz
    by (rewrite <-Hpot; by apply zsum_ext).
  pose proof (updown_pools _ _ _ Hb Hm). split; [lia| |lia| |done].
  2:{ intros Hne Hone. unfold updown_charge, updown_payable. by rewrite Hnone. }
  eapply credited_ext; [exact Hc| |].
  - intros u. rewrite each_pos_slots by apply listed_entry.
    rewrite (each_participants _ _ ps) by (done || apply Hb). unfold participant_payoff.
    case_bool_decide; [by rewrite Hpay|done].
  - rewrite zsum_pos_slots by apply listed_entry. rewrite Hl, Hz, Hpot. lia.
Qed.

Lemma settles_contested side pool fee s' :
  is_one_sided_pool (pool_up r) (pool_down r) = false ->
  classify_price_direction (price_start r) fp ≠ Unchanged ->
  updown_charge s r fp fee -> updown_payable s r ps fp fee ->
  pool = zsum (λ u, side_stake s (round_id r) u side) ps -> 0 < pool ->
  0 ≤ fee ≤ pool_up r + pool_down r ->
  (∀ u, updown_payoff s r fp fee u
        = winner_share s (round_id r) side pool (pool_up r + pool_down r - fee) u) ->
  credited (each id (winner_share s (round_id r) side pool (pool_up r + pool_down r - fee)) l)
    (fee + zsum (winner_share s (round_id r) side pool (pool_up r + pool_down r - fee)) l) s s' ->
  settles_updown s r ps fp fee s'.
Proof.
  intros Hone Hdir Hch Hfit Hp Hpos Hf Hpay Hc.
  pose proof (winner_share_dust s (round_id r) side ps pool (pool_up r + pool_down r - fee) Hp Hpos
    ltac:(lia)) as Hdust.
  assert (zsum (updown_payoff s r fp fee) ps
          = zsum (winner_share s (round_id r) side pool (pool_up r + pool_down r - fee)) ps) as Hz
    by (apply zsum_ext; intros; apply Hpay).
  split; [lia| |lia|done|].
  - eapply credited_ext; [exact Hc| |by rewrite Hl, Hz].
    intros u. rewrite (each_participants _ _ ps) by (done || apply Hb). unfold participant_payoff.
    by rewrite Hpay.
  - intros [H|H]; [congruence|done].
Qed.
End UpDown_settlement.

Lemma wp_resolve_updown r ps fp (Q : bool * Z -> State -> Prop) c s :
  book s r ps -> mode r = UpDown -> fee_config_ok s ->
  (∀ fee s', settles_updown s r ps fp fee s' ->
     Q (is_one_sided_pool (pool_up r) (pool_down r), fee) s') ->
  wp (_resolve_updown_mode r fp) Q c s.
Proof.
  intros Hb Hm Hfee H. pose proof (updown_pools _ _ _ Hb Hm) as [Hup Hdn].
  unfold _resolve_updown_mode. wp_step. wp_step. rewrite (book_participants _ _ _ _ Hb H0).
  pose proof (sort_addresses_perm ps) as Hperm. set (l := sort_addresses ps) in *.
  apply wp_bind. apply (wp_mono _ (λ fee s', settles_updown s r ps fp fee s'));
    [|intros fee s' Hs'; by apply wp_ret, H]. clear H.
  assert (l = [] -> ps = []) as Hnil by (intros ->; by apply Permutation_nil_l in Hperm).
  destruct (is_one_sided_pool (pool_up r) (pool_down r)) eqn:Hone.
  - wp_step. apply (wp_mono _ (λ _ s1, persistent s1 = persistent s)).
    { case_bool_decide; repeat wp_step; done. }
    intros _ s1 Hs1. apply wp_one_sided. intros s2 Hs2.
    apply (settles_refund _ _ _ l); try done; [by intros; unfold updown_payoff; rewrite Hone|by rewrite Hone|].
    apply (credited_after_nobody _ _ _ s1); [by apply credited_refl|].
    eapply credited_ext; [exact Hs2| |].
    + intros u. apply zsum_ext. intros v _. by rewrite (slot_same s s1).
    + apply zsum_ext. intros v _. by apply slot_same.
  - case_bool_decide as Hl.
    { wp_step. apply (settles_refund _ _ _ l); try done.
      - rewrite (Hnil Hl). by intros u ?%not_elem_of_nil.
      - by rewrite (Hnil Hl).
      - rewrite Hl. eapply credited_ext; [by apply credited_refl|done|done]. }
    assert (0 < pool_up r ∧ 0 < pool_down r) as [Hup' Hdn'].
    { apply (contested_pools s r ps); try done. intros ->. by apply Permutation_nil_r in Hperm. }
    destruct (classify_price_direction (price_start r) fp) eqn:Hdir.
    + apply wp_winnings; try done; [by eapply listed_entry|].
      intros dw dl fee s1 Hch Hf [Hmax Hfit] share Hc.
      eapply (settles_contested _ _ _ l _ Hb Hperm Up (pool_up r)); try done.
      * by rewrite Hdir.
      * unfold updown_charge. rewrite Hdir. by exists dw, dl.
      * unfold updown_payable. rewrite Hdir. split; [done|]. intros u Hu. apply Hfit. by rewrite Hperm.
      * by apply (book_up _ _ _ Hb).
      * intros u. unfold updown_payoff. by rewrite Hone, Hdir.
    + apply wp_winnings; try done; [by eapply listed_entry|].
      intros dw dl fee s1 Hch Hf [Hmax Hfit] share Hc. rewrite Z.add_comm in Hf. unfold share in Hc.
      rewrite (Z.add_comm (pool_down r)) in Hc.
      eapply (settles_contested _ _ _ l _ Hb Hperm Down (pool_down r)); try done.
      * by rewrite Hdir.
      * unfold updown_charge. rewrite Hdir. by exists dw, dl.
      * unfold updown_payable. rewrite Hdir. split; [done|]. intros u Hu. apply Hfit. by rewrite Hperm.
      * by apply (book_down _ _ _ Hb).
      * intros u. unfold updown_payoff. by rewrite Hone, Hdir.
    + wp_step. apply wp_refunds. intros s1 Hs1. wp_step.
      apply (settles_refund _ _ _ l); try done. intros u _. unfold updown_payoff.
      by rewrite Hone, Hdir.
Qed.
