(* ===== verification/PrecisionFacts.v ===== *)
(** * Facts about Precision settlement

    The scan of [_resolve_precision_mode] finds exactly the closest revealed
    predictions, and its payouts distribute the whole pot. *)

From S2P Require Export PayoutFacts.

(** ** Shares *)

Lemma push_payout_Ok acc p r :
  push_payout acc p = Ok r -> r = (acc.1 ++ [p], acc.2 + p).
Proof.
  destruct acc as [bs t]. unfold push_payout. intros H. ok_inv H.
  apply payout_add_Ok in E as [-> _]. by simplify_eq.
Qed.

(** A loop of pushes computes the list of the shares and its sum. *)
Lemma push_loop {A} (f : A -> outcome Z) body (l : list A) bs t bs' t' :
  (∀ acc x, body acc x = (p ← f x; push_payout acc p)) ->
  ofold l (bs, t) body = Ok (bs', t') ->
  ∃ ps, bs' = bs ++ ps ∧ t' = t + zsum id ps ∧ Forall2 (λ x p, f x = Ok p) l ps.
Proof.
  intros Hbody. revert bs t. induction l as [|x l IH]; intros bs t H.
  - injection H as <- <-. exists []. rewrite app_nil_r. simpl. split_and!; [done|lia|constructor].
  - cbn [ofold] in H. rewrite Hbody in H. apply obind_Ok in H as (acc & Hx & H).
    apply obind_Ok in Hx as (p & Hp & Hacc). apply push_payout_Ok in Hacc as ->. simpl in H.
    apply IH in H as (ps & -> & -> & Hall). exists (p :: ps).
    rewrite <-app_assoc. split_and!; [done|simpl; unfold id; lia|by constructor].
Qed.

Lemma stakes_total ws t :
  ofold ws 0 (λ acc w, payout_add acc (pred_amount w)) = Ok t -> t = zsum pred_amount ws.
Proof.
  intros H. eapply (ofold_inv (λ pre b, b = zsum pred_amount pre) _ _ _ _ H); [done|].
  intros pre x post b b' _ -> Hb. apply payout_add_Ok in Hb as [-> _]. rewrite zsum_app. simpl. lia.
Qed.

(** The shares before the remainder: one per winner, none negative, in total at
    most the pool. *)
Lemma policy_payouts_inv policy ws pool bs t :
  policy_payouts policy ws pool = Ok (bs, t) ->
  0 ≤ pool -> (∀ w, w ∈ ws -> 0 ≤ pred_amount w) ->
  length bs = length ws ∧ t = zsum id bs ∧ Forall (λ b, 0 ≤ b) bs ∧ t ≤ pool.
Proof.
  intros H Hpool Hws. destruct policy; cbn [policy_payouts] in H.
  - destruct (_ >? 0) eqn:Hn in H; zbool.
    + apply obind_Ok in H as (q & Hq & H).
      apply (push_loop (λ _, Ok q)) in H as (ps & -> & -> & Hall); [|done]. simpl.
      apply i128_div_Ok in Hq as (_ & -> & _). rewrite quot_div_nonneg in Hall by lia.
      assert (ps = replicate (length ws) (pool / Z.of_nat (length ws))) as ->.
      { clear -Hall. remember (pool / Z.of_nat (length ws)) as q. clear Heqq.
        induction Hall as [|x p l ps Hp Hall IH]; simpl; [done|]. injection Hp as <-. by f_equal. }
      rewrite length_replicate, zsum_replicate. split_and!; try done.
      * apply Forall_replicate, Z.div_pos; lia.
      * pose proof (Z.mul_div_le pool (Z.of_nat (length ws)) ltac:(lia)). lia.
    + injection H as <- <-. destruct ws; [|simpl in Hn; lia]. simpl. by split_and!.
  - apply obind_Ok in H as (tot & Htot & H). apply stakes_total in Htot as ->.
    destruct (_ >? 0) eqn:Ht in H; zbool.
    + apply (push_loop (λ w, product ← payout_mul (pred_amount w) pool;
                             i128_div product (zsum pred_amount ws))) in H
        as (ps & -> & -> & Hall).
      2:{ intros acc x. by destruct (payout_mul _ _). }
      assert (ps = (λ w, pred_amount w * pool / zsum pred_amount ws) <$> ws) as ->.
      { clear -Hall Hpool Hws Ht. remember (zsum pred_amount ws) as tot. clear Heqtot.
        induction Hall as [|x p l ps Hp Hall IH]; [done|]. rewrite fmap_cons, <-IH by set_solver.
        f_equal. apply obind_Ok in Hp as (m & Hm & Hd). apply payout_mul_Ok in Hm as [-> _].
        apply i128_div_Ok in Hd as (_ & -> & _). apply quot_div_nonneg; [|lia].
        apply Z.mul_nonneg_nonneg; [apply Hws; set_solver|done]. }
      rewrite app_nil_l, length_fmap, zsum_fmap. split_and!; try done.
      * apply Forall_fmap, Forall_forall. intros w Hw. simpl. apply Z.div_pos; [|lia].
        apply Z.mul_nonneg_nonneg; [by apply Hws|done].
      * simpl. unfold id. by apply pro_rata_bounds.
    + injection H as <- <-. rewrite length_replicate, zsum_replicate. split_and!; [done|lia| |done].
      by apply Forall_replicate.
Qed.

Lemma add_remainder_inv bs rem shares :
  add_remainder bs rem = Ok shares -> Forall (λ b, 0 ≤ b) bs -> 0 ≤ rem ->
  length shares = length bs ∧ Forall (λ b, 0 ≤ b) shares ∧
  (bs ≠ [] -> zsum id shares = zsum id bs + rem).
Proof.
  intros H Hbs Hrem. destruct bs as [|b bs]; simpl in H.
  - injection H as <-. by split_and!.
  - ok_inv H. apply payout_add_Ok in E as [-> _]. subst shares.
    apply Forall_cons in Hbs as [Hb Hbs]. split_and!; [done| |].
    + constructor; [lia|done].
    + intros _. simpl. unfold id. lia.
Qed.

(** The shares of the winners: those of the policy, the first one with the
    remainder. *)
Definition precision_shares (policy : PrecisionPayoutPolicy) (ws : list PrecisionPrediction)
    (pool : Z) : outcome (list Z) :=
  '(payouts, total_paid) ← policy_payouts policy ws pool;
  remainder ← some_or (i128_checked_sub pool total_paid) PayoutOverflow;
  add_remainder payouts remainder.

Lemma precision_shares_inv policy ws pool shares :
  precision_shares policy ws pool = Ok shares ->
  0 ≤ pool -> (∀ w, w ∈ ws -> 0 ≤ pred_amount w) ->
  length shares = length ws ∧ Forall (λ b, 0 ≤ b) shares ∧ (ws ≠ [] -> zsum id shares = pool).
Proof.
  intros H Hpool Hws. unfold precision_shares in H. apply obind_Ok in H as ([bs t] & Hp & H).
  apply policy_payouts_inv in Hp as (Hlen & -> & Hbs & Ht); [|done..].
  apply obind_Ok in H as (rem & Hr & H). apply some_or_Ok, i128_checked_sub_Some in Hr as [-> _].
  apply add_remainder_inv in H as (Hl & Hn & Hsum); [|done|lia].
  split_and!; [congruence|done|]. intros Hne. rewrite Hsum; [lia|]. intros ->. by destruct ws.
Qed.

(** The payouts distribute the whole pool. *)
Lemma wp_calculate_payouts ws pool (Q : list Z -> State -> Prop) c s :
  0 ≤ pool -> (∀ w, w ∈ ws -> 0 ≤ pred_amount w) ->
  (∀ policy shares s', stored_policy s policy -> precision_shares policy ws pool = Ok shares ->
     length shares = length ws -> Forall (λ b, 0 ≤ b) shares ->
     (ws ≠ [] -> zsum id shares = pool) -> persistent s' = persistent s -> Q shares s') ->
  wp (_calculate_precision_payouts ws pool) Q c s.
Proof.
  intros Hpool Hws H. unfold _calculate_precision_payouts. wp_step. apply wp_payout_policy.
  intros policy s1 Hs1 Hpol. do 2 wp_step. destruct a as [bs t]. do 2 wp_step. wp_step.
  assert (precision_shares policy ws pool = Ok a0) as E.
  { unfold precision_shares. rewrite H0. cbn. rewrite H1. cbn. exact H2. }
  destruct (precision_shares_inv _ _ _ _ E) as (? & ? & ?); [done..|]. by eapply H.
Qed.

(** ** The scan *)

(** The revealed prediction of a participant, and its distance to the price. *)
Definition guess (s : State) (rid : Z) (u : Address) : option PrecisionPrediction :=
  match pred_at s rid u with Some (VPrediction p) => Some p | _ => None end.
Definition distance (fp : Z) (p : PrecisionPrediction) : Z := Z.abs (predicted_price p - fp).

Definition at_best (fp : Z) (best : option Z) (p : PrecisionPrediction) : Prop :=
  Some (distance fp p) = best.
#[export] Instance at_best_dec fp best p : Decision (at_best fp best p) :=
  ltac:(unfold at_best; apply _).

Definition wins (s : State) (rid fp : Z) (best : option Z) (u : Address) : bool :=
  match guess s rid u with Some p => bool_decide (at_best fp best p) | None => false end.

Section Scan.
Context (s : State) (rid fp : Z).

Definition guesses (l : list Address) : list PrecisionPrediction := omap (guess s rid) l.

(** What the locals hold after the prefix [pre]. *)
Record scanned (pre : list Address) (st : Scan) : Prop := {
  scd_pot : sc_total_pot st = zsum (stake s rid) pre;
  scd_fits : sc_total_pot st ≤ I128_MAX;
  scd_amounts : sc_participant_amounts st = stake s rid <$> pre;
  scd_prices : length (sc_participant_prices st) = length pre;
  scd_revealed : sc_participant_revealed st = (λ u, bool_decide (is_Some (guess s rid u))) <$> pre;
  scd_min : ∀ p, p ∈ guesses pre -> ∃ d, sc_min_diff st = Some d ∧ d ≤ distance fp p;
  scd_some : is_Some (sc_min_diff st) -> sc_winners st ≠ [];
  scd_winners : sc_winners st = filter (at_best fp (sc_min_diff st)) (guesses pre);
  scd_mask : sc_is_winner_mask st = wins s rid fp (sc_min_diff st) <$> pre }.

Lemma price_diff_distance p d : price_diff (predicted_price p) fp = Some d -> d = distance fp p.
Proof.
  unfold price_diff, distance, u128_checked_sub. intros H.
  destruct (_ >=? _) eqn:Hc; checked_inv; zbool; lia.
Qed.

Lemma guesses_app l1 l2 : guesses (l1 ++ l2) = guesses l1 ++ guesses l2.
Proof. apply omap_app. Qed.

Lemma guesses_one u : guesses [u] = match guess s rid u with Some p => [p] | None => [] end.
Proof. unfold guesses. simpl. by destruct (guess s rid u). Qed.

(** Nothing seen so far is as close as a new strict minimum. *)
Lemma no_winner_below pre best d :
  (∀ p, p ∈ guesses pre -> ∃ m, best = Some m ∧ m ≤ distance fp p) ->
  (∀ m, best = Some m -> d < m) ->
  filter (at_best fp (Some d)) (guesses pre) = [] ∧
  wins s rid fp (Some d) <$> pre = replicate (length pre) false.
Proof.
  intros Hmin Hd. split.
  - apply filter_none. intros p Hp [= He]. destruct (Hmin p Hp) as (m & Hm & Hle).
    specialize (Hd m Hm). lia.
  - assert (∀ u, u ∈ pre -> wins s rid fp (Some d) u = false) as Hw.
    { intros u Hu. unfold wins. destruct (guess s rid u) as [p|] eqn:Hg; [|done].
      apply bool_decide_eq_false. intros [= He].
      destruct (Hmin p) as (m & Hm & Hle).
      { unfold guesses. apply list_elem_of_omap. eauto. }
      specialize (Hd m Hm). lia. }
    clear -Hw. induction pre as [|u pre IH]; [done|]. rewrite fmap_cons. simpl.
    rewrite Hw by set_solver. f_equal. apply IH. intros v Hv. apply Hw. set_solver.
Qed.

Lemma insert_last {A} (l : list A) x y : <[length l := x]> (l ++ [y]) = l ++ [x].
Proof. by induction l; simpl; f_equal. Qed.

(** One more prediction. *)
Lemma rank_scanned pre u p best ws mask d best' ws' mask' :
  guess s rid u = Some p -> d = distance fp p ->
  (∀ q, q ∈ guesses pre -> ∃ m, best = Some m ∧ m ≤ distance fp q) ->
  (is_Some best -> ws ≠ []) -> ws = filter (at_best fp best) (guesses pre) ->
  mask = wins s rid fp best <$> pre ->
  rank_prediction p d (length mask) best ws (mask ++ [false]) = (best', ws', mask') ->
  (∀ q, q ∈ guesses (pre ++ [u]) -> ∃ m, best' = Some m ∧ m ≤ distance fp q) ∧
  (is_Some best' -> ws' ≠ []) ∧
  ws' = filter (at_best fp best') (guesses (pre ++ [u])) ∧
  mask' = wins s rid fp best' <$> (pre ++ [u]).
Proof.
  intros Hg -> Hmin Hne Hws Hmask Hr.
  assert (∀ b, filter (at_best fp b) (guesses (pre ++ [u]))
               = filter (at_best fp b) (guesses pre) ++ filter (at_best fp b) [p]) as Hsplit.
  { intros b. by rewrite guesses_app, guesses_one, Hg, filter_app. }
  assert (∀ b, wins s rid fp b <$> (pre ++ [u])
               = (wins s rid fp b <$> pre) ++ [bool_decide (at_best fp b p)]) as Hwins.
  { intros b. rewrite fmap_app. simpl. unfold wins at 2. by rewrite Hg. }
  assert (∀ q, q ∈ guesses (pre ++ [u]) -> q ∈ guesses pre ∨ q = p) as Hin.
  { intros q. rewrite guesses_app, guesses_one, Hg. set_solver. }
  rewrite Hsplit, Hwins. clear Hsplit Hwins. rewrite !filter_cons, filter_nil.
  assert (length mask = length pre) as Hlen by (by rewrite Hmask, length_fmap).
  unfold rank_prediction in Hr. destruct best as [m|].
  - destruct (distance fp p <? m) eqn:Hlt; zbool.
    + injection Hr as <- <- <-.
      destruct (no_winner_below pre (Some m) (distance fp p) Hmin) as [Hf Hw]; [by intros ? [= <-]|].
      rewrite Hf, Hw, decide_True, bool_decide_true by done. split_and!; try done.
      * intros q [Hq| ->]%Hin; [|eexists; split; [done|lia]]. destruct (Hmin q Hq) as (? & [= <-] & ?).
        eexists. split; [done|lia].
      * rewrite Hlen, drop_app_length' by done.
        rewrite <-(length_replicate (length pre) false) at 1. by rewrite insert_last.
    + destruct (distance fp p =? m) eqn:Heq; zbool; injection Hr as <- <- <-.
      * subst m. rewrite decide_True, bool_decide_true by done. rewrite insert_last, Hmask, Hws.
        split_and!; try done.
        -- intros q [Hq| ->]%Hin; [auto|eexists; split; [done|lia]].
        -- by destruct (filter _ _).
      * assert (¬ at_best fp (Some m) p) by (intros [=]; lia).
        rewrite decide_False, bool_decide_false by done. rewrite app_nil_r, <-Hmask, <-Hws.
        split_and!; try done. intros q [Hq| ->]%Hin; [auto|]. eexists. split; [done|lia].
  - injection Hr as <- <- <-.
    destruct (no_winner_below pre None (distance fp p) Hmin) as [Hf Hw]; [done|].
    assert (guesses pre = []) as Hnil.
    { destruct (guesses pre) as [|q l]; [done|]. destruct (Hmin q) as (? & ? & _); set_solver. }
    rewrite Hf, Hw, decide_True, bool_decide_true by done. rewrite Hws, Hnil, Hmask, insert_last.
    split_and!; try done.
    + intros q [Hq| ->]%Hin; [rewrite Hnil in Hq; set_solver|eexists; split; [done|lia]].
    + f_equal. clear. induction pre as [|v pre IH]; [done|]. rewrite fmap_cons. simpl. f_equal; [|done].
      unfold wins. by destruct (guess s rid v).
Qed.

(** The value the scan reads for a participant is the stake. *)
Lemma precision_amount_stake t u op oc :
  entry s rid u Precision -> same_user s t rid u ->
  persistent t !! K_PrecisionPosition rid u = enc cPrediction <$> op ->
  persistent t !! K_PrecisionCommitment rid u = enc cCommitment <$> oc ->
  precision_amount op oc = stake s rid u ∧ op = guess s rid u ∧ 0 < stake s rid u ∧
  (∀ p, op = Some p -> pred_user p = u ∧ 0 < pred_amount p).
Proof.
  intros [Hpos He] (_ & Hp & Hc) Hop Hoc. unfold pos_at in Hpos.
  unfold stake, guess. rewrite (slot_none _ _ Hpos).
  unfold pred_at, com_at in *. rewrite <-Hp in *. rewrite <-Hc in *. unfold slot. rewrite <-Hp, <-Hc.
  destruct He as [(p & E1 & E2 & Ha & Hu)|[(cm & E1 & E2 & Ha & Hrev)|(p & cm & E1 & E2 & Ha & Hu & Hrev)]];
    rewrite E1, E2 in *.
  - destruct op as [p'|], oc; try done. injection Hop as <-. simpl. unfold weight. simpl.
    split_and!; try lia; [done|]. intros ? [= <-]. done.
  - destruct op, oc as [cm'|]; try done. injection Hoc as <-. simpl. unfold weight. simpl. rewrite Hrev.
    split_and!; try lia; done.
  - destruct op as [p'|], oc as [cm'|]; try done. injection Hop as <-. injection Hoc as <-.
    simpl. unfold weight. simpl. rewrite Hrev. split_and!; try lia; [done|]. intros ? [= <-]. done.
Qed.

Lemma wp_scan_participant pre u st t (Q : Scan -> State -> Prop) c :
  scanned pre st -> entry s rid u Precision -> same_user s t rid u ->
  (∀ st', scanned (pre ++ [u]) st' -> Q st' t) ->
  wp (scan_participant rid fp st u) Q c t.
Proof.
  intros [Hpot _ Ham Hpr Hrev Hmin Hsome Hws Hmask] He Hsame H. unfold scan_participant.
  wp_step. wp_step. wp_step. wp_step.
  destruct (precision_amount_stake t u _ _ He Hsame H0 H1) as (Hamt & Hg & _ & _).
  rewrite Hamt. do 2 wp_step. apply payout_add_Ok in H2 as [-> Hfit]. wp_step.
  assert (∀ b ws m,
    (∀ q, q ∈ guesses (pre ++ [u]) -> ∃ d, b = Some d ∧ d ≤ distance fp q) ->
    (is_Some b -> ws ≠ []) -> ws = filter (at_best fp b) (guesses (pre ++ [u])) ->
    m = wins s rid fp b <$> (pre ++ [u]) ->
    scanned (pre ++ [u]) {| sc_min_diff := b; sc_winners := ws;
      sc_total_pot := sc_total_pot st + stake s rid u;
      sc_participant_amounts := sc_participant_amounts st ++ [stake s rid u];
      sc_participant_prices := sc_participant_prices st ++ [from_option predicted_price 0 o];
      sc_participant_revealed := sc_participant_revealed st ++ [bool_decide (is_Some o)];
      sc_is_winner_mask := m |}) as Hstep.
  { intros. split; try done; simpl.
    - rewrite zsum_app, Hpot. simpl. lia.
    - lia.
    - by rewrite fmap_app, Ham.
    - by rewrite !length_app, Hpr.
    - by rewrite fmap_app, Hrev, Hg. }
  destruct o as [p|].
  - wp_step. wp_step. wp_step.
    destruct (rank_prediction _ _ _ _ _ _) as [[b ws] m] eqn:Hr. wp_step. apply H.
    eapply (rank_scanned pre u) in Hr as (? & ? & ? & ?); try done.
    + by apply Hstep.
    + by apply price_diff_distance.
  - wp_step. wp_step. apply H, Hstep.
    + intros q. rewrite guesses_app, guesses_one, <-Hg, app_nil_r. apply Hmin.
    + done.
    + by rewrite guesses_app, guesses_one, <-Hg, app_nil_r.
    + rewrite fmap_app, Hmask. simpl. unfold wins at 3. by rewrite <-Hg.
Qed.
End Scan.

(** ** The settlement *)

Lemma imap_zip {A B} (l : list A) (k : list B) d :
  length k = length l -> imap (λ i x, (x, default d (k !! i))) l = zip l k.
Proof.
  revert k. induction l as [|x l IH]; intros [|y k] Hlen; simplify_eq/=; [done|].
  f_equal. rewrite <-IH by done. done.
Qed.

Lemma snd_indexed {A} (l : list A) : (imap pair l).*2 = l.
Proof. rewrite fmap_imap. etrans; [apply (imap_const id)|apply list_fmap_id]. Qed.

Lemma elem_indexed {A} (l : list A) i x : (i, x) ∈ imap pair l -> l !! i = Some x.
Proof.
  intros (j & y & Hy & Hl)%elem_of_lookup_imap_1. by injection Hy as -> ->.
Qed.

Lemma zsum_snd {A} (l : list A) (k : list Z) :
  length k = length l -> zsum snd (zip l k) = zsum id k.
Proof.
  revert k. induction l as [|x l IH]; intros [|y k] Hlen; simplify_eq/=; [done|].
  rewrite IH by done. done.
Qed.

(** The winners of a Precision round: the closest revealed predictions, in
    address order. *)
Definition closest (s : State) (rid fp : Z) (ps : list Address) (ws : list PrecisionPrediction) : Prop :=
  ∃ d, (∀ q, q ∈ guesses s rid ps -> d ≤ distance fp q) ∧
       ws = filter (at_best fp (Some d)) (guesses s rid (sort_addresses ps)) ∧ ws ≠ [].

(** The fee and the shares of a Precision round: those of the fee function and of
    the payout policy on the stored terms. *)
Definition precision_terms (s : State) (pot : Z) (ws : list PrecisionPrediction) (fee : Z)
    (shares : list Z) : Prop :=
  ∃ pool policy, charged_precision s pot (zsum pred_amount ws) (pool, fee) ∧
    stored_policy s policy ∧ precision_shares policy ws pool = Ok shares.

(** Settling a Precision round with [fee] taken: if anyone revealed, the closest
    predictions share the whole pot less the fee; if nobody did, every stake is
    refunded.  Nothing is lost either way. *)
Record settles_precision (s : State) (rid : Z) (ps : list Address) (fp fee : Z) (s' : State) : Prop := {
  sp_fee : 0 ≤ fee ≤ zsum (stake s rid) ps;
  sp_fits : zsum (stake s rid) ps ≤ I128_MAX;
  sp_refund : guesses s rid ps = [] ->
    fee = 0 ∧ credited (participant_payoff ps (stake s rid)) (zsum (stake s rid) ps) s s';
  sp_paid : guesses s rid ps ≠ [] ->
    ∃ ws shares, closest s rid fp ps ws ∧ precision_terms s (zsum (stake s rid) ps) ws fee shares ∧
      length shares = length ws ∧ Forall (λ x, 0 ≤ x) shares ∧ zsum id shares = zsum (stake s rid) ps - fee ∧
      credited (each (λ w, pred_user w.1) snd (zip ws shares)) (zsum (stake s rid) ps) s s' }.

Lemma settles_precision_total s rid ps fp fee s' :
  settles_precision s rid ps fp fee s' -> total s' = total s + zsum (stake s rid) ps.
Proof.
  intros [_ _ Hr Hp]. destruct (decide (guesses s rid ps = [])) as [Hg|Hg].
  - by destruct (Hr Hg) as [_ [? _ _]].
  - destruct (Hp Hg) as (? & ? & _ & _ & _ & _ & _ & [? _ _]). done.
Qed.

Lemma wp_pay_winners rid ws shares (Q : () -> State -> Prop) c s :
  length shares = length ws ->
  (∀ s', credited (each (λ w, pred_user w.1) snd (zip ws shares)) (zsum id shares) s s' -> Q () s') ->
  wp (mfor (imap (λ i w, (w, default 0 (shares !! i))) ws) (pay_winner rid false)) Q c s.
Proof.
  intros Hlen H. rewrite imap_zip by done.
  apply (wp_mfor_credits (λ w, pred_user w.1) snd); [|by rewrite zsum_snd].
  intros [w p] s1 _ _. unfold pay_winner. do 2 wp_step. apply wp_accumulate_credits. intros s2 H2.
  apply wp_stats_win_credits. intros s3 H3. apply wp_persist_credits. intros s4 H4. simpl.
  by do 2 (eapply credited_then_nobody; [|done]).
Qed.

Lemma wp_record_losers rid st l (Q : () -> State -> Prop) c s :
  (∀ s', credited nobody 0 s s' -> Q () s') ->
  wp (mfor (imap pair l) (record_loser rid st)) Q c s.
Proof.
  intros H. apply (wp_mfor_credits snd (λ _, 0)).
  - intros [i u] s1 _ _. unfold record_loser. destruct (default false _).
    { apply wp_ret. by apply credited_nobody_only, credited_refl. }
    wp_step. wp_step. wp_step. wp_step. wp_step. wp_step. wp_step.
    apply (wp_mono _ (λ _ s2, credited nobody 0 s1 s2)).
    { destruct (_ : bool); [by apply wp_ret, credited_refl|by apply wp_emit_credits]. }
    intros _ s2 C2. wp_step. apply wp_emit_credits. intros s3 C3. wp_step.
    apply wp_stats_loss_credits. intros s4 C4. apply wp_persist_credits. intros s5 C5.
    apply credited_nobody_only. by do 3 (eapply credited_then_nobody; [|done]).
  - intros s' Hs'. apply H. eapply credited_ext; [exact Hs'| |by rewrite zsum_zero].
    intros u. unfold each. rewrite (zsum_ext _ (λ _, 0)); [by rewrite zsum_zero|].
    intros x _. apply only_zero.
Qed.

Lemma wp_refund_unrevealed rid st l (Q : () -> State -> Prop) c s :
  sc_participant_amounts st = stake s rid <$> l -> (∀ u, u ∈ l -> 0 < stake s rid u) ->
  (∀ s', credited (each id (stake s rid) l) (zsum (stake s rid) l) s s' -> Q () s') ->
  wp (mfor (imap pair l) (refund_unrevealed rid st)) Q c s.
Proof.
  intros Ham Hpos H. apply (wp_mfor_credits snd (λ iu, stake s rid iu.2)).
  - intros [i u] s1 Hin%elem_indexed _. unfold refund_unrevealed. rewrite Ham, list_lookup_fmap, Hin.
    simpl. assert (0 < stake s rid u) by (apply Hpos; by eapply list_elem_of_lookup_2).
    destruct (_ >? 0) eqn:?; zbool; [|lia].
    wp_step. apply wp_accumulate_credits. intros s2 H2. apply wp_persist_credits. intros s3 H3.
    by eapply credited_then_nobody.
  - intros s' Hs'. apply H. eapply credited_ext; [exact Hs'| |].
    + intros v. unfold each. rewrite <-(snd_indexed l) at 2. by rewrite zsum_fmap.
    + rewrite <-(snd_indexed l) at 2. by rewrite zsum_fmap.
Qed.

Section Resolve.
Context (s : State) (r : Round) (ps : list Address) (fp : Z).
Hypotheses (Hb : book s r ps) (Hm : mode r = Precision).
Notation rid := (round_id r).
Notation l := (sort_addresses ps).

Lemma precision_entry u : u ∈ ps -> entry s rid u Precision.
Proof. rewrite <-Hm. apply (book_entry _ _ _ Hb). Qed.

Lemma precision_stake_pos u : u ∈ ps -> 0 < stake s rid u.
Proof.
  intros Hu%precision_entry. destruct Hu as [Hpos He]. unfold stake, pos_at, pred_at, com_at in *.
  rewrite (slot_none _ _ Hpos).
  destruct He as [(p & E1 & E2 & Ha & Hu)|[(cm & E1 & E2 & Ha & Hrev)|(p & cm & E1 & E2 & Ha & Hu & Hrev)]];
    unfold slot; rewrite E1, E2; simpl; unfold weight; simpl; rewrite ?Hrev; lia.
Qed.

Lemma guess_stake u p : u ∈ ps -> guess s rid u = Some p -> pred_user p = u ∧ 0 < pred_amount p.
Proof.
  intros Hu%precision_entry Hg. unfold guess in Hg. destruct Hu as [_ He].
  destruct He as [(q & E1 & E2 & Ha & Hu)|[(cm & E1 & E2 & Ha & Hrev)|(q & cm & E1 & E2 & Ha & Hu & Hrev)]];
    rewrite E1 in Hg; by simplify_eq.
Qed.

Lemma guesses_positive p : p ∈ guesses s rid l -> 0 < pred_amount p.
Proof.
  intros (u & Hu & Hg)%list_elem_of_omap. apply (guess_stake u); [|done].
  by rewrite <-(sort_addresses_perm ps).
Qed.

Lemma guesses_sorted_perm : guesses s rid l ≡ₚ guesses s rid ps.
Proof. unfold guesses. by rewrite sort_addresses_perm. Qed.

Lemma wp_scan (Q : Scan -> State -> Prop) c :
  (∀ st, scanned s rid fp l st -> Q st s) ->
  wp (mfold l start_scan (scan_participant rid fp)) Q c s.
Proof.
  intros H. apply (wp_mfold (λ pre st t, t = s ∧ scanned s rid fp pre st)).
  - split; [done|]. split; try done; simpl.
    + intros p Hp. by apply not_elem_of_nil in Hp.
    + by intros [? ?].
  - intros pre u post st t Hl [-> Hst].
    assert (u ∈ ps) as Hu by (rewrite <-(sort_addresses_perm ps), Hl; set_solver).
    eapply wp_scan_participant; [exact Hst|by apply precision_entry|done|]. auto.
  - intros st t [-> Hst]. auto.
Qed.

Lemma scanned_closest st :
  scanned s rid fp l st -> sc_winners st ≠ [] -> closest s rid fp ps (sc_winners st).
Proof.
  intros [_ _ _ _ _ Hmin _ Hws _] Hne. destruct (sc_winners st) as [|w ws] eqn:Ew; [done|].
  assert (w ∈ filter (at_best fp (sc_min_diff st)) (guesses s rid l)) as Hw
    by (rewrite <-Hws; set_solver).
  apply list_elem_of_filter in Hw as [_ Hw]. destruct (Hmin w Hw) as (d & Hd & _).
  exists d. split_and!; [|by rewrite <-Hd|done].
  intros q Hq. rewrite <-guesses_sorted_perm in Hq. destruct (Hmin q Hq) as (d' & Hd' & ?).
  assert (d' = d) by congruence. lia.
Qed.

Lemma scanned_none st : scanned s rid fp l st -> sc_winners st = [] -> guesses s rid ps = [].
Proof.
  intros [_ _ _ _ _ Hmin Hsome _ _] Hne. apply Permutation_nil_r. rewrite <-guesses_sorted_perm.
  destruct (guesses s rid l) as [|q qs] eqn:Hq; [done|].
  destruct (Hmin q) as (d & Hd & _); [set_solver|]. exfalso. apply Hsome; [by rewrite Hd|done].
Qed.

Lemma wp_resolve_precision (Q : Z * Z -> State -> Prop) c :
  fee_config_ok s ->
  (∀ fee s', settles_precision s rid ps fp fee s' -> Q (fee, zsum (stake s rid) ps) s') ->
  wp (_resolve_precision_mode rid fp false) Q c s.
Proof.
  intros Hfee H. unfold _resolve_precision_mode. wp_step. wp_step.
  rewrite (book_participants _ _ _ _ Hb H0).
  assert (∀ u, u ∈ l -> u ∈ ps) as Hin by (intros u; by rewrite sort_addresses_perm).
  assert (zsum (stake s rid) l = zsum (stake s rid) ps) as Hsum by by rewrite sort_addresses_perm.
  pose proof (zsum_pos (stake s rid) ps precision_stake_pos) as Hpot.
  case_bool_decide as Hl.
  { assert (ps = []) as Hps by (apply Permutation_nil_r; by rewrite <-(sort_addresses_perm ps), Hl).
    wp_step. rewrite Hps in *. apply (H 0). split; [simpl; lia|unfold I128_MAX; simpl; lia| |done]. intros _. split; [done|].
    eapply credited_ext; [by apply credited_refl| |done]. intros u. unfold participant_payoff.
    by rewrite bool_decide_false by apply not_elem_of_nil. }
  assert (ps ≠ []) as Hps by (intros Hps; apply Hl; by rewrite Hps).
  specialize (Hpot Hps). wp_step. apply wp_scan. intros st Hst.
  pose proof (scd_pot _ _ _ _ _ Hst) as Htot. pose proof (scd_fits _ _ _ _ _ Hst) as Hfits.
  rewrite Hsum in Htot. rewrite Htot in *.
  assert ((zsum (stake s rid) ps >? 0) = true) as -> by (apply Z.gtb_lt; lia).
  case_bool_decide as Hw; simpl.
  - pose proof (scanned_none _ Hst Hw) as Hg. wp_step.
    apply wp_refund_unrevealed; [apply Hst|intros u Hu; by apply precision_stake_pos, Hin|].
    intros s1 Hs1. wp_step. apply (H 0). split; [lia|done| |done]. intros _. split; [done|].
    eapply credited_ext; [exact Hs1| |by rewrite Hsum]. intros u.
    apply each_participants; [apply Hb|apply sort_addresses_perm].
  - pose proof (scanned_closest _ Hst Hw) as Hclose.
    assert (∀ w, w ∈ sc_winners st -> 0 < pred_amount w) as Hws.
    { destruct Hst as [_ _ _ _ _ _ _ -> _]. intros w [_ Hg]%list_elem_of_filter.
      by apply guesses_positive. }
    wp_step. wp_step. apply stakes_total in H1 as ->.
    wp_step. apply wp_apply_fee_precision; [done|lia| |].
    { apply zsum_nonneg. intros w Hx. by apply Z.lt_le_incl, Hws. }
    intros pool fee s1 Hch Hpool Hp0 Hf Ht Hk. pose proof (fee_credits _ _ _ Ht Hk) as C1.
    wp_step. apply wp_calculate_payouts; [done| |].
    { intros w Hx. by apply Z.lt_le_incl, Hws. }
    intros policy shares s2 Hpol Hshares Hlen Hpos Hsh Hs2. apply credited_refl in Hs2 as C2. specialize (Hsh Hw).
    wp_step. apply wp_pay_winners; [done|]. intros s3 C3.
    wp_step. apply wp_record_losers. intros s4 C4. wp_step. apply H. split; [lia|done| |].
    + intros Hg. exfalso. apply Hw. destruct Hst as [_ _ _ _ _ _ _ -> _].
      assert (guesses s rid l = []) as ->; [|done].
      apply Permutation_nil_r. by rewrite guesses_sorted_perm, Hg.
    + intros _. exists (sc_winners st), shares. split_and!; try done; [|lia|].
      { exists pool, policy. split_and!; [done| |done]. destruct Hpol as (x & Hx & ->). exists x.
        by rewrite <-Hk by done. }
      eapply credited_ext.
      * eapply credited_then_nobody; [|exact C4].
        eapply credited_trans; [eapply credited_then_nobody; [exact C1|exact C2]|exact C3].
      * intros u. unfold nobody. lia.
      * lia.
Qed.
End Resolve.
