(* ===== verification/LegacySpec.v ===== *)
(** * The two layouts settle alike

    Moving a legacy round's map into per-user entries changes nothing about its
    settlement: the default build on the moved entries and the legacy build on the
    map return the same, fail alike and leave the same state. *)

From S2P Require Export Legacy Blind PrecisionFacts.

(** ** The keys of a map *)

Lemma elem_of_map_keys {A} (m : gmap Address A) u : u ∈ map_keys m <-> is_Some (m !! u).
Proof. unfold map_keys. rewrite merge_sort_Permutation, elem_of_elements. apply elem_of_dom. Qed.

Lemma map_keys_nil {A} (m : gmap Address A) : map_keys m = [] <-> m = ∅.
Proof.
  split; [|by intros ->]. intros Hm. apply map_empty. intros u. apply eq_None_not_Some.
  rewrite <-elem_of_map_keys, Hm. apply not_elem_of_nil.
Qed.

Lemma NoDup_map_keys {A} (m : gmap Address A) : NoDup (map_keys m).
Proof. unfold map_keys. rewrite merge_sort_Permutation. apply NoDup_elements. Qed.

(** Sorting what is sorted. *)
Lemma sort_map_keys {A} (m : gmap Address A) : sort_addresses (map_keys m) = map_keys m.
Proof.
  apply (Sorted_unique N.le); [apply sort_addresses_sorted| |apply sort_addresses_perm].
  apply Sorted_merge_sort. intros x y. lia.
Qed.

(** ** Moving a map into entries *)

Section Indexed.
Context {A : Type} (rid : Z) (key : Address -> Key) (con : A -> Val) (m : gmap Address A).

(** The entries of a round in the present layout. *)
Definition indexed : gmap Key Val :=
  <[K_RoundParticipants rid := VAddrs (map_keys m)]> (kmap key (con <$> m)).

Context `{!Inj (=) (=) key} (Hkey : ∀ u, entry_key (key u) = true ∧ key u ≠ K_RoundParticipants rid).

Lemma indexed_entry u x : m !! u = Some x -> indexed !! key u = Some (con x).
Proof.
  intros Hx. unfold indexed. rewrite lookup_insert_ne by (apply not_eq_sym, Hkey).
  by rewrite lookup_kmap, lookup_fmap, Hx.
Qed.

Lemma indexed_within : within entries indexed.
Proof.
  intros k Hk. unfold indexed in Hk. destruct (decide (k = K_RoundParticipants rid)) as [->|Hne]; [done|].
  rewrite lookup_insert_ne in Hk by done. destruct Hk as [v Hv].
  apply lookup_kmap_Some in Hv as (u & -> & _); [|done]. apply Hkey.
Qed.

Lemma indexed_participants s :
  persistent (with_entries indexed s) !! K_RoundParticipants rid = enc cAddrs <$> Some (map_keys m).
Proof. apply entries_put, lookup_insert_eq. Qed.
End Indexed.

(** ** UpDown *)

Section Updown.
Context (rid : Z) (m : gmap Address UserPosition).

Definition moved_positions : gmap Key Val := indexed rid (K_Position rid) VPosition m.

Lemma position_keys u : entry_key (K_Position rid u) = true ∧ K_Position rid u ≠ K_RoundParticipants rid.
Proof. done. Qed.

#[local] Instance position_inj : Inj (=) (=) (K_Position rid).
Proof. by intros u v [= ->]. Qed.

Lemma moved_within : within entries moved_positions.
Proof. apply indexed_within, position_keys; apply _. Qed.
Hint Resolve moved_within : core.

Ltac both := apply (in_step_blind _ entries); [done|no_entry].

Lemma side_number (b : BetSide) : side_u32 b = match b with Up => 0 | Down => 1 end.
Proof. by destruct b. Qed.

Lemma refund_in_step u :
  u ∈ map_keys m ->
  in_step moved_positions (refund_position rid 0 OutRefund u) (refund_legacy_position rid m u).
Proof.
  intros [p Hp]%elem_of_map_keys. unfold refund_position, refund_legacy_position. rewrite Hp.
  apply (in_step_pget _ cPosition _ p); [exact (indexed_entry rid (K_Position rid) VPosition m position_keys u p Hp)|].
  rewrite side_number. both.
Qed.

Lemma pay_in_step w pool total u :
  u ∈ map_keys m ->
  in_step moved_positions (pay_position rid w pool total u) (pay_legacy_position rid m w pool total u).
Proof.
  intros [p Hp]%elem_of_map_keys. unfold pay_position, pay_legacy_position. rewrite Hp.
  apply (in_step_pget _ cPosition _ p); [exact (indexed_entry rid (K_Position rid) VPosition m position_keys u p Hp)|].
  rewrite side_number. both.
Qed.

Lemma refunds_in_step :
  in_step moved_positions (_record_refunds_indexed rid 0 (map_keys m)) (_record_refunds_legacy rid m).
Proof. apply mfor_in_step, refund_in_step. Qed.

Lemma winnings_in_step w pool losing :
  in_step moved_positions (_record_winnings_indexed rid (map_keys m) w pool losing)
    (_record_winnings_legacy rid m w pool losing).
Proof.
  unfold _record_winnings_indexed, _record_winnings_legacy. destruct (pool =? 0); [both|].
  apply in_step_bind; [both|]. intros [[dw dl] fee]. apply in_step_bind; [both|]. intros total.
  apply in_step_bind; [|intros; both]. apply mfor_in_step, pay_in_step.
Qed.

Lemma refunds_or_nothing :
  in_step moved_positions
    (if bool_decide (map_keys m = []) then mret () else _record_refunds_indexed rid 0 (map_keys m))
    (_record_refunds_legacy rid m).
Proof.
  case_bool_decide as Hm; [|apply refunds_in_step]. unfold _record_refunds_legacy. rewrite Hm.
  by intros c s.
Qed.
End Updown.

Lemma one_sided_in_step round policy m :
  in_step (moved_positions (round_id round) m)
    (Payouts._apply_one_sided_policy round policy (map_keys m))
    (Legacy._apply_one_sided_policy round policy [] (Some m)).
Proof.
  intros c s. unfold Legacy._apply_one_sided_policy, Payouts._apply_one_sided_policy.
  rewrite (bool_decide_true (([] : list Address) = [])) by done.
  destruct policy; rewrite bind_bind; (apply in_step_bind; [apply refunds_or_nothing|intros []]);
    (apply (in_step_blind _ entries); [apply moved_within|no_entry]).
Qed.

(** C24: moving the position map of a legacy UpDown round into per-user entries does not
    change its settlement: the default build on the moved entries returns what the legacy build
    returns on the map, with the same errors, and every slot but the moved ones ends the same. *)
Theorem legacy_updown_agrees round final_price o c s :
  persistent s !! K_RoundParticipants (round_id round) = None ->
  persistent s !! K_UpDownPositions = VPositionMap <$> o ->
  let e := moved_positions (round_id round) (default ∅ o) in
  Payouts._resolve_updown_mode round final_price c (with_entries e s) =
  over e (Legacy._resolve_updown_mode round final_price c s).
Proof.
  intros Hps Ho e. set (rid := round_id round). set (m := default ∅ o).
  unfold Payouts._resolve_updown_mode, Legacy._resolve_updown_mode.
  rewrite (read_or cAddrs _ _ (Some (map_keys m))) by apply indexed_participants.
  rewrite (read_or cAddrs _ _ None) by done.
  cbv zeta. change (default [] (Some (map_keys m))) with (map_keys m). rewrite sort_map_keys.
  change (sort_addresses (default [] None)) with (@nil Address).
  rewrite (bool_decide_true (([] : list Address) = [])) by done.
  assert (persistent (with_entries e s) !! K_UpDownPositions = enc cPositionMap <$> o) as Ho'.
  { rewrite (entries_other entries); [done|apply moved_within|done]. }
  destruct (is_one_sided_pool _ _); cbn [negb].
  - transitivity ((Payouts._apply_one_sided_policy round PolRefund (map_keys m) ≫= λ fee, mret (true, fee))
      c (with_entries e s)).
    { case_bool_decide; [|done]. rewrite !bind_bind. by rewrite (read cPositionMap _ o). }
    rewrite !bind_bind, (read_or cPositionMap _ _ o), ret_bind by done.
    refine (in_step_bind e _ _ _ _ _ _ c s); [apply one_sided_in_step|by intros fee c' s'].
  - rewrite !bind_bind, (read_or cPositionMap _ _ o) by done. fold m.
    case_bool_decide as Hm; rewrite map_keys_nil in Hm; [by rewrite bool_decide_true|].
    rewrite bool_decide_false by done. refine (in_step_bind e _ _ _ _ _ _ c s); [|by intros fee c' s'].
    destruct (classify_price_direction _ _); [apply winnings_in_step..|].
    apply in_step_bind; [apply refunds_in_step|by intros [] c' s'].
Qed.

(** ** Precision: the scans *)

Definition ranked (fp : Z) (acc : option Z * list PrecisionPrediction) (p : PrecisionPrediction) :=
  rank_legacy p (distance fp p) acc.

Definition u128_price (p : PrecisionPrediction) : Prop := 0 ≤ predicted_price p ≤ U128_MAX.
#[export] Instance u128_price_dec p : Decision (u128_price p) := ltac:(unfold u128_price; apply _).

Section Scans.
Context (rid fp : Z) (Hfp : 0 ≤ fp ≤ U128_MAX).

Lemma price_diff_total p : u128_price p -> price_diff (predicted_price p) fp = Some (distance fp p).
Proof.
  unfold u128_price, price_diff, distance, u128_checked_sub. intros Hp.
  destruct (_ >=? _) eqn:Hc; zbool; apply checked_Some; rewrite in_u128_spec; lia.
Qed.

(** Distances of 128-bit prices never fail, so the legacy scan is a fold. *)
Lemma legacy_winners_total l :
  Forall u128_price l -> legacy_winners fp l = Ok (foldl (ranked fp) (None, []) l).
Proof.
  unfold legacy_winners. generalize (@None Z, @nil PrecisionPrediction). intros acc Hl. revert acc.
  induction Hl as [|p l Hp _ IH]; intros acc; [done|]. cbn [ofold foldl].
  rewrite price_diff_total by done. apply IH.
Qed.

(** The locals of the default scan after the predictions [pre], all revealed. *)
Record tracks (pre : list PrecisionPrediction) (acc : option Z * list PrecisionPrediction) (pot : Z)
    (st : Scan) : Prop := {
  tr_best : (sc_min_diff st, sc_winners st) = acc;
  tr_pot : sc_total_pot st = pot;
  tr_amounts : sc_participant_amounts st = pred_amount <$> pre;
  tr_prices : sc_participant_prices st = predicted_price <$> pre;
  tr_revealed : sc_participant_revealed st = (λ _, true) <$> pre;
  tr_mask : sc_is_winner_mask st = is_legacy_winner acc.2 <$> pre;
  tr_among : ∀ w, w ∈ acc.2 -> pred_user w ∈ pred_user <$> pre }.

Lemma is_winner_spec ws p : is_legacy_winner ws p = true <-> pred_user p ∈ pred_user <$> ws.
Proof.
  unfold is_legacy_winner. rewrite existsb_exists, list_elem_of_fmap. setoid_rewrite bool_decide_eq_true.
  setoid_rewrite <-list_elem_of_In. naive_solver.
Qed.

Lemma is_winner_ext ws ws' p :
  (pred_user p ∈ pred_user <$> ws <-> pred_user p ∈ pred_user <$> ws') ->
  is_legacy_winner ws p = is_legacy_winner ws' p.
Proof. rewrite <-!is_winner_spec. intros H. apply eq_true_iff_eq, H. Qed.

Lemma insert_past_end {A} n (l : list A) x y : length l = n -> <[n := x]> (l ++ [y]) = l ++ [x].
Proof. intros <-. apply insert_last. Qed.

(** The mask of the default scan says who the winners of the legacy scan are. *)
Lemma rank_tracks pre p d best ws :
  pred_user p ∉ pred_user <$> pre -> (∀ w, w ∈ ws -> pred_user w ∈ pred_user <$> pre) ->
  let acc := rank_legacy p d (best, ws) in
  rank_prediction p d (length pre) best ws ((is_legacy_winner ws <$> pre) ++ [false]) =
    (acc.1, acc.2, is_legacy_winner acc.2 <$> (pre ++ [p])) ∧
  ∀ w, w ∈ acc.2 -> pred_user w ∈ pred_user <$> (pre ++ [p]).
Proof.
  intros Hp Hws.
  assert (∀ q, q ∈ pre -> pred_user q ≠ pred_user p) as Hne.
  { intros q Hq E. apply Hp. rewrite <-E. by apply list_elem_of_fmap_2. }
  assert (is_legacy_winner ws p = false) as Hpf.
  { apply not_true_iff_false. rewrite is_winner_spec. intros (w & E & Hw)%list_elem_of_fmap.
    apply Hp. rewrite E. by apply Hws. }
  assert (∀ ws', (∀ q, q ∈ pre -> (pred_user q ∈ pred_user <$> ws' <-> pred_user q ∈ pred_user <$> ws)) ->
    is_legacy_winner ws' <$> pre = is_legacy_winner ws <$> pre) as Hext.
  { intros ws' He. apply list_fmap_ext. intros i q Hq%list_elem_of_lookup_2. apply is_winner_ext. by apply He. }
  assert (length (is_legacy_winner ws <$> pre) = length pre) as Hlen by apply length_fmap.
  assert (∀ w, w ∈ ws ++ [p] -> pred_user w ∈ pred_user <$> (pre ++ [p])) as Happ.
  { intros w [Hw| ->%list_elem_of_singleton]%elem_of_app; rewrite fmap_app; [set_solver|set_solver]. }
  assert (is_legacy_winner (ws ++ [p]) <$> (pre ++ [p]) = (is_legacy_winner ws <$> pre) ++ [true]) as Hmask.
  { rewrite fmap_app. f_equal.
    - apply Hext. intros q Hq. rewrite fmap_app. specialize (Hne q Hq). set_solver.
    - simpl. f_equal. apply is_winner_spec. rewrite fmap_app. set_solver. }
  unfold rank_legacy, rank_prediction. destruct best as [b|]; [destruct (d <? b); [|destruct (d =? b)]|]; simpl.
  - split.
    + f_equal. rewrite drop_app_length', insert_past_end, fmap_app by (done || apply length_replicate). f_equal.
      * symmetry. apply const_fmap. intros i q Hq%list_elem_of_lookup_2.
        apply not_true_iff_false. rewrite is_winner_spec. specialize (Hne q Hq). set_solver.
      * simpl. by rewrite bool_decide_true.
    + intros w ->%list_elem_of_singleton. rewrite fmap_app. set_solver.
  - split; [|done]. f_equal. by rewrite insert_past_end, Hmask.
  - split; [|intros w Hw; rewrite fmap_app; set_solver]. by rewrite fmap_app, <-Hpf.
  - split; [|done]. f_equal. by rewrite insert_past_end, Hmask.
Qed.

(** The result [r] of a loop is [o], and a state of the scan that tracks it. *)
Definition tracked (pre : list PrecisionPrediction) (acc : option Z * list PrecisionPrediction)
    (o : outcome Z) (t : State) (r : outcome Scan * State) : Prop :=
  match o with
  | Ok pot => ∃ st, r = (Ok st, t) ∧ tracks pre acc pot st
  | Err e => r = (Err e, t)
  | Panic => r = (Panic, t)
  end.

Definition stored (t : State) (p : PrecisionPrediction) : Prop :=
  persistent t !! K_PrecisionPosition rid (pred_user p) = Some (VPrediction p) ∧
  persistent t !! K_PrecisionCommitment rid (pred_user p) = None.

(** One more participant. *)
Lemma scan_one pre acc pot st p c t :
  tracks pre acc pot st -> pred_user p ∉ pred_user <$> pre -> u128_price p -> stored t p ->
  tracked (pre ++ [p]) (ranked fp acc p) (payout_add pot (pred_amount p)) t
    (scan_participant rid fp st (pred_user p) c t).
Proof.
  intros [Hb Hpot Ha Hpr Hr Hm Hw] Hp Hpp [Hpos Hcom]. unfold scan_participant.
  rewrite (read cPrediction _ (Some p)), (read cCommitment _ None) by done. cbv zeta.
  cbn [precision_amount from_option]. rewrite Hpot. unfold tracked.
  unfold mbind at 1, M_bind at 1, lift at 1.
  destruct (payout_add pot (pred_amount p)) as [pot'|e|]; [|done..].
  rewrite price_diff_total by done. rewrite Hm, length_fmap, Ha, Hpr, Hr.
  destruct acc as [best ws]. injection Hb as Hb Hws. rewrite Hb, Hws.
  destruct (rank_tracks pre p (distance fp p) best ws Hp Hw) as [Hrank Hw'].
  simpl in Hrank. unfold mbind, M_bind, ok_or, mret, M_ret. simpl. rewrite Hrank.
  eexists. split; [done|]. unfold ranked.
  split; simpl; [by rewrite <-surjective_pairing|done|by rewrite fmap_app..|exact Hw'].
Qed.

Lemma scan_tracks l pre acc pot st c t :
  tracks pre acc pot st -> NoDup (pred_user <$> pre ++ l) -> Forall u128_price l -> Forall (stored t) l ->
  tracked (pre ++ l) (foldl (ranked fp) acc l) (ofold l pot (λ acc p, payout_add acc (pred_amount p))) t
    (mfold (pred_user <$> l) st (scan_participant rid fp) c t).
Proof.
  intros Htr Hnd Hl Ht. revert pre acc pot st Htr Hnd.
  induction Hl as [|p l Hp _ IH]; intros pre acc pot st Htr Hnd.
  { exists st. by rewrite app_nil_r. }
  apply Forall_cons in Ht as [Hst Ht].
  assert (pred_user p ∉ pred_user <$> pre) as Hnew.
  { rewrite fmap_app, NoDup_app in Hnd. destruct Hnd as (_ & Hnd & _). intros Hin.
    apply (Hnd _ Hin). simpl. set_solver. }
  pose proof (scan_one _ _ _ _ p c t Htr Hnew Hp Hst) as Hone.
  change (pred_user <$> p :: l) with (pred_user p :: (pred_user <$> l)). cbn [ofold mfold foldl].
  unfold tracked in Hone. unfold mbind, M_bind, outcome_bind.
  destruct (payout_add pot (pred_amount p)) as [pot'|e|]; [|by rewrite Hone..].
  destruct Hone as (st' & -> & Htr'). replace (pre ++ p :: l) with ((pre ++ [p]) ++ l) by by rewrite <-app_assoc.
  apply IH; [done..|]. by rewrite <-app_assoc.
Qed.

(** The first prediction is closest so far: someone wins. *)
Lemma ranked_some l acc : acc.1 ≠ None -> acc.2 ≠ [] -> (foldl (ranked fp) acc l).2 ≠ [].
Proof.
  revert acc. induction l as [|p l IH]; intros [best ws] H1 H2; [done|]. cbn [foldl].
  destruct best as [b|]; [|done]. simpl in H2.
  apply IH; unfold ranked, rank_legacy; destruct (_ <? b); try done; destruct (_ =? b); try done; simpl;
    intros Hn; by apply app_eq_nil in Hn as [_ ?].
Qed.
End Scans.

(** ** Precision: the two builds *)

Section Precision.
Context (rid fp : Z) (m : gmap Address PrecisionPrediction).

Definition moved_predictions : gmap Key Val := indexed rid (K_PrecisionPosition rid) VPrediction m.

#[local] Instance prediction_inj : Inj (=) (=) (K_PrecisionPosition rid).
Proof. by intros u v [= ->]. Qed.

Lemma prediction_keys u :
  entry_key (K_PrecisionPosition rid u) = true ∧ K_PrecisionPosition rid u ≠ K_RoundParticipants rid.
Proof. done. Qed.

Lemma predictions_within : within entries moved_predictions.
Proof. apply indexed_within, prediction_keys; apply _. Qed.

Lemma elem_of_map_values p : p ∈ map_values m -> ∃ u, m !! u = Some p.
Proof. unfold map_values. intros (u & _ & Hu)%list_elem_of_omap. by exists u. Qed.

(** Each prediction is filed under its own user. *)
Definition own_keys : Prop := ∀ u p, m !! u = Some p -> pred_user p = u.

Lemma users_of_values : own_keys -> pred_user <$> map_values m = map_keys m.
Proof.
  intros Hown.
  assert (∀ l, (∀ u, u ∈ l -> is_Some (m !! u)) -> pred_user <$> (omap (m !!.) l : list _) = l) as Hl.
  { induction l as [|u l IH]; intros Hu; [done|]. destruct (Hu u) as [p Hp]; [set_solver|].
    cbn [omap list_omap]. rewrite Hp. cbn [fmap list_fmap]. rewrite (Hown u p Hp). f_equal. apply IH.
    set_solver. }
  apply (Hl (map_keys m)). intros u. apply elem_of_map_keys.
Qed.



Ltac both := apply (in_step_blind _ entries); [apply predictions_within|no_entry].

Lemma pay_winner_in_step w :
  in_step moved_predictions (pay_winner rid false w) (pay_legacy_winner rid w).
Proof.
  destruct w as [w payout]. intros c s. unfold pay_winner, pay_legacy_winner. rewrite bind_bind.
  revert c s. both.
Qed.

(** The loser loops go through the participants and the predictions in the same order. *)
Lemma losers_in_step preds acc pot st :
  tracks preds acc pot st ->
  in_step moved_predictions (mfor (imap pair (pred_user <$> preds)) (record_loser rid st))
    (mfor preds (record_legacy_loser rid acc.2)).
Proof.
  intros Htr. apply in_step_mfor, Forall2_same_length_lookup. split; [by rewrite length_imap, length_fmap|].
  intros i [j u] p Hj Hp. rewrite list_lookup_imap, list_lookup_fmap, Hp in Hj. injection Hj as <- <-.
  unfold record_loser, record_legacy_loser.
  rewrite (tr_mask _ _ _ _ Htr), (tr_amounts _ _ _ _ Htr), (tr_prices _ _ _ _ Htr), (tr_revealed _ _ _ _ Htr).
  rewrite !list_lookup_fmap, Hp. simpl. destruct (is_legacy_winner acc.2 p); [both|]. both.
Qed.

(** Fee, shares and the two loops, once the winners are known. *)
Lemma payouts_in_step preds acc pot st winner_stakes :
  tracks preds acc pot st -> pred_user <$> preds = map_keys m ->
  in_step moved_predictions
    (f ← _apply_protocol_fee_precision rid pot winner_stakes;
     let '(payout_pool, fee_amount) := f in
     payouts ← _calculate_precision_payouts acc.2 payout_pool;
     mfor (imap (λ i w, (w, default 0 (payouts !! i))) acc.2) (pay_winner rid false) ;;
     mfor (imap pair (map_keys m)) (record_loser rid st) ;;
     mret (fee_amount, pot))
    (f ← _apply_protocol_fee_precision rid pot winner_stakes;
     let '(payout_pool, fee) := f in
     payouts ← _calculate_precision_payouts acc.2 payout_pool;
     mfor (imap (λ i w, (w, default 0 (payouts !! i))) acc.2) (pay_legacy_winner rid) ;;
     mfor preds (record_legacy_loser rid acc.2) ;;
     mret (fee, pot)).
Proof.
  intros Htr Hkeys. rewrite <-Hkeys.
  apply in_step_bind; [both|]. intros [pool fee]. apply in_step_bind; [both|]. intros payouts.
  apply in_step_bind; [|intros []; apply in_step_bind; [by eapply losers_in_step|intros []; both]].
  apply mfor_in_step. intros w _. apply pay_winner_in_step.
Qed.

Lemma nonempty_values : m ≠ ∅ -> own_keys -> map_values m ≠ [].
Proof.
  intros Hm Hown Hv. apply Hm, map_keys_nil. by rewrite <-(users_of_values Hown), Hv.
Qed.

(** The default scan over the moved entries finds what the legacy scan finds. *)
Lemma moved_scan c s :
  0 ≤ fp ≤ U128_MAX -> own_keys -> (∀ u p, m !! u = Some p -> u128_price p) ->
  (∀ u, u ∈ map_keys m -> persistent s !! K_PrecisionCommitment rid u = None) ->
  tracked (map_values m) (foldl (ranked fp) (None, []) (map_values m))
    (ofold (map_values m) 0 (λ acc p, payout_add acc (pred_amount p))) (with_entries moved_predictions s)
    (mfold (map_keys m) start_scan (scan_participant rid fp) c (with_entries moved_predictions s)).
Proof.
  intros Hfp Hown Hpr Hcom. rewrite <-(users_of_values Hown).
  apply (scan_tracks rid fp Hfp (map_values m) []).
  - split; try done. intros w Hw. by apply not_elem_of_nil in Hw.
  - simpl. rewrite (users_of_values Hown). apply NoDup_map_keys.
  - apply Forall_forall. intros p (u & Hu)%elem_of_map_values. by eapply Hpr.
  - apply Forall_forall. intros p (u & Hu)%elem_of_map_values. rewrite <-(Hown u p Hu) in Hu. split.
    + by apply entries_put, (indexed_entry rid (K_PrecisionPosition rid) VPrediction m prediction_keys).
    + simpl. rewrite lookup_union_r; [apply Hcom, elem_of_map_keys; by eexists|].
      apply eq_None_not_Some. intros [v Hv].
      unfold moved_predictions, indexed in Hv. rewrite lookup_insert_ne in Hv by done.
      by apply (lookup_kmap_Some (K_PrecisionPosition rid)) in Hv as (w & [=] & _).
Qed.
End Precision.

(** C25: moving the prediction map of a legacy Precision round into per-user entries does
    not change its settlement: when each prediction is filed under its own user, no one left an
    unopened commitment and the prices fit in 128 bits, the default build on the moved
    entries returns what the legacy build returns on the map, with the same errors, and every
    slot but the moved ones ends the same. *)
Theorem legacy_precision_agrees rid fp o c s :
  let m := default ∅ o in let e := moved_predictions rid m in
  persistent s !! K_RoundParticipants rid = None ->
  persistent s !! K_PrecisionPositions = VPredictionMap <$> o ->
  (∀ u, u ∈ map_keys m -> persistent s !! K_PrecisionCommitment rid u = None) ->
  own_keys m -> (∀ u p, m !! u = Some p -> u128_price p) -> 0 ≤ fp ≤ U128_MAX ->
  Payouts._resolve_precision_mode rid fp false c (with_entries e s) =
  over e (Legacy._resolve_precision_mode rid fp false c s).
Proof.
  intros m e Hps Ho Hcom Hown Hpr Hfp.
  pose proof (moved_scan rid fp m c s Hfp Hown Hpr Hcom) as Hscan.
  unfold Payouts._resolve_precision_mode, Legacy._resolve_precision_mode.
  rewrite (read_or cAddrs _ _ (Some (map_keys m))) by apply indexed_participants.
  rewrite (read_or cAddrs _ _ None) by done.
  cbv zeta. change (default [] (Some (map_keys m))) with (map_keys m). rewrite sort_map_keys.
  change (sort_addresses (default [] None)) with (@nil Address).
  rewrite (bool_decide_true (([] : list Address) = [])) by done.
  rewrite (read_or cPredictionMap _ _ o) by done. fold m.
  case_bool_decide as Hm; rewrite map_keys_nil in Hm; [by rewrite bool_decide_true|].
  rewrite bool_decide_false by done.
  unfold _resolve_precision_legacy. rewrite bool_decide_false by by apply nonempty_values.
  rewrite legacy_winners_total; [|done|].
  2:{ apply Forall_forall. intros p (u & Hu)%elem_of_map_values. by eapply Hpr. }
  rewrite (bind_ok (lift (Ok _)) _ _ c s s) by done.
  set (acc := foldl _ _ _) in *. destruct acc as [best winners] eqn:Hacc.
  unfold tracked in Hscan. destruct (ofold (map_values m) 0 _) as [pot|er|] eqn:Hpot.
  2:{ by rewrite (bind_err _ _ _ _ _ _ Hscan). }
  2:{ by rewrite (bind_panic _ _ _ _ _ Hscan). }
  destruct Hscan as (st & Hst & Htr). rewrite (bind_ok _ _ _ _ _ _ Hst), (bind_ok (lift (Ok pot)) _ _ c s s) by done.
  pose proof (tr_best _ _ _ _ Htr) as [= _ Hws]. pose proof (tr_pot _ _ _ _ Htr) as Hp. rewrite Hws, Hp.
  assert (winners ≠ []) as Hne.
  { pose proof (nonempty_values m Hm Hown) as Hv. change winners with (best, winners).2. rewrite <-Hacc.
    unfold acc. destruct (map_values m) as [|p l]; [done|].
    by apply (ranked_some fp l (Some (distance fp p), [p])). }
  rewrite bool_decide_false by done. cbn [negb andb].
  destruct (pot >? 0); [|done].
  refine (in_step_bind e _ _ _ _ _ _ c s);
    [apply (in_step_blind _ entries); [apply predictions_within|apply blind_lift]|].
  intros stakes. exact (payouts_in_step rid m _ _ pot st stakes Htr (users_of_values m Hown)).
Qed.
