(* ===== verification/Settlement.v ===== *)
(** * Ending a round

    The life-cycle half of contracts/src/settlement.rs: cancelling a round,
    settling it (with the minimum-participants fallback and the dispute window),
    voiding or finalizing a disputed result. *)

From S2P Require Export PrecisionFacts Insurance.

(** ** The staged results

    One persistent map from round id to the staged settlement. *)

Definition _read_pending_dispute (round_id : Z) : M (option PendingDisputeSettlement) :=
  b ← phas K_PendingDisputes;
  (if (b : bool) then pextend_ttl K_PendingDisputes TTL_BUMP_THRESHOLD TTL_BUMP_AMOUNT else mret ()) ;;
  pending ← pget_or cDisputes K_PendingDisputes ∅;
  mret (pending !! round_id).

Definition _write_pending_dispute (settlement : PendingDisputeSettlement) : M () :=
  pending ← pget_or cDisputes K_PendingDisputes ∅;
  pset cDisputes K_PendingDisputes (<[round_id (pd_round settlement) := settlement]> pending) ;;
  pextend_ttl K_PendingDisputes TTL_BUMP_THRESHOLD TTL_BUMP_AMOUNT.

Definition _remove_pending_dispute (round_id : Z) : M () :=
  pending ← pget_or cDisputes K_PendingDisputes ∅;
  let pending := delete round_id pending in
  if bool_decide (pending = ∅) then premove K_PendingDisputes
  else pset cDisputes K_PendingDisputes pending ;;
       pextend_ttl K_PendingDisputes TTL_BUMP_THRESHOLD TTL_BUMP_AMOUNT.

Definition _clear_dispute_round_storage (round_id : Z) (participants : list Address) : M () :=
  mfor participants (clear_user_positions round_id) ;;
  premove (K_RoundParticipants round_id) ;;
  premove K_Positions ;;
  premove K_UpDownPositions ;;
  premove K_PrecisionPositions.

(** ** Cancelling *)

(** The refund of one participant, and the stakes seen so far. *)
Definition cancel_updown (round_id : Z) (acc : list Z * Z) (user : Address) : M (list Z * Z) :=
  let '(participant_stakes, total_stake) := acc in
  pos ← pget cPosition (K_Position round_id user);
  match pos with
  | None => mret acc
  | Some pos =>
      let acc := (participant_stakes ++ [pos_amount pos],
                  default total_stake (i128_checked_add total_stake (pos_amount pos))) in
      _accumulate_pending user (pos_amount pos) ;;
      _persist_user_outcome round_id 0 user (side_u32 (pos_side pos)) 0 (pos_amount pos)
        (pos_amount pos) OutVoid ;;
      mret acc
  end.

Definition precision_stake (round_id : Z) (user : Address) : M Z :=
  pred ← pget cPrediction (K_PrecisionPosition round_id user);
  match pred with
  | Some pred => mret (pred_amount pred)
  | None =>
      commit ← pget cCommitment (K_PrecisionCommitment round_id user);
      mret (from_option com_amount 0 commit)
  end.

Definition cancel_precision (round_id : Z) (acc : list Z * Z) (user : Address) : M (list Z * Z) :=
  let '(participant_stakes, total_stake) := acc in
  refund_amount ← precision_stake round_id user;
  let acc := (participant_stakes ++ [refund_amount],
              default total_stake (i128_checked_add total_stake refund_amount)) in
  (if refund_amount >? 0 then _accumulate_pending user refund_amount else mret ()) ;;
  _persist_user_outcome round_id 1 user 2 0 refund_amount refund_amount OutVoid ;;
  mret acc.

(** The insurance coverage of a cancelled round: the fund is debited once, each
    participant is credited the pro-rata share. *)
Definition coverage_share (distributed total_stake : Z) (participant_stakes : list Z)
    (iu : nat * Address) : M () :=
  let '(i, user) := iu in
  let stake := default 0 (participant_stakes !! i) in
  coverage ←
    (if stake >? 0 then
       product ← ok_or (i128_checked_mul distributed stake) Overflow;
       ok_or (i128_checked_div product total_stake) Overflow
     else mret 0);
  if coverage >? 0 then _accumulate_pending user coverage else mret ().

Definition coverage_total (participant_stakes : list Z) : M Z :=
  mfold participant_stakes 0 (λ total_coverage stake,
    cov ← calculate_coverage_amount stake;
    lift (payout_add total_coverage cov)).

Definition pay_coverage (round_id : Z) (participants : list Address) (participant_stakes : list Z)
    (total_stake : Z) : M () :=
  total_coverage ← coverage_total participant_stakes;
  if total_coverage >? 0 then
    distributed ← deduct_insurance_coverage round_id total_coverage;
    if (distributed >? 0) && (total_stake >? 0) then
      mfor (imap pair participants) (coverage_share distributed total_stake participant_stakes)
    else mret ()
  else mret ().

(** The pot [cancel_round] sums after clearing the storage; it is not used. *)
Definition cancelled_pot (round : Round) (participants : list Address) : M Z :=
  match mode round with
  | UpDown => mret (default 0 (i128_checked_add (pool_up round) (pool_down round)))
  | Precision =>
      mfold participants 0 (λ pot user,
        stake ← precision_stake (round_id round) user;
        mret (default pot (i128_checked_add pot stake)))
  end.

Definition cancel_round (reason : Z) : M () :=
  _require_supported_schema ;;
  admin ← pget_ok cAddr K_Admin AdminNotSet;
  require_auth admin ;;
  round ← inspect_err (pget_ok cRound K_ActiveRound RoundNotCancellable)
            (λ e, _emit_action_rejected admin "cancel" e);
  participants ← pget_or cAddrs (K_RoundParticipants (round_id round)) [];
  eligible ← is_coverage_eligible reason;
  acc ← mfold participants ([], 0)
          (match mode round with
           | UpDown => cancel_updown (round_id round)
           | Precision => cancel_precision (round_id round)
           end);
  let '(participant_stakes, total_stake) := acc in
  (if eligible && negb (bool_decide (participant_stakes = [])) then
     pay_coverage (round_id round) participants participant_stakes total_stake
   else mret ()) ;;
  clear_round_storage (round_id round) participants ;;
  _ ← cancelled_pot round participants;
  _archive_round round ArCancelled 0 participants 0 None ;;
  premove (K_RoundParticipants (round_id round)) ;;
  pset cBool (K_CancelledRound (round_id round)) true ;;
  premove K_ActiveRound.

Definition is_round_cancelled (round_id : Z) : M bool := pget_or cBool (K_CancelledRound round_id) false.

(** ** Settling *)

(** The minimum-participants fallback. *)
Definition refund_precision (round_id round_mode : Z) (user : Address) : M () :=
  refund_amount ← precision_stake round_id user;
  if refund_amount >? 0 then
    _accumulate_pending user refund_amount ;;
    _persist_user_outcome round_id round_mode user 2 0 refund_amount refund_amount OutRefund
  else mret ().

Definition _refund_under_threshold (round : Round) (participants : list Address) : M () :=
  let rid := round_id round in
  match mode round with
  | UpDown => mfor participants (refund_position rid 0 OutRefund)
  | Precision => mfor participants (refund_precision rid 1)
  end ;;
  mfor participants (clear_user_positions rid) ;;
  premove (K_RoundParticipants rid) ;;
  premove K_ActiveRound ;;
  premove K_Positions ;;
  premove K_UpDownPositions ;;
  premove K_PrecisionPositions.

(** The second, mode-scoped removal of the entries in [_complete_settlement]. *)
Definition clear_mode_positions (round : Round) (user : Address) : M () :=
  match mode round with
  | UpDown => premove (K_Position (round_id round) user)
  | Precision =>
      premove (K_PrecisionPosition (round_id round) user) ;;
      premove (K_PrecisionCommitment (round_id round) user)
  end.

Definition settle_by_mode (round : Round) (final_price : Z) : M Z :=
  match mode round with
  | UpDown =>
      r ← _resolve_updown_mode round final_price;
      let '(one_sided, fee) := r in
      (if (one_sided : bool) then
         emit "pool" "onesided"
           [VU64 (round_id round); VI128 (pool_up round); VI128 (pool_down round)]
       else mret ()) ;;
      mret fee
  | Precision =>
      r ← _resolve_precision_mode (round_id round) final_price false;
      mret r.1
  end.

Definition _complete_settlement (round : Round) (final_price : Z) (confidence : option Z) : M (Z * Z) :=
  fee_amount ← settle_by_mode round final_price;
  participants ← pget_or cAddrs (K_RoundParticipants (round_id round)) [];
  _archive_round round ArResolved final_price participants fee_amount confidence ;;
  _clear_dispute_round_storage (round_id round) participants ;;
  mfor participants (clear_mode_positions round) ;;
  premove (K_RoundParticipants (round_id round)) ;;
  premove K_ActiveRound ;;
  premove K_Positions ;;
  premove K_UpDownPositions ;;
  active ← pget cRound K_ActiveRound;
  (if from_option (λ a, round_id a =? round_id round) false active then premove K_ActiveRound
   else mret ()) ;;
  policy ← (if bool_decide (mode round = Precision) then get_precision_payout_policy else mret 0);
  emit "round" "resolved"
    [VU64 (round_id round); VU128 final_price; VU32 (RoundMode_u32 (mode round)); VOptU32 confidence;
     VU32 policy] ;;
  mret (fee_amount, Z.of_nat (length participants)).

Definition _settle_round_with_price (round : Round) (final_price : Z) (confidence : option Z) : M () :=
  let rid := round_id round in
  min ← pget cU32 K_MinParticipants;
  threshold_participants ←
    (match min with
     | Some _ => pget_or cAddrs (K_RoundParticipants rid) []
     | None => mret []
     end : M (list Address));
  let count := Z.of_nat (length threshold_participants) in
  if from_option (λ m, count <? m) false min then
    _archive_round round ArFallbackRefund final_price threshold_participants 0 confidence ;;
    _refund_under_threshold round threshold_participants ;;
    emit "round" "fallback" [VU64 rid; VU32 count; VU32 (default 0 min)]
  else
    dispute_ledgers ← get_dispute_ledgers;
    if dispute_ledgers >? 0 then
      resolved_at_ledger ← asks sequence;
      deadline_ledger ← ok_or (u32_checked_add resolved_at_ledger dispute_ledgers) Overflow;
      _write_pending_dispute
        {| pd_round := round; pd_final_price := final_price; pd_confidence := confidence;
           pd_resolved_at_ledger := resolved_at_ledger; pd_deadline_ledger := deadline_ledger |} ;;
      premove K_ActiveRound ;;
      emit "round" "pending"
        [VU64 rid; VU128 final_price; VU32 resolved_at_ledger; VU32 deadline_ledger]
    else
      _complete_settlement round final_price confidence ;; mret ().

(** ** The dispute window *)

Definition void_participant (rid : Z) (m : RoundMode) (total_refund : Z) (user : Address) : M Z :=
  match m with
  | UpDown =>
      position ← pget cPosition (K_Position rid user);
      match position with
      | None => mret total_refund
      | Some position =>
          total' ← lift (payout_add total_refund (pos_amount position));
          _accumulate_pending user (pos_amount position) ;;
          _persist_user_outcome rid 0 user (side_u32 (pos_side position)) 0 (pos_amount position)
            (pos_amount position) OutVoid ;;
          mret total'
      end
  | Precision =>
      prediction ← pget cPrediction (K_PrecisionPosition rid user);
      sp ← match prediction with
           | Some p => mret (pred_amount p, predicted_price p)
           | None =>
               commitment ← pget cCommitment (K_PrecisionCommitment rid user);
               mret (from_option com_amount 0 commitment, 0)
           end;
      let '(stake, predicted_price) := sp in
      if stake >? 0 then
        total' ← lift (payout_add total_refund stake);
        _accumulate_pending user stake ;;
        _persist_user_outcome rid 1 user 2 predicted_price stake stake OutVoid ;;
        mret total'
      else mret total_refund
  end.

Definition void_round (rid : Z) : M () :=
  _require_supported_schema ;;
  _ensure_not_paused ;;
  pending_opt ← _read_pending_dispute rid;
  pending ← ok_or pending_opt RoundNotCancellable;
  current ← asks sequence;
  reject_if (current >=? pd_deadline_ledger pending) RoundNotCancellable ;;
  participants ← pget_or cAddrs (K_RoundParticipants rid) [];
  total_refund ← mfold participants 0 (void_participant rid (mode (pd_round pending)));
  _archive_round (pd_round pending) ArVoided (pd_final_price pending) participants 0
    (pd_confidence pending) ;;
  _clear_dispute_round_storage rid participants ;;
  _remove_pending_dispute rid ;;
  emit "round" "voided" [VU64 rid; VU32 (Z.of_nat (length participants)); VI128 total_refund].

Definition finalize_round (rid : Z) : M () :=
  _require_supported_schema ;;
  _ensure_not_paused ;;
  pending_opt ← _read_pending_dispute rid;
  pending ← ok_or pending_opt NoActiveRound;
  current ← asks sequence;
  reject_if (current <? pd_deadline_ledger pending) RoundNotEnded ;;
  f ← _complete_settlement (pd_round pending) (pd_final_price pending) (pd_confidence pending);
  let '(fee_amount, participant_count) := f in
  _remove_pending_dispute rid ;;
  emit "round" "finalized"
    [VU64 rid; VU128 (pd_final_price pending); VU32 participant_count; VI128 fee_amount].
