(* ===== verification/SettlementFacts.v ===== *)
(** * Facts about ending a round

    Every way a round ends pays out what its book holds and empties its slots. *)

From S2P Require Export Settlement.

(** ** Emptying the slots of a round *)

Definition shared_round_key (k : Key) : Prop :=
  k = K_ActiveRound ∨ k = K_Positions ∨ k = K_UpDownPositions ∨ k = K_PrecisionPositions.

(** The entries of [rid] are gone with the stakes [ps] held; everything else but
    the shared round slots is as before. *)
Record cleared (rid : Z) (ps : list Address) (s s' : State) : Prop := {
  cl_held : total s' = total s - zsum (stake s rid) ps;
  cl_empty : unopened s' rid;
  cl_rest k : ¬ round_key rid k -> ¬ shared_round_key k -> persistent s' !! k = persistent s !! k }.

Lemma unopened_slot s rid k : unopened s rid -> round_key rid k -> slot s k = 0.
Proof.
  intros [Hl Hv] Hk.
  destruct k as [n [|[] [|[] [|]]]| | |]; simpl in Hk; try done.
  - by apply slot_unvalued.
  - destruct Hk as [-> [-> |[-> | ->]]]; destruct (Hv a) as (?&?&?); by apply slot_none.
Qed.

Lemma shared_slot s k : shared_round_key k -> slot s k = 0.
Proof. unfold shared_round_key. intros Hk. apply slot_unvalued. by destruct_or! Hk; subst. Qed.

Lemma unopened_delete s s' rid k :
  unopened s rid -> persistent s' = delete k (persistent s) -> unopened s' rid.
Proof.
  intros [Hl Hv] Hs. unfold unopened, vacant, pos_at, pred_at, com_at in *. rewrite Hs.
  split; [rewrite lookup_delete; by case_decide|].
  intros u. destruct (Hv u) as (?&?&?). rewrite !lookup_delete. by repeat case_decide.
Qed.

Lemma cleared_delete rid ps s s1 s2 k :
  cleared rid ps s s1 -> round_key rid k ∨ shared_round_key k ->
  persistent s2 = delete k (persistent s1) -> cleared rid ps s s2.
Proof.
  intros [Ht He Hr] Hk Hs. split.
  - rewrite (total_delete _ _ _ Hs), Ht. destruct Hk as [Hk|Hk].
    + rewrite (unopened_slot _ _ _ He Hk). lia.
    + rewrite (shared_slot _ _ Hk). lia.
  - by eapply unopened_delete.
  - intros k' H1 H2. rewrite Hs, lookup_delete_ne; [auto|]. intros ->. tauto.
Qed.

Lemma cleared_same rid ps s s1 s2 :
  cleared rid ps s s1 -> persistent s2 = persistent s1 -> cleared rid ps s s2.
Proof.
  intros [Ht He Hr] Hs. split.
  - by rewrite (total_same s1).
  - eapply unopened_agree; [|done]. intros k _. by rewrite Hs.
  - intros k H1 H2. rewrite Hs. auto.
Qed.

Ltac cleared_step :=
  match goal with
  | H : persistent ?s2 = delete ?k (persistent ?s1) |- cleared _ _ _ ?s2 =>
      apply (cleared_delete _ _ _ s1 s2 k);
      [|first [right; unfold shared_round_key; by auto | left; simpl; by auto]|exact H]
  | H : persistent ?s2 = persistent ?s1 |- cleared _ _ _ ?s2 =>
      apply (cleared_same _ _ _ s1 s2); [|exact H]
  end.

(** The entries of one user. *)
Lemma wp_clear_user rid u (Q : () -> State -> Prop) c s :
  (∀ s', total s' = total s - stake s rid u -> vacant s' rid u ->
     (∀ k, k ≠ K_Position rid u -> k ≠ K_PrecisionPosition rid u ->
           k ≠ K_PrecisionCommitment rid u -> persistent s' !! k = persistent s !! k) -> Q () s') ->
  wp (clear_user_positions rid u) Q c s.
Proof.
  intros H. unfold clear_user_positions. do 5 wp_step. apply H.
  - unfold stake. rewrite (total_delete _ _ _ H2), (total_delete _ _ _ H1), (total_delete _ _ _ H0).
    rewrite (slot_delete _ _ _ _ H1), (slot_delete _ _ _ _ H0), (slot_delete _ _ _ _ H0).
    rewrite !decide_False by done. lia.
  - unfold vacant, pos_at, pred_at, com_at. split_and!; by lchain.
  - intros k ???. by lchain.
Qed.

Lemma wp_clear_users rid l (Q : () -> State -> Prop) c s :
  NoDup l ->
  (∀ s', total s' = total s - zsum (stake s rid) l -> (∀ u, u ∈ l -> vacant s' rid u) ->
     (∀ u, u ∉ l -> same_user s s' rid u) ->
     (∀ k, ¬ round_key rid k ∨ k = K_RoundParticipants rid -> persistent s' !! k = persistent s !! k) ->
     Q () s') ->
  wp (mfor l (clear_user_positions rid)) Q c s.
Proof.
  intros Hnd H.
  apply (wp_mfor (λ pre s1, total s1 = total s - zsum (stake s rid) pre ∧
    (∀ u, u ∈ pre -> vacant s1 rid u) ∧ (∀ u, u ∉ pre -> same_user s s1 rid u) ∧
    (∀ k, ¬ round_key rid k ∨ k = K_RoundParticipants rid -> persistent s1 !! k = persistent s !! k))).
  - split_and!; try done; [simpl; lia|]. by intros u ?%not_elem_of_nil.
  - intros pre u post s1 Hl (Ht & Hv & Hsame & Hk). apply wp_clear_user. intros s2 Ht2 Hv2 Hk2.
    assert (u ∉ pre) as Hu.
    { rewrite Hl in Hnd. apply NoDup_app in Hnd as (_ & Hd & _). intros Hu. apply (Hd u Hu). set_solver. }
    assert (∀ v, v ≠ u -> same_user s1 s2 rid v) as Hv3.
    { intros v Hne. unfold same_user, pos_at, pred_at, com_at. split_and!; apply Hk2; key_ne. }
    split_and!.
    + rewrite Ht2, Ht, zsum_app, (stake_same s s1) by auto. simpl. lia.
    + intros v Hin. destruct (decide (v = u)) as [->|Hne]; [done|].
      apply (vacant_same s1); [by apply Hv3|apply Hv; set_solver].
    + intros v Hin. assert (v ≠ u) by set_solver. assert (v ∉ pre) by set_solver.
      destruct (Hsame v) as (E1 & E2 & E3); [done|]. destruct (Hv3 v) as (F1 & F2 & F3); [done|].
      split_and!; congruence.
    + intros k Hkk. rewrite Hk2; [by apply Hk|..]; intros ->; simpl in Hkk; naive_solver.
  - intros s' (?&?&?&?). by apply H.
Qed.

Lemma cleared_users s r ps s1 s2 :
  book s r ps ->
  total s1 = total s - zsum (stake s (round_id r)) ps ->
  (∀ u, u ∈ ps -> vacant s1 (round_id r) u) ->
  (∀ u, u ∉ ps -> same_user s s1 (round_id r) u) ->
  (∀ k, ¬ round_key (round_id r) k ∨ k = K_RoundParticipants (round_id r) ->
     persistent s1 !! k = persistent s !! k) ->
  persistent s2 = delete (K_RoundParticipants (round_id r)) (persistent s1) ->
  cleared (round_id r) ps s s2.
Proof.
  intros Hb Ht Hv Hsame Hk Hs. split.
  - rewrite (total_delete _ _ _ Hs), (slot_unvalued s1) by done. lia.
  - split; [by lchain|]. intros u.
    assert (same_user s1 s2 (round_id r) u) as Hs12
      by (unfold same_user, pos_at, pred_at, com_at; split_and!; by lchain).
    apply (vacant_same s1); [done|]. destruct (decide (u ∈ ps)) as [|Hu]; [by apply Hv|].
    apply (vacant_same s); [by apply Hsame|]. by apply (book_vacant _ _ _ Hb).
  - intros k H1 H2. rewrite Hs, lookup_delete_ne; [by apply Hk; left|].
    intros <-. apply H1. by simpl.
Qed.

Lemma wp_clear_dispute s r ps (Q : () -> State -> Prop) c :
  book s r ps ->
  (∀ s', cleared (round_id r) ps s s' -> persistent s' !! K_ActiveRound = persistent s !! K_ActiveRound ->
     Q () s') ->
  wp (_clear_dispute_round_storage (round_id r) ps) Q c s.
Proof.
  intros Hb H. unfold _clear_dispute_round_storage.
  wp_step. apply wp_clear_users; [apply Hb|]. intros s1 Ht Hv Hsame Hk.
  do 7 wp_step. apply H.
  - repeat first [by eapply cleared_users | cleared_step].
  - by lchain.
Qed.

Lemma wp_clear_round s r ps (Q : () -> State -> Prop) c :
  book s r ps ->
  (∀ s', cleared (round_id r) ps s s' -> persistent s' !! K_ActiveRound = None -> Q () s') ->
  wp (clear_round_storage (round_id r) ps) Q c s.
Proof.
  intros Hb H. unfold clear_round_storage.
  wp_step. apply wp_clear_users; [apply Hb|]. intros s1 Ht Hv Hsame Hk.
  do 9 wp_step. apply H.
  - repeat first [by eapply cleared_users | cleared_step].
  - by lchain.
Qed.

(** ** Ended rounds *)

(** The round [rid] with participants [ps] is over: each address got [pay] in
    pending winnings, [x] was credited in all against the stakes held, the
    slots of the round are empty, and nothing but payout bookkeeping changed. *)
Record ended (rid : Z) (ps : list Address) (pay : Address -> Z) (x : Z) (s s' : State) : Prop := {
  en_total : total s' = total s + x - zsum (stake s rid) ps;
  en_pending u : slot s' (K_PendingWinnings u) = slot s (K_PendingWinnings u) + pay u;
  en_unopened : unopened s' rid;
  en_kept k : kept k -> ¬ round_key rid k -> ¬ shared_round_key k ->
              persistent s' !! k = persistent s !! k }.

Lemma pending_rest rid u : ¬ round_key rid (K_PendingWinnings u) ∧ ¬ shared_round_key (K_PendingWinnings u).
Proof. split; [by intros ?|]. unfold shared_round_key. intros Hk. by destruct_or! Hk. Qed.

Lemma ended_credited rid ps pay x s s1 s2 :
  credited pay x s s1 -> cleared rid ps s1 s2 -> ended rid ps pay x s s2.
Proof.
  intros [Ht Hp Hk] [Ht2 He Hr]. split; [| |done|].
  - rewrite Ht2, Ht. rewrite (zsum_ext (stake s1 rid) (stake s rid)); [lia|].
    intros u _. apply stake_same. by apply kept_user.
  - intros u. rewrite <-Hp. apply slot_eq. by apply Hr; apply pending_rest.
  - intros k H1 H2 H3. rewrite Hr by done. by apply Hk.
Qed.

(** Bookkeeping afterwards does not matter. *)
Lemma ended_then_nobody rid ps pay x s s1 s2 :
  ended rid ps pay x s s1 -> credited nobody 0 s1 s2 -> ended rid ps pay x s s2.
Proof.
  intros [Ht Hp Hu Hk] [Ht2 Hp2 Hk2]. split.
  - lia.
  - intros u. rewrite Hp2, Hp. unfold nobody. lia.
  - apply (unopened_agree s1); [|done]. intros k Hrk. apply Hk2. by eapply round_key_kept.
  - intros k H1 H2 H3. rewrite Hk2; auto.
Qed.

Lemma ended_ext rid ps pay pay' x x' s s' :
  ended rid ps pay x s s' -> (∀ u, pay u = pay' u) -> x = x' -> ended rid ps pay' x' s s'.
Proof. intros [Ht Hp Hu Hk] He <-. split; try done. intros u. by rewrite Hp, He. Qed.

Lemma wp_archive_credits r st fp ps fee cf (Q : () -> State -> Prop) c s :
  (∀ s', credited nobody 0 s s' -> Q () s') ->
  wp (_archive_round r st fp ps fee cf) Q c s.
Proof.
  intros H. apply wp_kept_credits; [|by intros []]. apply frame_archive.
  intros k Hk [Hv|Hn]; [by rewrite history_unvalued in Hv|]. apply Hn. by left.
Qed.

Lemma wp_readonly_credits {A} (m : M A) (Q : A -> State -> Prop) c s :
  frame (λ _, True) m -> (∀ a s', credited nobody 0 s s' -> Q a s') -> wp m Q c s.
Proof. intros Hf H. apply wp_readonly; [done|]. intros a s' Hs. by apply H, credited_refl. Qed.

(** ** Completing a settlement *)

Definition settles (s : State) (r : Round) (ps : list Address) (fp fee : Z) (s' : State) : Prop :=
  match mode r with
  | UpDown => settles_updown s r ps fp fee s'
  | Precision => settles_precision s (round_id r) ps fp fee s'
  end.

Lemma settles_updown_nobody s r ps fp fee s1 s2 :
  settles_updown s r ps fp fee s1 -> credited nobody 0 s1 s2 -> settles_updown s r ps fp fee s2.
Proof. intros [Hf Hc Hd Hr] H2. split; try done. by eapply credited_then_nobody. Qed.

Lemma settles_credited s r ps fp fee s' :
  settles s r ps fp fee s' -> ∃ pay x, credited pay x s s'.
Proof.
  unfold settles. destruct (mode r).
  - intros [_ Hc _ _ _]. eauto.
  - intros [_ _ Hr Hp]. destruct (decide (guesses s (round_id r) ps = [])) as [Hg|Hg].
    + destruct (Hr Hg). eauto.
    + destruct (Hp Hg) as (?&?&?&?&?&?&?&?). eauto.
Qed.

Lemma wp_settle_by_mode r ps fp (Q : Z -> State -> Prop) c s :
  book s r ps -> fee_config_ok s ->
  (∀ fee s', settles s r ps fp fee s' -> Q fee s') ->
  wp (settle_by_mode r fp) Q c s.
Proof.
  intros Hb Hfee H. unfold settle_by_mode, settles in *. destruct (mode r) eqn:Hm.
  - wp_step. apply (wp_resolve_updown r ps fp); try done. intros fee s1 H1. wp_step.
    apply (wp_mono _ (λ _ s2, credited nobody 0 s1 s2)).
    { destruct (is_one_sided_pool _ _); [by apply wp_emit_credits|by apply wp_ret, credited_refl]. }
    intros _ s2 H2. apply wp_ret, H. by eapply settles_updown_nobody.
  - wp_step. apply (wp_resolve_precision s r ps fp); try done. intros fee s1 H1.
    apply wp_ret. by apply H.
Qed.

Lemma wp_clear_mode s r ps s1 (Q : () -> State -> Prop) c :
  cleared (round_id r) ps s s1 -> (∀ s', cleared (round_id r) ps s s' -> Q () s') ->
  wp (mfor ps (clear_mode_positions r)) Q c s1.
Proof.
  intros H1 H. apply (wp_mfor (λ _ t, cleared (round_id r) ps s t)); [done| |done].
  intros pre u post t _ Ht. unfold clear_mode_positions. destruct (mode r).
  - wp_step. cleared_step. done.
  - do 3 wp_step. cleared_step. cleared_step. done.
Qed.

Lemma wp_complete r ps fp conf (Q : Z * Z -> State -> Prop) c s :
  book s r ps -> fee_config_ok s ->
  (∀ fee s1 s', settles s r ps fp fee s1 ->
     (∀ pay x, credited pay x s s1 -> ended (round_id r) ps pay x s s') ->
     persistent s' !! K_ActiveRound = None -> Q (fee, Z.of_nat (length ps)) s') ->
  wp (_complete_settlement r fp conf) Q c s.
Proof.
  intros Hb Hfee H. unfold _complete_settlement.
  wp_step. apply (wp_settle_by_mode r ps); [done..|]. intros fee s1 H1.
  destruct (settles_credited _ _ _ _ _ _ H1) as (pay0 & x0 & C1).
  wp_step. wp_step. pose proof (credited_book _ _ _ _ _ _ C1 Hb) as Hb1.
  rewrite (book_participants _ _ _ _ Hb1 H0).
  wp_step. apply wp_archive_credits. intros s2 C2.
  pose proof (credited_book _ _ _ _ _ _ C2 Hb1) as Hb2.
  wp_step. apply (wp_clear_dispute s2 r ps); [done|]. intros s3 H3 _.
  wp_step. apply (wp_clear_mode s2 r ps s3); [done|]. intros s4 H4.
  do 10 wp_step.
  assert (persistent s'2 !! K_ActiveRound = None) as Hna by by lchain.
  assert (o0 = None) as ->.
  { rewrite Hna in H8. by destruct o0. }
  assert (cleared (round_id r) ps s2 s'2) as H9 by (repeat cleared_step; done).
  clear H8. wp_step. simpl. wp_step. wp_step.
  apply (wp_mono _ (λ _ s5, persistent s5 = persistent s'2)).
  { case_bool_decide; [|by apply wp_ret]. apply wp_readonly; [|done].
    unfold get_precision_payout_policy, get_extended_or. auto with frame. }
  intros pol s5 H5'. wp_step. wp_step. wp_step.
  eapply (H fee s1); [done| |].
  - intros pay x Hc. eapply (ended_credited _ _ _ _ _ s2); [by eapply credited_then_nobody|].
    repeat first [done | cleared_step].
  - by lchain.
Qed.

(** ** Refunds *)

(** What the reads of a precision entry return. *)
Lemma entry_reads s t rid u o :
  entry s rid u Precision -> same_user s t rid u ->
  persistent t !! K_PrecisionPosition rid u = enc cPrediction <$> o ->
  0 < stake s rid u ∧ (∀ p, o = Some p -> pred_amount p = stake s rid u) ∧
  (o = None -> ∀ oc, persistent t !! K_PrecisionCommitment rid u = enc cCommitment <$> oc ->
     from_option com_amount 0 oc = stake s rid u).
Proof.
  intros He Hs Ho.
  assert (∃ oc, persistent s !! K_PrecisionCommitment rid u = enc cCommitment <$> oc) as [oc Hoc].
  { destruct He as [_ [(p & _ & E & _)|[(cm & _ & E & _)|(p & cm & _ & E & _)]]]; unfold com_at in E.
    - by exists None. - by exists (Some cm). - by exists (Some cm). }
  assert (persistent t !! K_PrecisionCommitment rid u = enc cCommitment <$> oc) as Hoc'
    by (destruct Hs as (_ & _ & Hc); unfold com_at in Hc; congruence).
  destruct (precision_amount_stake s rid t u o oc He Hs Ho Hoc') as (Ha & _ & Hpos & _).
  split_and!; [done| |].
  - intros p ->. simpl in Ha. done.
  - intros -> oc' H'. rewrite Hoc' in H'. simpl in Ha. destruct oc, oc'; simpl in *; try done; congruence.
Qed.

Lemma wp_precision_stake t s rid u (Q : Z -> State -> Prop) c :
  entry s rid u Precision -> same_user s t rid u ->
  (0 < stake s rid u -> Q (stake s rid u) t) -> wp (precision_stake rid u) Q c t.
Proof.
  intros He Hs H. unfold precision_stake. wp_step. wp_step.
  destruct (entry_reads _ _ _ _ _ He Hs H0) as (Hpos & Hp & Hc). destruct o as [p|].
  - wp_step. rewrite (Hp p) by done. auto.
  - wp_step. wp_step. wp_step. rewrite Hc by done. auto.
Qed.

Lemma wp_refund_precision rid m u (Q : () -> State -> Prop) c s t :
  entry s rid u Precision -> same_user s t rid u ->
  (∀ s', credited (only u (stake s rid u)) (stake s rid u) t s' -> Q () s') ->
  wp (refund_precision rid m u) Q c t.
Proof.
  intros He Hs H. unfold refund_precision. wp_step. apply (wp_precision_stake _ s); [done..|].
  intros Hpos. destruct (_ >? 0) eqn:?; zbool; [|lia].
  wp_step. apply wp_accumulate_credits. intros s1 H1. apply wp_persist_credits. intros s2 H2.
  apply H. by eapply credited_then_nobody.
Qed.

Lemma wp_refund_all s r ps (body : Address -> M ()) (Q : () -> State -> Prop) c :
  book s r ps ->
  (∀ u t, u ∈ ps -> same_user s t (round_id r) u ->
     wp (body u) (λ _ t', credited (only u (stake s (round_id r) u)) (stake s (round_id r) u) t t') c t) ->
  (∀ s', credited (participant_payoff ps (stake s (round_id r))) (zsum (stake s (round_id r)) ps) s s' ->
     Q () s') ->
  wp (mfor ps body) Q c s.
Proof.
  intros Hb Hbody H. apply (wp_mfor_credits id (stake s (round_id r))).
  - intros u t Hu Ht. apply Hbody; [done|]. by apply kept_user.
  - intros s' Hs'. apply H. eapply credited_ext; [exact Hs'| |done].
    intros u. by apply each_participants; [apply Hb|].
Qed.

Lemma refund_position_stake s t r ps u m kind c :
  book s r ps -> mode r = UpDown -> u ∈ ps -> same_user s t (round_id r) u ->
  wp (refund_position (round_id r) m kind u)
    (λ _ t', credited (only u (stake s (round_id r) u)) (stake s (round_id r) u) t t') c t.
Proof.
  intros Hb Hm Hu Hs. apply wp_refund_position. intros t' Ht'.
  pose proof (book_entry _ _ _ Hb _ Hu) as He. rewrite Hm in He.
  destruct (entry_updown_stake _ _ _ He) as (p & _ & _ & -> & Hp).
  rewrite (slot_eq s t), Hp in Ht' by apply Hs. done.
Qed.

(** Each participant's own stake. *)
Definition refunded (r : Round) (ps : list Address) (s s' : State) : Prop :=
  ended (round_id r) ps (participant_payoff ps (stake s (round_id r)))
    (zsum (stake s (round_id r)) ps) s s'.

Lemma wp_refund_threshold s r ps (Q : () -> State -> Prop) c :
  book s r ps ->
  (∀ s', refunded r ps s s' -> persistent s' !! K_ActiveRound = None -> Q () s') ->
  wp (_refund_under_threshold r ps) Q c s.
Proof.
  intros Hb H. unfold _refund_under_threshold. wp_step.
  apply (wp_mono _ (λ _ s1,
    credited (participant_payoff ps (stake s (round_id r))) (zsum (stake s (round_id r)) ps) s s1)).
  { destruct (mode r) eqn:Hm; apply (wp_refund_all s r); try done; intros u t Hu Ht.
    - by apply (refund_position_stake s t r ps).
    - apply (wp_refund_precision _ _ _ _ _ s); [|done..].
      rewrite <-Hm. by apply (book_entry _ _ _ Hb). }
  intros _ s1 C1. pose proof (credited_book _ _ _ _ _ _ C1 Hb) as Hb1.
  apply (wp_clear_round s1 r ps); [done|]. intros s2 H2 Hna. apply H; [|done].
  by eapply ended_credited.
Qed.

Lemma wp_void_participant s t r ps tot u (Q : Z -> State -> Prop) c :
  book s r ps -> u ∈ ps -> same_user s t (round_id r) u ->
  (∀ t', credited (only u (stake s (round_id r) u)) (stake s (round_id r) u) t t' ->
     Q (tot + stake s (round_id r) u) t') ->
  wp (void_participant (round_id r) (mode r) tot u) Q c t.
Proof.
  intros Hb Hu Hs H. pose proof (book_entry _ _ _ Hb _ Hu) as He. unfold void_participant.
  destruct (mode r) eqn:Hm.
  - destruct (entry_updown_stake _ _ _ He) as (p & Hp & _ & Hst & _). rewrite Hst in H.
    wp_step. wp_step. destruct Hs as (Hs & _). unfold pos_at in *. rewrite Hs, Hp in H0.
    destruct o; [|done]. injection H0 as <-. wp_step. wp_step.
    apply payout_add_Ok in H0 as [-> _]. wp_step. apply wp_accumulate_credits. intros s1 H1.
    wp_step. apply wp_persist_credits. intros s2 H2. wp_step. apply H.
    by eapply credited_then_nobody.
  - wp_step. wp_step. destruct (entry_reads _ _ _ _ _ He Hs H0) as (Hpos & Hp & Hc).
    wp_step. apply (wp_mono _ (λ sp t', sp.1 = stake s (round_id r) u ∧ t' = t)).
    { destruct o as [p|]; [by apply wp_ret; rewrite (Hp p)|].
      wp_step. wp_step. wp_step. by rewrite Hc. }
    intros [st pr] t' [E ->]. simpl in E. subst st.
    destruct (_ >? 0) eqn:?; zbool; [|lia]. wp_step. wp_step. apply payout_add_Ok in H1 as [-> _].
    wp_step. apply wp_accumulate_credits. intros s1 H1'.
    wp_step. apply wp_persist_credits. intros s2 H2. wp_step. apply H.
    by eapply credited_then_nobody.
Qed.

Lemma wp_void_all s r ps (Q : Z -> State -> Prop) c :
  book s r ps ->
  (∀ s', credited (participant_payoff ps (stake s (round_id r))) (zsum (stake s (round_id r)) ps) s s' ->
     Q (zsum (stake s (round_id r)) ps) s') ->
  wp (mfold ps 0 (void_participant (round_id r) (mode r))) Q c s.
Proof.
  intros Hb H. set (f := stake s (round_id r)).
  apply (wp_mfold (λ pre tot t, tot = zsum f pre ∧ credited (each id f pre) (zsum f pre) s t)).
  - split; [done|]. eapply credited_ext; [by apply credited_refl|done|done].
  - intros pre u post tot t Hl [-> Ht].
    apply (wp_void_participant s t r ps); [done|rewrite Hl; set_solver|apply kept_user, Ht|].
    intros t' Ht'. fold f in Ht'. fold f. split; [rewrite zsum_app; simpl; lia|].
    eapply credited_ext; [exact (credited_trans _ _ _ _ _ _ _ Ht Ht')| |].
    + intros v. rewrite each_app. unfold each. simpl. unfold id. lia.
    + rewrite zsum_app. simpl. lia.
  - intros tot t [-> Ht]. apply H. eapply credited_ext; [exact Ht| |done].
    intros u. by apply each_participants; [apply Hb|].
Qed.
