(* ===== verification/SettlementSpec.v ===== *)
(** * What ending a round guarantees

    The properties of cancelling, settling, voiding and finalizing a round,
    stated on the book of the round and the value held. *)

From S2P Require Export SettlementFacts.

(** ** Settled rounds *)

(** An UpDown round settled at [fp] with [fee] taken, the one the stored fee terms
    give: each participant was credited [updown_payoff], the slots of the round are empty, at most one unit
    of value per participant was lost to rounding, none on a refund. *)
Record settled_updown (s : State) (r : Round) (ps : list Address) (fp fee : Z) (s' : State) : Prop := {
  ud_fee : 0 ≤ fee ≤ pool_up r + pool_down r;
  ud_pending u : slot s' (K_PendingWinnings u)
    = slot s (K_PendingWinnings u) + participant_payoff ps (updown_payoff s r fp fee) u;
  ud_charged : ps ≠ [] -> is_one_sided_pool (pool_up r) (pool_down r) = false ->
    updown_charge s r fp fee;
  ud_total : total s - Z.of_nat (length ps) ≤ total s' ≤ total s;
  ud_refund : is_one_sided_pool (pool_up r) (pool_down r) = true ∨
              classify_price_direction (price_start r) fp = Unchanged ->
              fee = 0 ∧ total s' = total s;
  ud_empty : unopened s' (round_id r) }.

(** A Precision round settled at [fp]: either nobody revealed and every stake
    came back, or the closest predictions shared the whole pot less the fee, by
    the stored payout policy and fee terms; no value was lost. *)
Record settled_precision (s : State) (r : Round) (ps : list Address) (fp fee : Z) (s' : State) : Prop := {
  pr_fee : 0 ≤ fee ≤ zsum (stake s (round_id r)) ps;
  pr_refund : guesses s (round_id r) ps = [] -> fee = 0 ∧ ∀ u,
    slot s' (K_PendingWinnings u)
    = slot s (K_PendingWinnings u) + participant_payoff ps (stake s (round_id r)) u;
  pr_paid : guesses s (round_id r) ps ≠ [] -> ∃ ws shares,
    closest s (round_id r) fp ps ws ∧
    precision_terms s (zsum (stake s (round_id r)) ps) ws fee shares ∧
    length shares = length ws ∧ Forall (λ x, 0 ≤ x) shares ∧
    zsum id shares = zsum (stake s (round_id r)) ps - fee ∧
    ∀ u, slot s' (K_PendingWinnings u)
         = slot s (K_PendingWinnings u) + each (λ w, pred_user w.1) snd (zip ws shares) u;
  pr_total : total s' = total s;
  pr_empty : unopened s' (round_id r) }.

Definition settled (s : State) (r : Round) (ps : list Address) (fp fee : Z) (s' : State) : Prop :=
  match mode r with
  | UpDown => settled_updown s r ps fp fee s'
  | Precision => settled_precision s r ps fp fee s'
  end.

Lemma settles_settled s r ps fp fee s1 s' :
  book s r ps -> settles s r ps fp fee s1 ->
  (∀ pay x, credited pay x s s1 -> ended (round_id r) ps pay x s s') ->
  settled s r ps fp fee s'.
Proof.
  intros Hb. unfold settles, settled. destruct (mode r) eqn:Hm.
  - intros [Hf Hc Hd Hch Hr] He. destruct (He _ _ Hc) as [Ht Hp Hu _].
    rewrite (book_pot _ _ _ Hb Hm) in Ht. split; try done; [by intros Hne Hone; apply Hch|lia|]. intros Hone.
    destruct (Hr Hone). lia.
  - intros [Hf _ Hr Hp] He. destruct (decide (guesses s (round_id r) ps = [])) as [Hg|Hg].
    + destruct (Hr Hg) as [-> Hc]. destruct (He _ _ Hc) as [Ht Hpp Hu _]. split; try done. lia.
    + destruct (Hp Hg) as (ws & shares & H1 & Hpt & H2 & H3 & H4 & Hc).
      destruct (He _ _ Hc) as [Ht Hpp Hu _]. split; try done; [|lia]. intros _. by exists ws, shares.
Qed.

Lemma settled_same s r ps fp fee s1 s2 :
  settled s r ps fp fee s1 -> total s2 = total s1 ->
  (∀ u, slot s2 (K_PendingWinnings u) = slot s1 (K_PendingWinnings u)) ->
  unopened s2 (round_id r) -> settled s r ps fp fee s2.
Proof.
  unfold settled. intros H Ht Hp Hu. destruct (mode r).
  - destruct H as [Hf Hpen Hch Htot Hr He]. split; try done; rewrite ?Ht; try done.
    intros u. by rewrite Hp.
  - destruct H as [Hf Hr Hpaid Htot He]. split; try done; [| |lia].
    + intros Hg. destruct (Hr Hg) as [-> Hpen]. split; [done|]. intros u. by rewrite Hp.
    + intros Hg. destruct (Hpaid Hg) as (ws & sh & ? & ? & ? & ? & ? & Hpen). exists ws, sh.
      split_and!; try done. intros u. by rewrite Hp.
Qed.

(** C5: completing an UpDown round credits every participant exactly
    [updown_payoff] in pending winnings (the stake when one side is empty or the
    price did not move, else the pro-rata share of the pot after the fee the
    stored rate and model give),
    empties the slots of the round, creates no value, loses at most one unit
    per participant to rounding and nothing when it refunds. *)
Theorem updown_settlement_pays r ps fp conf c s res s' :
  _complete_settlement r fp conf c s = (Ok res, s') ->
  book s r ps -> mode r = UpDown -> fee_config_ok s ->
  settled_updown s r ps fp res.1 s' ∧ res.2 = Z.of_nat (length ps).
Proof.
  intros E Hb Hm Hfee. wp_intro E. apply (wp_complete r ps); [done..|].
  intros fee s1 t H1 He _. split; [|done].
  pose proof (settles_settled _ _ _ _ _ _ _ Hb H1 He) as H. unfold settled in H. by rewrite Hm in H.
Qed.

(** C6: completing a Precision round pays the closest revealed predictions (in
    address order) the shares the stored payout policy gives, which add up to the
    whole pot less the fee of the stored rate and model, or returns
    every stake when nobody revealed; it empties the slots of the round and
    neither creates nor loses value. *)
Theorem precision_settlement_pays r ps fp conf c s res s' :
  _complete_settlement r fp conf c s = (Ok res, s') ->
  book s r ps -> mode r = Precision -> fee_config_ok s ->
  settled_precision s r ps fp res.1 s' ∧ res.2 = Z.of_nat (length ps).
Proof.
  intros E Hb Hm Hfee. wp_intro E. apply (wp_complete r ps); [done..|].
  intros fee s1 t H1 He _. split; [|done].
  pose proof (settles_settled _ _ _ _ _ _ _ Hb H1 He) as H. unfold settled in H. by rewrite Hm in H.
Qed.

(** ** The dispute window *)

(** The staged settlements. *)
Definition disputes (s : State) (m : gmap Z PendingDisputeSettlement) : Prop :=
  ∃ o, persistent s !! K_PendingDisputes = enc cDisputes <$> o ∧ m = default ∅ o.

Lemma wp_read_dispute m rid (Q : option PendingDisputeSettlement -> State -> Prop) c s :
  disputes s m -> (∀ s', persistent s' = persistent s -> Q (m !! rid) s') ->
  wp (_read_pending_dispute rid) Q c s.
Proof.
  intros (o & Ho & ->) H. unfold _read_pending_dispute. wp_step. wp_step. wp_step.
  apply (wp_mono _ (λ _ s1, persistent s1 = persistent s)).
  { case_bool_decide; [by apply wp_pextend_ttl|by apply wp_ret]. }
  intros _ s1 H1. do 3 wp_step.
  assert (default ∅ o0 = default ∅ o) as ->.
  { rewrite H1, Ho in H0. destruct o, o0; simpl in *; congruence. }
  by apply H.
Qed.

Lemma default_disputes m o :
  persistent m !! K_PendingDisputes = enc cDisputes <$> o -> disputes m (default ∅ o).
Proof. intros. by exists o. Qed.

Lemma wp_remove_dispute m rid (Q : () -> State -> Prop) c s :
  disputes s m ->
  (∀ s', disputes s' (delete rid m) -> total s' = total s ->
     (∀ k, k ≠ K_PendingDisputes -> persistent s' !! k = persistent s !! k) -> Q () s') ->
  wp (_remove_pending_dispute rid) Q c s.
Proof.
  intros (o & Ho & ->) H. unfold _remove_pending_dispute. wp_step. wp_step.
  assert (default ∅ o0 = default ∅ o) as -> by (rewrite Ho in H0; destruct o, o0; simpl in *; congruence).
  case_bool_decide as Hemp.
  - wp_step. apply H.
    + rewrite Hemp. exists None. split; [by lchain|done].
    + rewrite (total_delete _ _ _ H1), (slot_unvalued s) by done. lia.
    + intros k Hk. by lchain.
  - do 2 wp_step. wp_step. apply H.
    + exists (Some (delete rid (default ∅ o))). split; [by lchain|done].
    + money.
    + intros k Hk. by lchain.
Qed.

Lemma disputes_same s s' m :
  disputes s m -> persistent s' !! K_PendingDisputes = persistent s !! K_PendingDisputes ->
  disputes s' m.
Proof. intros (o & Ho & ->) H. exists o. by rewrite H. Qed.

Lemma dispute_key_rest rid :
  kept K_PendingDisputes ∧ ¬ round_key rid K_PendingDisputes ∧ ¬ shared_round_key K_PendingDisputes.
Proof.
  split_and!; [|by intros ?|unfold shared_round_key; intros Hk; by destruct_or! Hk].
  intros [Hk|[Hk|Hk]]; by simpl in Hk.
Qed.

Lemma book_persistent s t r ps : persistent t = persistent s -> book s r ps -> book t r ps.
Proof. intros H. apply book_agree. intros k _. by rewrite H. Qed.
Lemma stake_persistent s t rid u : persistent t = persistent s -> stake t rid u = stake s rid u.
Proof. intros H. apply stake_same. unfold same_user, pos_at, pred_at, com_at. by rewrite H. Qed.

(** Both ways out of the dispute window start from a staged result. *)
Lemma wp_staged {A} m rid e (f : PendingDisputeSettlement -> M A) (Q : A -> State -> Prop) c s :
  disputes s m ->
  (∀ pd t, m !! rid = Some pd -> persistent t = persistent s -> wp (f pd) Q c t) ->
  wp (_require_supported_schema ;; _ensure_not_paused ;;
      pending_opt ← _read_pending_dispute rid;
      pending ← ok_or pending_opt e;
      f pending) Q c s.
Proof.
  intros Hm HQ. wp_ro. wp_ro. wp_step. apply (wp_read_dispute m).
  { eapply disputes_same; [exact Hm|by pchain]. }
  intros t Ht. wp_step. wp_step. apply HQ; [done|by pchain].
Qed.

(** Voiding refunds the stakes of the staged round. *)
Lemma wp_void rid m pd ps (Q : () -> State -> Prop) c s :
  disputes s m -> m !! rid = Some pd -> round_id (pd_round pd) = rid -> book s (pd_round pd) ps ->
  (∀ s', sequence c < pd_deadline_ledger pd ->
     (∀ u, slot s' (K_PendingWinnings u)
           = slot s (K_PendingWinnings u) + participant_payoff ps (stake s rid) u) ->
     total s' = total s -> unopened s' rid -> disputes s' (delete rid m) ->
     persistent s' !! K_ActiveRound = persistent s !! K_ActiveRound -> Q () s') ->
  wp (void_round rid) Q c s.
Proof.
  intros Hm Hpd Hid Hb HQ. apply (wp_staged m); [done|]. intros pd' t Hpd' Hts.
  assert (pd' = pd) as -> by congruence. do 6 wp_step. zbool.
  subst rid. set (r := pd_round pd) in *.
  pose proof (book_persistent _ _ r ps Hts Hb) as Hbt. rewrite (book_participants _ _ _ _ Hbt H0).
  wp_step. apply wp_void_all; [done|]. intros s1 C1. pose proof (credited_book _ _ _ _ _ _ C1 Hbt) as Hb1.
  wp_step. apply wp_archive_credits. intros s2 C2. pose proof (credited_book _ _ _ _ _ _ C2 Hb1) as Hb2.
  pose proof (credited_then_nobody _ _ _ _ _ C1 C2) as C.
  wp_step. apply (wp_clear_dispute s2 r ps); [done|]. intros s3 H3 Hact.
  pose proof (ended_credited _ _ _ _ _ _ _ C H3) as [Ht3 Hp3 Hu3 Hk3].
  destruct (dispute_key_rest (round_id r)) as (K1 & K2 & K3).
  wp_step. apply (wp_remove_dispute m).
  { eapply disputes_same; [exact Hm|]. rewrite Hk3 by done. by rewrite Hts. }
  intros s4 Hd4 Ht4 Hk4. wp_step. apply HQ.
  - done.
  - intros u. rewrite (slot_same s4), (slot_eq s3 s4), Hp3, (slot_same s t) by (done || apply Hk4; key_ne).
    f_equal. unfold participant_payoff. case_bool_decide; [|done]. by apply stake_persistent.
  - rewrite (total_same s4) by done. rewrite Ht4, Ht3, (total_same s t) by done. lia.
  - eapply unopened_agree; [|exact Hu3]. intros k Hk. rewrite H1. apply Hk4. by intros ->.
  - eapply disputes_same; [exact Hd4|congruence].
  - rewrite H1, Hk4, Hact by done. destruct C as [_ _ Hk]. rewrite Hk; [by rewrite Hts|].
    intros [Hn|[Hn|Hn]]; by simpl in Hn.
Qed.

(** C15: a staged result can only be voided strictly before its deadline; then
    every participant of the round gets exactly the stake back, the round's
    slots and its staged result are gone, no fee is taken, no value is created
    or lost, and a newer active round is left alone. *)
Theorem void_round_refunds rid c s s' m pd ps :
  void_round rid c s = (Ok (), s') -> disputes s m -> m !! rid = Some pd ->
  round_id (pd_round pd) = rid -> book s (pd_round pd) ps ->
  sequence c < pd_deadline_ledger pd ∧
  (∀ u, slot s' (K_PendingWinnings u)
        = slot s (K_PendingWinnings u) + participant_payoff ps (stake s rid) u) ∧
  total s' = total s ∧ unopened s' rid ∧ disputes s' (delete rid m) ∧
  persistent s' !! K_ActiveRound = persistent s !! K_ActiveRound.
Proof. intros E Hm Hpd Hid Hb. wp_intro E. by apply (wp_void rid m pd ps). Qed.

(** ** What settlement looks at *)

Definition settle_view (k : Key) : Prop :=
  match k with
  | KVec n [] => n = "ProtocolFeeTreasury" ∨ n = "MinParticipants" ∨ n = "ActiveRound" ∨
                 n = "ProtocolFeeBps" ∨ n = "FeeModel" ∨ n = "PrecisionPayoutPolicy"
  | KVec n [AAddr _] => n = "Balance" ∨ n = "PendingWinnings"
  | KVec n [AU64 _] => n = "RoundParticipants"
  | KVec n [AU64 _; AAddr _] => n = "Position" ∨ n = "PrecisionPosition" ∨ n = "PrecisionCommitment"
  | KSym n => n = "InsFundBal" ∨ n = "DisputeLedgers" ∨ n = "PendingDisputes"
  | _ => False
  end.

Lemma view_valued k : valued k = true -> settle_view k.
Proof.
  destruct k as [n [|[] [|[] [|]]]| | |n]; simpl; try done; intros H;
    rewrite ?orb_true_iff, ?String.eqb_eq in H; tauto.
Qed.
Lemma view_round rid k : round_key rid k -> settle_view k.
Proof. destruct k as [n [|[] [|[] [|]]]| | |n]; simpl; try done; tauto. Qed.

Section View.
Context (s t : State) (H : agree settle_view s t).

Lemma view_total : total t = total s.
Proof. eapply agree_total; [exact view_valued|exact H]. Qed.
Lemma view_slot k : valued k = true -> slot t k = slot s k.
Proof. intros Hk. apply slot_eq, H. by apply view_valued. Qed.
Lemma view_book r ps : book s r ps -> book t r ps.
Proof. apply book_agree. intros k Hk. apply H. by eapply view_round. Qed.
Lemma view_user rid u : same_user s t rid u.
Proof. apply agree_same. intros k Hk. apply H. by eapply view_round. Qed.
Lemma view_stake rid u : stake t rid u = stake s rid u.
Proof. apply stake_same, view_user. Qed.
Lemma view_guesses rid l : guesses t rid l = guesses s rid l.
Proof.
  induction l as [|u l IH]; [done|]. unfold guesses in *. cbn [omap list_omap]. rewrite IH.
  destruct (view_user rid u) as (_ & E & _). unfold guess. by rewrite E.
Qed.

Lemma view_terms :
  (∀ w l f, charged_updown t w l f <-> charged_updown s w l f) ∧
  (∀ p w f, charged_precision t p w f <-> charged_precision s p w f) ∧
  (∀ p, stored_policy t p <-> stored_policy s p).
Proof. apply terms_same. intros k Hk. apply H. destruct Hk as [-> |[-> | ->]]; simpl; tauto. Qed.

Lemma settled_view r ps fp fee s' : settled t r ps fp fee s' -> settled s r ps fp fee s'.
Proof.
  assert (zsum (stake t (round_id r)) ps = zsum (stake s (round_id r)) ps) as Hz
    by (apply zsum_ext; intros; apply view_stake).
  unfold settled. destruct (mode r).
  - intros [Hf Hp Hch Ht Hr Hu]. rewrite view_total in *. split; try done.
    2:{ intros Hne Hone. specialize (Hch Hne Hone). unfold updown_charge in *.
        destruct (classify_price_direction _ _); [| |done]; destruct Hch as (dw & dl & Hch);
          exists dw, dl; by apply view_terms. }
    intros u. rewrite Hp, view_slot by done. f_equal. unfold participant_payoff, updown_payoff, winner_share.
    by rewrite !(side_stake_same s t), view_stake by apply view_user.
  - intros [Hf Hr Hpd Ht Hu]. rewrite view_total, Hz in *. split; try done; rewrite <-view_guesses.
    + intros Hn. destruct (Hr Hn) as [-> Hp]. split; [done|]. intros u.
      rewrite Hp, view_slot by done. unfold participant_payoff. by rewrite view_stake.
    + intros Hn. destruct (Hpd Hn) as (ws & sh & (d & H1 & H2 & H3)
        & (pool & pol & P1 & P2 & P3) & H4 & H5 & H6 & H7).
      exists ws, sh. split_and!; try done.
      * exists d. rewrite <-!view_guesses. done.
      * exists pool, pol. split_and!; [by apply view_terms|by apply view_terms|done].
      * intros u. by rewrite H7, view_slot.
Qed.
End View.

Lemma settled_persistent s t r ps fp fee s' :
  persistent t = persistent s -> settled t r ps fp fee s' -> settled s r ps fp fee s'.
Proof. intros H. apply settled_view. intros k _. by rewrite H. Qed.

(** Finalizing settles the staged round. *)
Lemma wp_finalize rid m pd ps (Q : () -> State -> Prop) c s :
  disputes s m -> m !! rid = Some pd -> round_id (pd_round pd) = rid -> book s (pd_round pd) ps ->
  fee_config_ok s ->
  (∀ fee s', pd_deadline_ledger pd ≤ sequence c -> settled s (pd_round pd) ps (pd_final_price pd) fee s' ->
     disputes s' (delete rid m) -> persistent s' !! K_ActiveRound = None -> Q () s') ->
  wp (finalize_round rid) Q c s.
Proof.
  intros Hm Hpd Hid Hb Hfee HQ. apply (wp_staged m); [done|]. intros pd' t Hpd' Hts.
  assert (pd' = pd) as -> by congruence. do 4 wp_step. zbool. subst rid. set (r := pd_round pd) in *.
  pose proof (book_persistent _ _ r ps Hts Hb) as Hbt.
  wp_step. apply (wp_complete r ps); [done| |].
  { intros b Hk. apply (Hfee b). by rewrite <-Hts. }
  intros fee s1 s2 H2 He Hna. pose proof (settles_settled _ _ _ _ _ _ _ Hbt H2 He) as Hset.
  destruct (dispute_key_rest (round_id r)) as (K1 & K2 & K3).
  destruct (settles_credited _ _ _ _ _ _ H2) as (pay & x & C). destruct (He _ _ C) as [_ _ Hu2 Hk2].
  wp_step. apply (wp_remove_dispute m).
  { eapply disputes_same; [exact Hm|]. rewrite Hk2 by done. by rewrite Hts. }
  intros s4 Hd4 Ht4 Hk4. wp_step. apply (HQ fee).
  - done.
  - apply (settled_persistent s t); [done|]. eapply settled_same; [exact Hset|..].
    + rewrite (total_same s4) by done. done.
    + intros u. rewrite (slot_same s4), (slot_eq s2 s4) by (done || apply Hk4; key_ne). done.
    + eapply unopened_agree; [|exact Hu2]. intros k Hk. pchain. apply Hk4. by intros ->.
  - eapply disputes_same; [exact Hd4|congruence].
  - pchain. by rewrite Hk4.
Qed.

(** C16: a staged result can only be finalized at or after its deadline; then the
    round is settled exactly as an immediate settlement at the staged price
    would, and the staged result is gone. The call also removes whatever active
    round there is, whichever its identifier. *)
Theorem finalize_round_settles rid c s s' m pd ps :
  finalize_round rid c s = (Ok (), s') -> disputes s m -> m !! rid = Some pd ->
  round_id (pd_round pd) = rid -> book s (pd_round pd) ps -> fee_config_ok s ->
  pd_deadline_ledger pd ≤ sequence c ∧
  (∃ fee, settled s (pd_round pd) ps (pd_final_price pd) fee s') ∧
  disputes s' (delete rid m) ∧ persistent s' !! K_ActiveRound = None.
Proof. intros E Hm Hpd Hid Hb Hfee. wp_intro E. apply (wp_finalize rid m pd ps); eauto. Qed.

(** ** Settling with a price *)

Definition too_few (s : State) (ps : list Address) : Prop :=
  ∃ min, persistent s !! K_MinParticipants = Some (VU32 min) ∧ Z.of_nat (length ps) < min.

Definition dispute_window (s : State) (d : Z) : Prop :=
  ∃ o, persistent s !! K_DisputeLedgers = enc cU32 <$> o ∧ d = default DEFAULT_DISPUTE_LEDGERS o.

(** Every participant has the stake back, the round is gone, no value moved
    elsewhere. *)
Definition all_refunded (s : State) (r : Round) (ps : list Address) (s' : State) : Prop :=
  (∀ u, slot s' (K_PendingWinnings u)
        = slot s (K_PendingWinnings u) + participant_payoff ps (stake s (round_id r)) u) ∧
  total s' = total s ∧ unopened s' (round_id r).

Definition staged (r : Round) (fp : Z) (conf : option Z) (now d : Z) : PendingDisputeSettlement :=
  {| pd_round := r; pd_final_price := fp; pd_confidence := conf; pd_resolved_at_ledger := now;
     pd_deadline_ledger := now + d |}.

Lemma wp_dispute_ledgers (Q : Z -> State -> Prop) c s :
  (∀ d s', dispute_window s d -> persistent s' = persistent s -> Q d s') ->
  wp get_dispute_ledgers Q c s.
Proof.
  intros H. unfold get_dispute_ledgers. wp_step. wp_step. wp_step.
  apply (wp_mono _ (λ _ s', persistent s' = persistent s)).
  { destruct (_ >? 0); [|by apply wp_ret]. apply wp_readonly; [auto with frame|done]. }
  intros _ s' Hs'. apply wp_ret, H; [by exists o|done].
Qed.

Lemma wp_write_dispute m pd (Q : () -> State -> Prop) c s :
  disputes s m ->
  (∀ s', disputes s' (<[round_id (pd_round pd) := pd]> m) -> total s' = total s ->
     (∀ k, k ≠ K_PendingDisputes -> persistent s' !! k = persistent s !! k) -> Q () s') ->
  wp (_write_pending_dispute pd) Q c s.
Proof.
  intros (o & Ho & ->) H. unfold _write_pending_dispute. wp_step. wp_step.
  assert (default ∅ o0 = default ∅ o) as -> by (rewrite Ho in H0; destruct o, o0; simpl in *; congruence).
  wp_step. wp_step. wp_step. apply H.
  - eexists (Some _). split; [by lchain|done].
  - money.
  - intros k Hk. by lchain.
Qed.

Section With_price.
Context (r : Round) (ps : list Address) (fp : Z) (conf : option Z) (c : Ctx) (s : State).
Context (m : gmap Z PendingDisputeSettlement).
Hypotheses (Hb : book s r ps) (Hfee : fee_config_ok s) (Hm : disputes s m).

(** What [_settle_round_with_price] may do. *)
Definition price_outcome (s' : State) : Prop :=
  (too_few s ps ∧ all_refunded s r ps s' ∧ disputes s' m) ∨
  (¬ too_few s ps ∧ ∃ d, dispute_window s d ∧ 0 < d ∧
     disputes s' (<[round_id r := staged r fp conf (sequence c) d]> m) ∧
     book s' r ps ∧ total s' = total s ∧
     ∀ u, slot s' (K_PendingWinnings u) = slot s (K_PendingWinnings u)) ∨
  (¬ too_few s ps ∧ (∃ d, dispute_window s d ∧ d ≤ 0) ∧ (∃ fee, settled s r ps fp fee s') ∧
   disputes s' m).

Lemma fallback_outcome (Q : () -> State -> Prop) :
  too_few s ps ->
  (∀ s', price_outcome s' -> persistent s' !! K_ActiveRound = None -> Q () s') ->
  ∀ n mn, wp (_archive_round r ArFallbackRefund fp ps 0 conf ;;
              _refund_under_threshold r ps ;;
              emit "round" "fallback" [VU64 (round_id r); VU32 n; VU32 mn]) Q c s.
Proof.
  intros Htf H n mn. wp_step. apply wp_archive_credits. intros s1 C1.
  pose proof (credited_book _ _ _ _ _ _ C1 Hb) as Hb1.
  wp_step. apply (wp_refund_threshold s1 r ps); [done|]. intros s2 [Ht Hp Hu Hk] Hna.
  wp_step. apply H; [|by lchain]. left. split; [done|]. 
  assert (∀ u, stake s1 (round_id r) u = stake s (round_id r) u) as Hst.
  { intros u. apply stake_same, kept_user, C1. }
  destruct C1 as [Ht1 Hp1 Hk1]. destruct (dispute_key_rest (round_id r)) as (K1 & K2 & K3).
  split; [split_and!|].
  - intros u. rewrite (slot_same s2), Hp, Hp1 by done. unfold nobody, participant_payoff. rewrite Hst. lia.
  - rewrite (total_same s2), Ht, Ht1 by done. lia.
  - eapply unopened_agree; [|exact Hu]. intros k _. by rewrite H0.
  - eapply disputes_same; [exact Hm|]. rewrite H0, Hk by done. by apply Hk1.
Qed.

Lemma wp_settle_with_price (Q : () -> State -> Prop) :
  (∀ s', price_outcome s' -> persistent s' !! K_ActiveRound = None -> Q () s') ->
  wp (_settle_round_with_price r fp conf) Q c s.
Proof.
  intros H. unfold _settle_round_with_price. wp_step. wp_step. wp_step.
  apply (wp_mono _ (λ l t, t = s ∧ (o ≠ None -> l = ps))).
  { destruct o; [|by apply wp_ret]. apply wp_pget_or. intros ol Hol. split; [done|].
    intros _. by apply (book_participants _ _ _ _ Hb). }
  intros l t [-> Hl].
  assert (from_option (λ m, Z.of_nat (length l) <? m) false o = true <-> too_few s ps) as Hiff.
  { unfold too_few. rewrite H0. destruct o as [mn|]; simpl.
    - rewrite Hl by done. rewrite Z.ltb_lt. naive_solver.
    - naive_solver. }
  destruct (from_option _ _ o) eqn:Hfew.
  - assert (o ≠ None) as Ho by (intros ->; done). rewrite (Hl Ho).
    apply fallback_outcome; [by apply Hiff|done].
  - assert (¬ too_few s ps) as Hnf by (intros Htf%Hiff; done).
    wp_step. apply wp_dispute_ledgers. intros d t Hd Ht. destruct (d >? 0) eqn:?; zbool.
    + do 2 wp_step. do 2 wp_step.
      assert (a = sequence c + d) as -> by (unfold u32_checked_add in *; by checked_inv).
      wp_step. apply (wp_write_dispute m); [eapply disputes_same; [exact Hm|by rewrite Ht]|].
      intros s1 Hd1 Ht1 Hk1. apply wp_bind, wp_premove. intros s2 Hs2. apply wp_emit. intros s3 Hs3.
      apply H; [|by lchain]. right. left. split; [done|].
      exists d. split_and!; try done.
      * eapply disputes_same; [exact Hd1|by lchain].
      * eapply book_agree; [|exact Hb]. intros k Hk. rewrite Hs3, Hs2, lookup_delete_ne, Hk1.
        -- by rewrite Ht.
        -- by intros ->.
        -- by intros <-.
      * rewrite (total_same s2), (total_delete _ _ _ Hs2), Ht1, (slot_unvalued s1), (total_same s t) by done. lia.
      * intros u. unfold slot. by lchain.
    + wp_step. apply (wp_complete r ps); [by eapply book_persistent| |].
      { intros b Hk. apply (Hfee b). by rewrite <-Ht. }
      intros fee s1 s2 Hset He Hna. wp_step. apply H; [|done]. right. right.
      split_and!; [done|by exists d| |].
      * exists fee. apply (settled_persistent s t); [done|].
        eapply settles_settled; [by eapply book_persistent|done..].
      * destruct (settles_credited _ _ _ _ _ _ Hset) as (pay & x & C). destruct (He _ _ C) as [_ _ _ Hk].
        destruct (dispute_key_rest (round_id r)) as (K1 & K2 & K3).
        eapply disputes_same; [exact Hm|]. rewrite Hk by done. by rewrite Ht.
Qed.
End With_price.

(** C13: once a price is accepted the active round always ends in exactly one of
    three ways: with too few participants every stake is refunded; with a
    dispute window configured the result is staged with deadline
    [now + window] and nothing is paid; otherwise the round is settled at that
    price. The results staged for other rounds stay. *)
Theorem settle_with_price_outcomes r ps fp conf c s s' m :
  _settle_round_with_price r fp conf c s = (Ok (), s') -> book s r ps -> fee_config_ok s ->
  disputes s m ->
  price_outcome r ps fp conf c s m s' ∧ persistent s' !! K_ActiveRound = None.
Proof. intros E Hb Hfee Hm. wp_intro E. by apply (wp_settle_with_price r ps fp conf c s m). Qed.
