(* ===== verification/CancelSpec.v ===== *)
(** * What cancelling a round guarantees

    Every stake comes back, with a share of what the insurance fund pays; what it
    pays is computed from the configuration in storage ([coverage_due]). *)

From S2P Require Export SettlementSpec.

Section Cancel.
Context (s : State) (r : Round) (ps : list Address).
Hypotheses (Hb : book s r ps) (Hsum : zsum (stake s (round_id r)) ps ≤ I128_MAX).
Notation f := (stake s (round_id r)).

Lemma book_stake_pos u : u ∈ ps -> 0 < f u.
Proof.
  intros Hu. destruct (mode r) eqn:Hm.
  - apply (book_entry _ _ _ Hb) in Hu. rewrite Hm in Hu. by apply entry_updown_stake in Hu as (?&_&?&->&_).
  - by apply (precision_stake_pos s r ps Hb Hm).
Qed.

Lemma stakes_add pre u post :
  ps = pre ++ u :: post -> default (zsum f pre) (i128_checked_add (zsum f pre) (f u)) = zsum f (pre ++ [u]).
Proof.
  intros Hl. rewrite zsum_app. cbn [zsum]. rewrite Z.add_0_r.
  assert (∀ l, (∀ v, v ∈ l -> v ∈ ps) -> 0 ≤ zsum f l) as Hnn.
  { intros l Hin. apply zsum_nonneg. intros v Hv. by apply Z.lt_le_incl, book_stake_pos, Hin. }
  pose proof (Hnn pre ltac:(rewrite Hl; set_solver)). pose proof (Hnn post ltac:(rewrite Hl; set_solver)).
  pose proof (book_stake_pos u ltac:(rewrite Hl; set_solver)).
  assert (zsum f ps = zsum f pre + f u + zsum f post) as Hz by (rewrite Hl, zsum_app; simpl; lia).
  assert (i128_checked_add (zsum f pre) (f u) = Some (zsum f pre + f u)) as ->; [|done].
  apply i128_checked_add_Some. split; [done|]. unfold I128_MIN in *. lia.
Qed.

(** The state of the refund loop after the prefix [pre]. *)
Definition cancelling (pre : list Address) (acc : list Z * Z) (t : State) : Prop :=
  acc = (f <$> pre, zsum f pre) ∧ credited (each id f pre) (zsum f pre) s t.

Lemma cancelling_step pre u post t t' :
  ps = pre ++ u :: post ->
  credited (each id f pre) (zsum f pre) s t -> credited (only u (f u)) (f u) t t' ->
  cancelling (pre ++ [u])
    ((f <$> pre) ++ [f u], default (zsum f pre) (i128_checked_add (zsum f pre) (f u))) t'.
Proof.
  intros Hl C1 C2. split.
  - rewrite fmap_app. f_equal. by eapply stakes_add.
  - eapply credited_ext; [exact (credited_trans _ _ _ _ _ _ _ C1 C2)| |].
    + intros v. rewrite each_app. unfold each. simpl. unfold id. lia.
    + rewrite zsum_app. simpl. lia.
Qed.

Lemma wp_cancel_loop (Q : list Z * Z -> State -> Prop) c :
  (∀ t, credited (participant_payoff ps f) (zsum f ps) s t -> Q (f <$> ps, zsum f ps) t) ->
  wp (mfold ps ([], 0) (match mode r with
                        | UpDown => cancel_updown (round_id r)
                        | Precision => cancel_precision (round_id r)
                        end)) Q c s.
Proof.
  intros H. apply (wp_mfold cancelling).
  - split; [done|]. eapply credited_ext; [by apply credited_refl|done|done].
  - intros pre u post acc t Hl [-> C].
    assert (u ∈ ps) as Hu by (rewrite Hl; set_solver).
    pose proof (book_entry _ _ _ Hb _ Hu) as He. pose proof (kept_user s t (round_id r) u (cr_kept _ _ _ _ C)) as Hs.
    destruct (mode r).
    + destruct (entry_updown_stake _ _ _ He) as (p & Hp & _ & Hst & _).
      unfold cancel_updown. do 2 wp_step. destruct Hs as (Hs & _). unfold pos_at in *.
      rewrite Hs, Hp in H0. destruct o; [|done]. injection H0 as <-. rewrite <-Hst.
      wp_step. apply wp_accumulate_credits. intros t1 C1. wp_step. apply wp_persist_credits. intros t2 C2.
      wp_step. eapply cancelling_step; [exact Hl|exact C|by eapply credited_then_nobody].
    + unfold cancel_precision. wp_step. apply (wp_precision_stake _ s); [done..|]. intros Hpos.
      wp_step. destruct (_ >? 0) eqn:?; zbool; [|lia].
      apply wp_accumulate_credits. intros t1 C1. wp_step. apply wp_persist_credits. intros t2 C2.
      wp_step. eapply cancelling_step; [exact Hl|exact C|by eapply credited_then_nobody].
  - intros acc t [-> C]. apply H. eapply credited_ext; [exact C| |done].
    intros u. by apply each_participants; [apply Hb|].
Qed.

(** The coverage each participant gets of the [d] taken from the fund. *)
Definition cover (d : Z) (u : Address) : Z := d * f u / zsum f ps.

Lemma wp_coverage_shares d t (Q : () -> State -> Prop) c :
  0 ≤ d -> ps ≠ [] ->
  (∀ t', credited (participant_payoff ps (cover d)) (zsum (cover d) ps) t t' -> Q () t') ->
  wp (mfor (imap pair ps) (coverage_share d (zsum f ps) (f <$> ps))) Q c t.
Proof.
  intros Hd Hne H. assert (0 < zsum f ps) as Hpos by (apply zsum_pos; [apply book_stake_pos|done]).
  apply (wp_mfor_credits snd (λ iu, cover d iu.2)).
  - intros [i u] t1 Hin%elem_indexed _. unfold coverage_share. rewrite list_lookup_fmap, Hin. simpl.
    assert (0 < f u) by (apply book_stake_pos; by eapply list_elem_of_lookup_2).
    destruct (_ >? 0) eqn:?; zbool; [|lia]. do 4 wp_step.
    assert (a0 = cover d u) as ->.
    { arith_inv. unfold i128_checked_div in *. destruct (zsum f ps =? 0) eqn:?; [done|].
      match goal with Hc : checked _ _ = Some a0 |- _ => apply checked_Some in Hc as [-> _] end.
      unfold cover. apply quot_div_nonneg; nia. }
    assert (0 ≤ cover d u) by (apply Z.div_pos; nia).
    destruct (cover d u >? 0) eqn:?; zbool; [by apply wp_accumulate_credits|].
    replace (cover d u) with 0 by lia. apply wp_ret. by apply credited_nobody_only, credited_refl.
  - intros t' C. apply H. eapply credited_ext; [exact C| |].
    + intros v. unfold each. rewrite <-(each_participants _ ps) by (done || apply Hb).
      unfold each. rewrite <-(snd_indexed ps) at 2. by rewrite zsum_fmap.
    + rewrite <-(snd_indexed ps) at 2. by rewrite zsum_fmap.
Qed.

Lemma cover_bounds d :
  0 ≤ d -> ps ≠ [] -> d - Z.of_nat (length ps) < zsum (cover d) ps ≤ d.
Proof.
  intros Hd Hne. assert (0 < zsum f ps) as Hpos by (apply zsum_pos; [apply book_stake_pos|done]).
  pose proof (pro_rata_bounds f d ps Hpos Hd) as Hpr.
  rewrite (zsum_ext (cover d) (λ x, f x * d / zsum f ps)); [done|].
  intros u _. unfold cover. by rewrite Z.mul_comm.
Qed.

Lemma frame_coverage_total P l : frame P (coverage_total l).
Proof. frame_of coverage_total. Qed.

Lemma cover_zero u : cover 0 u = 0.
Proof. unfold cover. by rewrite Z.mul_0_l, Zdiv_0_l. Qed.

Lemma no_cover t t' :
  credited nobody 0 t t' ->
  credited (participant_payoff ps (cover 0)) (zsum (cover 0) ps - 0) t t'.
Proof.
  intros C. eapply credited_ext; [exact C| |].
  - intros u. unfold participant_payoff, nobody. case_bool_decide; [by rewrite cover_zero|done].
  - rewrite (zsum_ext _ (λ _, 0)); [by rewrite zsum_zero|]. intros; apply cover_zero.
Qed.

(** What the stakes are insured for at [rate], rounded down stake by stake. *)
Definition coverage_owed (rate : Z) : Z := zsum (λ u, f u * rate / BPS_DENOMINATOR) ps.

Lemma wp_coverage_total t (Q : Z -> State -> Prop) c :
  0 < coverage_rate t ->
  (∀ t', persistent t' = persistent t -> Q (coverage_owed (coverage_rate t)) t') ->
  wp (coverage_total (f <$> ps)) Q c t.
Proof.
  intros Hr H. unfold coverage_total.
  apply (wp_mfold (λ pre acc t1, persistent t1 = persistent t ∧
    acc = zsum (λ x, x * coverage_rate t / BPS_DENOMINATOR) pre)); [done| |].
  - intros pre x post acc t1 Hl [Ht1 ->].
    assert (coverage_rate t1 = coverage_rate t) as Hrt by (unfold coverage_rate; by rewrite Ht1).
    assert (0 < x) as Hx.
    { assert (x ∈ f <$> ps) as (u & -> & Hu)%list_elem_of_fmap by (rewrite Hl; set_solver).
      by apply book_stake_pos. }
    apply wp_bind, wp_coverage_amount; [done|lia|]. intros t2 Ht2. apply wp_lift.
    intros y [-> _]%payout_add_Ok. split; [congruence|]. rewrite zsum_app, Hrt. simpl. lia.
  - intros acc t' [Ht' ->]. rewrite zsum_fmap. by apply H.
Qed.

Lemma frame_coverage_shares d tot l :
  frame (λ k, k = K_InsFundBal) (mfor (imap pair ps) (coverage_share d tot l)).
Proof.
  apply frame_mfor. intros [i u]. unfold coverage_share. frame_with idtac; try discriminate.
Qed.

Lemma wp_pay_coverage t (Q : () -> State -> Prop) c :
  ps ≠ [] -> 0 < coverage_rate t ->
  (∀ d t', d = granted (coverage_owed (coverage_rate t)) (slot t K_InsFundBal) ->
     slot t' K_InsFundBal = slot t K_InsFundBal - d ->
     credited (participant_payoff ps (cover d)) (zsum (cover d) ps - d) t t' -> Q () t') ->
  wp (pay_coverage (round_id r) ps (f <$> ps) (zsum f ps)) Q c t.
Proof.
  intros Hne Hr H. unfold pay_coverage. wp_step. apply wp_coverage_total; [done|].
  intros t1 Ht1. set (owed := coverage_owed (coverage_rate t)) in *.
  pose proof (slot_same t t1 K_InsFundBal Ht1) as Hf1. destruct (owed >? 0) eqn:Htc.
  - wp_step. apply wp_deduct. rewrite Hf1. intros d t2 Hd Ht2 Hf2 Hk2.
    assert (0 ≤ d) as Hd0 by (subst d; unfold granted; lia).
    assert (credited nobody (- d) t t2) as C2.
    { eapply credited_after_nobody; [by apply credited_refl|]. apply fee_credits; [lia|].
      intros k Hk _. by apply Hk2. }
    destruct ((d >? 0) && (zsum f ps >? 0)) eqn:Hdz.
    + eapply wp_mono; [apply (wp_and _
        (λ _ t3, credited (participant_payoff ps (cover d)) (zsum (cover d) ps) t2 t3)
        (λ _ t3, slot t3 K_InsFundBal = slot t2 K_InsFundBal))|].
      * by apply wp_coverage_shares.
      * eapply wp_frame; [apply frame_coverage_shares|]. intros a t3 Ha. by apply slot_eq, Ha.
      * intros [] t3 [C3 Hf3]. apply (H d); [done|lia|].
        eapply credited_ext; [exact (credited_trans _ _ _ _ _ _ _ C2 C3)| |lia].
        intros u. unfold nobody. lia.
    + assert (d = 0) as ->.
      { assert (0 < zsum f ps) by (apply zsum_pos; [apply book_stake_pos|done]).
        destruct (d >? 0) eqn:Hg; simpl in Hdz; zbool; lia. }
      apply wp_ret, (H 0); [done|lia|]. by apply no_cover.
  - zbool. apply wp_ret, (H 0); [unfold granted; lia|lia|]. by apply no_cover, credited_refl.
Qed.
End Cancel.

(** What the insurance fund pays for cancelling the round for [reason]: nothing
    unless the reason is insured, else what the stakes are insured for, as far as
    the fund goes. *)
Definition coverage_due (s : State) (r : Round) (ps : list Address) (reason : Z) : Z :=
  if insured s reason
  then granted (coverage_owed s r ps (coverage_rate s)) (slot s K_InsFundBal) else 0.

(** A cancelled round: every participant has the stake back, plus a share of the
    [d] taken from the insurance fund; the slots of the round are empty; the
    rounding of the shares loses less than one unit per participant. *)
Record cancelled (s : State) (r : Round) (ps : list Address) (d : Z) (s' : State) : Prop := {
  cn_fund : slot s' K_InsFundBal = slot s K_InsFundBal - d;
  cn_pending u : slot s' (K_PendingWinnings u)
    = slot s (K_PendingWinnings u)
      + participant_payoff ps (λ v, stake s (round_id r) v + cover s r ps d v) u;
  cn_total : total s - Z.of_nat (length ps) ≤ total s' ≤ total s;
  cn_exact : d = 0 -> total s' = total s;
  cn_empty : unopened s' (round_id r);
  cn_inactive : persistent s' !! K_ActiveRound = None;
  cn_flag : persistent s' !! K_CancelledRound (round_id r) = Some (VBool true) }.

Lemma ended_cancelled s r ps d s' :
  book s r ps -> 0 ≤ d -> (ps = [] -> d = 0) ->
  slot s' K_InsFundBal = slot s K_InsFundBal - d ->
  ended (round_id r) ps
    (λ u, participant_payoff ps (stake s (round_id r)) u + participant_payoff ps (cover s r ps d) u)
    (zsum (stake s (round_id r)) ps + (zsum (cover s r ps d) ps - d)) s s' ->
  persistent s' !! K_ActiveRound = None ->
  persistent s' !! K_CancelledRound (round_id r) = Some (VBool true) ->
  cancelled s r ps d s'.
Proof.
  intros Hb Hd Hnil Hfund [Ht Hp Hu _] Hna Hflag. split; try done.
  - intros u. rewrite Hp. unfold participant_payoff. case_bool_decide; lia.
  - destruct (decide (ps = [])) as [->|Hne]; [rewrite (Hnil eq_refl) in *; simpl in *; lia|].
    pose proof (cover_bounds s r ps Hb d Hd Hne). lia.
  - intros ->. destruct (decide (ps = [])) as [->|Hne]; [simpl in *; lia|].
    pose proof (cover_bounds s r ps Hb 0 ltac:(lia) Hne).
    assert (zsum (cover s r ps 0) ps = 0); [|lia].
    rewrite (zsum_ext _ (λ _, 0)); [by rewrite zsum_zero|]. intros; apply cover_zero.
Qed.

Lemma cancelled_persistent s t r ps d s' :
  persistent t = persistent s -> cancelled t r ps d s' -> cancelled s r ps d s'.
Proof.
  intros Hts [H1 H2 H3 H4 H5 H6 H7].
  assert (∀ u, stake t (round_id r) u = stake s (round_id r) u) as Hst by (intros; by apply stake_persistent).
  assert (∀ u, cover t r ps d u = cover s r ps d u) as Hcov.
  { intros u. unfold cover. rewrite Hst. f_equal. apply zsum_ext. auto. }
  rewrite (slot_same s t) in H1 by done. rewrite (total_same s t) in H3, H4 by done.
  split; try done. intros u. rewrite H2, (slot_same s t) by done. f_equal.
  unfold participant_payoff. by rewrite Hst, Hcov.
Qed.

Lemma coverage_due_persistent s t r ps reason :
  persistent t = persistent s -> coverage_due t r ps reason = coverage_due s r ps reason.
Proof.
  intros H. unfold coverage_due, insured, coverage_owed, insured_events, coverage_rate.
  rewrite H, (slot_same s t) by done. destruct (event_of_reason reason); [|done].
  destruct (_ && _); [|done].
  f_equal. apply zsum_ext. intros u _. by rewrite (stake_persistent t s).
Qed.

Lemma frame_precision_stake P rid u : frame P (precision_stake rid u).
Proof. frame_of precision_stake. Qed.
#[export] Hint Resolve frame_precision_stake : frame.

Lemma frame_cancelled_pot P r ps : frame P (cancelled_pot r ps).
Proof. frame_of cancelled_pot. Qed.

(** The refunds leave the insurance fund alone. *)
Lemma frame_cancel_loop r ps :
  frame (λ k, k = K_InsFundBal)
    (mfold ps ([], 0) (match mode r with
                       | UpDown => cancel_updown (round_id r)
                       | Precision => cancel_precision (round_id r)
                       end)).
Proof.
  apply frame_mfold. intros acc u. destruct (mode r); unfold cancel_updown, cancel_precision;
    frame_with idtac; try discriminate; apply frame_persist; by intros k Hk ->.
Qed.

(** What happens once everybody is paid. *)
Definition close_cancelled (r : Round) (ps : list Address) : M () :=
  clear_round_storage (round_id r) ps ;;
  _ ← cancelled_pot r ps;
  _archive_round r ArCancelled 0 ps 0 None ;;
  premove (K_RoundParticipants (round_id r)) ;;
  pset cBool (K_CancelledRound (round_id r)) true ;;
  premove K_ActiveRound.

Lemma frame_close_cancelled r ps : frame (λ k, k = K_InsFundBal) (close_cancelled r ps).
Proof.
  unfold close_cancelled. frame_with ltac:(by intros ? ->).
  - unfold clear_round_storage. frame_with ltac:(by intros ? ->).
  - apply frame_cancelled_pot.
  - apply frame_archive. by intros k Hk ->.
Qed.

Lemma wp_close_cancelled r ps s s1 pay x (Q : () -> State -> Prop) c :
  book s1 r ps -> credited pay x s s1 ->
  (∀ s', ended (round_id r) ps pay x s s' -> slot s' K_InsFundBal = slot s1 K_InsFundBal ->
     persistent s' !! K_ActiveRound = None ->
     persistent s' !! K_CancelledRound (round_id r) = Some (VBool true) -> Q () s') ->
  wp (close_cancelled r ps) Q c s1.
Proof.
  intros Hb C H.
  eapply wp_mono; [apply (wp_and _
    (λ _ s', ended (round_id r) ps pay x s s' ∧ persistent s' !! K_ActiveRound = None ∧
       persistent s' !! K_CancelledRound (round_id r) = Some (VBool true))
    (λ _ s', slot s' K_InsFundBal = slot s1 K_InsFundBal))|].
  2:{ eapply wp_frame; [apply frame_close_cancelled|]. intros a s' Ha. by apply slot_eq, Ha. }
  2:{ intros [] s' [(E & Hna & Hflag) Hf]. by apply H. }
  unfold close_cancelled. wp_step. apply (wp_clear_round s1 r ps); [done|]. intros s3 H3 _.
  pose proof (ended_credited _ _ _ _ _ _ _ C H3) as E3.
  wp_step. apply wp_readonly_credits; [apply frame_cancelled_pot|]. intros pot s4 C4.
  wp_step. apply wp_archive_credits. intros s5 C5.
  pose proof (ended_then_nobody _ _ _ _ _ _ _ (ended_then_nobody _ _ _ _ _ _ _ E3 C4) C5) as E5.
  do 5 wp_step. split_and!.
  - destruct E5 as [Ht Hp Hu Hk]. split.
    + rewrite <-Ht. money.
    + intros u. rewrite <-Hp. apply slot_eq. by lchain.
    + eapply unopened_delete; [|done]. eapply unopened_agree; [|eapply unopened_delete; [exact Hu|done]].
      intros k Hk'. rewrite H1. apply lookup_insert_ne. intros <-. by destruct Hk'.
    + intros k K1 K2 K3. unfold shared_round_key in K3. rewrite <-Hk by done.
      rewrite H2, lookup_delete_ne by (intros <-; tauto).
      rewrite H1, lookup_insert_ne by (intros <-; apply K1; left; simpl; auto).
      rewrite H0, lookup_delete_ne; [done|]. intros <-. apply K2. by simpl.
  - by lchain.
  - by lchain.
Qed.

(** Everything after the eligibility check. *)
Lemma cancel_rest s r ps el c :
  book s r ps -> zsum (stake s (round_id r)) ps ≤ I128_MAX -> (el = true -> 0 < coverage_rate s) ->
  wp (acc ← mfold ps ([], 0)
        (match mode r with
         | UpDown => cancel_updown (round_id r)
         | Precision => cancel_precision (round_id r)
         end);
      let '(participant_stakes, total_stake) := acc in
      (if (el : bool) && negb (bool_decide (participant_stakes = [])) then
         pay_coverage (round_id r) ps participant_stakes total_stake
       else mret ()) ;;
      close_cancelled r ps)
    (λ _ s', cancelled s r ps
       (if el then granted (coverage_owed s r ps (coverage_rate s)) (slot s K_InsFundBal) else 0) s') c s.
Proof.
  intros Hb Hsum Hel. wp_step.
  eapply wp_mono; [apply (wp_and _ (λ acc s1, acc = (stake s (round_id r) <$> ps, zsum (stake s (round_id r)) ps) ∧
      credited (participant_payoff ps (stake s (round_id r))) (zsum (stake s (round_id r)) ps) s s1)
      (λ _ s1, slot s1 K_InsFundBal = slot s K_InsFundBal))|].
  { by apply (wp_cancel_loop s r ps). }
  { eapply wp_frame; [apply frame_cancel_loop|]. intros a t Ha. by apply slot_eq, Ha. }
  intros acc s1 [[-> C1] Hins]. simpl.
  assert (coverage_rate s1 = coverage_rate s) as Hrate
    by (unfold coverage_rate; by rewrite (cr_kept _ _ _ _ C1) by (intros [[]|[[]|]]; by simpl in *)).
  pose proof (credited_book _ _ _ _ _ _ C1 Hb) as Hb1.
  set (d := if el then _ else _).
  assert (0 ≤ d) as Hd by (unfold d, granted; destruct el; lia).
  assert (ps = [] -> d = 0) as Hnil.
  { intros ->. unfold d, granted, coverage_owed. simpl. destruct el; lia. }
  wp_step. apply (wp_mono _ (λ _ s2, slot s2 K_InsFundBal = slot s K_InsFundBal - d ∧
     credited (participant_payoff ps (cover s r ps d)) (zsum (cover s r ps d) ps - d) s1 s2)).
  { assert (d = 0 -> slot s1 K_InsFundBal = slot s K_InsFundBal - d ∧
      credited (participant_payoff ps (cover s r ps d)) (zsum (cover s r ps d) ps - d) s1 s1) as H0.
    { intros ->. split; [lia|]. by apply no_cover, credited_refl. }
    destruct el; simpl; [|by apply wp_ret, H0].
    case_bool_decide as Hps; simpl; [apply wp_ret, H0, Hnil; by apply fmap_nil_inv in Hps|].
    apply (wp_pay_coverage s r ps); [done..|by intros ->|rewrite Hrate; by apply Hel|].
    rewrite Hrate, Hins. intros d' t Hd' Hf C. fold d in Hd'. subst d'. done. }
  intros _ s2 [Hfund C2]. pose proof (credited_book _ _ _ _ _ _ C2 Hb1) as Hb2.
  pose proof (credited_trans _ _ _ _ _ _ _ C1 C2) as C.
  eapply wp_close_cancelled; [done|exact C|]. intros s' E Hf Hna Hflag.
  apply ended_cancelled; try done. by rewrite Hf.
Qed.

(** Cancelling ends the active round. *)
Lemma wp_cancel_round reason r ps (Q : () -> State -> Prop) c s :
  active s r -> book s r ps -> zsum (stake s (round_id r)) ps ≤ I128_MAX ->
  (∀ s', cancelled s r ps (coverage_due s r ps reason) s' -> Q () s') ->
  wp (cancel_round reason) Q c s.
Proof.
  intros Hact Hb Hsum HQ. unfold cancel_round. wp_ro. wp_step; wp_step.
  do 5 wp_step. assert (x0 = r) as -> by (unfold active in Hact; simpl in *; congruence).
  assert (persistent s' = persistent s) as Hs0 by done. rename s' into t.
  wp_step. wp_step. rewrite (book_participants _ _ _ _ (book_persistent _ _ r ps Hs0 Hb) H3).
  wp_step. apply (wp_eligible reason). intros t1 Ht1.
  assert (persistent t1 = persistent s) as Hs1 by congruence.
  apply (wp_mono _ (λ _ t', cancelled t1 r ps (coverage_due t1 r ps reason) t')).
  2:{ intros [] t' Hc. apply HQ, (cancelled_persistent s t1); [done|].
      by rewrite <-(coverage_due_persistent s t1). }
  assert (insured t reason = insured t1 reason) as -> by (unfold insured, insured_events, coverage_rate; by rewrite Ht1).
  apply cancel_rest; [by eapply book_persistent| |].
  - erewrite zsum_ext; [exact Hsum|]. intros; by apply stake_persistent.
  - unfold insured. destruct (event_of_reason reason); [|done]. intros [_ ?]%andb_true_iff. zbool. lia.
Qed.

(** C14: a successful cancellation of a round whose stakes sum to at most the
    largest i128 returns every stake in pending winnings together with a pro-rata
    share (rounded down) of what the insurance fund pays. The fund pays nothing
    unless the reason stands for an insurance event on the stored list and the
    coverage rate is positive; then it pays the rate of each stake, rounded down,
    as far as its balance goes, and loses exactly that. The round's slots are
    emptied, it is marked cancelled and no round is active; the insurance shares
    are the only source of rounding loss. *)
Theorem cancel_round_refunds reason c s s' r ps :
  cancel_round reason c s = (Ok (), s') -> active s r -> book s r ps ->
  zsum (stake s (round_id r)) ps ≤ I128_MAX ->
  cancelled s r ps (coverage_due s r ps reason) s'.
Proof. intros E Hact Hb Hsum. wp_intro E. by apply (wp_cancel_round reason r ps). Qed.
