(* ===== verification/Oracle.v ===== *)
(** * Oracle resolution

    The oracle half of contracts/src/settlement.rs: the checks a price payload
    must pass (heartbeat, round, deployment, attestation, time window,
    deviation, confidence, nonce, quorum) before the round is settled with it. *)

From S2P Require Export CancelSpec.

(** [_emit_action_rejected(oracle, "resolve", e); return Err(e)] *)
Definition resolve_reject (b : bool) (oracle : Address) (e : ContractError) : M () :=
  emit_throw_if b oracle "resolve" e.

(** ** Heartbeat *)

Definition _check_heartbeat_health_blocked (config : HbGateConfig) : M bool :=
  _extend_persistent_ttl K_OracleHeartbeat ;;
  record ← pget cHeartbeat K_OracleHeartbeat;
  match record with
  | None => mret true
  | Some record =>
      if hb_status record =? 2 then mret true else
      _extend_persistent_ttl K_OracleStaleThreshold ;;
      threshold ← pget_or cU64 K_OracleStaleThreshold DEFAULT_ORACLE_STALE_THRESHOLD;
      current_time ← asks ledger_timestamp;
      let deadline := u64_saturating_add (u64_saturating_add (hb_timestamp record) threshold)
                        (grace_seconds config) in
      mret (current_time >? deadline)
  end.

(** The gate that honours [strict_mode] and its one-shot override. *)
Definition strict_heartbeat_gate (oracle : Address) (rid : Z) : M () :=
  hb_config ← _load_hb_config;
  if strict_mode hb_config then
    hb_blocked ← _check_heartbeat_health_blocked hb_config;
    if (hb_blocked : bool) then
      if override_armed hb_config then
        _consume_hb_override ;;
        emit "oracle" "hoverride" [VU64 rid]
      else
        emit "oracle" "hblocked" [VU64 rid] ;;
        resolve_reject true oracle OracleNotLive
    else mret ()
  else mret ().

(** ** TWAP samples *)

Definition _load_twap_samples : M (list PriceSample) :=
  b ← phas K_TwapSamples;
  (if (b : bool) then pextend_ttl K_TwapSamples TTL_BUMP_THRESHOLD TTL_BUMP_AMOUNT else mret ()) ;;
  pget_or cSamples K_TwapSamples [].

Definition _twap_reference_price (window_samples : Z) : M Z :=
  samples ← _load_twap_samples;
  let len := Z.of_nat (length samples) in
  reject_if (len <? window_samples) WindowOutOfRange ;;
  let start := Z.to_nat (len - window_samples) in
  acc ← lift (ofold (drop start samples) (0, 0) (λ acc sample,
          let '(sum, count) := acc in
          sum' ← some_or (u128_checked_add sum (sample_price sample)) Overflow;
          count' ← some_or_panic (u128_checked_add count 1);
          Ok (sum', count')));
  let '(sum, count) := acc in
  reject_if (count =? 0) WindowOutOfRange ;;
  mret (sum / count).

(** [while samples.len() > MAX { samples.remove(0) }] *)
Fixpoint trim_samples (samples : list PriceSample) : list PriceSample :=
  match samples with
  | [] => []
  | _ :: rest =>
      if Z.of_nat (length samples) >? MAX_TWAP_WINDOW_SAMPLES then trim_samples rest else samples
  end.

Definition _record_twap_sample (price timestamp : Z) : M () :=
  samples ← _load_twap_samples;
  let samples := samples ++ [{| sample_price := price; sample_timestamp := timestamp |}] in
  pset cSamples K_TwapSamples (trim_samples samples) ;;
  pextend_ttl K_TwapSamples TTL_BUMP_THRESHOLD TTL_BUMP_AMOUNT.

(** ** Guards on a payload *)

Definition resolve_auth : M Address :=
  _extend_persistent_ttl K_Oracle ;;
  oracle ← pget_ok cAddr K_Oracle OracleNotSet;
  require_auth oracle ;;
  inspect_err _ensure_not_paused (λ e, _emit_action_rejected oracle "resolve" e) ;;
  mret oracle.

(** The payload must be for the active round (identified by its start ledger)
    and for this deployment. *)
Definition check_round_and_deployment (oracle : Address) (payload_round : Z) (network : Bytes)
    (contract : Address) (round : Round) : M () :=
  resolve_reject (negb (payload_round =? start_ledger round)) oracle InvalidOracleRound ;;
  net ← asks env_network_id;
  resolve_reject (negb (bool_decide (network = net))) oracle OracleNetworkMismatch ;;
  this ← asks current_contract;
  resolve_reject (negb (bool_decide (contract = this))) oracle OracleNetworkMismatch.

(** The payload's time must not be in the future and must lie in the round's
    estimated life, widened by the configured skew. *)
Definition check_timestamp (oracle : Address) (round : Round) (ts : Z) : M () :=
  current_time ← asks ledger_timestamp;
  resolve_reject (ts >? current_time) oracle FutureOracleData ;;
  skew ← iget_or cU64 K_otskew DEFAULT_ORACLE_TIMESTAMP_SKEW;
  round_duration_ledgers ← ok_or (u32_checked_sub (end_ledger round) (start_ledger round)) Overflow;
  seconds ← ok_or (u64_checked_mul round_duration_ledgers SECONDS_PER_LEDGER) Overflow;
  round_end_estimate ← ok_or (u64_checked_add (start_timestamp round) seconds) Overflow;
  let lower_bound := u64_saturating_sub (start_timestamp round) skew in
  let upper_bound := u64_saturating_add round_end_estimate skew in
  resolve_reject ((ts <? lower_bound) || (ts >? upper_bound)) oracle OracleTimestampOutsideWindow.

(** The distance of a price to a reference in basis points. *)
Definition distance_bps (price reference : Z) : outcome Z :=
  diff ← (if price >=? reference
          then some_or (u128_checked_sub price reference) Overflow
          else some_or (u128_checked_sub reference price) Overflow);
  product ← some_or (u128_checked_mul diff 10000) Overflow;
  some_or (u32_try_from (product / reference)) Overflow.

(** Reject a price too far from the reference unless the one-shot override is
    armed, which is then consumed. *)
Definition deviation_guard (round : Round) (reference_price price max_bps : Z) : M () :=
  reject_if (reference_price =? 0) InvalidPrice ;;
  diff_bps ← lift (distance_bps price reference_price);
  override ← pget_or cBool K_OracleDeviationOverrideArmed false;
  let info := [VU64 (round_id round); VU128 reference_price; VU128 price; VU32 diff_bps; VU32 max_bps] in
  (if (diff_bps >? max_bps) && negb override then
     emit "oracle" "rejected" info ;; throw OracleDeviationExceeded
   else mret ()) ;;
  if (diff_bps >? max_bps) && override then
    premove K_OracleDeviationOverrideArmed ;;
    emit "oracle" "override" info
  else mret ().

Definition check_deviation (round : Round) (price : Z) : M () :=
  _extend_persistent_ttl K_OracleMaxDeviationBps ;;
  max_bps ← pget cU32 K_OracleMaxDeviationBps;
  match max_bps with
  | None => mret ()
  | Some max_bps =>
      deviation_config ← _load_deviation_config;
      reference_price ←
        match reference_mode deviation_config with
        | RefStartPrice => mret (price_start round)
        | RefTwap => _twap_reference_price (window_samples deviation_config)
        end;
      deviation_guard round reference_price price max_bps
  end.

Definition check_confidence (round : Round) (confidence : option Z) : M () :=
  _extend_persistent_ttl K_OracleMinConfidenceBps ;;
  _extend_persistent_ttl K_OracleStrictMode ;;
  min_confidence_bps ← pget cU32 K_OracleMinConfidenceBps;
  match min_confidence_bps with
  | None => mret ()
  | Some min_confidence_bps =>
      match confidence with
      | None =>
          strict ← pget_or cBool K_OracleStrictMode false;
          reject_if strict InvalidPrice
      | Some confidence_bps =>
          if (confidence_bps >? 10000) || (confidence_bps <? min_confidence_bps) then
            emit "oracle" "lowconf" [VU64 (round_id round); VU32 confidence_bps; VU32 min_confidence_bps] ;;
            throw InvalidPrice
          else mret ()
      end
  end.

Definition consume_nonce (oracle : Address) (rid nonce : Z) : M () :=
  used ← phas (K_ConsumedOracleNonce rid nonce);
  resolve_reject used oracle OracleNonceReused ;;
  pset cBool (K_ConsumedOracleNonce rid nonce) true.

Definition check_round_ended (oracle : Address) (round : Round) : M () :=
  current_ledger ← asks sequence;
  resolve_reject (current_ledger <? end_ledger round) oracle RoundNotEnded.

(** ** Single-oracle resolution *)

Section Crypto.
Context `{HostCrypto}.

(** The bytes of the domain prefix XELMA_ORACLE_ATTESTATION_V1. *)
Definition ATTESTATION_DOMAIN_PREFIX : Bytes := String.list_byte_of_string "XELMA_ORACLE_ATTESTATION_V1".

Definition _build_attestation_message (payload : OraclePayload) : Bytes :=
  ATTESTATION_DOMAIN_PREFIX
    ++ network_id payload
    ++ address_to_xdr (contract_addr payload)
    ++ u32_to_xdr (op_round_id payload)
    ++ u128_to_xdr (price payload)
    ++ u64_to_xdr (timestamp payload)
    ++ u64_to_xdr (nonce payload).

(** A bad signature traps in the host. *)
Definition check_attestation (oracle : Address) (payload : OraclePayload) : M () :=
  attestation_config ← _load_attestation_config;
  match att_key attestation_config with
  | None => mret ()
  | Some pubkey =>
      signature ← inspect_err (ok_or (attestation payload) WindowOutOfRange)
                    (λ e, _emit_action_rejected oracle "resolve" e);
      if ed25519_verify pubkey (_build_attestation_message payload) signature then mret () else trap
  end.

Definition resolve_round (payload : OraclePayload) : M () :=
  _require_supported_schema ;;
  reject_if (price payload =? 0) InvalidPrice ;;
  oracle ← resolve_auth;
  hb_config ← _load_hb_config;
  blocked ← _check_heartbeat_health_blocked hb_config;
  resolve_reject blocked oracle OracleHeartbeatUnhealthy ;;
  round ← pget_ok cRound K_ActiveRound NoActiveRound;
  check_round_and_deployment oracle (op_round_id payload) (network_id payload)
    (contract_addr payload) round ;;
  check_attestation oracle payload ;;
  check_timestamp oracle round (timestamp payload) ;;
  check_deviation round (price payload) ;;
  check_confidence round (confidence payload) ;;
  consume_nonce oracle (round_id round) (nonce payload) ;;
  strict_heartbeat_gate oracle (round_id round) ;;
  check_round_ended oracle round ;;
  _record_twap_sample (price payload) (timestamp payload) ;;
  _settle_round_with_price round (price payload) (confidence payload).
End Crypto.

(** ** Multi-feed resolution *)

(** Insertion before the first greater price. *)
Fixpoint insert_price (price : Z) (sorted : list Z) : list Z :=
  match sorted with
  | [] => [price]
  | y :: rest => if price <? y then price :: sorted else y :: insert_price price rest
  end.

Definition sorted_feed (prices : list Z) : list Z := fold_left (λ acc p, insert_price p acc) prices [].

Definition median_price (prices : list Z) : outcome Z :=
  let sorted_prices := sorted_feed prices in
  let n := length prices in
  if (n mod 2 =? 1)%nat then some_or (sorted_prices !! (n / 2)%nat) Overflow
  else
    mid1 ← some_or (sorted_prices !! (n / 2 - 1)%nat) Overflow;
    mid2 ← some_or (sorted_prices !! (n / 2)%nat) Overflow;
    sum ← some_or (u128_checked_add mid1 mid2) Overflow;
    Ok (sum / 2).

Fixpoint has_duplicate (sources : list Z) : bool :=
  match sources with
  | [] => false
  | x :: rest => bool_decide (x ∈ rest) || has_duplicate rest
  end.

(** The feeds within the outlier threshold of the median. *)
Definition count_survivors (prices : list Z) (median threshold : Z) : outcome Z :=
  ofold prices 0 (λ survivors price,
    diff_bps ← distance_bps price median;
    if diff_bps <=? threshold then some_or (u32_checked_add survivors 1) Overflow else Ok survivors).

Definition check_feeds (payload : MultiFeedPayload) : M () :=
  reject_if (bool_decide (mf_prices payload = []) || bool_decide (mf_sources payload = []))
    TooFewObservations ;;
  reject_if (negb (length (mf_prices payload) =? length (mf_sources payload))%nat) TooFewObservations ;;
  reject_if (existsb (λ p, p =? 0) (mf_prices payload)) InvalidPrice.

Definition check_observations (oracle : Address) (payload : MultiFeedPayload)
    (quorum_cfg : OracleQuorumConfig) : M () :=
  let n := Z.of_nat (length (mf_prices payload)) in
  resolve_reject (n <? min_observations quorum_cfg) oracle TooFewObservations ;;
  resolve_reject (n >? MAX_ORACLE_OBSERVATIONS) oracle TooFewObservations ;;
  resolve_reject (has_duplicate (mf_sources payload)) oracle DuplicateOracleSource.

Definition check_start_deviation (round : Round) (median : Z) : M () :=
  _extend_persistent_ttl K_OracleMaxDeviationBps ;;
  max_bps ← pget cU32 K_OracleMaxDeviationBps;
  match max_bps with
  | None => mret ()
  | Some max_bps => deviation_guard round (price_start round) median max_bps
  end.

Definition check_quorum (round : Round) (prices : list Z) (median : Z)
    (quorum_cfg : OracleQuorumConfig) : M () :=
  survivors ← lift (count_survivors prices median (outlier_threshold_bps quorum_cfg));
  (if survivors <? quorum_threshold quorum_cfg then
     emit "oracle" "nofed"
       [VU64 (round_id round); VU128 median; VU32 survivors; VU32 (quorum_threshold quorum_cfg)] ;;
     throw InsufficientOracleQuorum
   else mret ()) ;;
  emit "oracle" "multisum"
    [VU64 (round_id round); VU32 (Z.of_nat (length prices)); VU32 survivors; VU128 median;
     VU32 (quorum_threshold quorum_cfg)].

Definition resolve_round_multi (payload : MultiFeedPayload) : M () :=
  _require_supported_schema ;;
  check_feeds payload ;;
  oracle ← resolve_auth;
  _extend_persistent_ttl K_OracleQuorum ;;
  quorum_cfg ← pget_ok cQuorum K_OracleQuorum OracleNotSet;
  round ← pget_ok cRound K_ActiveRound NoActiveRound;
  check_round_and_deployment oracle (mf_round_id payload) (mf_network_id payload)
    (mf_contract_addr payload) round ;;
  check_timestamp oracle round (mf_timestamp payload) ;;
  strict_heartbeat_gate oracle (round_id round) ;;
  consume_nonce oracle (round_id round) (mf_nonce payload) ;;
  check_round_ended oracle round ;;
  check_observations oracle payload quorum_cfg ;;
  median ← lift (median_price (mf_prices payload));
  reject_if (median =? 0) InvalidPrice ;;
  check_start_deviation round median ;;
  check_quorum round (mf_prices payload) median quorum_cfg ;;
  _record_twap_sample median (mf_timestamp payload) ;;
  _settle_round_with_price round median None.
