(* ===== verification/OracleSpec.v ===== *)
(** * What resolving a round guarantees

    A price only reaches settlement through every configured guard, and the
    guards change nothing settlement depends on. *)

From S2P Require Export Oracle.

(** ** What settlement looks at *)

Section View.
Context (s t : State) (H : agree settle_view s t).

Lemma price_outcome_view r ps fp conf c m s' :
  price_outcome r ps fp conf c t m s' -> price_outcome r ps fp conf c s m s'.
Proof.
  assert (∀ ps, too_few t ps <-> too_few s ps) as Hfew.
  { intros l. unfold too_few. rewrite (H K_MinParticipants) by (simpl; auto). done. }
  assert (∀ d, dispute_window t d <-> dispute_window s d) as Hdw.
  { intros d. unfold dispute_window. rewrite (H K_DisputeLedgers) by (simpl; auto). done. }
  intros [(H1 & (P1 & P2 & P3) & P4)
    |[[H1 (d & H2 & H3 & H4 & H5 & H6 & H7)]|(H1 & (d & H2 & H3) & (fee & H4) & H5)]].
  - left. split; [by apply Hfew|]. split; [|done]. split_and!; [|by rewrite P2, (view_total s t H)|done].
    intros u. rewrite P1, (view_slot s t H) by done. unfold participant_payoff. by rewrite (view_stake s t H).
  - right. left. split; [by rewrite <-Hfew|]. exists d. rewrite <-Hdw. split_and!; try done.
    + by rewrite H6, (view_total s t H).
    + intros u. by rewrite H7, (view_slot s t H).
  - right. right. split; [by rewrite <-Hfew|]. split; [exists d; by rewrite <-Hdw|]. split; [|done].
    exists fee. by apply (settled_view s t H).
Qed.
End View.

(** ** The guards leave that view alone *)

Ltac not_view := by (intros Hv; simpl in Hv; destruct_or? Hv; simplify_eq).

Lemma frame_hb_blocked P cfg : frame P (_check_heartbeat_health_blocked cfg).
Proof. frame_of _check_heartbeat_health_blocked. Qed.
Lemma frame_resolve_reject P b o e : frame P (resolve_reject b o e).
Proof. apply frame_throw_if. Qed.
Lemma frame_load_twap P : frame P _load_twap_samples.
Proof. frame_of _load_twap_samples. Qed.
#[export] Hint Resolve frame_hb_blocked frame_resolve_reject frame_load_twap : frame.
Lemma frame_twap_reference P w : frame P (_twap_reference_price w).
Proof. frame_of _twap_reference_price. Qed.
Lemma frame_record_twap (P : Key -> Prop) p ts : ¬ P K_TwapSamples -> frame P (_record_twap_sample p ts).
Proof. frame_of _record_twap_sample. Qed.
Lemma frame_strict_gate (P : Key -> Prop) o rid : ¬ P K_HbGate -> frame P (strict_heartbeat_gate o rid).
Proof. frame_of strict_heartbeat_gate. Qed.
Lemma frame_deviation_guard (P : Key -> Prop) r a b m :
  ¬ P K_OracleDeviationOverrideArmed -> frame P (deviation_guard r a b m).
Proof. frame_of deviation_guard. Qed.
#[export] Hint Resolve frame_twap_reference frame_record_twap frame_strict_gate
  frame_deviation_guard : frame.
Lemma frame_check_deviation (P : Key -> Prop) r p :
  ¬ P K_OracleDeviationOverrideArmed -> frame P (check_deviation r p).
Proof. frame_of check_deviation. Qed.
Lemma frame_check_start_deviation (P : Key -> Prop) r p :
  ¬ P K_OracleDeviationOverrideArmed -> frame P (check_start_deviation r p).
Proof. frame_of check_start_deviation. Qed.
Lemma frame_check_confidence P r cf : frame P (check_confidence r cf).
Proof. frame_of check_confidence. Qed.
Lemma frame_check_quorum P r ps m q : frame P (check_quorum r ps m q).
Proof. frame_of check_quorum. Qed.
Lemma frame_resolve_auth P : frame P resolve_auth.
Proof. frame_of resolve_auth. Qed.
#[export] Hint Resolve frame_check_deviation frame_check_start_deviation frame_check_confidence
  frame_check_quorum frame_resolve_auth : frame.

(** ** Specifications of the guards *)

Lemma wp_resolve_auth (Q : Address -> State -> Prop) c s :
  (∀ o s', persistent s !! K_Oracle = Some (VAddr o) -> authorised c o = true ->
     persistent s' = persistent s -> Q o s') ->
  wp resolve_auth Q c s.
Proof.
  intros H. unfold resolve_auth. wp_step. apply wp_extend. intros s1 H1.
  wp_step. wp_step. wp_step. wp_step. wp_ro. wp_step. apply H; [|done|congruence].
  by rewrite <-H1.
Qed.

Lemma wp_hb_blocked cfg (Q : bool -> State -> Prop) c s :
  (∀ b s', persistent s' = persistent s ->
     (b = false -> ∃ hb, persistent s !! K_OracleHeartbeat = Some (VHeartbeat hb) ∧ hb_status hb ≠ 2) ->
     Q b s') ->
  wp (_check_heartbeat_health_blocked cfg) Q c s.
Proof.
  intros H. unfold _check_heartbeat_health_blocked. wp_step. apply wp_extend. intros s1 H1.
  wp_step. wp_step. destruct o as [hb|]; [|apply wp_ret; by apply H].
  rewrite H1 in H0. destruct (_ =? 2) eqn:?; zbool; [apply wp_ret; by apply H|].
  wp_step. apply wp_extend. intros s2 H2. do 5 wp_step. apply H; [congruence|]. by exists hb.
Qed.

Lemma wp_round_and_deployment o rid net ct r (Q : () -> State -> Prop) c s :
  (rid = start_ledger r -> net = env_network_id c -> ct = current_contract c -> Q () s) ->
  wp (check_round_and_deployment o rid net ct r) Q c s.
Proof.
  intros H. unfold check_round_and_deployment.
  wp_step. apply wp_throw_if. intros H1. wp_step. wp_step. wp_step. apply wp_throw_if. intros H2.
  wp_step. wp_step. apply wp_throw_if. intros H3.
  apply negb_false_iff in H1. apply negb_false_iff, bool_decide_eq_true in H2.
  apply negb_false_iff, bool_decide_eq_true in H3. zbool. by apply H.
Qed.

Lemma wp_check_timestamp o r ts (Q : () -> State -> Prop) c s :
  (ts ≤ ledger_timestamp c -> Q () s) -> wp (check_timestamp o r ts) Q c s.
Proof.
  intros H. unfold check_timestamp. wp_step. wp_step. wp_step. apply wp_throw_if. intros H1.
  do 8 wp_step. apply wp_throw_if. intros _. zbool. auto.
Qed.

Lemma wp_consume_nonce o rid n (Q : () -> State -> Prop) c s :
  (∀ s', persistent s !! K_ConsumedOracleNonce rid n = None ->
     persistent s' = <[K_ConsumedOracleNonce rid n := VBool true]> (persistent s) -> Q () s') ->
  wp (consume_nonce o rid n) Q c s.
Proof.
  intros H. unfold consume_nonce. wp_step. wp_step. wp_step. apply wp_throw_if. intros Hn.
  wp_step. apply H; [|done]. by apply bool_decide_eq_false, eq_None_not_Some in Hn.
Qed.

Lemma wp_check_ended o r (Q : () -> State -> Prop) c s :
  (end_ledger r ≤ sequence c -> Q () s) -> wp (check_round_ended o r) Q c s.
Proof.
  intros H. unfold check_round_ended. wp_step. wp_step. apply wp_throw_if. intros Hn. zbool. auto.
Qed.

Definition override_armed_at (s : State) : Prop :=
  persistent s !! K_OracleDeviationOverrideArmed = Some (VBool true).

Lemma wp_deviation_guard r ref p max (Q : () -> State -> Prop) c s :
  (∀ s', agree (λ k, k ≠ K_OracleDeviationOverrideArmed) s s' -> ref ≠ 0 ->
     (∃ d, distance_bps p ref = Ok d ∧
        (d ≤ max ∨ override_armed_at s ∧ persistent s' !! K_OracleDeviationOverrideArmed = None)) ->
     Q () s') ->
  wp (deviation_guard r ref p max) Q c s.
Proof.
  intros H. unfold deviation_guard. wp_step. wp_step. wp_step. wp_step. wp_step. wp_step.
  wp_step. destruct (a >? max) eqn:Hd; zbool.
  - destruct (default false o) eqn:Ho; simpl; [|wp_step; wp_step; apply wp_throw].
    wp_step. wp_step. wp_step. wp_step.
    apply H; [|done|exists a; split; [done|right; split; [|by lchain]]].
    + intros k Hk. by lchain.
    + unfold override_armed_at. destruct o as [[]|]; done.
  - simpl. apply wp_ret. simpl. apply wp_ret. apply H; [done|done|]. exists a. auto.
Qed.

(** The deviation a single-oracle price passed, when the guard is configured
    against the start price. *)
Definition within_deviation (s : State) (r : Round) (p : Z) : Prop :=
  ∀ max, persistent s !! K_OracleMaxDeviationBps = Some (VU32 max) ->
    persistent s !! K_DeviationConfig = None ->
    ∃ d, distance_bps p (price_start r) = Ok d ∧ (d ≤ max ∨ override_armed_at s).

Lemma wp_check_deviation r p (Q : () -> State -> Prop) c s :
  (∀ s', agree (λ k, k ≠ K_OracleDeviationOverrideArmed) s s' -> within_deviation s r p -> Q () s') ->
  wp (check_deviation r p) Q c s.
Proof.
  intros H. unfold check_deviation. wp_step. apply wp_extend. intros s1 H1. wp_step. wp_step.
  rewrite H1 in H0. destruct o as [mx|].
  2:{ apply wp_ret, H; [by intros k _; rewrite H1|]. intros mx Hmx. by rewrite H0 in Hmx. }
  unfold _load_deviation_config. wp_step. wp_step.
  apply wp_readonly; [unfold extend_config_ttl; frame_with idtac|]. intros ? s2 H2. wp_step.
  wp_step. apply (wp_mono _ (λ ref t, persistent t = persistent s ∧
     (persistent s !! K_DeviationConfig = None -> ref = price_start r))).
  - destruct (reference_mode (default default_deviation_config o)) eqn:Hmode.
    + apply wp_ret. split; [congruence|done].
    + apply wp_readonly; [auto with frame|]. intros ref t Ht. split; [congruence|].
      intros Hn. rewrite H2, H1, Hn in H3. by destruct o.
  - intros ref t [Ht Href]. apply wp_deviation_guard. intros s' Ha Hr (d & Hd & Hor).
    apply H; [intros k Hk; rewrite Ha by done; by rewrite Ht|].
    intros mx' Hmx Hcfg. rewrite H0 in Hmx. injection Hmx as <-. rewrite <-(Href Hcfg).
    exists d. split; [done|]. destruct Hor as [|[Hov _]]; [by left|right].
    unfold override_armed_at in *. by rewrite <-Ht.
Qed.

Lemma agree_view_override s t :
  agree (λ k, k ≠ K_OracleDeviationOverrideArmed) s t -> agree settle_view s t.
Proof.
  intros H k Hk. apply H. intros ->. simpl in Hk. by destruct_or? Hk.
Qed.

(** The steps shared by both ways of resolving, after the guards. *)
Lemma wp_settle_recorded r ps fp conf ts m (Q : () -> State -> Prop) c s t :
  agree settle_view s t -> book s r ps -> fee_config_ok s -> disputes s m ->
  (∀ s', price_outcome r ps fp conf c s m s' -> persistent s' !! K_ActiveRound = None -> Q () s') ->
  wp (_record_twap_sample fp ts ;; _settle_round_with_price r fp conf) Q c t.
Proof.
  intros Ha Hb Hfee Hm H. wp_step.
  apply (wp_frame settle_view); [apply frame_record_twap; not_view|].
  intros [] t1 Ht1. assert (agree settle_view s t1) as Ha1 by by etrans.
  apply (wp_settle_with_price r ps fp conf c t1 m).
  - by eapply view_book.
  - intros b Hk. apply (Hfee b). rewrite <-Ha1 by (simpl; auto). done.
  - destruct Hm as (o & Ho & ->). exists o. by rewrite Ha1 by (simpl; auto).
  - intros s' Hs' Hna. apply H; [|done]. by eapply price_outcome_view.
Qed.

Section Crypto.
Context `{HostCrypto}.

(** The attestation check, when a key is configured. *)
Definition attested (s : State) (payload : OraclePayload) : Prop :=
  ∀ key, persistent s !! K_AttestationConfig = Some (VAttestation {| att_key := Some key |}) ->
    ∃ signature, attestation payload = Some signature ∧
      ed25519_verify key (_build_attestation_message payload) signature = true.

Lemma wp_check_attestation oracle payload (Q : () -> State -> Prop) c s :
  (∀ s', persistent s' = persistent s -> attested s payload -> Q () s') ->
  wp (check_attestation oracle payload) Q c s.
Proof.
  intros HQ. unfold check_attestation, _load_attestation_config. wp_step. wp_step.
  apply wp_readonly; [unfold extend_config_ttl; frame_with idtac|]. intros ? s1 H1. wp_step.
  rewrite H1 in H0. destruct (att_key (default {| att_key := None |} o)) as [key|] eqn:Hk.
  - wp_step. wp_step. wp_step. destruct (ed25519_verify _ _ _) eqn:Hv; [|apply wp_trap].
    apply wp_ret, HQ; [done|]. intros key' Hkey. rewrite Hkey in H0. destruct o; [|done].
    injection H0 as <-. injection Hk as <-. eauto.
  - apply wp_ret, HQ; [done|]. intros key' Hkey. rewrite Hkey in H0. destruct o; [|done].
    by injection H0 as <-.
Qed.

(** What a successful single-oracle resolution has checked. *)
Record resolution_checks (payload : OraclePayload) (r : Round) (c : Ctx) (s : State) : Prop := {
  rc_oracle : ∃ o, persistent s !! K_Oracle = Some (VAddr o) ∧ authorised c o = true;
  rc_price : price payload ≠ 0;
  rc_round : op_round_id payload = start_ledger r;
  rc_network : network_id payload = env_network_id c;
  rc_contract : contract_addr payload = current_contract c;
  rc_time : timestamp payload ≤ ledger_timestamp c;
  rc_ended : end_ledger r ≤ sequence c;
  rc_heartbeat : ∃ hb, persistent s !! K_OracleHeartbeat = Some (VHeartbeat hb) ∧ hb_status hb ≠ 2;
  rc_attested : attested s payload;
  rc_deviation : within_deviation s r (price payload);
  rc_nonce : persistent s !! K_ConsumedOracleNonce (round_id r) (nonce payload) = None }.

(** C12: a single-oracle resolution only succeeds when the stored oracle
    authorized it, its heartbeat is present and not offline, the payload is for
    this network, this contract and the active round, is not from the future,
    carries a valid attestation when a key is set, is within the configured
    deviation of the start price (or an override is armed), its nonce is unused
    and the round has ended; the round then ends at the payload's price, as
    [_settle_round_with_price] does from the state before the call. *)
Theorem resolve_round_guarded payload c s s' r ps m :
  resolve_round payload c s = (Ok (), s') ->
  active s r -> book s r ps -> fee_config_ok s -> disputes s m ->
  resolution_checks payload r c s ∧
  price_outcome r ps (price payload) (confidence payload) c s m s' ∧
  persistent s' !! K_ActiveRound = None.
Proof.
  intros E Hact Hb Hfee Hm. wp_intro E. unfold resolve_round. wp_ro. wp_step. wp_step. zbool.
  wp_step. apply wp_resolve_auth. intros o t1 Ho Hauth Ht1. wp_ro.
  wp_step. apply wp_hb_blocked. intros bl t2 Ht2 Hhb.
  wp_step. apply wp_throw_if. intros ->. destruct (Hhb eq_refl) as (hb & Hhb1 & Hhb2).
  wp_step. wp_step.
  assert (persistent t2 = persistent s) as Hp2 by congruence.
  assert (x = r) as ->.
  { unfold active in Hact. rewrite Hp2 in *. simpl in *. congruence. }
  wp_step. apply wp_round_and_deployment. intros Hr Hn Hc.
  wp_step. apply wp_check_attestation. intros t3 Ht3 Hatt.
  wp_step. apply wp_check_timestamp. intros Hts.
  wp_step. apply wp_check_deviation. intros t4 Ht4 Hdev. wp_ro.
  wp_step. apply wp_consume_nonce. intros t5 Hnonce Ht5.
  wp_step. apply (wp_frame settle_view); [apply frame_strict_gate; not_view|].
  intros [] t6 Ht6. wp_step. apply wp_check_ended. intros Hended.
  assert (agree settle_view s t6) as Hview.
  { etrans; [|exact Ht6]. intros k Hk. rewrite Ht5, lookup_insert_ne by (intros <-; by simpl in Hk).
    match goal with Hx : persistent _ = persistent t4 |- _ => rewrite Hx end.
    rewrite (agree_view_override _ _ Ht4 k Hk). by rewrite Ht3, Hp2. }
  apply (wp_settle_recorded r ps _ _ _ m _ _ s); [done..|]. intros s2 Hs2 Hna.
  split; [|done]. split; try done.
  - exists o. by rewrite <-H0.
  - exists hb. split; [|done]. by rewrite <-H0, <-Ht1, <-H2.
  - unfold attested in *. by rewrite <-Hp2.
  - unfold within_deviation, override_armed_at in *. by rewrite <-Hp2, <-Ht3.
  - rewrite H4, Ht4, Ht3, Hp2 in Hnonce by done. done.
Qed.
End Crypto.

(** What a successful multi-feed resolution has checked: [k] feeds support the
    median of duplicate-free sources. *)
Record feed_checks (payload : MultiFeedPayload) (r : Round) (median : Z) (c : Ctx) (s : State) : Prop := {
  fc_oracle : ∃ o, persistent s !! K_Oracle = Some (VAddr o) ∧ authorised c o = true;
  fc_lengths : length (mf_prices payload) = length (mf_sources payload);
  fc_nonzero : Forall (λ p, p ≠ 0) (mf_prices payload);
  fc_round : mf_round_id payload = start_ledger r;
  fc_network : mf_network_id payload = env_network_id c;
  fc_contract : mf_contract_addr payload = current_contract c;
  fc_time : mf_timestamp payload ≤ ledger_timestamp c;
  fc_ended : end_ledger r ≤ sequence c;
  fc_nonce : persistent s !! K_ConsumedOracleNonce (round_id r) (mf_nonce payload) = None;
  fc_median : median_price (mf_prices payload) = Ok median ∧ median ≠ 0;
  fc_quorum : ∃ cfg k, persistent s !! K_OracleQuorum = Some (VQuorum cfg) ∧
    min_observations cfg ≤ Z.of_nat (length (mf_prices payload)) ≤ MAX_ORACLE_OBSERVATIONS ∧
    NoDup (mf_sources payload) ∧
    count_survivors (mf_prices payload) median (outlier_threshold_bps cfg) = Ok k ∧
    quorum_threshold cfg ≤ k }.

Lemma has_duplicate_false l : has_duplicate l = false -> NoDup l.
Proof.
  induction l as [|x l IH]; intros H; [constructor|]. cbn [has_duplicate] in H.
  apply orb_false_iff in H as [Hx%bool_decide_eq_false H]. constructor; auto.
Qed.

Lemma wp_check_feeds payload (Q : () -> State -> Prop) c s :
  (length (mf_prices payload) = length (mf_sources payload) ->
   Forall (λ p, p ≠ 0) (mf_prices payload) -> Q () s) ->
  wp (check_feeds payload) Q c s.
Proof.
  intros H. unfold check_feeds. do 5 wp_step.
  apply negb_false_iff, Nat.eqb_eq in H1. apply H; [done|].
  apply Forall_forall. intros p Hp ->.
  assert (existsb (λ p, p =? 0) (mf_prices payload) = true) as Hx; [|congruence].
  apply existsb_exists. exists 0. by rewrite <-list_elem_of_In.
Qed.

Lemma wp_check_observations o payload cfg (Q : () -> State -> Prop) c s :
  (min_observations cfg ≤ Z.of_nat (length (mf_prices payload)) ≤ MAX_ORACLE_OBSERVATIONS ->
   NoDup (mf_sources payload) -> Q () s) ->
  wp (check_observations o payload cfg) Q c s.
Proof.
  intros H. unfold check_observations. wp_step. apply wp_throw_if. intros H1.
  wp_step. apply wp_throw_if. intros H2. apply wp_throw_if. intros H3%has_duplicate_false.
  zbool. by apply H.
Qed.

Lemma wp_check_quorum r prices med cfg (Q : () -> State -> Prop) c s :
  (∀ k s', persistent s' = persistent s ->
     count_survivors prices med (outlier_threshold_bps cfg) = Ok k -> quorum_threshold cfg ≤ k -> Q () s') ->
  wp (check_quorum r prices med cfg) Q c s.
Proof.
  intros H. unfold check_quorum. wp_step. wp_step. wp_step.
  destruct (a <? quorum_threshold cfg) eqn:Hq; zbool.
  - wp_step. wp_step. apply wp_throw.
  - apply wp_ret. wp_step. by apply (H a).
Qed.

(** C26: a multi-feed resolution only succeeds when the oracle authorized it, the
    payload is for this network, contract and active round, every price is
    non-zero, the sources are distinct and within the configured bounds, the
    median is supported by a quorum of feeds, the nonce is unused and the round
    has ended; the round then ends at the median price. *)
Theorem resolve_round_multi_guarded payload c s s' r ps m :
  resolve_round_multi payload c s = (Ok (), s') ->
  active s r -> book s r ps -> fee_config_ok s -> disputes s m ->
  ∃ median, feed_checks payload r median c s ∧
    price_outcome r ps median None c s m s' ∧ persistent s' !! K_ActiveRound = None.
Proof.
  intros E Hact Hb Hfee Hm. wp_intro E. unfold resolve_round_multi. wp_ro.
  wp_step. apply wp_check_feeds. intros Hlen Hnz.
  wp_step. apply wp_resolve_auth. intros o t1 Ho Hauth Ht1.
  wp_step. apply wp_extend. intros t2 Ht2. do 4 wp_step.
  assert (persistent t2 = persistent s) as Hp2 by congruence.
  assert (x0 = r) as ->.
  { unfold active in Hact. rewrite Hp2 in *. simpl in *. congruence. }
  wp_step. apply wp_round_and_deployment. intros Hr Hn Hc.
  wp_step. apply wp_check_timestamp. intros Hts.
  wp_step. apply (wp_frame (λ k, k ≠ K_HbGate)); [apply frame_strict_gate; tauto|]. intros [] t3 Ht3.
  wp_step. apply wp_consume_nonce. intros t4 Hnonce Ht4.
  wp_step. apply wp_check_ended. intros Hended.
  wp_step. apply wp_check_observations. intros Hobs Hnd.
  wp_step. wp_step. wp_step. wp_step. zbool.
  wp_step. apply (wp_frame settle_view).
  { apply frame_check_start_deviation. not_view. }
  intros [] t5 Ht5. wp_step. apply wp_check_quorum. intros k t6 Ht6 Hk Hq.
  assert (agree settle_view s t6) as Hview.
  { intros k' Hk'. rewrite Ht6, Ht5, Ht4, lookup_insert_ne by (done || intros <-; by simpl in Hk').
    rewrite Ht3; [by rewrite Hp2|]. intros ->. simpl in Hk'. by destruct_or? Hk'. }
  apply (wp_settle_recorded r ps _ _ _ m _ _ s); [done..|]. intros s2 Hs2 Hna.
  exists a0. split; [|done]. split; try done.
  - exists o. by rewrite <-H.
  - rewrite Ht3, Hp2 in Hnonce by done. done.
  - exists x, k. split_and!; try done; try lia. by rewrite <-Hp2.
Qed.
