(* ===== verification/Contract.v ===== *)
(** * The contract's entry points

    contracts/src/contract.rs: oracle rotation, the status queries and the
    facade that exposes every handler.  [Call] lists the entry points that can
    change state and [dispatch] runs the handler the facade delegates to, so
    that a property of the whole contract is a property of [dispatch]. *)

From S2P Require Export Claims Settlement Oracle Governance.

(** ** Oracle rotation *)

Definition MIN_ROTATION_DELAY_SECONDS : Z := 3600.

Definition propose_oracle_rotation (oracle : Address) (expires_in_seconds : Z) : M () :=
  _require_supported_schema ;;
  admin ← pget_ok cAddr K_Admin AdminNotSet;
  require_auth admin ;;
  _ensure_not_paused ;;
  reject_if (expires_in_seconds <? MIN_ROTATION_DELAY_SECONDS) InvalidDuration ;;
  now ← asks ledger_timestamp;
  expiry ← ok_or (u64_checked_add now expires_in_seconds) Overflow;
  pset cRotation K_OracleRotationProposal
    {| new_oracle := oracle; proposed_at := now; expires_at := expiry |} ;;
  _extend_persistent_ttl K_OracleRotationProposal ;;
  emit "oracle" "propose" [VAddr oracle; VU64 expiry].

Definition accept_oracle_rotation : M () :=
  _require_supported_schema ;;
  _ensure_not_paused ;;
  proposal ← pget_ok cRotation K_OracleRotationProposal NoPendingRotation;
  current_ts ← asks ledger_timestamp;
  earliest_accept ← ok_or (u64_checked_add (proposed_at proposal) MIN_ROTATION_DELAY_SECONDS) Overflow;
  (if current_ts <? earliest_accept then
     emit "oracle" "early" [VAddr (new_oracle proposal); VU64 current_ts; VU64 earliest_accept] ;;
     throw RotationDelayNotElapsed
   else mret ()) ;;
  (if current_ts >? expires_at proposal then
     premove K_OracleRotationProposal ;;
     emit "oracle" "expired"
       [VAddr (new_oracle proposal); VU64 (proposed_at proposal); VU64 (expires_at proposal)] ;;
     throw NoPendingRotation
   else mret ()) ;;
  previous ← pget_ok cAddr K_Oracle OracleNotSet;
  pset cAddr K_Oracle (new_oracle proposal) ;;
  _extend_persistent_ttl K_Oracle ;;
  premove K_OracleRotationProposal ;;
  emit "oracle" "accept" [VAddr previous; VAddr (new_oracle proposal)].

Definition cancel_oracle_rotation : M () :=
  _require_supported_schema ;;
  admin ← pget_ok cAddr K_Admin AdminNotSet;
  require_auth admin ;;
  _ensure_not_paused ;;
  proposal ← pget_ok cRotation K_OracleRotationProposal NoPendingRotation;
  premove K_OracleRotationProposal ;;
  emit "oracle" "cancel" [VAddr (new_oracle proposal)].

(** Reading an expired proposal removes it. *)
Definition get_oracle_rotation_proposal : M (option OracleRotationProposal) :=
  _extend_persistent_ttl K_OracleRotationProposal ;;
  proposal ← pget cRotation K_OracleRotationProposal;
  now ← asks ledger_timestamp;
  match proposal with
  | Some prop =>
      if now >? expires_at prop then
        premove K_OracleRotationProposal ;;
        emit "oracle" "expired"
          [VAddr (new_oracle prop); VU64 (proposed_at prop); VU64 (expires_at prop)] ;;
        mret None
      else mret (Some prop)
  | None => mret None
  end.

(** ** Status queries *)

Inductive ProtocolStatus := PsActive | PsPaused | PsClaimsOnly.
Inductive RoundStatus :=
  | RsUnknown | RsBetting | RsRunning | RsAwaitingResolve | RsResolved | RsCancelled
  | RsFallbackRefund | RsVoided.

(** [_policy_gate(..).is_ok()]: a refusal is a value here. *)
Definition is_action_allowed (action : PolicyAction) : M bool := λ c s,
  match _policy_gate action c s with
  | (Ok _, s') => (Ok true, s')
  | (Err _, s') => (Ok false, s')
  | (Panic, s') => (Panic, s')
  end.

Definition get_protocol_status : M ProtocolStatus :=
  paused ← is_paused;
  if (paused : bool) then mret PsPaused else
  b ← phas K_ActiveRound;
  mret (if (b : bool) then PsActive else PsClaimsOnly).

Definition phase_status (p : RoundPhase) : RoundStatus :=
  match p with Types.Betting => RsBetting | Running => RsRunning | Resolvable => RsAwaitingResolve end.

Definition archive_status (st : RoundArchiveStatus) : RoundStatus :=
  match st with
  | ArResolved => RsResolved | ArCancelled => RsCancelled
  | ArFallbackRefund => RsFallbackRefund | ArVoided => RsVoided
  end.

(** The look-ups that follow when the round is not the active one. *)
Definition archived_round_status (rid : Z) : M RoundStatus :=
  archive ← pget cSummary (K_ArchivedRound rid);
  match archive with
  | Some a => mret (archive_status (ar_status a))
  | None =>
      b ← is_round_cancelled rid;
      mret (if (b : bool) then RsCancelled else RsUnknown)
  end.

Definition get_round_status (rid : Z) : M RoundStatus :=
  active ← pget cRound K_ActiveRound;
  seq ← asks sequence;
  match active with
  | Some r =>
      if round_id r =? rid then mret (phase_status (_derive_round_phase seq r)) else
      archived_round_status rid
  | None => archived_round_status rid
  end.

(** ** The facade *)

(** The entry points that can write storage beyond life times, in the groups of
    the facade; each group has its dispatcher. *)

(** Schema, pause and run-time mode, key life times. *)
Inductive AdminCall :=
  | c_initialize (admin oracle : Address)
  | c_migrate_schema_v1_to_v2 (dry_run : bool)
  | c_migrate_schema_v2_to_v3 (dry_run : bool)
  | c_announce_next_schema (target_version : Z)
  | c_clear_next_schema
  | c_pause_contract
  | c_unpause_contract
  | c_set_runtime_mode (mode : Z).

(** The oracle's guards and liveness. *)
Inductive OracleCall :=
  | c_set_oracle_max_deviation_bps (bps : option Z)
  | c_set_deviation_ref_mode (mode : DeviationReferenceMode) (window_samples : Z)
  | c_set_attestation_key (key : option Bytes)
  | c_arm_oracle_deviation_override
  | c_set_oracle_min_confidence_bps (min_bps : option Z)
  | c_set_oracle_strict_mode (enabled : bool)
  | c_set_hb_strict_mode (enabled : bool)
  | c_arm_hb_override
  | c_set_hb_grace_seconds (seconds : Z)
  | c_update_oracle_heartbeat (status : Z)
  | c_set_oracle_stale_threshold (seconds : Z).

(** Life times, oracle rotation and access control. *)
Inductive RotationCall :=
  | c_batch_touch_ttl (keys : list Key)
  | c_propose_oracle_rotation (oracle : Address) (expires_in_seconds : Z)
  | c_accept_oracle_rotation
  | c_cancel_oracle_rotation
  | c_get_oracle_rotation_proposal
  | c_set_access_control_enabled (enabled : bool)
  | c_add_allowlisted (user : Address)
  | c_remove_allowlisted (user : Address)
  | c_add_denylisted (user : Address)
  | c_remove_denylisted (user : Address).

(** Governance. *)
Inductive GovCall :=
  | c_set_gov_approver (approver : Address)
  | c_set_gov_proposal_ttl (ttl_ledgers : Z)
  | c_propose_gov_action (proposer : Address) (action : GovAction) (custom_ttl : option Z)
  | c_approve_gov_proposal (approver : Address) (proposal_id : Z)
  | c_execute_gov_proposal (executor : Address) (proposal_id : Z)
  | c_cancel_gov_proposal (canceller : Address) (proposal_id : Z)
  | c_establish_constitution (veto timelock : Z) (dual : bool)
  | c_propose_amendment (proposer : Address) (parameter_name : string) (new_value : Z)
  | c_veto_amendment (vetoer : Address) (amendment_id : Z)
  | c_activate_amendment (activator : Address) (amendment_id : Z)
  | c_get_amendment (amendment_id : Z).

(** Time-locked configuration; a [set_*] entry point of the same parameter delegates to its [schedule_*] handler. *)
Inductive ScheduleCall :=
  | c_schedule_windows (bet_ledgers run_ledgers : Z)
  | c_schedule_max_stake (max_amount : option Z)
  | c_schedule_min_bet (min_amount : option Z)
  | c_schedule_max_user_exposure (max_exposure : option Z)
  | c_schedule_max_pending_winnings (max_pending : option Z)
  | c_schedule_oracle_stale_threshold (seconds : Z)
  | c_schedule_oracle_deviation_bps (bps : option Z)
  | c_schedule_oracle_timestamp_skew (seconds : Z)
  | c_schedule_protocol_fee_bps (bps : option Z)
  | c_withdraw_protocol_fee (recipient : Address) (amount : Z)
  | c_apply_scheduled_changes (kind : ConfigChangeKind)
  | c_cancel_config_change (kind : ConfigChangeKind).

(** Configuration that takes effect at once, reclaims. *)
Inductive ConfigCall :=
  | c_set_min_participants (min : option Z)
  | c_set_max_precision_participants (max : Z)
  | c_set_precision_payout_policy (policy : Z)
  | c_set_mint_limit (limit : Z)
  | c_set_epoch_mint_budget (budget : Z)
  | c_set_archive_retention (limit : Z)
  | c_schedule_pending_winnings_expiry (ledgers : Z)
  | c_reclaim_expired_pending_winnings (user : Address)
  | c_set_close_buffer_ledgers (buffer_ledgers : Z)
  | c_set_oracle_quorum_config (config : option OracleQuorumConfig)
  | c_set_early_cashout_bps (bps : option Z).

(** The life of a round. *)
Inductive RoundCall :=
  | c_create_round (start_price : Z) (mode : option Z)
  | c_set_round_template (start_price : Z) (mode : option Z)
  | c_clear_round_template
  | c_create_next_from_template
  | c_place_bet (user : Address) (amount : Z) (side : BetSide)
  | c_place_precision_prediction (user : Address) (amount predicted_price : Z)
  | c_predict_price (user : Address) (guessed_price amount : Z)
  | c_commit_prediction (user : Address) (hash : Bytes) (amount : Z)
  | c_reveal_prediction (user : Address) (predicted_price : Z) (salt : Bytes)
  | c_mint_initial (user : Address)
  | c_resolve_round (payload : OraclePayload)
  | c_resolve_round_multi (payload : MultiFeedPayload)
  | c_cancel_round (reason : Z)
  | c_claim_winnings (user : Address)
  | c_claim_many (users : list Address)
  | c_cash_out_early (user : Address)
  | c_set_dispute_ledgers (ledgers : Z)
  | c_void_round (rid : Z)
  | c_finalize_round (rid : Z).

(** Fee model, insurance fund and seasons. *)
Inductive ReserveCall :=
  | c_set_fee_model (model : FeeModel)
  | c_set_insurance_split_bps (bps : Z)
  | c_set_insurance_coverage_bps (bps : Z)
  | c_set_insurance_eligible_events (events : list Z)
  | c_top_up_insurance_fund (amount : Z)
  | c_withdraw_insurance_fund (recipient : Address) (amount : Z)
  | c_reset_leaderboard_season.

(** The result of an entry point is not part of the state. *)
Definition forget {A} (m : M A) : M () := m ;; mret ().

Definition dispatch_admin (call : AdminCall) : M () :=
  match call with
  | c_initialize a o => initialize a o
  | c_migrate_schema_v1_to_v2 d => migrate_schema_v1_to_v2 d
  | c_migrate_schema_v2_to_v3 d => migrate_schema_v2_to_v3 d
  | c_announce_next_schema v => announce_next_schema v
  | c_clear_next_schema => clear_next_schema
  | c_pause_contract => pause_contract
  | c_unpause_contract => unpause_contract
  | c_set_runtime_mode m => set_runtime_mode m
  end.

Definition dispatch_oracle (call : OracleCall) : M () :=
  match call with
  | c_set_oracle_max_deviation_bps b => schedule_oracle_deviation_bps b
  | c_set_deviation_ref_mode m w => set_deviation_ref_mode m w
  | c_set_attestation_key k => set_attestation_key k
  | c_arm_oracle_deviation_override => arm_oracle_deviation_override
  | c_set_oracle_min_confidence_bps b => set_oracle_min_confidence_bps b
  | c_set_oracle_strict_mode e => set_oracle_strict_mode e
  | c_set_hb_strict_mode e => set_hb_strict_mode e
  | c_arm_hb_override => arm_hb_override
  | c_set_hb_grace_seconds n => set_hb_grace_seconds n
  | c_update_oracle_heartbeat n => update_oracle_heartbeat n
  | c_set_oracle_stale_threshold n => schedule_oracle_stale_threshold n
  end.

Definition dispatch_rotation (call : RotationCall) : M () :=
  match call with
  | c_batch_touch_ttl ks => forget (batch_touch_ttl ks)
  | c_propose_oracle_rotation o n => propose_oracle_rotation o n
  | c_accept_oracle_rotation => accept_oracle_rotation
  | c_cancel_oracle_rotation => cancel_oracle_rotation
  | c_get_oracle_rotation_proposal => forget get_oracle_rotation_proposal
  | c_set_access_control_enabled e => set_access_control_enabled e
  | c_add_allowlisted u => add_allowlisted u
  | c_remove_allowlisted u => remove_allowlisted u
  | c_add_denylisted u => add_denylisted u
  | c_remove_denylisted u => remove_denylisted u
  end.

Definition dispatch_gov (call : GovCall) : M () :=
  match call with
  | c_set_gov_approver a => set_gov_approver a
  | c_set_gov_proposal_ttl n => set_gov_proposal_ttl n
  | c_propose_gov_action u a t => forget (propose u a t)
  | c_approve_gov_proposal u i => approve u i
  | c_execute_gov_proposal u i => execute u i
  | c_cancel_gov_proposal u i => cancel u i
  | c_establish_constitution v t d => establish_constitution v t d
  | c_propose_amendment u n v => forget (propose_amendment u n v)
  | c_veto_amendment u i => veto_amendment u i
  | c_activate_amendment u i => activate_amendment u i
  | c_get_amendment i => forget (get_amendment i)
  end.

Definition dispatch_schedule (call : ScheduleCall) : M () :=
  match call with
  | c_schedule_windows b r => schedule_windows b r
  | c_schedule_max_stake m => schedule_max_stake m
  | c_schedule_min_bet m => schedule_min_bet m
  | c_schedule_max_user_exposure m => schedule_max_user_exposure m
  | c_schedule_max_pending_winnings m => schedule_max_pending_winnings m
  | c_schedule_oracle_stale_threshold n => schedule_oracle_stale_threshold n
  | c_schedule_oracle_deviation_bps b => schedule_oracle_deviation_bps b
  | c_schedule_oracle_timestamp_skew n => schedule_oracle_timestamp_skew n
  | c_schedule_protocol_fee_bps b => schedule_protocol_fee_bps b
  | c_withdraw_protocol_fee r a => forget (withdraw_protocol_fee r a)
  | c_apply_scheduled_changes k => apply_scheduled_changes k
  | c_cancel_config_change k => cancel_config_change k
  end.

Definition dispatch_config (call : ConfigCall) : M () :=
  match call with
  | c_set_min_participants m => set_min_participants m
  | c_set_max_precision_participants m => set_max_precision_participants m
  | c_set_precision_payout_policy p => set_precision_payout_policy p
  | c_set_mint_limit l => set_mint_limit l
  | c_set_epoch_mint_budget b => set_epoch_mint_budget b
  | c_set_archive_retention l => set_archive_retention l
  | c_schedule_pending_winnings_expiry n => schedule_pending_winnings_expiry n
  | c_reclaim_expired_pending_winnings u => forget (reclaim_expired_pending_winnings u)
  | c_set_close_buffer_ledgers b => set_close_buffer_ledgers b
  | c_set_oracle_quorum_config c => set_oracle_quorum_config c
  | c_set_early_cashout_bps b => set_early_cashout_bps b
  end.

Definition dispatch_round `{HostCrypto} (call : RoundCall) : M () :=
  match call with
  | c_create_round p m => create_round p m
  | c_set_round_template p m => set_round_template p m
  | c_clear_round_template => clear_round_template
  | c_create_next_from_template => forget create_next_from_template
  | c_place_bet u a s => place_bet u a s
  | c_place_precision_prediction u a p => place_precision_prediction u a p
  | c_predict_price u p a => predict_price u p a
  | c_commit_prediction u h a => commit_prediction u h a
  | c_reveal_prediction u p s => reveal_prediction u p s
  | c_mint_initial u => forget (mint_initial u)
  | c_resolve_round p => resolve_round p
  | c_resolve_round_multi p => resolve_round_multi p
  | c_cancel_round r => cancel_round r
  | c_claim_winnings u => forget (claim_winnings u)
  | c_claim_many us => forget (claim_many us)
  | c_cash_out_early u => cash_out_early u
  | c_set_dispute_ledgers n => set_dispute_ledgers n
  | c_void_round r => void_round r
  | c_finalize_round r => finalize_round r
  end.

Definition dispatch_reserve (call : ReserveCall) : M () :=
  match call with
  | c_set_fee_model m => set_fee_model m
  | c_set_insurance_split_bps b => set_insurance_split_bps b
  | c_set_insurance_coverage_bps b => set_insurance_coverage_bps b
  | c_set_insurance_eligible_events l => set_insurance_eligible_events l
  | c_top_up_insurance_fund a => top_up_insurance_fund a
  | c_withdraw_insurance_fund r a => forget (withdraw_insurance_fund r a)
  | c_reset_leaderboard_season => forget reset_leaderboard_season
  end.

Inductive Call :=
  | OnAdmin (call : AdminCall)
  | OnOracle (call : OracleCall)
  | OnRotation (call : RotationCall)
  | OnGov (call : GovCall)
  | OnSchedule (call : ScheduleCall)
  | OnConfig (call : ConfigCall)
  | OnRound (call : RoundCall)
  | OnReserve (call : ReserveCall).

Definition dispatch `{HostCrypto} (call : Call) : M () :=
  match call with
  | OnAdmin call => dispatch_admin call
  | OnOracle call => dispatch_oracle call
  | OnRotation call => dispatch_rotation call
  | OnGov call => dispatch_gov call
  | OnSchedule call => dispatch_schedule call
  | OnConfig call => dispatch_config call
  | OnRound call => dispatch_round call
  | OnReserve call => dispatch_reserve call
  end.
