(* ===== verification/Duplicates.v ===== *)
(** * The private helpers of the contract type

    The end of contract.rs repeats, as private functions of VirtualTokenContract,
    helpers that have since moved to the other files.  Rotation and the status queries
    call some of these copies, the rest has no caller left.  Each copy is given as it
    is written there, with how it compares to the helper the handlers call: most are
    the same function; crediting does not stamp the time of the credit, and the fee
    is always taken on the pot and never shared with the insurance fund. *)

From S2P Require Export Contract.

Definition _extend_persistent_ttl (key : Key) : M () :=
  b ← phas key;
  if (b : bool) then pextend_ttl key TTL_BUMP_THRESHOLD TTL_BUMP_AMOUNT else mret ().

Definition _set_balance (user : Address) (amount : Z) : M () :=
  let key := K_Balance user in
  pset cI128 key amount ;;
  _extend_persistent_ttl key.

Definition _ensure_not_paused : M () := _policy_gate AdminConfig.

Definition _ensure_normal_mode : M () := _policy_gate RoundMutation.

Definition _set_mode (new_mode : RuntimeMode) : M () :=
  let key := K_Paused in
  old_mode ← pget_or cRuntimeMode key Normal;
  if bool_decide (old_mode ≠ new_mode) then
    pset cRuntimeMode key new_mode ;;
    _extend_persistent_ttl key ;;
    emit "mode" "transition" [VU32 (RuntimeMode_u32 old_mode); VU32 (RuntimeMode_u32 new_mode)]
  else mret ().

Definition _derive_round_phase (ledger_sequence : Z) (round : Round) : RoundPhase :=
  if ledger_sequence <? bet_end_ledger round then Betting
  else if ledger_sequence <? end_ledger round then Running
  else Resolvable.

Definition _schema_version : M (option Z) := pget cU32 K_SchemaVersion.

Definition _require_supported_schema : M Z :=
  _extend_persistent_ttl K_SchemaVersion ;;
  b ← phas K_Admin;
  (if (b : bool) then _extend_persistent_ttl K_Admin else mret ()) ;;
  o ← _schema_version;
  let v := default 1 o in
  reject_if ((v =? 0) || (v >? CURRENT_SCHEMA_VERSION)) UnsupportedSchemaVersion ;;
  mret v.

Definition assert_no_active_round : M () :=
  b ← phas K_ActiveRound;
  reject_if b RoundAlreadyActive.

Definition payout_add (a b : Z) : outcome Z := some_or (i128_checked_add a b) PayoutOverflow.

Definition payout_mul (a b : Z) : outcome Z := some_or (i128_checked_mul a b) PayoutOverflow.

Definition _emit_payout_outcome (round_id mode : Z) (user : Address) (gross_payout outcome_type : Z) : M () :=
  emit "payout" "outcome"
    [VU64 round_id; VU32 mode; VAddr user; VI128 gross_payout; VU32 outcome_type].

Definition _accumulate_pending (user : Address) (amount : Z) : M () :=
  let key := K_PendingWinnings user in
  existing ← pget_or cI128 key 0;
  new_pending ← lift (payout_add existing amount);
  cap ← pget cI128 K_MaxPendingWinnings;
  (match cap with
   | Some cap => reject_if (new_pending >? cap) PendingWinningsCapExceeded
   | None => mret ()
   end) ;;
  pset cI128 key new_pending ;;
  _extend_persistent_ttl key.

Definition _validate_windows (bet_ledgers run_ledgers : Z) : outcome () :=
  if (bet_ledgers =? 0) || (run_ledgers =? 0) then Err InvalidDuration
  else if (bet_ledgers >? MAX_BET_WINDOW_LEDGERS) || (run_ledgers >? MAX_RUN_WINDOW_LEDGERS)
  then Err WindowOutOfRange
  else if bet_ledgers >=? run_ledgers then Err InvalidDuration
  else Ok ().

Definition _validate_max_stake (max_amount : option Z) : outcome () :=
  match max_amount with
  | Some v => if v <? MIN_CAP_VALUE then Err InvalidBetAmount else Ok ()
  | None => Ok ()
  end.

Definition _validate_oracle_stale_threshold (seconds : Z) : outcome () :=
  if negb ((MIN_ORACLE_STALE_THRESHOLD <=? seconds) && (seconds <=? MAX_ORACLE_STALE_THRESHOLD))
  then Err InvalidDuration
  else Ok ().

Definition _validate_oracle_max_deviation_bps (bps : option Z) : outcome () :=
  match bps with
  | Some v => if (v =? 0) || (v >? MAX_ORACLE_DEVIATION_BPS) then Err WindowOutOfRange else Ok ()
  | None => Ok ()
  end.

Definition _validate_protocol_fee_bps (bps : option Z) : outcome () :=
  match bps with
  | Some v => if (v =? 0) || (v >? MAX_PROTOCOL_FEE_BPS) then Err InvalidProtocolFeeBps else Ok ()
  | None => Ok ()
  end.

Definition _read_protocol_fee_bps : M (option Z) :=
  let key := K_ProtocolFeeBps in
  v ← pget cU32 key;
  (if v is Some _ then _extend_persistent_ttl key else mret ()) ;;
  mret v.

Definition _collect_protocol_fee (round_id fee_amount : Z) (bps_active : option Z) : M () :=
  if fee_amount <=? 0 then mret () else
  let treasury_key := K_ProtocolFeeTreasury in
  current ← pget_or cI128 treasury_key 0;
  new_treasury ← ok_or (i128_checked_add current fee_amount) Overflow;
  pset cI128 treasury_key new_treasury ;;
  _extend_persistent_ttl treasury_key ;;
  let bps_value := default 0 bps_active in
  emit "protocol" "collected" [VU64 round_id; VI128 fee_amount; VI128 new_treasury; VU32 bps_value].

Definition _apply_protocol_fee_updown (round_id winning_pool losing_pool : Z) : M (Z * Z * Z) :=
  bps ← _read_protocol_fee_bps;
  match bps with
  | None => mret (winning_pool, losing_pool, 0)
  | Some bps_value =>
      total_pot ← lift (payout_add winning_pool losing_pool);
      product ← ok_or (i128_checked_mul total_pot bps_value) Overflow;
      let fee_amount := Z.quot product BPS_DENOMINATOR in
      if fee_amount =? 0 then mret (winning_pool, losing_pool, 0) else
      let fee_from_losing := Z.min fee_amount losing_pool in
      fee_from_winning ← ok_or (i128_checked_sub fee_amount fee_from_losing) Overflow;
      dist_winning ← ok_or (i128_checked_sub winning_pool fee_from_winning) Overflow;
      dist_losing ← ok_or (i128_checked_sub losing_pool fee_from_losing) Overflow;
      _collect_protocol_fee round_id fee_amount (Some bps_value) ;;
      mret (dist_winning, dist_losing, fee_amount)
  end.

Definition _apply_protocol_fee_precision (round_id total_pot : Z) : M (Z * Z) :=
  bps ← _read_protocol_fee_bps;
  match bps with
  | None => mret (total_pot, 0)
  | Some bps_value =>
      if total_pot <=? 0 then mret (total_pot, 0) else
      product ← ok_or (i128_checked_mul total_pot bps_value) Overflow;
      let fee_amount := Z.quot product BPS_DENOMINATOR in
      distributable ← ok_or (i128_checked_sub total_pot fee_amount) Overflow;
      (if fee_amount >? 0 then _collect_protocol_fee round_id fee_amount (Some bps_value) else mret ()) ;;
      mret (distributable, fee_amount)
  end.

Definition _emit_action_rejected (actor : Address) (action : string) (reason : ContractError) : M () :=
  emit "action" "rejct" [VAddr actor; VSym action; VU32 (error_code reason)].

Definition _current_config_payload (kind : ConfigChangeKind) : M ConfigChangePayload :=
  Config._current_config_payload kind.

Definition _schedule_config_change (kind : ConfigChangeKind) (payload : ConfigChangePayload) : M () :=
  Config._schedule_config_change kind payload.

Definition _apply_config_payload (kind : ConfigChangeKind) (payload : ConfigChangePayload) : M () :=
  Config._apply_config_payload kind payload.

Definition _update_stats_win (user : Address) : M () := Leaderboard._update_stats_win user.

Definition _update_stats_loss (user : Address) : M () := Leaderboard._update_stats_loss user.

(** ** The copies against the helpers the handlers call *)

(** The copies that the rotation and the status queries call are the helpers of the
    other files, so modelling those with the latter is exact. *)
Lemma copies_agree :
  Duplicates._extend_persistent_ttl = Common._extend_persistent_ttl ∧
  Duplicates._set_balance = Common._set_balance ∧
  Duplicates._ensure_not_paused = Admin._ensure_not_paused ∧
  Duplicates._ensure_normal_mode = Admin._ensure_normal_mode ∧
  Duplicates._set_mode = Admin._set_mode ∧
  Duplicates._derive_round_phase = Common._derive_round_phase ∧
  Duplicates._require_supported_schema = Admin._require_supported_schema ∧
  Duplicates.assert_no_active_round = Common.assert_no_active_round ∧
  Duplicates._emit_action_rejected = Common._emit_action_rejected ∧
  Duplicates.payout_add = SettlementMath.payout_add ∧
  Duplicates.payout_mul = SettlementMath.payout_mul ∧
  Duplicates._read_protocol_fee_bps = Config._read_protocol_fee_bps.
Proof. repeat split. Qed.

Lemma validators_agree o w r n :
  Duplicates._validate_windows w r = Config._validate_windows w r ∧
  Duplicates._validate_max_stake o = Config._validate_max_stake o ∧
  Duplicates._validate_oracle_stale_threshold n = Config._validate_oracle_stale_threshold n ∧
  Duplicates._validate_oracle_max_deviation_bps o = Config._validate_oracle_max_deviation_bps o ∧
  Duplicates._validate_protocol_fee_bps o = Config._validate_protocol_fee_bps o.
Proof. repeat split. Qed.

(** The credit the handlers make is the copy's, and then the stamp. *)
Lemma accumulate_stamps u n c s :
  Common._accumulate_pending u n c s =
  (Duplicates._accumulate_pending u n ;;
   let updated_key := K_PendingWinningsUpdatedAt u in
   current_ledger ← asks sequence;
   pset cU32 updated_key current_ledger ;;
   Common._extend_persistent_ttl updated_key) c s.
Proof.
  unfold Common._accumulate_pending, Duplicates._accumulate_pending.
  repeat (rewrite ?bind_bind; apply bind_ext; intros). done.
Qed.

(** Run the steps whose outcome is known. *)
Ltac evaluate :=
  unfold mbind, M_bind, outcome_bind, lift, ok_or, some_or, throw, mret, M_ret; cbn beta iota.

(** The copy charges what [FeeOnPot] charges, whatever the fee model. *)
Lemma copied_fee_updown rid w l c s :
  Duplicates._apply_protocol_fee_updown rid w l c s =
  (bps ← Config._read_protocol_fee_bps;
   f ← lift (calculate_protocol_fee_updown bps FeeOnPot w l);
   let '(dist_winning, dist_losing, fee_amount) := f in
   Duplicates._collect_protocol_fee rid fee_amount bps ;;
   mret (dist_winning, dist_losing, fee_amount)) c s.
Proof.
  unfold Duplicates._apply_protocol_fee_updown. apply bind_ext. intros [bps|] s1; [|done].
  unfold calculate_protocol_fee_updown, updown_fee_amount. change Duplicates.payout_add with SettlementMath.payout_add.
  evaluate. destruct (SettlementMath.payout_add w l) as [pot|e|]; [|done..].
  evaluate. destruct (i128_checked_mul pot bps) as [product|]; [|done].
  evaluate. destruct (Z.quot product BPS_DENOMINATOR =? 0); [done|].
  by repeat (evaluate; destruct (i128_checked_sub _ _); [|done]).
Qed.

Lemma copied_fee_precision rid pot stakes c s :
  in_i128 pot = true ->
  Duplicates._apply_protocol_fee_precision rid pot c s =
  (bps ← Config._read_protocol_fee_bps;
   f ← lift (calculate_protocol_fee_precision bps FeeOnPot pot stakes);
   let '(distributable, fee_amount) := f in
   Duplicates._collect_protocol_fee rid fee_amount bps ;;
   mret (distributable, fee_amount)) c s.
Proof.
  intros Hpot. unfold Duplicates._apply_protocol_fee_precision. apply bind_ext. intros [bps|] s1; [|done].
  unfold calculate_protocol_fee_precision. destruct (pot <=? 0); [done|].
  evaluate. destruct (i128_checked_mul pot bps) as [product|]; [|done].
  evaluate. destruct (Z.quot product BPS_DENOMINATOR =? 0) eqn:Hz; zbool.
  - rewrite Hz. unfold i128_checked_sub. rewrite Z.sub_0_r. unfold checked. by rewrite Hpot.
  - destruct (i128_checked_sub _ _); [|done]. evaluate. unfold Duplicates._collect_protocol_fee.
    destruct (_ >? 0) eqn:Hp; destruct (_ <=? 0) eqn:Hn; zbool; (done || lia).
Qed.
