(* ===== verification/Frames.v ===== *)
(** * What the configuration calls leave alone

    The slots the invariants of the contract are about ([core]) and, for every
    entry point that only configures, that it leaves them as they were. *)

From S2P Require Export Contract.

(** Value, the slots of the rounds, and the two rates that decide how value is
    split. *)
Definition core_key (k : Key) : bool :=
  match k with
  | KVec n [] =>
      bool_decide (n ∈ ["ProtocolFeeTreasury"; "ActiveRound"; "LastRoundId"; "ProtocolFeeBps";
                        "EarlyCashoutBps"])
  | KVec n [AAddr _] => bool_decide (n ∈ ["Balance"; "PendingWinnings"])
  | KVec n [AU64 _] => String.eqb n "RoundParticipants"
  | KVec n [AU64 _; AAddr _] =>
      bool_decide (n ∈ ["Position"; "PrecisionPosition"; "PrecisionCommitment"])
  | KSym n => bool_decide (n ∈ ["InsFundBal"; "PendingDisputes"])
  | _ => false
  end.

Notation core := (λ k, core_key k = true).

Lemma valued_core k : valued k = true -> core_key k = true.
Proof.
  unfold valued, core_key. destruct k as [n [|[] [|[] [|]]]| | |]; try done;
    intros H; repeat (apply orb_true_iff in H as [H|H]); apply String.eqb_eq in H; by subst.
Qed.

Lemma round_core rid k : round_key rid k -> core_key k = true.
Proof.
  unfold round_key, core_key. destruct k as [n [|[] [|[] [|]]]| | |]; try done.
  - by intros [_ ->].
  - intros [_ [-> |[-> | ->]]]; done.
Qed.

Lemma frame_forget {A} P (m : M A) : frame P m -> frame P (forget m).
Proof. intros H. unfold forget. apply frame_bind; [done|]. intros. apply frame_ret. Qed.
#[export] Hint Resolve frame_forget : frame.

(** A set of slots that holds no history, statistics or leaderboard: the
    bookkeeping of a payout leaves it alone. *)
Class Bookless (P : Key -> Prop) : Prop := {
  bl_history k : history_key k -> ¬ P k;
  bl_leaderboard k : lb_key k -> ¬ P k }.

Section Bookkeeping.
Context (P : Key -> Prop) `{!Bookless P}.

Lemma frame_persist_bl r m u a b s' p o : frame P (_persist_user_outcome r m u a b s' p o).
Proof. apply frame_persist, bl_history. Qed.
Lemma frame_archive_bl r st p ps f cf : frame P (_archive_round r st p ps f cf).
Proof. apply frame_archive, bl_history. Qed.
Lemma frame_stats_win_bl u : frame P (_update_stats_win u).
Proof. apply frame_stats_win, bl_leaderboard. Qed.
Lemma frame_stats_loss_bl u : frame P (_update_stats_loss u).
Proof. apply frame_stats_loss, bl_leaderboard. Qed.
End Bookkeeping.
#[export] Hint Resolve frame_persist_bl frame_archive_bl frame_stats_win_bl frame_stats_loss_bl : frame.
#[export] Hint Extern 1 (Bookless _) => tc_solve : frame.

(** For a boolean set of slots, by cases on the shape of the key. *)
Ltac bookless :=
  split; intros [n [|[] [|[] [|]]]| | |n] H; simpl in H |- *; try done; intros Hp;
  destruct_or?; subst; simpl in *; rewrite ?andb_false_r in *; discriminate.

#[export] Instance bookless_core : Bookless core.
Proof. bookless. Qed.

(** Unfolds the handlers and helpers a program calls until the logic's frame
    rules apply; [side] proves that a key written is outside the set. *)
Ltac head_of t := match t with ?f _ => head_of f | _ => t end.
Ltac frame_calls side :=
  repeat first
    [ progress intros
    | match goal with
      | |- frame _ _ => progress frame_with side
      | |- frame _ (match ?x with _ => _ end) => destruct x
      | |- frame _ (match ?x with _ => _ end _ _) => destruct x
      | |- frame _ ?m => let h := head_of m in unfold h
      end ].
Ltac core_frame := frame_calls ltac:(intros ?; discriminate).

Section Config_calls.
Context `{HostCrypto}.

(** The calls that configure, without moving value, opening rounds or setting a
    rate at once. *)
Definition configures (call : Call) : bool :=
  match call with
  | OnGov (c_execute_gov_proposal _ _)
  | OnSchedule (c_apply_scheduled_changes _) | OnSchedule (c_withdraw_protocol_fee _ _)
  | OnConfig (c_reclaim_expired_pending_winnings _) | OnConfig (c_set_early_cashout_bps _)
  | OnReserve (c_top_up_insurance_fund _) | OnReserve (c_withdraw_insurance_fund _ _) => false
  | OnRound (c_set_round_template _ _) | OnRound c_clear_round_template
  | OnRound (c_set_dispute_ledgers _) => true
  | OnRound _ => false
  | _ => true
  end.

Lemma frame_configures call : configures call = true -> frame core (dispatch call).
Proof.
  destruct call as [call|call|call|call|call|call|call|call]; destruct call;
    try discriminate; intros _; cbn; core_frame.
Qed.
End Config_calls.
