(* ===== verification/Typing.v ===== *)
(** * The layout of persistent storage

    Which type of value each storage key holds, and that every entry point keeps
    every entry of that type.  The layout is an executable table; the judgement
    [keeps_types m] says that a program only writes values that fit it. *)

From S2P Require Export Frames.

(** ** The table *)

Inductive Shape :=
  | SI128 | SU64 | SU32 | SBool | SAddr | SAddrs | SU64s | SU32s | SRound | SPosition | SStats
  | SPrediction | SCommitment | SSummary | SOutcome | SHeartbeat | SHb | SDeviation | SAttestation
  | SQuorum | SSamples | STemplate | SPendingConfig | SProposal | SRotation | SSeasonArchive
  | SConstitution | SAmendment | SDisputes.

#[export] Instance Shape_eq_dec : EqDecision Shape := ltac:(solve_decision).

Definition shape (v : Val) : option Shape :=
  match v with
  | VI128 _ => Some SI128 | VU64 _ => Some SU64 | VU32 _ => Some SU32 | VBool _ => Some SBool
  | VAddr _ => Some SAddr | VAddrs _ => Some SAddrs | VU64s _ => Some SU64s | VU32s _ => Some SU32s
  | VRound _ => Some SRound | VPosition _ => Some SPosition | VStats _ => Some SStats
  | VPrediction _ => Some SPrediction | VCommitment _ => Some SCommitment
  | VSummary _ => Some SSummary | VOutcome _ => Some SOutcome | VHeartbeat _ => Some SHeartbeat
  | VHb _ => Some SHb | VDeviation _ => Some SDeviation | VAttestation _ => Some SAttestation
  | VQuorum _ => Some SQuorum | VSamples _ => Some SSamples | VTemplate _ => Some STemplate
  | VPendingConfig _ => Some SPendingConfig | VProposal _ => Some SProposal
  | VRotation _ => Some SRotation | VSeasonArchive _ => Some SSeasonArchive
  | VConstitution _ => Some SConstitution | VAmendment _ => Some SAmendment
  | VDisputes _ => Some SDisputes
  | _ => None
  end.

(** The variants of [DataKeyCore], [DataKeyScoped] and the unit [Config] and
    [Samples] keys.  Two slots hold more than one type: the treasury, which
    [SetTreasuryAddress] overwrites with an address, and [Config], which three
    key types share. *)
Definition vec_layout : list (string * list Shape) :=
  [("Admin", [SAddr]); ("Oracle", [SAddr]); ("SchemaVersion", [SU32]); ("ActiveRound", [SRound]);
   ("Paused", [SU32]); ("BetWindowLedgers", [SU32]); ("RunWindowLedgers", [SU32]);
   ("CloseBufferLedgers", [SU32]); ("LastRoundId", [SU64]); ("MaxStake", [SI128]);
   ("MaxUserRoundExposure", [SI128]); ("MaxPendingWinnings", [SI128]); ("MinParticipants", [SU32]);
   ("OracleHeartbeat", [SHeartbeat]); ("OracleStaleThreshold", [SU64]);
   ("MaxPrecisionParticipants", [SU32]); ("OracleMaxDeviationBps", [SU32]);
   ("OracleDeviationOverrideArmed", [SBool]); ("OracleMinConfidenceBps", [SU32]);
   ("OracleStrictMode", [SBool]); ("RecentArchivedRoundIds", [SU64s]); ("MigratedToV3", [SBool]);
   ("ProtocolFeeBps", [SU32]); ("ProtocolFeeTreasury", [SI128; SAddr]);
   ("OracleRotationProposal", [SRotation]); ("ArchiveRetention", [SU32]); ("RoundTemplate", [STemplate]);
   ("OracleQuorum", [SQuorum]); ("NextSchemaVersion", [SU32]); ("MinBet", [SI128]);
   ("EarlyCashoutBps", [SU32]); ("FeeModel", [SU32]); ("PrecisionPayoutPolicy", [SU32]);
   ("AccessControlEnabled", [SBool]); ("GovApprover", [SAddr]); ("GovProposalTtlLedgers", [SU32]);
   ("NextGovProposalId", [SU64]);
   ("Balance", [SI128]); ("PendingWinnings", [SI128]); ("UserStats", [SStats]);
   ("Position", [SPosition]); ("PrecisionPosition", [SPrediction]);
   ("PrecisionCommitment", [SCommitment]); ("RoundParticipants", [SAddrs]); ("CancelledRound", [SBool]);
   ("ConsumedOracleNonce", [SBool]); ("UserRoundOutcome", [SOutcome]);
   ("PendingConfigChange", [SPendingConfig]); ("ArchivedRound", [SSummary]);
   ("SeasonUserStats", [SStats]); ("SeasonArchive", [SSeasonArchive]);
   ("UserArchivedRoundIds", [SU64s]); ("Allowlisted", [SBool]); ("Denylisted", [SBool]);
   ("GovProposal", [SProposal]); ("RoundStartLedger", [SU64]);
   ("Samples", [SSamples]); ("Config", [SDeviation; SAttestation; SHb])].

Definition ext_layout : list (string * list Shape) :=
  [("LeaderboardWins", [SAddrs]); ("LeaderboardStreak", [SAddrs]); ("SeasonId", [SU32]);
   ("SeasonLeaderboardWins", [SAddrs]); ("SeasonLeaderboardStreak", [SAddrs]);
   ("ConstitutionMetadata", [SConstitution]); ("NextAmendmentId", [SU64]); ("Amendment", [SAmendment])].

Definition sym_layout : list (string * list Shape) :=
  [("DisputeLedgers", [SU32]); ("PendingDisputes", [SDisputes]); ("otskew", [SU64]);
   ("EpMintBgt", [SI128]); ("EpMintCsm", [SI128]); ("EpMintEpc", [SU32]);
   ("InsFundBal", [SI128]); ("InsSplitBps", [SU32]); ("InsCovBps", [SU32]); ("InsEligEvt", [SU32s])].

Fixpoint find_layout (n : string) (l : list (string * list Shape)) : list Shape :=
  match l with
  | [] => []
  | (n', sh) :: l => if String.eqb n n' then sh else find_layout n l
  end.

(** The tuple keys carry the expiry of pending winnings and its time stamps. *)
Definition layout (k : Key) : list Shape :=
  match k with
  | KVec n _ => find_layout n vec_layout
  | KExt n _ => find_layout n ext_layout
  | KTup _ => [SU32]
  | KSym n => find_layout n sym_layout
  end.

Definition fits (k : Key) (v : Val) : bool :=
  match shape v with Some sh => bool_decide (sh ∈ layout k) | None => false end.

Definition well_typed (s : State) : Prop := ∀ k v, persistent s !! k = Some v -> fits k v = true.

(** ** Programs that keep the types *)

Definition keeps_types {A} (m : M A) : Prop := ∀ c s, well_typed s -> well_typed (m c s).2.

Lemma keeps_bind {A B} (m : M A) (f : A -> M B) :
  keeps_types m -> (∀ a, keeps_types (f a)) -> keeps_types (m ≫= f).
Proof.
  intros Hm Hf c s H. specialize (Hm c s H). unfold mbind, M_bind.
  destruct (m c s) as [[a|e|] s1]; simpl in *; [by apply Hf|done..].
Qed.

(** A program that writes no entry. *)
Lemma keeps_frame {A} (m : M A) : frame (λ _, True) m -> keeps_types m.
Proof. intros Hm c s H k v Hv. apply (H k). by rewrite <-(Hm c s). Qed.

Section Keeps.
Context {A B : Type}.

Lemma keeps_ret (a : A) : keeps_types (mret a).
Proof. by apply keeps_frame, frame_ret. Qed.
Lemma keeps_throw e : keeps_types (throw (A:=A) e).
Proof. by apply keeps_frame, frame_throw. Qed.
Lemma keeps_trap : keeps_types (trap (A:=A)).
Proof. by apply keeps_frame, frame_trap. Qed.
Lemma keeps_lift (o : outcome A) : keeps_types (lift o).
Proof. by apply keeps_frame, frame_lift. Qed.
Lemma keeps_asks (f : Ctx -> A) : keeps_types (asks f).
Proof. by apply keeps_frame, frame_asks. Qed.
Lemma keeps_reject_if b e : keeps_types (reject_if b e).
Proof. by apply keeps_frame, frame_reject_if. Qed.
Lemma keeps_ok_or (o : option A) e : keeps_types (ok_or o e).
Proof. by apply keeps_frame, frame_ok_or. Qed.
Lemma keeps_or_trap (o : option A) : keeps_types (or_trap o).
Proof. by apply keeps_frame, frame_or_trap. Qed.
Lemma keeps_pget (cd : Codec A) k : keeps_types (pget cd k).
Proof. by apply keeps_frame, frame_pget. Qed.
Lemma keeps_iget (cd : Codec A) k : keeps_types (iget cd k).
Proof. by apply keeps_frame, frame_iget. Qed.
Lemma keeps_tget (cd : Codec A) k : keeps_types (tget cd k).
Proof. by apply keeps_frame, frame_tget. Qed.
Lemma keeps_pget_or (cd : Codec A) k d : keeps_types (pget_or cd k d).
Proof. by apply keeps_frame, frame_pget_or. Qed.
Lemma keeps_pget_ok (cd : Codec A) k e : keeps_types (pget_ok cd k e).
Proof. by apply keeps_frame, frame_pget_ok. Qed.
Lemma keeps_iget_or (cd : Codec A) k d : keeps_types (iget_or cd k d).
Proof. by apply keeps_frame, frame_iget_or. Qed.
Lemma keeps_tget_or (cd : Codec A) k d : keeps_types (tget_or cd k d).
Proof. by apply keeps_frame, frame_tget_or. Qed.
Lemma keeps_phas k : keeps_types (phas k).
Proof. by apply keeps_frame, frame_phas. Qed.
Lemma keeps_extend k t e : keeps_types (pextend_ttl k t e).
Proof. by apply keeps_frame, frame_pextend_ttl. Qed.
Lemma keeps_iset (cd : Codec A) k x : keeps_types (iset cd k x).
Proof. by apply keeps_frame, frame_iset. Qed.
Lemma keeps_iremove k : keeps_types (iremove k).
Proof. by apply keeps_frame, frame_iremove. Qed.
Lemma keeps_tset (cd : Codec A) k x : keeps_types (tset cd k x).
Proof. by apply keeps_frame, frame_tset. Qed.
Lemma keeps_emit t1 t2 vs : keeps_types (emit t1 t2 vs).
Proof. by apply keeps_frame, frame_emit. Qed.
Lemma keeps_require_auth a : keeps_types (require_auth a).
Proof. by apply keeps_frame, frame_require_auth. Qed.

Lemma keeps_inspect_err (m : M A) f :
  keeps_types m -> (∀ e, keeps_types (f e)) -> keeps_types (inspect_err m f).
Proof.
  intros Hm Hf c s H. specialize (Hm c s H). unfold inspect_err.
  destruct (m c s) as [[a|e|] s1]; simpl in *; [done| |done].
  specialize (Hf e c s1 Hm). by destruct (f e c s1) as [[] s2].
Qed.

Lemma keeps_pset (cd : Codec A) k x : fits k (enc cd x) = true -> keeps_types (pset cd k x).
Proof.
  intros Hf c s H k' v. simpl. destruct (decide (k = k')) as [->|Hne].
  - rewrite lookup_insert_eq. by intros [= <-].
  - rewrite lookup_insert_ne by done. apply H.
Qed.

Lemma keeps_premove k : keeps_types (premove k).
Proof. intros c s H k' v. simpl. intros [_ Hv]%lookup_delete_Some. by apply H. Qed.

Lemma keeps_mfor (l : list A) body : (∀ x, keeps_types (body x)) -> keeps_types (mfor l body).
Proof. intros Hb. induction l; simpl; [apply keeps_frame, frame_ret|]. by apply keeps_bind. Qed.
Lemma keeps_mfold (l : list A) (acc : B) body :
  (∀ acc x, keeps_types (body acc x)) -> keeps_types (mfold l acc body).
Proof.
  intros Hb. revert acc. induction l; intros; simpl; [apply keeps_frame, frame_ret|]. by apply keeps_bind.
Qed.
End Keeps.

Create HintDb types discriminated.
#[export] Hint Resolve keeps_ret keeps_throw keeps_trap keeps_lift keeps_asks keeps_reject_if keeps_ok_or
  keeps_or_trap keeps_pget keeps_iget keeps_tget keeps_pget_or keeps_pget_ok keeps_iget_or keeps_tget_or
  keeps_phas keeps_extend keeps_iset keeps_iremove keeps_tset keeps_emit keeps_require_auth
  keeps_premove : types.

(** Walks the handlers a program calls. *)
Ltac types :=
  repeat first
    [ progress intros
    | match goal with
      | |- keeps_types _ => solve [auto 2 with types nocore]
      | |- keeps_types (_ ≫= _) => apply keeps_bind
      | |- keeps_types (inspect_err _ _) => apply keeps_inspect_err
      | |- keeps_types (mfor _ _) => apply keeps_mfor
      | |- keeps_types (mfold _ _ _) => apply keeps_mfold
      | |- keeps_types (pset _ _ _) => apply keeps_pset; reflexivity
      | |- keeps_types (match ?x with _ => _ end) => destruct x
      | |- keeps_types (match ?x with _ => _ end _ _) => destruct x
      | |- keeps_types ?m => let h := head_of m in unfold h
      end ].

(** ** Every entry point keeps the types *)

Lemma keeps_prune limit l : keeps_types (prune_recent limit l).
Proof.
  assert (∀ n l, (length l ≤ n)%nat -> keeps_types (prune_recent limit l)) as Hg; [|by eapply Hg].
  clear l. induction n as [|n IH]; intros [|x [|y l]] Hlen; cbn [length] in Hlen; try lia;
    cbn [prune_recent]; unfold prune_entry; types. apply IH. lia.
Qed.
#[export] Hint Resolve keeps_prune : types.
Lemma dispatch_keeps_types `{HostCrypto} call : keeps_types (dispatch call).
Proof.
  destruct call as [call|call|call|call|call|call|call|call]; destruct call; cbn; types.
Qed.

(** ** Reading a well-typed state *)

Lemma typed_slot {A} (cd : Codec A) k s :
  well_typed s -> (∀ v, fits k v = true -> is_Some (dec cd v)) ->
  ∃ o, persistent s !! k = enc cd <$> o.
Proof.
  intros Ht Hk. destruct (persistent s !! k) as [v|] eqn:E; [|by exists None].
  destruct (Hk v (Ht _ _ E)) as [x Hx]. exists (Some x). simpl. f_equal. by apply enc_dec.
Qed.

(** The codec of a slot whose layout lists one type. *)
Ltac typed_codec :=
  let v := fresh "v" in let Hv := fresh "Hv" in
  intros v Hv; unfold fits in Hv; destruct v; cbn in Hv; try discriminate Hv;
  first [by eexists | apply bool_decide_eq_true in Hv; cbv in Hv; set_solver].
