(* ===== verification/QueriesSpec.v ===== *)
(** * What the queries answer

    The entry points that only read write nothing; the archive pages list a
    user's rounds newest first; walking the position cursor lists every
    participant once; the leaderboard cursor can lose users. *)

From S2P Require Export Queries Typing.

(** ** Queries write nothing *)

(** The same storage and events; the life times of entries may differ. *)
Record same_but_ttl (s s' : State) : Prop := {
  sb_persistent : persistent s' = persistent s;
  sb_instance : instance s' = instance s;
  sb_temporary : temporary s' = temporary s;
  sb_events : events s' = events s }.

#[export] Instance same_but_ttl_preorder : PreOrder same_but_ttl.
Proof. split; [done|]. intros s1 s2 s3 [] []. split; congruence. Qed.

Definition quiet {A} (m : M A) : Prop := ∀ c s, same_but_ttl s (m c s).2.

Lemma quiet_bind {A B} (m : M A) (f : A -> M B) :
  quiet m -> (∀ a, quiet (f a)) -> quiet (m ≫= f).
Proof.
  intros Hm Hf c s. specialize (Hm c s). unfold mbind, M_bind.
  destruct (m c s) as [[a|e|] s1]; simpl in *; [|done..]. etrans; [exact Hm|apply Hf].
Qed.
Lemma quiet_ret {A} (a : A) : quiet (mret a).
Proof. done. Qed.
Lemma quiet_throw {A} e : quiet (throw (A:=A) e).
Proof. done. Qed.
Lemma quiet_trap {A} : quiet (trap (A:=A)).
Proof. done. Qed.
Lemma quiet_lift {A} (o : outcome A) : quiet (lift o).
Proof. done. Qed.
Lemma quiet_asks {A} (f : Ctx -> A) : quiet (asks f).
Proof. done. Qed.
Lemma quiet_pget {A} (cd : Codec A) k : quiet (pget cd k).
Proof. done. Qed.
Lemma quiet_iget {A} (cd : Codec A) k : quiet (iget cd k).
Proof. done. Qed.
Lemma quiet_phas k : quiet (phas k).
Proof. done. Qed.
Lemma quiet_extend_ttl k t e : quiet (pextend_ttl k t e).
Proof. intros c s. unfold pextend_ttl. by destruct (persistent s !! k). Qed.
Lemma quiet_attempt {A} (m : M A) : quiet m -> quiet (attempt m).
Proof. intros Hm c s. specialize (Hm c s). unfold attempt. by destruct (m c s) as [[]]. Qed.
Lemma quiet_mfold {A B} (l : list A) (acc : B) body :
  (∀ acc x, quiet (body acc x)) -> quiet (mfold l acc body).
Proof. intros Hb. revert acc. induction l; intros; simpl; [done|]. by apply quiet_bind. Qed.

Create HintDb quiet discriminated.
#[export] Hint Resolve quiet_ret quiet_throw quiet_trap quiet_lift quiet_asks quiet_pget quiet_iget quiet_phas
  quiet_extend_ttl : quiet.

(** Walks a query through the definitions it calls. *)
Ltac quietly :=
  repeat first
    [ progress intros
    | match goal with
      | |- quiet _ => solve [auto 2 with quiet nocore]
      | |- quiet (_ ≫= _) => apply quiet_bind
      | |- quiet (attempt _) => apply quiet_attempt
      | |- quiet (mfold _ _ _) => apply quiet_mfold
      | |- quiet (match ?x with _ => _ end) => destruct x
      | |- quiet (match ?x with _ => _ end _ _) => destruct x
      | |- quiet ?m => let h := head_of m in unfold h
      end ].

Lemma quiet_fetch cap l res : quiet (fetch_recent cap l res).
Proof. revert res. induction l; intros; cbn [fetch_recent]; quietly. Qed.
Lemma quiet_history_loop fuel l lim e i res : quiet (history_loop fuel l lim e i res).
Proof. revert i res. induction fuel; intros; cbn [history_loop]; quietly. Qed.
Lemma quiet_allowed a : quiet (is_action_allowed a).
Proof.
  assert (quiet (_policy_gate a)) as Hg by quietly. intros c s. specialize (Hg c s).
  unfold is_action_allowed. by destruct (_policy_gate a c s) as [[]].
Qed.
#[export] Hint Resolve quiet_fetch quiet_history_loop quiet_allowed : quiet.

Lemma wp_quiet {A} (m : M A) (Q : A -> State -> Prop) c s :
  quiet m -> (∀ a s', persistent s' = persistent s -> Q a s') -> wp m Q c s.
Proof. intros Hm H a s' E. apply H. specialize (Hm c s). rewrite E in Hm. apply Hm. Qed.

(** The entry points of the facade that read, in groups. Two getters are not
    among them because they can write, and are calls of [dispatch] instead:
    [get_amendment] stores the expiry of an amendment, and
    [get_oracle_rotation_proposal] removes an expired proposal and publishes an
    event. *)

(** Schema, modes, principals; a user's archive. *)
Inductive StatusQuery :=
  | q_get_schema_version | q_get_next_schema | q_is_paused | q_get_runtime_mode
  | q_get_user_archive_history (user : Address) (offset limit : Z)
  | q_is_action_allowed (action : PolicyAction) | q_get_admin | q_get_oracle.

Definition ask_status (q : StatusQuery) : M () :=
  match q with
  | q_get_schema_version => forget get_schema_version
  | q_get_next_schema => forget get_next_schema
  | q_is_paused => forget is_paused
  | q_get_runtime_mode => forget get_runtime_mode
  | q_get_user_archive_history u o l => forget (get_user_archive_history u o l)
  | q_is_action_allowed a => forget (is_action_allowed a)
  | q_get_admin => forget get_admin
  | q_get_oracle => forget get_oracle
  end.

(** The oracle's guards and liveness; the protocol's health and status. *)
Inductive OracleQuery :=
  | q_get_oracle_max_deviation_bps | q_get_deviation_ref_mode | q_get_deviation_window_samples
  | q_get_twap_samples | q_get_attestation_key | q_get_oracle_min_confidence_bps
  | q_get_oracle_strict_mode | q_get_hb_strict_mode | q_get_hb_override_armed
  | q_get_hb_grace_seconds | q_get_oracle_heartbeat | q_is_oracle_live | q_get_protocol_health
  | q_get_protocol_status | q_get_round_status (rid : Z) | q_get_oracle_stale_threshold.

Definition ask_oracle (q : OracleQuery) : M () :=
  match q with
  | q_get_oracle_max_deviation_bps => forget get_oracle_max_deviation_bps
  | q_get_deviation_ref_mode => forget get_deviation_ref_mode
  | q_get_deviation_window_samples => forget get_deviation_window_samples
  | q_get_twap_samples => forget _load_twap_samples
  | q_get_attestation_key => forget get_attestation_key
  | q_get_oracle_min_confidence_bps => forget get_oracle_min_confidence_bps
  | q_get_oracle_strict_mode => forget get_oracle_strict_mode
  | q_get_hb_strict_mode => forget get_hb_strict_mode
  | q_get_hb_override_armed => forget get_hb_override_armed
  | q_get_hb_grace_seconds => forget get_hb_grace_seconds
  | q_get_oracle_heartbeat => forget get_oracle_heartbeat
  | q_is_oracle_live => forget is_oracle_live
  | q_get_protocol_health => forget get_protocol_health
  | q_get_protocol_status => forget get_protocol_status
  | q_get_round_status r => forget (get_round_status r)
  | q_get_oracle_stale_threshold => forget get_oracle_stale_threshold
  end.

(** Access control and governance. *)
Inductive PolicyQuery :=
  | q_is_access_control_enabled | q_is_allowlisted (user : Address)
  | q_is_denylisted (user : Address) | q_get_access_state (user : Address)
  | q_get_access_policy (user : Address) | q_get_gov_approver | q_get_gov_proposal_ttl
  | q_get_gov_proposal (proposal_id : Z) | q_get_constitution.

Definition ask_policy (q : PolicyQuery) : M () :=
  match q with
  | q_is_access_control_enabled => forget is_access_control_enabled
  | q_is_allowlisted u => forget (is_allowlisted u)
  | q_is_denylisted u => forget (is_denylisted u)
  | q_get_access_state u => forget (get_access_state u)
  | q_get_access_policy u => forget (get_access_policy u)
  | q_get_gov_approver => forget get_gov_approver
  | q_get_gov_proposal_ttl => forget get_gov_proposal_ttl
  | q_get_gov_proposal i => forget (get_gov_proposal i)
  | q_get_constitution => forget get_constitution
  end.

(** Limits, fees and scheduled changes. *)
Inductive LimitsQuery :=
  | q_get_max_stake | q_get_min_bet | q_get_max_user_exposure | q_get_oracle_timestamp_skew
  | q_get_protocol_fee_bps | q_get_protocol_fee_treasury
  | q_get_pending_config_change (kind : ConfigChangeKind) | q_get_max_pending_winnings.

Definition ask_limits (q : LimitsQuery) : M () :=
  match q with
  | q_get_max_stake => forget get_max_stake
  | q_get_min_bet => forget get_min_bet
  | q_get_max_user_exposure => forget get_max_user_exposure
  | q_get_oracle_timestamp_skew => forget get_oracle_timestamp_skew
  | q_get_protocol_fee_bps => forget get_protocol_fee_bps
  | q_get_protocol_fee_treasury => forget get_protocol_fee_treasury
  | q_get_pending_config_change k => forget (get_pending_config_change k)
  | q_get_max_pending_winnings => forget get_max_pending_winnings
  end.

(** Configuration. *)
Inductive ConfigQuery :=
  | q_get_min_participants | q_get_max_precision_participants | q_get_precision_payout_policy
  | q_get_mint_limit | q_get_epoch_mint_budget | q_get_archive_retention
  | q_get_pending_winnings_expiry | q_get_oracle_quorum_config | q_get_close_buffer_ledgers
  | q_get_bet_window_ledgers | q_get_run_window_ledgers | q_get_early_cashout_bps
  | q_get_round_template | q_is_round_cancelled (rid : Z) | q_get_dispute_ledgers.

Definition ask_config (q : ConfigQuery) : M () :=
  match q with
  | q_get_min_participants => forget get_min_participants
  | q_get_max_precision_participants => forget get_max_precision_participants
  | q_get_precision_payout_policy => forget get_precision_payout_policy
  | q_get_mint_limit => forget get_mint_limit
  | q_get_epoch_mint_budget => forget get_epoch_mint_budget
  | q_get_archive_retention => forget get_archive_retention
  | q_get_pending_winnings_expiry => forget get_pending_winnings_expiry
  | q_get_oracle_quorum_config => forget get_oracle_quorum_config
  | q_get_close_buffer_ledgers => forget get_close_buffer_ledgers
  | q_get_bet_window_ledgers => forget get_bet_window_ledgers
  | q_get_run_window_ledgers => forget get_run_window_ledgers
  | q_get_early_cashout_bps => forget get_early_cashout_bps
  | q_get_round_template => forget get_round_template
  | q_is_round_cancelled r => forget (is_round_cancelled r)
  | q_get_dispute_ledgers => forget get_dispute_ledgers
  end.

(** Rounds, their archive, and what a user holds. *)
Inductive RoundQuery :=
  | q_get_active_round | q_get_one_sided_policy | q_get_round_pool_stats | q_get_round_phase
  | q_get_market_snapshot | q_get_last_round_id | q_get_archived_round (rid : Z)
  | q_get_recent_archived_rounds (limit : Z)
  | q_get_user_archived_participation (user : Address) (rid : Z)
  | q_get_user_stats (user : Address) | q_get_pending_winnings (user : Address)
  | q_get_user_position (user : Address) | q_get_user_precision_prediction (user : Address)
  | q_get_precision_predictions | q_get_updown_positions
  | q_get_precision_predictions_page (offset limit : Z)
  | q_get_updown_positions_page (offset limit : Z) | q_balance (user : Address)
  | q_simulate_payout (final_price : Z).

Definition ask_round (q : RoundQuery) : M () :=
  match q with
  | q_get_active_round => forget get_active_round
  | q_get_one_sided_policy => forget get_one_sided_policy
  | q_get_round_pool_stats => forget get_round_pool_stats
  | q_get_round_phase => forget get_round_phase
  | q_get_market_snapshot => forget get_market_snapshot
  | q_get_last_round_id => forget get_last_round_id
  | q_get_archived_round r => forget (get_archived_round r)
  | q_get_recent_archived_rounds l => forget (get_recent_archived_rounds l)
  | q_get_user_archived_participation u r => forget (get_user_archived_participation u r)
  | q_get_user_stats u => forget (get_user_stats u)
  | q_get_pending_winnings u => forget (get_pending_winnings u)
  | q_get_user_position u => forget (get_user_position u)
  | q_get_user_precision_prediction u => forget (get_user_precision_prediction u)
  | q_get_precision_predictions => forget get_precision_predictions
  | q_get_updown_positions => forget get_updown_positions
  | q_get_precision_predictions_page o l => forget (get_precision_predictions_page o l)
  | q_get_updown_positions_page o l => forget (get_updown_positions_page o l)
  | q_balance u => forget (balance u)
  | q_simulate_payout p => forget (simulate_payout p)
  end.

(** The fee model, the insurance fund, leaderboards and seasons. *)
Inductive ReserveQuery :=
  | q_get_fee_model | q_get_insurance_split_bps | q_get_insurance_coverage_bps
  | q_get_insurance_eligible_events | q_get_insurance_fund_balance
  | q_get_leaderboard_by_wins (cursor : option Address) (limit : Z)
  | q_get_leaderboard_by_streak (cursor : option Address) (limit : Z) | q_get_current_season_id
  | q_get_season_user_stats (season_id : Z) (user : Address) | q_get_season_archive (season_id : Z)
  | q_get_season_leaderboard_by_wins (season_id offset limit : Z)
  | q_get_season_leaderboard_by_streak (season_id offset limit : Z).

Definition ask_reserve (q : ReserveQuery) : M () :=
  match q with
  | q_get_fee_model => forget get_fee_model
  | q_get_insurance_split_bps => forget get_insurance_split_bps
  | q_get_insurance_coverage_bps => forget get_insurance_coverage_bps
  | q_get_insurance_eligible_events => forget get_insurance_eligible_events
  | q_get_insurance_fund_balance => forget get_insurance_fund_balance
  | q_get_leaderboard_by_wins c l => forget (Queries.get_leaderboard_by_wins c l)
  | q_get_leaderboard_by_streak c l => forget (Queries.get_leaderboard_by_streak c l)
  | q_get_current_season_id => forget get_current_season_id
  | q_get_season_user_stats s u => forget (get_season_user_stats s u)
  | q_get_season_archive s => forget (get_season_archive s)
  | q_get_season_leaderboard_by_wins s o l => forget (get_season_leaderboard_by_wins s o l)
  | q_get_season_leaderboard_by_streak s o l => forget (get_season_leaderboard_by_streak s o l)
  end.

(** The cursor listings of queries.rs, which no entry point of the facade exposes. *)
Inductive ListingQuery :=
  | q_get_precision_predictions_cursor (cursor : option Address) (limit : Z)
  | q_get_updown_positions_cursor (cursor : option Address) (limit : Z).

Definition ask_listing (q : ListingQuery) : M () :=
  match q with
  | q_get_precision_predictions_cursor c l => forget (get_precision_predictions_cursor c l)
  | q_get_updown_positions_cursor c l => forget (get_updown_positions_cursor c l)
  end.

Inductive Query :=
  | AboutStatus (q : StatusQuery)
  | AboutOracle (q : OracleQuery)
  | AboutPolicy (q : PolicyQuery)
  | AboutLimits (q : LimitsQuery)
  | AboutConfig (q : ConfigQuery)
  | AboutRound (q : RoundQuery)
  | AboutReserve (q : ReserveQuery)
  | AboutListing (q : ListingQuery).

Definition ask (q : Query) : M () :=
  match q with
  | AboutStatus q => ask_status q
  | AboutOracle q => ask_oracle q
  | AboutPolicy q => ask_policy q
  | AboutLimits q => ask_limits q
  | AboutConfig q => ask_config q
  | AboutRound q => ask_round q
  | AboutReserve q => ask_reserve q
  | AboutListing q => ask_listing q
  end.

(** C40: every reading entry point of the facade and the two cursor listings
    ([Query] lists them all; [get_amendment] and [get_oracle_rotation_proposal],
    which can write, are not among them)
    publishes no event and leaves every stored value as it was, whether it
    answers, fails or traps; it can only extend life times. *)
Theorem queries_write_nothing q c s : same_but_ttl s (ask q c s).2.
Proof.
  revert c s. change (quiet (ask q)).
  destruct q as [q|q|q|q|q|q|q|q]; destruct q; cbn [ask ask_status ask_oracle ask_policy ask_limits
    ask_config ask_round ask_reserve ask_listing]; quietly.
Qed.

(** ** A user's archive, newest first *)

Definition archived (s : State) (rid : Z) : option ArchivedRoundSummary :=
  match persistent s !! K_ArchivedRound rid with Some (VSummary a) => Some a | _ => None end.
Definition archived_ids (s : State) (user : Address) : list Z :=
  match persistent s !! K_UserArchivedRoundIds user with Some (VU64s l) => l | _ => [] end.

Lemma read_archived s rid c :
  well_typed s -> pget cSummary (K_ArchivedRound rid) c s = (Ok (archived s rid), s).
Proof.
  intros Ht. destruct (typed_slot cSummary (K_ArchivedRound rid) s Ht) as [o Ho]; [typed_codec|].
  unfold pget, archived. rewrite Ho, opt_dec_enc. by destruct o.
Qed.

Lemma read_archived_ids s u c :
  well_typed s -> pget_or cU64s (K_UserArchivedRoundIds u) [] c s = (Ok (archived_ids s u), s).
Proof.
  intros Ht. destruct (typed_slot cU64s (K_UserArchivedRoundIds u) s Ht) as [o Ho]; [typed_codec|].
  unfold pget_or, mbind, M_bind, pget, archived_ids. rewrite Ho, opt_dec_enc. by destruct o.
Qed.

(** The loop, [n] steps above its end, collects the [n + 1] rounds down to it. *)
Lemma history_loop_collects s c l limit e n fuel res :
  well_typed s -> (e + n < length l)%nat -> (n < fuel)%nat -> Z.of_nat (length l) ≤ U32_MAX ->
  Z.of_nat (length res + n) < limit ->
  history_loop fuel l limit (Z.of_nat e) (Z.of_nat (e + n)) res c s
  = (Ok (res ++ omap (archived s) (reverse (take (S n) (drop e l)))), s).
Proof.
  intros Ht. revert fuel res. induction n as [|n IH]; intros [|fuel] res Hl Hf Hlen Hres; try lia.
  all: destruct (lookup_lt_is_Some_2 l (e + _) Hl) as [x Hx]; cbn [history_loop];
    rewrite Nat2Z.id, Hx; unfold mbind at 1, M_bind at 1; rewrite read_archived by done.
  - rewrite Nat.add_0_r in *. rewrite Z.eqb_refl. simpl.
    rewrite (drop_S _ _ _ Hx). simpl. by destruct (archived s x).
  - destruct (Z.of_nat (e + S n) =? Z.of_nat e) eqn:?; zbool; [lia|]. cbn [orb].
    assert (length (res ++ option_list (archived s x)) ≤ length res + 1)%nat as Hstep.
    { rewrite length_app. destruct (archived s x); simpl; lia. }
    destruct (Z.of_nat (length _) =? limit) eqn:?; zbool; [lia|].
    replace (u32_saturating_sub (Z.of_nat (e + S n)) 1) with (Z.of_nat (e + n))
      by (unfold u32_saturating_sub, clamp, U32_MAX in *; lia).
    rewrite IH by lia.
    rewrite (take_S_r (drop e l) (S n) x) by (by rewrite lookup_drop).
    rewrite reverse_app, reverse_singleton. simpl. rewrite <-app_assoc. by destruct (archived s x).
Qed.

Lemma window_reversed {A} (l : list A) o k :
  (o < length l)%nat -> (0 < k)%nat ->
  take k (drop o (reverse l))
  = reverse (take (S (length l - S o - (length l - o - k))) (drop (length l - o - k) l)).
Proof.
  intros Ho Hk. rewrite drop_reverse, take_reverse, length_take, take_drop_commute.
  do 2 f_equal; [lia|f_equal; lia].
Qed.

(** C38: the archive query of a user always answers on a well-typed state: the
    page-size error when the limit is zero or above 100, and otherwise the
    summaries still retained of the rounds [offset .. offset + limit] of the
    user's history counted from the newest; it terminates within
    the loop bound and changes nothing. *)
Theorem history_newest_first user offset limit c s :
  well_typed s -> 0 ≤ offset -> 0 ≤ limit ->
  Z.of_nat (length (archived_ids s user)) ≤ U32_MAX ->
  get_user_archive_history user offset limit c s
  = (if (limit =? 0) || (limit >? MAX_PAGE_SIZE) then Err PageSizeExceeded
     else Ok (omap (archived s)
                (take (Z.to_nat limit) (drop (Z.to_nat offset) (reverse (archived_ids s user))))), s).
Proof.
  intros Ht Ho Hl Hlen. unfold get_user_archive_history, mbind at 1, M_bind at 1, reject_if.
  destruct ((limit =? 0) || (limit >? MAX_PAGE_SIZE)) eqn:Hlim; [done|]. zbool. unfold MAX_PAGE_SIZE in *.
  cbn [mret M_ret]. unfold mbind at 1, M_bind at 1. rewrite read_archived_ids by done.
  set (l := archived_ids s user) in *. destruct (offset >=? _) eqn:Hoff; zbool.
  { rewrite drop_ge by (rewrite length_reverse; lia). by rewrite take_nil. }
  unfold mbind, M_bind, or_trap, u32_checked_add, checked.
  assert (in_u32 (offset + 1) = true) as -> by (apply in_u32_spec; lia). cbn [mret M_ret].
  rewrite window_reversed by lia.
  set (e := (length l - Z.to_nat offset - Z.to_nat limit)%nat).
  set (n := (length l - S (Z.to_nat offset) - e)%nat).
  assert (u32_saturating_sub (Z.of_nat (length l)) (offset + 1) = Z.of_nat (e + n)) as ->
    by (unfold u32_saturating_sub, clamp, U32_MAX, e, n in *; lia).
  assert (u32_saturating_sub (Z.of_nat (e + n)) (u32_saturating_sub limit 1) = Z.of_nat e) as ->
    by (unfold u32_saturating_sub, clamp, U32_MAX, e, n in *; lia).
  rewrite history_loop_collects; [done|done|unfold e, n; lia|lia|done|unfold e, n; cbn [length]; lia].
Qed.

(** ** Walking the position cursor *)

Lemma sorted_strictly l : Sorted N.le l -> NoDup l -> StronglySorted N.lt l.
Proof.
  intros Hs%Sorted_StronglySorted Hn; [|intros ???; apply N.le_trans].
  induction Hs as [|a l Hs IH Ha]; [constructor|]. apply NoDup_cons in Hn as [Hna Hn].
  constructor; [by apply IH|]. apply Forall_forall. intros b Hb.
  rewrite Forall_forall in Ha. specialize (Ha b Hb). assert (a ≠ b) by (by intros ->). lia.
Qed.

Lemma first_above_split pre a post :
  StronglySorted N.lt (pre ++ [a] ++ post) ->
  first_above a (pre ++ [a] ++ post) = S (length pre).
Proof.
  induction pre as [|b pre IH]; intros Hs; simpl in *; apply StronglySorted_inv in Hs as [Hs Hall];
    unfold addr_lt; rewrite Forall_forall in Hall.
  - rewrite (proj2 (N.ltb_ge a a)) by lia. f_equal. destruct post as [|x post]; [done|]. simpl.
    unfold addr_lt. rewrite (proj2 (N.ltb_lt a x)); [done|]. apply Hall. set_solver.
  - rewrite (proj2 (N.ltb_ge a b)); [by rewrite IH|]. apply N.lt_le_incl, Hall. set_solver.
Qed.

(** The cursor a client holds after listing [pre]. *)
Lemma cursor_position pre post :
  StronglySorted N.lt (pre ++ post) ->
  _find_cursor_position (pre ++ post) (last pre) = Z.of_nat (length pre).
Proof.
  intros Hs. destruct pre as [|b pre _] using rev_ind; [done|]. rewrite last_snoc. simpl.
  rewrite <-app_assoc in *. rewrite first_above_split, length_app by done. simpl. lia.
Qed.

Lemma page_after {A} (pre post : list A) n :
  post ≠ [] -> 0 ≤ n -> Z.of_nat (length (pre ++ post)) ≤ U32_MAX ->
  page (pre ++ post) (Z.of_nat (length pre)) n = take (Z.to_nat n) post.
Proof.
  intros Hp Hn Hlen. unfold page. rewrite length_app in *. assert (length post ≠ 0)%nat by by destruct post.
  destruct (_ >=? _) eqn:?; zbool; [lia|]. rewrite Nat2Z.id, drop_app_length.
  unfold u32_saturating_add, clamp, U32_MAX in *.
  destruct (decide (Z.to_nat n < length post)%nat); [f_equal; lia|].
  rewrite !take_ge; [done|lia..].
Qed.

(** The rows of a listing, read from the entries. *)
Definition position_of (s : State) (rid : Z) (user : Address) : option (Address * UserPosition) :=
  match pos_at s rid user with Some (VPosition p) => Some (user, p) | _ => None end.

Lemma push_position s rid u row acc c :
  position_of s rid u = Some row ->
  push_row (position_row rid) acc u c s = (Ok (acc.1 ++ [row], Some u), s).
Proof.
  unfold position_of, pos_at, push_row, position_row, mbind, M_bind, pget. intros H.
  by destruct (persistent s !! K_Position rid u) as [[]|]; simplify_eq.
Qed.

Lemma collect_positions s rid l c acc :
  (∀ u, u ∈ l -> is_Some (position_of s rid u)) ->
  mfold l acc (push_row (position_row rid)) c s
  = (Ok (acc.1 ++ omap (position_of s rid) l, if last l is Some a then Some a else acc.2), s).
Proof.
  revert acc. induction l as [|u l IH]; intros acc Hl; simpl.
  { rewrite app_nil_r. by destruct acc. }
  destruct (Hl u) as [row Hrow]; [set_solver|]. unfold mbind, M_bind.
  rewrite (push_position _ _ _ _ _ _ Hrow), IH, Hrow by set_solver. simpl. rewrite <-app_assoc.
  do 3 f_equal. destruct l as [|a l]; [done|]. change (last (u :: a :: l)) with (last (a :: l)).
  destruct (last (a :: l)) eqn:E; [done|by apply last_None in E].
Qed.

(** A client follows [next_cursor] until it is [None]. *)
Fixpoint walk {A} (query : option Address -> M (list A * option Address)) (fuel : nat)
    (cursor : option Address) : M (list A) :=
  match fuel with
  | O => trap
  | S fuel =>
      r ← query cursor;
      match r.2 with
      | None => mret r.1
      | Some a => rest ← walk query fuel (Some a); mret (r.1 ++ rest)
      end
  end.

Section Walk.
Context (s : State) (r : Round) (ps : list Address) (limit : Z).
Hypotheses (Hb : book s r ps) (Hm : mode r = UpDown)
  (Hact : persistent s !! K_ActiveRound = Some (VRound r))
  (Hlim : 0 < limit ≤ MAX_PAGE_SIZE) (Hlen : Z.of_nat (length ps) ≤ U32_MAX).
Notation l := (sort_addresses ps).
Notation rid := (round_id r).

Lemma participants_read c : round_participants r c s = (Ok ps, s).
Proof.
  unfold round_participants, pget_or, mbind, M_bind, pget.
  destruct (book_list _ _ _ Hb) as (o & Ho & ->). by rewrite Ho, opt_dec_enc.
Qed.

Lemma strictly_listed : StronglySorted N.lt l.
Proof.
  apply sorted_strictly; [apply sort_addresses_sorted|]. rewrite sort_addresses_perm. apply Hb.
Qed.

Lemma listed_rows u : u ∈ l -> is_Some (position_of s rid u).
Proof.
  rewrite sort_addresses_perm. intros Hu%(book_entry _ _ _ Hb). rewrite Hm in Hu.
  apply entry_updown_stake in Hu as (p & Hp & _). unfold position_of. rewrite Hp. by eexists.
Qed.

(** One page: the next [limit] participants and the last of them. *)
Lemma cursor_page pre post c :
  l = pre ++ post ->
  get_updown_positions_cursor (last pre) limit c s
  = (Ok (omap (position_of s rid) (take (Z.to_nat limit) post), last (take (Z.to_nat limit) post)), s).
Proof.
  intros Hl. pose proof strictly_listed as Hs. rewrite Hl in Hs.
  unfold get_updown_positions_cursor, listing_cursor, reject_if, mbind, M_bind, MAX_PAGE_SIZE in *.
  assert ((limit =? 0) || (limit >? 100) = false) as ->.
  { apply orb_false_iff. split; [apply Z.eqb_neq; lia|]. rewrite Z.gtb_ltb. apply Z.ltb_ge. lia. }
  cbn [mret M_ret]. unfold pget. rewrite Hact. cbn [opt_dec dec cRound].
  rewrite participants_read, Hl, cursor_position by done.
  assert (Z.of_nat (length (pre ++ post)) ≤ U32_MAX) as Hlen'
    by (by rewrite <-Hl, sort_addresses_perm).
  destruct post as [|u post].
  { rewrite app_nil_r, Z.geb_leb, Z.leb_refl. by rewrite take_nil. }
  destruct (_ >=? _) eqn:Hge; zbool; [rewrite length_app in Hge; cbn [length] in Hge; unfold Address in *; lia|].
  rewrite page_after by (done || lia). unfold collect_last.
  rewrite collect_positions.
  - simpl. by destruct (last _).
  - intros v Hv. apply listed_rows. rewrite Hl. apply elem_of_app. right.
    apply elem_of_take in Hv as (i & Hi & _). by eapply list_elem_of_lookup_2.
Qed.

Lemma walk_from fuel pre post c :
  l = pre ++ post -> (length post < fuel)%nat ->
  walk (λ cursor, get_updown_positions_cursor cursor limit) fuel (last pre) c s
  = (Ok (omap (position_of s rid) post), s).
Proof.
  revert pre post. induction fuel as [|fuel IH]; intros pre post Hl Hf; [lia|]. cbn [walk].
  unfold mbind at 1, M_bind at 1. rewrite (cursor_page pre post) by done. cbn [fst snd].
  destruct (last (take _ post)) as [a|] eqn:Ha.
  - rewrite <-(take_drop (Z.to_nat limit) post), app_assoc in Hl.
    assert (last (pre ++ take (Z.to_nat limit) post) = Some a) as Hla by (by rewrite last_app, Ha).
    unfold mbind at 1, M_bind at 1. rewrite <-Hla, (IH _ (drop (Z.to_nat limit) post)); [|done|].
    + cbn. by rewrite <-omap_app, take_drop.
    + rewrite length_drop. destruct post; [by rewrite take_nil in Ha|cbn [length] in *; lia].
  - apply last_None in Ha. destruct post; [by rewrite take_nil|].
    destruct (Z.to_nat limit) eqn:? in Ha; [lia|done].
Qed.
End Walk.

(** C22: following the position cursor from the beginning, with any admissible
    page size, ends and lists every participant of the active UpDown round
    exactly once, in address order, with the position they hold. *)
Theorem cursor_walk_lists_all s r ps limit fuel c :
  book s r ps -> mode r = UpDown -> persistent s !! K_ActiveRound = Some (VRound r) ->
  0 < limit ≤ MAX_PAGE_SIZE -> Z.of_nat (length ps) ≤ U32_MAX -> (length ps < fuel)%nat ->
  ∃ rows, walk (λ cursor, get_updown_positions_cursor cursor limit) fuel None c s = (Ok rows, s) ∧
    rows.*1 = sort_addresses ps ∧
    ∀ u p, (u, p) ∈ rows <-> u ∈ ps ∧ pos_at s (round_id r) u = Some (VPosition p).
Proof.
  intros Hb Hm Hact Hlim Hlen Hf. eexists. split; [|split].
  - apply (walk_from s r ps limit Hb Hm Hact Hlim Hlen fuel [] (sort_addresses ps)); [done|].
    by rewrite sort_addresses_perm.
  - pose proof (listed_rows s r ps Hb Hm) as Hrows. induction (sort_addresses ps) as [|u l IH]; [done|].
    destruct (Hrows u) as [[v p] Hp]; [set_solver|]. cbn [omap list_omap]. rewrite Hp, fmap_cons.
    f_equal; [|apply IH; set_solver]. unfold position_of in Hp.
    destruct (pos_at s (round_id r) u) as [[]|]; by simplify_eq.
  - intros u p. rewrite list_elem_of_omap. setoid_rewrite sort_addresses_perm. unfold position_of.
    split.
    + intros (v & Hv & Hp). destruct (pos_at s (round_id r) v) as [[]|] eqn:E; by simplify_eq.
    + intros [Hu Hp]. exists u. by rewrite Hp.
Qed.

(** ** The leaderboard cursor *)

(** The participants of the round ranked by [metric]. *)
Definition standings (metric : UserStats -> Z) (s : State) (ps : list Address) : list ranked :=
  reinsert_sorted (better_by metric) ((λ a, (a, stats_at s (K_UserStats a))) <$> ps).

(** The page of a ranking the cursor functions cut. *)
Definition ranking_page (sorted : list ranked) (cursor : option Address) (limit : Z)
  : list ranked * option Address :=
  let start := _find_cursor_in_leaderboard sorted cursor in
  if start >=? Z.of_nat (length sorted) then ([], None)
  else (page sorted start limit, fst <$> last (page sorted start limit)).

Lemma standings_perm metric s ps : (standings metric s ps).*1 ≡ₚ ps.
Proof.
  unfold standings. destruct (reinsert_sorted_spec metric ((λ a, (a, stats_at s (K_UserStats a))) <$> ps))
    as [_ ->]. by rewrite fmap_pair_fst.
Qed.

Lemma distinct_nodup acc l :
  NoDup (acc ++ l) -> distinct_participants acc l = acc ++ l.
Proof.
  unfold distinct_participants. revert acc. induction l as [|a l IH]; intros acc Hn; simpl.
  { by rewrite app_nil_r. }
  rewrite bool_decide_false.
  - rewrite IH; rewrite <-app_assoc; done.
  - apply NoDup_app in Hn as (_ & Hd & _). intros Ha. apply (Hd a Ha). set_solver.
Qed.

Lemma wp_stats_all l (Q : list ranked -> State -> Prop) c s :
  (∀ s', persistent s' = persistent s -> Q ((λ a, (a, stats_at s (K_UserStats a))) <$> l) s') ->
  wp (with_stats get_user_stats l) Q c s.
Proof.
  intros HQ. unfold with_stats.
  apply (wp_mfold (λ pre acc s', acc = (λ a, (a, stats_at s (K_UserStats a))) <$> pre ∧
    persistent s' = persistent s)); [done| |].
  - intros pre a post acc s1 _ [-> Hs1]. unfold get_user_stats. wp_step. wp_step.
    apply wp_extend. intros s2 Hs2. apply wp_pget_or. intros o Ho. wp_step.
    split; [|congruence]. rewrite fmap_app. simpl. do 3 f_equal. unfold stats_at.
    rewrite <-Hs1, <-Hs2, Ho. by destruct o.
  - intros acc s' [-> Hs']. by apply HQ.
Qed.

Lemma wp_leaderboard_cursor metric s r ps cursor limit c :
  book s r ps -> persistent s !! K_ActiveRound = Some (VRound r) ->
  wp (leaderboard_cursor (better_by metric) cursor limit)
    (λ res t, limit ≠ 0 ∧ limit ≤ MAX_PAGE_SIZE ∧ persistent t = persistent s ∧
       res = ranking_page (standings metric s ps) cursor limit) c s.
Proof.
  intros Hb Hact. unfold leaderboard_cursor, _collect_leaderboard_entries, round_participants.
  apply wp_bind, wp_reject_if. intros Hlim. zbool.
  apply wp_bind, wp_bind, wp_pget. intros o Ho. rewrite Hact in Ho. destruct o; [|done].
  injection Ho as <-. apply wp_bind, wp_bind, wp_pget_or. intros o Ho.
  rewrite (book_participants _ _ _ _ Hb Ho), distinct_nodup by apply Hb.
  apply wp_ret, wp_stats_all. intros t Ht. unfold ranking_page. fold (standings metric s ps).
  destruct (_ >=? _); apply wp_ret; split_and!; done.
Qed.

(** C39: the leaderboard is ordered by wins but its cursor is compared with
    addresses, so the pages lose users: once a page ends with the user of the
    largest address, the query with the cursor it returned is always empty,
    however many participants are still unlisted. *)
Theorem leaderboard_cursor_loses_users s r ps limit c items a s1 :
  book s r ps -> persistent s !! K_ActiveRound = Some (VRound r) -> 0 < limit ->
  Z.of_nat (length ps) ≤ U32_MAX ->
  Queries.get_leaderboard_by_wins None limit c s = (Ok (items, Some a), s1) ->
  (∀ u, u ∈ ps -> (u ≤ a)%N) ->
  Z.of_nat (length items) = Z.min limit (Z.of_nat (length ps)) ∧
  ∀ limit' c' res s2,
    Queries.get_leaderboard_by_wins (Some a) limit' c' s1 = (Ok res, s2) -> res = ([], None).
Proof.
  intros Hb Hact Hlim Hlen E Hmax. unfold Queries.get_leaderboard_by_wins, better_wins in *.
  pose proof (wp_use _ _ _ _ _ _ E (wp_leaderboard_cursor _ s r ps None limit c Hb Hact))
    as (_ & _ & Hs1 & Hres).
  pose proof (standings_perm total_wins s ps) as Hperm.
  assert (length (standings total_wins s ps) = length ps) as Hl
    by (rewrite <-(Permutation_length Hperm); by rewrite length_fmap).
  split.
  - unfold ranking_page in Hres. simpl in Hres. destruct (0 >=? _) eqn:Hz; zbool; [done|].
    injection Hres as -> _. pose proof (page_after [] (standings total_wins s ps) limit) as Hp.
    simpl in Hp. change (Z.of_nat 0) with 0 in Hp.
    rewrite Hp, length_take; [lia| |lia|by rewrite Hl]. intros Hnil. by rewrite Hnil in Hz.
  - intros limit' c' res s2 E2.
    pose proof (wp_use _ _ _ _ _ _ E2 (wp_leaderboard_cursor _ s1 r ps (Some a) limit' c'
      (book_persistent _ _ _ _ Hs1 Hb) ltac:(by rewrite Hs1))) as (_ & _ & _ & ->).
    unfold ranking_page, _find_cursor_in_leaderboard. simpl.
    assert (∀ l, (∀ u, u ∈ l -> (u ≤ a)%N) -> first_above a l = length l) as Hfa.
    { induction l as [|u l IH]; intros Hu; simpl; [done|]. unfold addr_lt.
      rewrite (proj2 (N.ltb_ge a u)) by (apply Hu; set_solver). rewrite IH; [done|]. set_solver. }
    rewrite Hfa.
    + by rewrite length_fmap, Z.geb_leb, Z.leb_refl.
    + intros u Hu. apply Hmax. by rewrite <-(standings_perm total_wins s1 ps).
Qed.
