(* ===== verification/Preview.v ===== *)
(** * The payout preview

    [simulate_payout] against the settlement it previews: on the same state and
    price they take the same fee and owe every participant the same amount. *)

From S2P Require Export QueriesSpec.

(** What a preview says [u] would receive. *)
Definition previewed (outcomes : list UserRoundOutcome) (u : Address) : Z :=
  each out_user out_payout outcomes u.

(** A preview that lists [pay] for the addresses [l]. *)
Definition previews (outcomes : list UserRoundOutcome) (l : list Address) (pay : Address -> Z) : Prop :=
  (λ o, (out_user o, out_payout o)) <$> outcomes = (λ u, (u, pay u)) <$> l.

Lemma previews_each outcomes l pay u :
  previews outcomes l pay -> previewed outcomes u = each id pay l u.
Proof.
  unfold previews, previewed, each. revert l. induction outcomes as [|o os IH]; intros [|v l] H;
    try done; simplify_eq/=. rewrite (IH l) by done. unfold id. congruence.
Qed.

Lemma previews_snoc os l pay o u :
  previews os l pay -> out_user o = u -> out_payout o = pay u -> previews (os ++ [o]) (l ++ [u]) pay.
Proof. unfold previews. intros H <- Hp. rewrite !fmap_app, H. simpl. by rewrite Hp. Qed.

(** ** UpDown rounds *)

(** The three outcomes of the split. *)
Lemma preview_split_inv bps model r fp side pool dw dl fee :
  preview_split bps model r fp = Ok (side, pool, dw, dl, fee) ->
  ((is_one_sided_pool (pool_up r) (pool_down r) = true ∨
    classify_price_direction (price_start r) fp = Unchanged) ∧ dw = 0 ∧ dl = 0 ∧ fee = 0) ∨
  (is_one_sided_pool (pool_up r) (pool_down r) = false ∧
   ((classify_price_direction (price_start r) fp = DirUp ∧ side = Up ∧ pool = pool_up r ∧
     calculate_protocol_fee_updown bps model (pool_up r) (pool_down r) = Ok (dw, dl, fee)) ∨
    (classify_price_direction (price_start r) fp = DirDown ∧ side = Down ∧ pool = pool_down r ∧
     calculate_protocol_fee_updown bps model (pool_down r) (pool_up r) = Ok (dw, dl, fee)))).
Proof.
  unfold preview_split, is_one_sided_pool, classify_price_direction. intros H.
  destruct (negb (Bool.eqb _ _)); [rewrite andb_false_r in H; simplify_eq; tauto|].
  rewrite andb_true_r in H.
  destruct (fp =? price_start r) eqn:He; simpl in H.
  { zbool. subst fp. rewrite Z.gtb_ltb, Z.ltb_irrefl in *. simplify_eq. tauto. }
  destruct (fp >? price_start r) eqn:Hu.
  { apply obind_Ok in H as ([[??]?] & E & H). simplify_eq. tauto. }
  destruct (fp <? price_start r) eqn:Hd; [|zbool; lia].
  apply obind_Ok in H as ([[??]?] & E & H). simplify_eq. tauto.
Qed.

Section UpDown_preview.
Context (s : State) (r : Round) (ps : list Address) (fp : Z).
Hypotheses (Hb : book s r ps) (Hm : mode r = UpDown).
Notation l := (sort_addresses ps).

Lemma refund_flag :
  (fp =? price_start r) || negb (Bool.eqb (pool_up r =? 0) (pool_down r =? 0)) = true <->
  is_one_sided_pool (pool_up r) (pool_down r) = true ∨
  classify_price_direction (price_start r) fp = Unchanged.
Proof.
  rewrite orb_true_iff, Z.eqb_eq. unfold is_one_sided_pool, classify_price_direction.
  destruct (fp >? price_start r) eqn:?, (fp <? price_start r) eqn:?; zbool;
    intuition (try lia; try done).
Qed.

(** One position's previewed payout is the payoff of the settlement. *)
Lemma preview_position_pays refund side pool pot fee u p o :
  entry s (round_id r) u UpDown -> pos_at s (round_id r) u = Some (VPosition p) ->
  preview_position refund side pool pot u p = Ok o ->
  (if refund then updown_payoff s r fp fee u = stake s (round_id r) u
   else 0 < pool ∧ 0 ≤ pot ∧ updown_payoff s r fp fee u = winner_share s (round_id r) side pool pot u) ->
  out_user o = u ∧ out_payout o = updown_payoff s r fp fee u.
Proof.
  intros He Hp H Hpay. apply entry_updown_stake in He as (p' & Hp' & Ha & Hst & _).
  assert (p' = p) as -> by congruence. unfold preview_position in H. destruct refund.
  { simplify_eq/=. by rewrite Hpay. }
  destruct Hpay as (Hpool & Hpot & ->). unfold winner_share, side_stake. rewrite Hp.
  case_bool_decide; [|simplify_eq/=; by rewrite Z.mul_0_l, Zdiv_0_l].
  apply obind_Ok in H as (m & Hmul & H). apply obind_Ok in H as (q & Hq & H). simplify_eq/=.
  apply payout_mul_Ok in Hmul as [-> _]. apply i128_div_Ok in Hq as (_ & -> & _).
  split; [done|]. apply quot_div_nonneg; nia.
Qed.

(** The preview's own reading of the outcome classes, for a participant. *)
Lemma split_payoff bps model side pool dw dl fee :
  preview_split bps model r fp = Ok (side, pool, dw, dl, fee) ->
  stored_bps s bps -> stored_model s model -> fee_config_ok s ->
  let refund := (fp =? price_start r) || negb (Bool.eqb (pool_up r =? 0) (pool_down r =? 0)) in
  (ps = [] -> fee = 0) ∧ (is_one_sided_pool (pool_up r) (pool_down r) = true -> fee = 0) ∧
  (is_one_sided_pool (pool_up r) (pool_down r) = false -> updown_charge s r fp fee) ∧
  ∀ u, u ∈ ps ->
    if refund then updown_payoff s r fp fee u = stake s (round_id r) u
    else 0 < pool ∧ 0 ≤ dw + dl ∧
         updown_payoff s r fp fee u = winner_share s (round_id r) side pool (dw + dl) u.
Proof.
  intros Hsplit Hbps Hmodel Hfee refund. destruct (updown_pools _ _ _ Hb Hm) as [Hup Hdn].
  pose proof (fee_config_ok_rate _ _ Hfee Hbps) as Hrate.
  apply preview_split_inv in Hsplit as [(Href & -> & -> & ->)|(Hone & Hcase)].
  - assert (refund = true) as -> by by apply refund_flag.
    split_and!; try done.
    + intros Hone. destruct Href as [|Hun]; [congruence|]. unfold updown_charge. by rewrite Hun.
    + intros u _. unfold updown_payoff. destruct (is_one_sided_pool _ _); [done|].
      destruct Href as [|Hun]; [done|]. by rewrite Hun.
  - assert (∀ w l, calculate_protocol_fee_updown bps model w l = Ok (dw, dl, fee) ->
      0 ≤ w -> 0 ≤ l -> dw + dl = w + l - fee ∧ 0 ≤ dw + dl ∧ (w + l = 0 -> fee = 0)) as Hcalc.
    { intros w l E Hw Hl. apply calculate_fee_updown_inv in E as (? & ? & ? & ? & _); lia. }
    assert (ps = [] -> pool_up r = 0 ∧ pool_down r = 0) as Hnil.
    { intros ->. by rewrite (book_up _ _ _ Hb Hm), (book_down _ _ _ Hb Hm). }
    assert (refund = false) as ->.
    { apply not_true_is_false. intros [Ht|Ht]%refund_flag; [congruence|].
      destruct Hcase as [[? _]|[? _]]; congruence. }
    assert (∀ u, u ∈ ps -> 0 < pool_up r ∧ 0 < pool_down r) as Hpos.
    { intros u Hu. eapply contested_pools; try done. intros ->. by apply not_elem_of_nil in Hu. }
    split_and!; [| by rewrite Hone| |].
    + intros Hps. destruct (Hnil Hps) as [Hz1 Hz2].
      destruct Hcase as [(_ & _ & _ & E)|(_ & _ & _ & E)]; apply Hcalc in E as (_ & _ & E); auto; apply E; lia.
    + intros _. unfold updown_charge.
      destruct Hcase as [(-> & _ & _ & E)|(-> & _ & _ & E)]; exists dw, dl, bps, model; done.
    + intros u Hu. destruct (Hpos u Hu). unfold updown_payoff. rewrite Hone.
      destruct Hcase as [(-> & -> & -> & E)|(-> & -> & -> & E)]; apply Hcalc in E as (-> & ? & _); try done.
      rewrite (Z.add_comm (pool_up r)). done.
Qed.

Lemma wp_simulate_updown bps model (Q : Z * Z * list UserRoundOutcome -> State -> Prop) c t :
  stored_bps s bps -> stored_model s model -> fee_config_ok s -> persistent t = persistent s ->
  (∀ fee outcomes, previews outcomes l (updown_payoff s r fp fee) ->
     (ps = [] -> fee = 0) -> (is_one_sided_pool (pool_up r) (pool_down r) = true -> fee = 0) ->
     (is_one_sided_pool (pool_up r) (pool_down r) = false -> updown_charge s r fp fee) ->
     Q (fee, 0, outcomes) t) ->
  wp (simulate_updown bps model r fp l) Q c t.
Proof.
  intros Hbps Hmodel Hfee Ht HQ. unfold simulate_updown.
  apply wp_bind, wp_lift. intros [[[[side pool] dw] dl] fee] Hsplit.
  apply wp_bind, wp_lift. intros pot Hpot. apply payout_add_Ok in Hpot as [-> _].
  destruct (split_payoff _ _ _ _ _ _ _ Hsplit Hbps Hmodel Hfee) as (H1 & H2 & H3 & Hpay).
  apply wp_bind, (wp_mfold (λ pre os t', t' = t ∧ previews os pre (updown_payoff s r fp fee))); [done| |].
  - intros pre u post os t' Hl [-> Hos]. apply wp_bind, wp_pget. intros o Ho.
    assert (u ∈ ps) as Hu by (rewrite <-(sort_addresses_perm ps), Hl; set_solver).
    pose proof (book_entry _ _ _ Hb _ Hu) as He. rewrite Hm in He.
    pose proof (entry_updown_stake _ _ _ He) as (p & Hp & _). unfold pos_at in Hp.
    rewrite Ht, Hp in Ho. destruct o as [p'|]; [|done]. injection Ho as <-.
    apply wp_bind, wp_lift. intros oc Hoc. apply wp_ret. split; [done|].
    destruct (preview_position_pays _ _ _ _ fee _ _ _ He Hp Hoc (Hpay u Hu)).
    by apply previews_snoc.
  - intros os t' [-> Hos]. apply wp_ret. by apply HQ.
Qed.
End UpDown_preview.

(** ** Precision rounds *)

(** The scan of the settlement the preview's locals stand for. *)
Definition as_scan (pv : Preview) (revealed : list bool) : Scan :=
  {| sc_min_diff := pv_min_diff pv; sc_winners := pv_winners pv; sc_total_pot := pv_total_pot pv;
     sc_participant_amounts := pv_user_amounts pv;
     sc_participant_prices := predicted_price <$> pv_preds pv; sc_participant_revealed := revealed;
     sc_is_winner_mask := pv_is_winner_mask pv |}.

(** One step of the preview is one step of the settlement's scan. *)
Lemma preview_simulates rid fp pv rev u c t pv' t' :
  preview_participant rid fp pv u c t = (Ok pv', t') ->
  t' = t ∧ pv_total_pot pv' ≤ I128_MAX ∧
  ∃ rev', scan_participant rid fp (as_scan pv rev) u c t = (Ok (as_scan pv' rev'), t).
Proof.
  unfold preview_participant, scan_participant, mbind, M_bind, pget.
  destruct (opt_dec cPrediction _) as [op| |]; [|done..].
  destruct (opt_dec cCommitment _) as [oc| |]; [|done..].
  assert (pred_amount (preview_pred u op oc) = precision_amount op oc) as Hamt by by destruct op, oc.
  assert (predicted_price (preview_pred u op oc) = from_option predicted_price 0 op) as Hprice
    by by destruct op, oc.
  unfold ok_or, payout_add, some_or, lift. simpl. rewrite Hamt.
  destruct (i128_checked_add _ _) as [tot|] eqn:Htot; [|done]. cbn.
  apply i128_checked_add_Some in Htot as [-> Htot].
  destruct op as [p|]; cbn.
  - unfold or_trap. destruct (price_diff _ _) as [d|]; [|done]. cbn.
    destruct (rank_prediction _ _ _ _ _ _) as [[b ws] m]. intros [= <- <-]. simpl.
    split_and!; [done|simpl in *; lia|]. eexists. unfold as_scan. simpl. by rewrite fmap_app.
  - intros [= <- <-]. simpl. split_and!; [done|simpl in *; lia|]. eexists. unfold as_scan. simpl.
    rewrite fmap_app. simpl in *. by rewrite Hprice.
Qed.

(** The fold of the winners' stakes does not saturate below the bound. *)
Lemma fold_stakes ws acc :
  (∀ w, w ∈ ws -> 0 ≤ pred_amount w) -> 0 ≤ acc -> acc + zsum pred_amount ws ≤ I128_MAX ->
  foldl (λ acc w, default acc (i128_checked_add acc (pred_amount w))) acc ws
  = acc + zsum pred_amount ws.
Proof.
  revert acc. induction ws as [|w ws IH]; intros acc Hws Ha Hsum; simpl in *; [lia|].
  assert (0 ≤ pred_amount w) by (apply Hws; set_solver).
  assert (0 ≤ zsum pred_amount ws) by (apply zsum_nonneg; intros; apply Hws; set_solver).
  rewrite i128_checked_add_in by (unfold I128_MIN, I128_MAX in *; lia). simpl.
  rewrite IH; [lia| |lia|lia]. intros; apply Hws; set_solver.
Qed.

Lemma closest_det s rid fp ps ws1 ws2 :
  closest s rid fp ps ws1 -> closest s rid fp ps ws2 -> ws1 = ws2.
Proof.
  assert (∀ d1 d2 ws, (∀ q, q ∈ guesses s rid ps -> d1 ≤ distance fp q) ->
    ws = filter (at_best fp (Some d2)) (guesses s rid (sort_addresses ps)) -> ws ≠ [] -> d1 ≤ d2) as Hle.
  { intros d1 d2 ws Hd Hws Hne. destruct ws as [|w ws]; [done|].
    assert (w ∈ filter (at_best fp (Some d2)) (guesses s rid (sort_addresses ps))) as Hw
      by (rewrite <-Hws; set_solver).
    apply list_elem_of_filter in Hw as [[= <-] Hw]. apply Hd.
    unfold guesses in *. by rewrite <-sort_addresses_perm. }
  intros (d1 & H1 & E1 & N1) (d2 & H2 & E2 & N2).
  assert (d1 = d2) as -> by (apply Z.le_antisymm; eauto). congruence.
Qed.

Section Precision_preview.
Context (s : State) (r : Round) (ps : list Address) (fp : Z).
Hypotheses (Hb : book s r ps) (Hm : mode r = Precision).
Notation l := (sort_addresses ps).
Notation rid := (round_id r).

Lemma wp_preview_scan (Q : Preview -> State -> Prop) c t :
  persistent t = persistent s ->
  (∀ pv rev, scanned s rid fp l (as_scan pv rev) -> pv_total_pot pv ≤ I128_MAX -> Q pv t) ->
  wp (mfold l start_preview (preview_participant rid fp)) Q c t.
Proof.
  intros Ht HQ.
  apply (wp_mfold (λ pre pv t', t' = t ∧ pv_total_pot pv ≤ I128_MAX ∧
    ∃ rev, scanned s rid fp pre (as_scan pv rev))).
  - split_and!; [done|simpl; unfold I128_MAX; lia|]. exists []. split; try done; simpl.
    + intros p Hp. by apply not_elem_of_nil in Hp.
    + by intros [? ?].
  - intros pre u post pv t' Hl (-> & _ & rev & Hrev) pv' t2 E.
    destruct (preview_simulates _ _ _ rev _ _ _ _ _ E) as (-> & Hmax & rev' & Escan).
    split_and!; [done|done|]. exists rev'.
    assert (u ∈ ps) as Hu by (rewrite <-(sort_addresses_perm ps), Hl; set_solver).
    refine (wp_use _ (λ st _, scanned s rid fp (pre ++ [u]) st) _ _ _ _ Escan _).
    eapply wp_scan_participant; [exact Hrev|by eapply precision_entry| |done].
    unfold same_user, pos_at, pred_at, com_at. by rewrite Ht.
  - intros pv t' (-> & Hmax & rev & Hrev). by eapply HQ.
Qed.

(** The amounts of revealed predictions are stakes. *)
Lemma guess_amount u p : u ∈ ps -> guess s rid u = Some p -> pred_amount p = stake s rid u.
Proof.
  intros Hu Hg. pose proof (precision_entry s r ps Hb Hm u Hu) as He.
  assert (∃ op oc, pred_at s rid u = enc cPrediction <$> op ∧ com_at s rid u = enc cCommitment <$> oc)
    as (op & oc & Hop & Hoc).
  { destruct He as [_ [(q & E1 & E2 & _)|[(cm & E1 & E2 & _)|(q & cm & E1 & E2 & _)]]].
    - by exists (Some q), None. - by exists None, (Some cm). - by exists (Some q), (Some cm). }
  destruct (precision_amount_stake s rid s u op oc He (conj eq_refl (conj eq_refl eq_refl)) Hop Hoc)
    as (Ha & Hgu & _ & _).
  rewrite Hg in Hgu. subst op. simpl in Ha. done.
Qed.

Lemma winners_stakes best :
  zsum pred_amount (filter (at_best fp best) (guesses s rid l)) ≤ zsum (stake s rid) ps.
Proof.
  assert (zsum (stake s rid) ps = zsum (stake s rid) l) as -> by by rewrite sort_addresses_perm.
  assert (∀ u, u ∈ l -> u ∈ ps) as Hin by (intros u; by rewrite sort_addresses_perm).
  clear -Hb Hm Hin. induction l as [|u k IH]; [done|].
  assert (u ∈ ps) as Hu by (apply Hin; set_solver).
  pose proof (precision_stake_pos s r ps Hb Hm u Hu).
  specialize (IH ltac:(set_solver)). unfold guesses in *. cbn [omap list_omap zsum].
  destruct (guess s rid u) as [p|] eqn:Hg; [|lia]. rewrite filter_cons.
  pose proof (guess_amount u p Hu Hg). case_decide; cbn [zsum]; lia.
Qed.

Lemma zip_snoc {A B} (l1 : list A) (l2 : list B) x y :
  l2 !! length l1 = Some y -> zip (l1 ++ [x]) l2 = zip l1 l2 ++ [(x, y)].
Proof.
  revert l2. induction l1 as [|z l1 IH]; intros [|w l2] H; simplify_eq/=; [done|]. by rewrite IH.
Qed.

(** The payouts the preview lists so far are the shares of the winners so far. *)
Lemma outcomes_paid pv rev payouts pre post :
  scanned s rid fp l (as_scan pv rev) -> pv_winners pv ≠ [] -> length payouts = length (pv_winners pv) ->
  l = pre ++ post ->
  let acc := foldl (preview_outcome pv payouts) (O, []) (imap pair pre) in
  let ws := filter (at_best fp (pv_min_diff pv)) (guesses s rid pre) in
  acc.1 = length ws ∧ out_user <$> acc.2 = pre ∧
  ∀ u, previewed acc.2 u = each (λ w, pred_user w.1) snd (zip ws payouts) u.
Proof.
  intros Hst Hne Hlen. revert post. induction pre as [|v pre IH] using rev_ind; intros post Hl; [done|].
  rewrite <-app_assoc in Hl. specialize (IH _ Hl). simpl in IH.
  rewrite imap_app, foldl_app. simpl. rewrite Nat.add_0_r.
  destruct (foldl _ _ (imap pair pre)) as [wi os]. simpl in IH. destruct IH as (-> & Hus & Hpay).
  destruct Hst as [_ _ Ham _ _ _ _ Hws Hmask]. simpl in Ham, Hws, Hmask.
  assert (l !! length pre = Some v) as Hv by (rewrite Hl; by apply list_lookup_middle).
  assert (v ∈ ps) as Hvp by (rewrite <-(sort_addresses_perm ps); by eapply list_elem_of_lookup_2).
  unfold preview_outcome. rewrite bool_decide_false by done.
  rewrite Hmask, list_lookup_fmap, Hv. simpl. unfold wins.
  rewrite guesses_app, guesses_one, filter_app.
  destruct (guess s rid v) as [p|] eqn:Hg.
  2:{ rewrite app_nil_r. simpl. rewrite fmap_app, Hus. split_and!; [done|done|]. intros u.
      unfold previewed in *. rewrite each_app, Hpay. unfold each. simpl. rewrite only_zero. lia. }
  rewrite filter_cons, filter_nil. case_bool_decide as Hbest.
  - rewrite decide_True by done. set (ws := filter _ (guesses s rid pre)) in *.
    assert (pv_winners pv = ws ++ p :: filter (at_best fp (pv_min_diff pv)) (guesses s rid post)) as Hsplit.
    { rewrite Hws, Hl, !guesses_app, !filter_app. f_equal. rewrite guesses_one, Hg, filter_cons.
      by rewrite decide_True. }
    destruct (payouts !! length ws) as [x|] eqn:Hx.
    2:{ apply lookup_ge_None in Hx. rewrite Hlen, Hsplit, length_app in Hx. simpl in Hx. lia. }
    simpl. rewrite fmap_app, Hus, length_app. simpl. split_and!; [lia|done|]. intros u.
    unfold previewed in *. rewrite each_app, Hpay.
    rewrite (zip_snoc _ _ _ _ Hx), each_app. unfold each at 2 4. simpl.
    by destruct (guess_stake s r ps Hb Hm _ _ Hvp Hg) as [-> _].
  - rewrite decide_False by done. rewrite app_nil_r. simpl. rewrite fmap_app, Hus.
    split_and!; [done|done|]. intros u.
    unfold previewed in *. rewrite each_app, Hpay. unfold each. simpl. rewrite only_zero. lia.
Qed.

(** With no winner everyone is refunded the stake. *)
Lemma outcomes_refunded pv rev payouts pre post :
  scanned s rid fp l (as_scan pv rev) -> pv_winners pv = [] -> l = pre ++ post ->
  previews (foldl (preview_outcome pv payouts) (O, []) (imap pair pre)).2 pre (stake s rid).
Proof.
  intros Hst Hnil. revert post. induction pre as [|v pre IH] using rev_ind; intros post Hl; [done|].
  rewrite <-app_assoc in Hl. specialize (IH _ Hl).
  rewrite imap_app, foldl_app. simpl. rewrite Nat.add_0_r.
  destruct (foldl _ _ (imap pair pre)) as [wi os]. simpl in IH.
  destruct Hst as [_ _ Ham _ _ _ _ _ _]. simpl in Ham.
  assert (l !! length pre = Some v) as Hv by (rewrite Hl; by apply list_lookup_middle).
  unfold preview_outcome. rewrite bool_decide_true by done. simpl.
  apply previews_snoc; [done|done|]. simpl. by rewrite Ham, list_lookup_fmap, Hv.
Qed.

Lemma wp_simulate_precision bps model (Q : Z * Z * list UserRoundOutcome -> State -> Prop) c t :
  stored_bps s bps -> stored_model s model -> fee_config_ok s -> persistent t = persistent s ->
  (∀ fee tot outcomes t', persistent t' = persistent s ->
     out_user <$> outcomes = l ->
     (guesses s rid ps = [] -> fee = 0 ∧ previews outcomes l (stake s rid)) ->
     (guesses s rid ps ≠ [] -> ∃ ws payouts, closest s rid fp ps ws ∧
        precision_terms s (zsum (stake s rid) ps) ws fee payouts ∧
        ∀ u, previewed outcomes u = each (λ w, pred_user w.1) snd (zip ws payouts) u) ->
     Q (fee, tot, outcomes) t') ->
  wp (simulate_precision bps model rid fp l) Q c t.
Proof.
  intros Hbps Hmodel Hfee Ht HQ. unfold simulate_precision.
  apply wp_bind, wp_preview_scan; [done|]. intros pv rev Hst Hmax.
  assert (pv_total_pot pv = zsum (stake s rid) ps) as Hpot
    by (rewrite <-(sort_addresses_perm ps); apply (scd_pot _ _ _ _ _ Hst)).
  destruct (decide (pv_winners pv = [])) as [Hw|Hw].
  - pose proof (scanned_none s r ps fp Hb Hm _ Hst Hw) as Hg.
    rewrite bool_decide_true by done. simpl. apply wp_bind, wp_ret.
    apply wp_bind, wp_payout_policy. intros policy t1 Ht1 _. apply wp_bind, wp_lift. intros payouts _.
    pose proof (outcomes_refunded pv rev payouts l [] Hst Hw) as Hos. rewrite app_nil_r in Hos.
    specialize (Hos eq_refl). apply wp_ret, HQ; [congruence| |done|done].
    unfold previews in Hos. apply (f_equal (fmap fst)) in Hos. rewrite <-!list_fmap_compose in Hos.
    etrans; [exact Hos|]. apply list_fmap_id.
  - pose proof (scanned_closest s r ps fp Hb Hm _ Hst Hw) as Hclose.
    simpl in Hclose. pose proof Hclose as (d & _ & Hws & _).
    assert (∀ w, w ∈ pv_winners pv -> 0 < pred_amount w) as Hpos.
    { rewrite Hws. intros w [_ Hg]%list_elem_of_filter. by apply (guesses_positive s r ps). }
    assert (guesses s rid ps ≠ []) as Hg.
    { intros Hnil. apply Hw. rewrite Hws. pose proof (guesses_sorted_perm s r ps) as Hp.
      rewrite Hnil in Hp. apply Permutation_nil_r in Hp. by rewrite Hp. }
    assert (zsum pred_amount (pv_winners pv) ≤ zsum (stake s rid) ps) as Hle
      by (rewrite Hws; apply winners_stakes).
    pose proof (zsum_pos pred_amount _ Hpos Hw) as Hpp.
    rewrite bool_decide_false by done. destruct (_ >? 0) eqn:Hz; zbool; [|lia]. simpl.
    rewrite fold_stakes by (first [intros; by apply Z.lt_le_incl, Hpos | lia]). rewrite Z.add_0_l, Hpot.
    apply wp_bind, wp_lift. intros [pool fee] E.
    destruct (calculate_fee_precision_inv _ _ _ _ _ _ E) as (_ & Hpool & _);
      [lia|lia|by eapply fee_config_ok_rate|].
    apply wp_bind, wp_payout_policy. intros policy t1 Ht1 Hpol. apply wp_bind, wp_lift. intros payouts Ep.
    assert (precision_shares policy (pv_winners pv) pool = Ok payouts) as Hsh.
    { unfold preview_payouts in Ep. unfold precision_shares. destruct (_ >? 0) eqn:Hlen in Ep; zbool; [done|].
      destruct (pv_winners pv); [done|]. simpl in Hlen. lia. }
    destruct (precision_shares_inv _ _ _ _ Hsh) as (Hlen & _ & _); [done|intros; by apply Z.lt_le_incl, Hpos|].
    destruct (outcomes_paid pv rev payouts l [] Hst Hw Hlen) as (_ & Hus & Hpay); [by rewrite app_nil_r|].
    apply wp_ret, HQ; [congruence|done|done|]. intros _. exists (pv_winners pv), payouts.
    split_and!; [done| |].
    + exists pool, policy. split_and!; [by exists bps, model| |done].
      destruct Hpol as (o & Ho & ->). exists o. by rewrite <-Ht.
    + intros u. rewrite Hpay. f_equal. f_equal. symmetry. apply (scd_winners _ _ _ _ _ Hst).
Qed.
End Precision_preview.

(** ** The preview and the settlement *)

(** What a preview of the round at [fp] answers. *)
Definition preview_answer (s : State) (r : Round) (ps : list Address) (fp : Z)
    (sim : SimulationResult) : Prop :=
  let fee := sim_fee_amount sim in
  out_user <$> sim_outcomes sim = sort_addresses ps ∧
  match mode r with
  | UpDown =>
      (ps = [] -> fee = 0) ∧ (is_one_sided_pool (pool_up r) (pool_down r) = true -> fee = 0) ∧
      (is_one_sided_pool (pool_up r) (pool_down r) = false -> updown_charge s r fp fee) ∧
      previews (sim_outcomes sim) (sort_addresses ps) (updown_payoff s r fp fee)
  | Precision =>
      (guesses s (round_id r) ps = [] ->
         fee = 0 ∧ previews (sim_outcomes sim) (sort_addresses ps) (stake s (round_id r))) ∧
      (guesses s (round_id r) ps ≠ [] -> ∃ ws payouts, closest s (round_id r) fp ps ws ∧
         precision_terms s (zsum (stake s (round_id r)) ps) ws fee payouts ∧
         ∀ u, previewed (sim_outcomes sim) u
              = each (λ w, pred_user w.1) snd (zip ws payouts) u)
  end.

Lemma wp_simulate s r ps fp c :
  persistent s !! K_ActiveRound = Some (VRound r) -> book s r ps -> fee_config_ok s ->
  wp (simulate_payout fp) (λ sim _, preview_answer s r ps fp sim) c s.
Proof.
  intros Hact Hb Hfee. unfold simulate_payout, round_participants.
  apply wp_bind, wp_pget_ok. intros r' Hr'. rewrite Hact in Hr'. injection Hr' as <-.
  apply wp_bind, wp_pget_or. intros o Ho. rewrite (book_participants _ _ _ _ Hb Ho).
  apply wp_fee_terms. intros bps model t Ht Hbps Hmodel. unfold preview_answer.
  apply wp_bind. destruct (mode r) eqn:Hm.
  - apply (wp_simulate_updown s r ps fp Hb Hm bps model); [done..|].
    intros fee outcomes Hos H1 H2 H3. apply wp_ret. simpl. split_and!; try done.
    unfold previews in Hos. apply (f_equal (fmap fst)) in Hos. rewrite <-!list_fmap_compose in Hos.
    etrans; [exact Hos|]. apply list_fmap_id.
  - apply (wp_simulate_precision s r ps fp Hb Hm bps model); [done..|].
    intros fee tot outcomes t' _ Hus H1 H2. by apply wp_ret.
Qed.

(** C7: the payout preview never drifts from the settlement: for the active round,
    at the same price and on the same state, [simulate_payout] reports the fee
    the settlement takes, lists every participant once, and previews for every
    address exactly the amount the settlement adds to its pending winnings, in
    both modes, under every fee model and payout policy. *)
Theorem preview_matches_settlement r ps fp conf c c' s sim t res s' :
  persistent s !! K_ActiveRound = Some (VRound r) -> book s r ps -> fee_config_ok s ->
  simulate_payout fp c s = (Ok sim, t) -> _complete_settlement r fp conf c' s = (Ok res, s') ->
  sim_fee_amount sim = res.1 ∧ out_user <$> sim_outcomes sim = sort_addresses ps ∧
  ∀ u, slot s' (K_PendingWinnings u)
       = slot s (K_PendingWinnings u) + previewed (sim_outcomes sim) u.
Proof.
  intros Hact Hb Hfee Esim Eset.
  pose proof (wp_use _ _ _ _ _ _ Esim (wp_simulate s r ps fp c Hact Hb Hfee)) as [Hus Hans].
  assert (settled s r ps fp res.1 s') as Hset.
  { wp_intro Eset. apply (wp_complete r ps); [done..|]. intros fee s1 s2 H1 He _.
    exact (settles_settled _ _ _ _ _ _ _ Hb H1 He). }
  assert (∀ f u, each id f (sort_addresses ps) u = participant_payoff ps f u) as Hpart
    by (intros; apply each_participants; [apply Hb|apply sort_addresses_perm]).
  unfold settled in Hset. destruct (mode r) eqn:Hm.
  - destruct Hans as (Hnil & Hone & Hch & Hos). destruct Hset as [Hf Hp Hch' _ Hr _].
    assert (sim_fee_amount sim = res.1) as Heq; [|split_and!; [done..|]].
    { destruct (decide (ps = [])) as [Hps|Hps].
      - rewrite Hnil by done. rewrite (book_up _ _ _ Hb Hm), (book_down _ _ _ Hb Hm), Hps in Hf.
        simpl in Hf. lia.
      - destruct (is_one_sided_pool _ _) eqn:Ho.
        + rewrite Hone by done. by destruct (Hr (or_introl eq_refl)) as [-> _].
        + specialize (Hch eq_refl). specialize (Hch' Hps eq_refl). unfold updown_charge in *.
          destruct (classify_price_direction _ _); [| |congruence];
            destruct Hch as (? & ? & H1), Hch' as (? & ? & H2);
            pose proof (charged_updown_det _ _ _ _ _ H1 H2); congruence. }
    intros u. rewrite Hp, (previews_each _ _ _ _ Hos), Hpart, Heq. done.
  - destruct Hans as (Hnil & Hpaid). destruct Hset as [_ Hr Hp _ _].
    destruct (decide (guesses s (round_id r) ps = [])) as [Hg|Hg].
    + destruct (Hnil Hg) as [-> Hos], (Hr Hg) as [-> Hpen]. split_and!; [done..|].
      intros u. by rewrite Hpen, (previews_each _ _ _ _ Hos), Hpart.
    + destruct (Hpaid Hg) as (ws & pays & Hc & (pool & pol & T1 & T2 & T3) & Hos).
      destruct (Hp Hg) as (ws' & sh & Hc' & (pool' & pol' & T1' & T2' & T3') & _ & _ & _ & Hpen).
      rewrite (closest_det _ _ _ _ _ _ Hc Hc'), (stored_policy_det _ _ _ T2 T2') in *.
      pose proof (charged_precision_det _ _ _ _ _ T1 T1') as [= -> Hfee'].
      assert (pays = sh) as -> by congruence. split_and!; [done..|].
      intros u. by rewrite Hpen, Hos.
Qed.
