(* ===== verification/ReplaySpec.v ===== *)
(** * The replay of a settlement the contract made

    A transcript that records a settled round replays to the fee the contract
    took and to the amount it added to each participant's pending winnings, when
    the round was settled on the terms the engine knows (a fee on the pot, an
    equal split of a Precision pot). *)

From S2P Require Export Replay Preview.

(** ** The two fee functions *)

Lemma fee_on_pot_updown bps w l :
  calculate_protocol_fee_updown bps FeeOnPot w l = compute_updown_fee w l bps.
Proof.
  destruct bps as [b|]; [|done]. unfold calculate_protocol_fee_updown, updown_fee_amount, compute_updown_fee.
  destruct (payout_add w l) as [tot| |]; cbn; [|done..]. by destruct (i128_checked_mul tot b).
Qed.

Lemma fee_on_pot_precision bps pot ws x :
  I128_MIN ≤ pot ≤ I128_MAX ->
  calculate_protocol_fee_precision bps FeeOnPot pot ws = Ok x -> compute_precision_fee pot bps = Ok x.
Proof.
  intros Hpot. destruct bps as [b|]; [|done].
  unfold calculate_protocol_fee_precision, compute_precision_fee.
  destruct (pot <=? 0); [done|]. cbn. destruct (i128_checked_mul pot b) as [p|]; cbn; [|done].
  destruct (Z.quot p BPS_DENOMINATOR =? 0) eqn:Hz; zbool.
  - intros [= <-]. rewrite Hz, i128_checked_sub_in by lia. by rewrite Z.sub_0_r.
  - by destruct (i128_checked_sub pot _).
Qed.

(** The fee on the pot does not depend on which side won. *)
Lemma updown_fee_swap w l bps dw dl fee :
  compute_updown_fee w l bps = Ok (dw, dl, fee) -> 0 ≤ w -> 0 ≤ l ->
  0 ≤ fee_rate bps ≤ BPS_DENOMINATOR ->
  ∃ dw' dl', compute_updown_fee l w bps = Ok (dw', dl', fee).
Proof.
  intros H Hw Hl Hb. pose proof (compute_updown_fee_bounds _ _ _ _ _ _ H Hw Hl Hb) as (_ & _ & Hfee).
  destruct bps as [b|]; [|exists l, w; by injection H as <- <- <-].
  unfold compute_updown_fee, payout_add in *. assert (i128_checked_add l w = i128_checked_add w l) as -> by (unfold i128_checked_add; by rewrite Z.add_comm).
  destruct (i128_checked_add w l) as [tot|] eqn:Htot; cbn in *; [|done].
  apply i128_checked_add_Some in Htot as [-> [_ Hmax]].
  destruct (i128_checked_mul _ b) as [p|]; cbn in *; [|done].
  destruct (Z.quot p BPS_DENOMINATOR =? 0) eqn:Hz; zbool; [exists l, w; by injection H as <- <- <-|].
  assert (fee = Z.quot p BPS_DENOMINATOR) as <- by by ok_inv H; simplify_eq.
  unfold I128_MIN, I128_MAX in *.
  do 3 (rewrite i128_checked_sub_in by (unfold I128_MIN, I128_MAX; lia); cbn). eauto.
Qed.

(** ** The UpDown payouts, computed *)

Definition paid_entry (side : bool) (w d : Z) (pos : UpDownPosition) : UpDownPayoutEntry :=
  {| ue_index := up_index pos; ue_stake := up_amount pos;
     ue_payout := if Bool.eqb (side_up pos) side then up_amount pos * d / w else 0;
     ue_is_winner := Bool.eqb (side_up pos) side; ue_is_refund := false |}.

Lemma winner_payout_Ok a w d :
  0 ≤ a -> 0 < w -> 0 ≤ d -> a * d ≤ I128_MAX -> compute_updown_winner_payout a w d = Ok (a * d / w).
Proof.
  intros Ha Hw Hd Hmax. unfold compute_updown_winner_payout.
  destruct (w =? 0) eqn:?; zbool; [lia|].
  assert (payout_mul a d = Ok (a * d)) as ->
    by (apply payout_mul_Ok; unfold I128_MIN in *; nia).
  simpl. apply i128_div_Ok. rewrite quot_div_nonneg by nia.
  assert (0 ≤ a * d / w ≤ a * d) as [? ?].
  { split; [apply Z.div_pos; nia|]. apply Z.div_le_upper_bound; nia. }
  split_and!; try lia. unfold I128_MIN. lia.
Qed.

Lemma updown_entries_Ok side w d positions :
  0 < w -> 0 ≤ d ->
  (∀ pos, pos ∈ positions -> Bool.eqb (side_up pos) side = true ->
     0 ≤ up_amount pos ∧ up_amount pos * d ≤ I128_MAX) ->
  ofold positions [] (updown_entry side w d) = Ok (paid_entry side w d <$> positions).
Proof.
  intros Hw Hd Hpos.
  apply (ofold_append (λ pos, payout ← (if Bool.eqb (side_up pos) side
      then compute_updown_winner_payout (up_amount pos) w d else Ok 0);
    Ok {| ue_index := up_index pos; ue_stake := up_amount pos; ue_payout := payout;
          ue_is_winner := Bool.eqb (side_up pos) side; ue_is_refund := false |})).
  { intros acc pos. unfold updown_entry. destruct (Bool.eqb _ _); [|done].
    by destruct (compute_updown_winner_payout _ _ _). }
  exists (paid_entry side w d <$> positions). split; [done|].
  apply Forall2_fmap_r, Forall_Forall2_diag, Forall_forall. intros pos Hin.
  unfold paid_entry. simpl. destruct (Bool.eqb _ _) eqn:Hside; [|done].
  destruct (Hpos pos Hin Hside). by rewrite winner_payout_Ok.
Qed.

(** ** The equal split of the two programs *)

Definition equal_shares (pool : Z) (n : nat) : list Z :=
  (pool / Z.of_nat n + pool `mod` Z.of_nat n) :: replicate (n - 1) (pool / Z.of_nat n).

Lemma equal_split_Ok d n :
  0 < d ≤ I128_MAX -> (0 < n)%nat -> split_pot_among_winners d n = Ok (equal_shares d n).
Proof.
  intros [Hd Hmax] Hn. assert (∃ ps, split_pot_among_winners d n = Ok ps) as [ps Hps].
  2:{ rewrite Hps. f_equal. by apply equal_split_inv. }
  unfold split_pot_among_winners. destruct ((n =? 0)%nat || (d <=? 0)); [eauto|].
  set (q := Z.quot d (Z.of_nat n)). set (m := Z.rem d (Z.of_nat n)).
  assert (0 ≤ q + m ≤ d) as Hqm.
  { unfold q, m. rewrite Z.quot_div_nonneg, Z.rem_mod_nonneg by lia.
    pose proof (Z.div_mod d (Z.of_nat n) ltac:(lia)). pose proof (Z.mod_pos_bound d (Z.of_nat n) ltac:(lia)).
    pose proof (Z.div_pos d (Z.of_nat n) ltac:(lia) ltac:(lia)). nia. }
  exists ((λ i, match i with O => q + m | S _ => q end) <$> seq 0 n).
  apply (ofold_append (equal_share q m)); [done|]. eexists. split; [done|].
  apply Forall2_fmap_r, Forall_Forall2_diag, Forall_forall. intros [|i] _; simpl; [|done].
  by rewrite i128_checked_add_in by (unfold I128_MIN, I128_MAX in *; lia).
Qed.

Lemma equal_shares_inv ws pool shares :
  precision_shares Equal ws pool = Ok shares -> 0 < pool -> ws ≠ [] ->
  shares = equal_shares pool (length ws).
Proof.
  intros H Hpool Hne. unfold precision_shares in H. apply obind_Ok in H as ([bs t] & Hp & H).
  assert (0 < Z.of_nat (length ws)) as Hn by (destruct ws; [done|simpl; lia]).
  unfold policy_payouts in Hp. destruct (_ >? 0) eqn:? in Hp; zbool; [|lia].
  apply obind_Ok in Hp as (q & Hq & Hp). apply i128_div_Ok in Hq as (_ & -> & _).
  rewrite Z.quot_div_nonneg in Hp by lia.
  apply (push_loop (λ _, Ok (pool / Z.of_nat (length ws)))) in Hp as (ps & -> & -> & Hall); [|done].
  assert (ps = replicate (length ws) (pool / Z.of_nat (length ws))) as ->.
  { clear -Hall. remember (pool / Z.of_nat (length ws)) as q. clear Heqq.
    induction Hall as [|x p l ps Hp Hall IH]; simpl; [done|]. injection Hp as <-. by f_equal. }
  apply obind_Ok in H as (rem & Hr & H). apply some_or_Ok, i128_checked_sub_Some in Hr as [-> _].
  rewrite zsum_replicate in H. simpl in H. unfold equal_shares.
  destruct (length ws) as [|n] eqn:Hlen; [lia|]. cbn [replicate app add_remainder] in H.
  apply obind_Ok in H as (p0 & Hp0 & H). apply payout_add_Ok in Hp0 as [-> _]. injection H as <-.
  rewrite Nat.sub_succ, Nat.sub_0_r. f_equal.
  pose proof (Z.div_mod pool (Z.of_nat (S n)) ltac:(lia)). lia.
Qed.

(** The sum of amounts that fit. *)
Lemma checked_sum_Ok l :
  (∀ x, x ∈ l -> 0 ≤ x) -> zsum id l ≤ I128_MAX -> checked_sum l = Ok (zsum id l).
Proof.
  unfold checked_sum. assert (∀ acc, 0 ≤ acc -> (∀ x, x ∈ l -> 0 ≤ x) -> acc + zsum id l ≤ I128_MAX ->
    ofold l acc (λ acc x, some_or_panic (i128_checked_add acc x)) = Ok (acc + zsum id l)) as Hg;
    [|intros; rewrite Hg; [done|lia|done|lia]].
  induction l as [|x l IH]; intros acc Ha Hl Hmax; simpl in *; [by rewrite Z.add_0_r|].
  assert (0 ≤ x) by (apply Hl; set_solver). change (id x) with x in *.
  assert (0 ≤ zsum id l) by (apply zsum_nonneg; intros; apply Hl; set_solver).
  rewrite i128_checked_add_in by (unfold I128_MIN, I128_MAX in *; lia). cbn [some_or_panic mbind outcome_bind].
  rewrite IH by (first [lia|set_solver]). f_equal. lia.
Qed.

(** ** Which rows win, in the engine and on the chain *)

(** A row and the prediction it stands for. *)
Definition row_guess (fp : Z) (u : Address) (o : option PrecisionPrediction) (e : PrecisionEntry) : Prop :=
  pe_revealed e = bool_decide (is_Some o) ∧
  ∀ g, o = Some g -> score_of default_scoring fp e = distance fp g ∧ pred_user g = u.

Definition row_wins (d fp : Z) (e : PrecisionEntry) : Prop :=
  band_wins default_scoring d (score_of default_scoring fp e) = true.
#[export] Instance row_wins_dec d fp e : Decision (row_wins d fp e) :=
  ltac:(unfold row_wins; apply _).

Section Rows.
Context (guess_of : Address -> option PrecisionPrediction) (fp d : Z).
Notation rows := (Forall2 (λ u e, row_guess fp u (guess_of u) e)).
Notation winning es := (pe_index <$> filter (row_wins d fp) (revealed_entries es)).
Notation winners us := (filter (at_best fp (Some d)) (omap guess_of us)).

Lemma rows_scores us es :
  rows us es -> score_of default_scoring fp <$> revealed_entries es = distance fp <$> omap guess_of us.
Proof.
  induction 1 as [|u e us es [Hr Hg] _ IH]; [done|]. unfold revealed_entries in *. csimpl.
  rewrite filter_cons. destruct (guess_of u) as [g|]; simpl in Hr.
  - rewrite decide_True by done. destruct (Hg g eq_refl) as [Hs _]. csimpl. by rewrite Hs, IH.
  - by rewrite decide_False, IH by (by rewrite Hr).
Qed.

Lemma winning_index us es i : rows us es -> i ∈ winning es -> i ∈ pe_index <$> es.
Proof.
  intros _. apply sublist_subseteq, fmap_sublist. etrans; apply sublist_filter.
Qed.

Lemma winners_users us es u : rows us es -> u ∈ pred_user <$> winners us -> u ∈ us.
Proof.
  intros Hr. rewrite list_elem_of_fmap. intros (g & -> & [_ Hg]%list_elem_of_filter).
  apply list_elem_of_omap in Hg as (v & Hv & Hg).
  apply list_elem_of_lookup_1 in Hv as Hi. destruct Hi as [i Hi].
  destruct (Forall2_lookup_l _ _ _ _ _ Hr Hi) as (e & _ & [_ He]). by destruct (He g Hg) as [_ ->].
Qed.

Lemma each_absent ws shares u :
  u ∉ pred_user <$> ws -> each (λ w : PrecisionPrediction * Z, pred_user w.1) snd (zip ws shares) u = 0.
Proof.
  revert shares. induction ws as [|w ws IH]; intros [|p shares] Hu; csimpl; try done.
  csimpl in Hu. apply not_elem_of_cons in Hu as [Hne Hu]. unfold each in *. cbn [zip_with zsum].
  rewrite IH by done. unfold only. simpl. by rewrite bool_decide_false by congruence.
Qed.

Lemma share_of_absent W shares i : i ∉ W -> share_of W shares i = 0.
Proof.
  intros Hi. unfold share_of. destruct (index_of i W) eqn:E; [|done].
  contradict Hi. apply index_of_elem. eauto.
Qed.

(** The engine's share of a row is what the chain pays its participant. *)
Lemma rows_paid us es :
  rows us es -> NoDup us -> NoDup (pe_index <$> es) ->
  length (winning es) = length (winners us) ∧
  ∀ shares, length shares = length (winners us) ->
    Forall2 (λ u e, share_of (winning es) shares (pe_index e)
      = each (λ w, pred_user w.1) snd (zip (winners us) shares) u) us es.
Proof.
  induction 1 as [|u e us es He Hrows IH]; intros Hus Hes; [done|].
  apply NoDup_cons in Hus as [Hu Hus]. csimpl in Hes. apply NoDup_cons in Hes as [Hi Hes].
  destruct (IH Hus Hes) as [Hlen IHs]. clear IH.
  assert (pe_index e ∉ winning es) as Hi' by (contradict Hi; by eapply winning_index).
  assert (u ∉ pred_user <$> winners us) as Hu' by (contradict Hu; by eapply winners_users).
  assert ((winning (e :: es) = winning es ∧ winners (u :: us) = winners us) ∨
    ∃ g, winning (e :: es) = pe_index e :: winning es ∧ winners (u :: us) = g :: winners us ∧ pred_user g = u)
    as [[-> ->]|(g & -> & -> & Hgu)].
  { destruct He as [Hr Hg]. unfold revealed_entries. csimpl. rewrite !filter_cons.
    destruct (guess_of u) as [g|]; simpl in Hr; [|left; by rewrite decide_False by (by rewrite Hr)].
    destruct (Hg g eq_refl) as [Hs Hgu]. rewrite decide_True by done. rewrite !filter_cons.
    assert (row_wins d fp e <-> at_best fp (Some d) g) as Hw.
    { unfold row_wins, at_best, band_wins. simpl. rewrite Hs, Z.eqb_eq. split; congruence. }
    destruct (decide (at_best fp (Some d) g)) as [Hd|Hd].
    - right. exists g. by rewrite (decide_True _ _ (proj2 Hw Hd)).
    - left. by rewrite decide_False by tauto. }
  - split; [done|]. intros shares Hsh. constructor; [|by apply IHs].
    by rewrite share_of_absent, each_absent.
  - split; [simpl; by f_equal|]. intros [|p shares] Hsh; [done|]. simpl in Hsh. injection Hsh as Hsh.
    unfold each. cbn [zip_with zsum fst snd]. constructor.
    + fold (each (λ w : PrecisionPrediction * Z, pred_user w.1) snd (zip (winners us) shares) u).
      rewrite each_absent by done. unfold share_of, only. simpl.
      rewrite Nat.eqb_refl, bool_decide_true by done. simpl. lia.
    + apply Forall2_same_length_lookup_2; [by eapply Forall2_length|]. intros k v e' Hv He'.
      specialize (IHs shares Hsh). eapply Forall2_lookup_lr in IHs; [|done..]. unfold each in IHs.
      rewrite <-IHs. unfold share_of at 1, only. simpl.
      apply list_elem_of_lookup_2 in Hv, He'.
      destruct (Nat.eqb_spec (pe_index e) (pe_index e')) as [Heq|_].
      { contradict Hi. rewrite Heq. apply list_elem_of_fmap. eauto. }
      rewrite bool_decide_false by (intros E; apply Hu; by rewrite <-Hgu, E). unfold share_of.
      by destruct (index_of (pe_index e') _).
Qed.
End Rows.

Lemma bind_Ok {A B} (a : A) (k : A -> outcome B) : (x ← Ok a; k x) = k a.
Proof. done. Qed.

(** Every winner finds its share. *)
Lemma index_of_lt i W k : index_of i W = Some k -> (k < length W)%nat.
Proof.
  revert k. induction W as [|x W IH]; intros k H; simpl in *; [done|].
  destruct (Nat.eqb x i); [injection H as <-; lia|].
  destruct (index_of i W) as [j|]; [|done]. injection H as <-. specialize (IH j eq_refl). lia.
Qed.

Definition shared_entry (W : list nat) (shares : list Z) (e : PrecisionEntry) : PrecisionPayoutEntry :=
  precision_payout e (share_of W shares (pe_index e)) (bool_decide (is_Some (index_of (pe_index e) W))) false.

Lemma assign_shares W shares (es : list PrecisionEntry) :
  length shares = length W ->
  ofold es [] (λ payouts e,
    match index_of (pe_index e) W with
    | Some pos =>
        p ← some_or_panic (shares !! pos);
        Ok (payouts ++ [precision_payout e p true false])
    | None => Ok (payouts ++ [precision_payout e 0 false false])
    end) = Ok (shared_entry W shares <$> es).
Proof.
  intros Hlen. apply (ofold_append (λ e, Ok (shared_entry W shares e))).
  - intros acc e. unfold shared_entry, share_of. destruct (index_of _ _) as [k|] eqn:Hk; [|done].
    apply index_of_lt in Hk. rewrite <-Hlen in Hk. apply lookup_lt_is_Some in Hk as [p ->]. done.
  - eexists. split; [done|]. apply Forall2_fmap_r, Forall_Forall2_diag, Forall_forall. done.
Qed.

(** ** Transcripts that record a settlement *)

(** The row of a participant: the stake, the side, the revealed prediction. *)
Record recorded_row (s : State) (rid : Z) (u : Address) (p : TranscriptParticipant) : Prop := {
  rw_amount : tp_amount p = stake s rid u;
  rw_side q : pos_at s rid u = Some (VPosition q) -> tp_side_up p = Some (bool_decide (pos_side q = Up));
  rw_revealed : cr_revealed (commit_reveal p) = bool_decide (is_Some (guess s rid u));
  rw_guess g : guess s rid u = Some g -> cr_predicted_price (commit_reveal p) = predicted_price g }.

(** [t] is the transcript of settling round [r], whose book in [s] is [ps], at the
    price [fp]: one row per participant, in address order. *)
Record recorded (s : State) (r : Round) (ps : list Address) (fp : Z) (t : RoundTranscript) : Prop := {
  rc_schema : tr_schema_version t = TRANSCRIPT_SCHEMA_VERSION;
  rc_round : ot_round_id (tr_oracle t) = tr_round_id t;
  rc_mode : tr_mode t = match mode r with UpDown => TUpDown | Precision => TPrecision end;
  rc_terminal : terminal t = TaResolve;
  rc_start : tr_price_start t = price_start r;
  rc_final : final_price t = fp;
  rc_pools : mode r = UpDown -> tr_pool_up t = pool_up r ∧ tr_pool_down t = pool_down r;
  rc_fee : stored_bps s (fee_bps t);
  rc_some : ps ≠ [];
  rc_min : from_option (λ m, m ≤ Z.of_nat (length ps)) True (min_participants t);
  rc_count : participant_count t = Z.of_nat (length ps);
  rc_index : tp_index <$> participants t = seq 0 (length ps);
  rc_rows : Forall2 (recorded_row s (round_id r)) (sort_addresses ps) (participants t) }.

Lemma Forall2_fmap_eq {A B C} (f : A -> C) (g : B -> C) l k :
  Forall2 (λ x y, g y = f x) l k <-> g <$> k = f <$> l.
Proof.
  split.
  - induction 1; csimpl; congruence.
  - revert k. induction l as [|x l IH]; intros [|y k] H; simplify_eq/=; constructor; auto.
Qed.

(** What the replay answers: the fee, and one row per participant with [pay]. *)
Record replay_pays (ps : list Address) (fee : Z) (pay : Address -> Z) (rr : ReplayResult) : Prop := {
  py_status : rr_archive_status rr = AsResolved;
  py_fee : rr_total_fee rr = fee;
  py_index : rp_index <$> rr_payouts rr = seq 0 (length ps);
  py_rows : rp_payout <$> rr_payouts rr = pay <$> sort_addresses ps }.

Section Recorded.
Context (s : State) (r : Round) (ps : list Address) (fp : Z) (t : RoundTranscript).
Hypotheses (Hb : book s r ps) (Hrec : recorded s r ps fp t).
Notation l := (sort_addresses ps).
Notation rid := (round_id r).

Lemma recorded_length : length (participants t) = length ps.
Proof. by rewrite <-(Forall2_length _ _ _ (rc_rows _ _ _ _ _ Hrec)), sort_addresses_perm. Qed.

Lemma recorded_amounts : tp_amount <$> participants t = stake s rid <$> l.
Proof.
  apply Forall2_fmap_eq. eapply Forall2_impl; [exact (rc_rows _ _ _ _ _ Hrec)|]. intros u p Hr. apply Hr.
Qed.

Lemma recorded_canonical : validate_schema t = None.
Proof.
  apply validate_schema_None. unfold canonical. rewrite recorded_length. split_and!; try apply Hrec.
  intros E. apply (rc_some _ _ _ _ _ Hrec). apply nil_length_inv. by rewrite <-recorded_length, E.
Qed.

Lemma recorded_replay :
  replay_round t = match mode r with UpDown => replay_updown t | Precision => replay_precision t end.
Proof.
  unfold replay_round, replay_resolve. rewrite recorded_canonical.
  rewrite (rc_round _ _ _ _ _ Hrec), Z.eqb_refl, (rc_terminal _ _ _ _ _ Hrec), (rc_mode _ _ _ _ _ Hrec). simpl.
  rewrite (rc_count _ _ _ _ _ Hrec). pose proof (rc_min _ _ _ _ _ Hrec) as Hmin.
  destruct (min_participants t) as [m|]; simpl in *; [|by destruct (mode r)].
  destruct (_ <? m) eqn:?; zbool; [lia|by destruct (mode r)].
Qed.

(** *** UpDown *)

Notation positions := (transcript_position <$> participants t).

Lemma recorded_up_index : up_index <$> positions = seq 0 (length ps).
Proof. rewrite <-list_fmap_compose. exact (rc_index _ _ _ _ _ Hrec). Qed.

Lemma recorded_up_amounts : up_amount <$> positions = stake s rid <$> l.
Proof. rewrite <-list_fmap_compose. exact recorded_amounts. Qed.

(** The shares the engine computes are those of the settlement. *)
Lemma recorded_shares side w d :
  mode r = UpDown ->
  ue_payout <$> (paid_entry (bool_decide (side = Up)) w d <$> positions)
  = winner_share s rid side w d <$> l.
Proof.
  intros Hm. rewrite <-!list_fmap_compose.
  assert (∀ u, u ∈ l -> entry s rid u UpDown) as He.
  { intros u Hu. rewrite <-Hm. apply (book_entry _ _ _ Hb). by rewrite <-(sort_addresses_perm ps). }
  pose proof (rc_rows _ _ _ _ _ Hrec) as Hrows. revert He.
  induction Hrows as [|u p us k [Ha Hs _ _] Hrows IH]; intros He; csimpl; [done|].
  f_equal; [|apply IH; set_solver].
  destruct (entry_updown_stake _ _ _ (He u ltac:(set_solver))) as (q & Hq & _ & Hst & _).
  unfold winner_share, side_stake. rewrite Hq, (Hs q Hq), Ha, Hst. simpl.
  destruct (pos_side q), side; simpl; by rewrite ?Z.mul_0_l, ?Zdiv_0_l.
Qed.

(** A row on the winning side carries the stake of its participant there. *)
Lemma recorded_winner side pos :
  mode r = UpDown -> pos ∈ positions -> Bool.eqb (side_up pos) (bool_decide (side = Up)) = true ->
  ∃ u, u ∈ ps ∧ up_amount pos = side_stake s rid u side ∧ 0 ≤ side_stake s rid u side.
Proof.
  intros Hm Hin Hside. apply list_elem_of_fmap in Hin as (p & -> & Hp).
  apply list_elem_of_lookup_1 in Hp as [i Hi].
  destruct (Forall2_lookup_r _ _ _ _ _ (rc_rows _ _ _ _ _ Hrec) Hi) as (u & Hu & [Ha Hs _ _]).
  apply list_elem_of_lookup_2 in Hu. rewrite sort_addresses_perm in Hu. exists u. split; [done|].
  pose proof (book_entry _ _ _ Hb u Hu) as He. rewrite Hm in He.
  destruct (entry_updown_stake _ _ _ He) as (q & Hq & Hpos & Hst & _). simpl in Hside |- *.
  rewrite (Hs q Hq) in Hside. rewrite Ha, Hst. unfold side_stake. rewrite Hq. simpl in Hside.
  destruct (pos_side q), side; simpl in *; try discriminate; split; lia.
Qed.

Lemma replay_updown_refunds :
  bool_decide (classify_price_direction (price_start r) fp = Unchanged)
    || is_one_sided_pool (pool_up r) (pool_down r) = true ->
  mode r = UpDown ->
  ∃ rr, replay_updown t = ROk rr ∧ replay_pays ps 0 (stake s rid) rr.
Proof.
  intros Href Hm. destruct (rc_pools _ _ _ _ _ Hrec Hm) as [Hup Hdn].
  unfold replay_updown, compute_updown_payouts.
  rewrite Hup, Hdn, (rc_start _ _ _ _ _ Hrec), (rc_final _ _ _ _ _ Hrec), Href. cbn.
  eexists. split; [done|]. split; simpl.
  - done.
  - assert (forallb ue_is_refund (updown_refunds positions) = true) as ->; [|done].
    apply forallb_forall. intros e He. apply list_elem_of_In, list_elem_of_fmap in He as (x & -> & _). done.
  - unfold updown_refunds. rewrite <-list_fmap_compose, <-recorded_up_index, <-list_fmap_compose. done.
  - unfold updown_refunds. rewrite <-list_fmap_compose, <-recorded_up_amounts, <-list_fmap_compose. done.
Qed.

Lemma replay_updown_wins side w lo dw dl fee :
  mode r = UpDown -> ps ≠ [] ->
  compute_updown_fee w lo (fee_bps t) = Ok (dw, dl, fee) ->
  0 ≤ fee_rate (fee_bps t) ≤ BPS_DENOMINATOR -> 0 < w -> 0 ≤ lo ->
  payable s rid side (w + lo - fee) ps ->
  ∃ es, (total_distributable ← payout_add dw dl;
         ofold positions [] (updown_entry (bool_decide (side = Up)) w total_distributable)) = Ok es ∧
    forallb ue_is_refund es = false ∧ ue_index <$> es = seq 0 (length ps) ∧
    ue_payout <$> es = winner_share s rid side w (w + lo - fee) <$> l.
Proof.
  intros Hm Hne Hfee Hrate Hw Hlo [Hmax Hfit].
  pose proof (compute_updown_fee_bounds _ _ _ _ _ _ Hfee ltac:(lia) Hlo Hrate) as (? & ? & ?).
  apply compute_updown_fee_inv in Hfee as (Hsum & _ & _).
  assert (payout_add dw dl = Ok (w + lo - fee)) as ->
    by (apply payout_add_Ok; unfold I128_MIN in *; lia).
  cbn [mbind outcome_bind]. rewrite updown_entries_Ok; [|done|lia|].
  - eexists. split; [done|]. split_and!; [| |by apply recorded_shares].
    + assert (positions ≠ []) as Hp.
      { intros E. apply Hne, nil_length_inv. rewrite <-recorded_length, <-(length_fmap transcript_position). by rewrite E. }
      destruct positions; [done|]. done.
    + rewrite <-recorded_up_index, <-list_fmap_compose. done.
  - intros pos Hin Hside. destruct (recorded_winner side pos Hm Hin Hside) as (u & Hu & -> & Hnn).
    split; [done|]. by apply Hfit.
Qed.

Lemma replay_updown_pays fee :
  mode r = UpDown -> fee_config_ok s -> stored_model s FeeOnPot ->
  (is_one_sided_pool (pool_up r) (pool_down r) = true ∨
   classify_price_direction (price_start r) fp = Unchanged -> fee = 0) ->
  (is_one_sided_pool (pool_up r) (pool_down r) = false ->
   updown_charge s r fp fee ∧ updown_payable s r ps fp fee) ->
  ∃ rr, replay_updown t = ROk rr ∧ replay_pays ps fee (updown_payoff s r fp fee) rr.
Proof.
  intros Hm Hfee Hmodel Hzero Hch. pose proof (rc_some _ _ _ _ _ Hrec) as Hne.
  pose proof (fee_config_ok_rate _ _ Hfee (rc_fee _ _ _ _ _ Hrec)) as Hrate.
  pose proof (book_pot _ _ _ Hb Hm) as Hpot. unfold updown_payoff.
  destruct (is_one_sided_pool _ _) eqn:Hone.
  { rewrite Hzero by auto. apply replay_updown_refunds; [by rewrite Hone, orb_true_r|done]. }
  destruct (classify_price_direction _ _) eqn:Hdir.
  3:{ rewrite Hzero by auto. apply replay_updown_refunds; [by rewrite Hdir|done]. }
  all: destruct (contested_pools _ _ _ Hb Hm Hne Hone) as [Hup Hdn]; clear Hzero;
    destruct (Hch eq_refl) as [Hc Hfit]; clear Hch; unfold updown_charge, updown_payable in Hc, Hfit;
    rewrite Hdir in Hc, Hfit; destruct Hc as (dw & dl & bps & model & Hbps & Hmod & E);
    rewrite (stored_model_det _ _ _ Hmod Hmodel), (stored_bps_det _ _ _ Hbps (rc_fee _ _ _ _ _ Hrec)),
      fee_on_pot_updown in E; clear bps model Hbps Hmod;
    unfold replay_updown, compute_updown_payouts; destruct (rc_pools _ _ _ _ _ Hrec Hm) as [-> ->];
    rewrite (rc_start _ _ _ _ _ Hrec), (rc_final _ _ _ _ _ Hrec), Hone, Hdir, !Z.max_l by lia;
    rewrite bool_decide_false by done; cbn [orb].
  - destruct (replay_updown_wins Up (pool_up r) (pool_down r) dw dl fee) as (es & Hes & Href & Hi & Hp);
      [done..|lia|done|].
    destruct (pool_up r =? 0) eqn:?; zbool; [lia|]. rewrite E.
    cbn [mbind outcome_bind]. rewrite bool_decide_true in Hes by done. rewrite Hes. cbn.
    rewrite Href. eexists. split; [done|]. split; simpl; try done; rewrite <-list_fmap_compose; done.
  - destruct (replay_updown_wins Down (pool_down r) (pool_up r) dw dl fee) as (es & Hes & Href & Hi & Hp);
      [done..|lia|done|].
    destruct (pool_down r =? 0) eqn:?; zbool; [lia|].
    destruct (updown_fee_swap _ _ _ _ _ _ E) as (dw' & dl' & E'); [lia..|done|]. rewrite E, E'.
    cbn [mbind outcome_bind]. rewrite bool_decide_false in Hes by done. rewrite Hes. cbn.
    rewrite Href. eexists. split; [done|]. rewrite (Z.add_comm (pool_up r)).
    split; simpl; try done; rewrite <-list_fmap_compose; done.
Qed.

(** *** Precision *)

Notation entries := (transcript_entry <$> participants t).
Notation pot := (zsum (stake s rid) ps).

Lemma entries_index : pe_index <$> entries = seq 0 (length ps).
Proof. rewrite <-list_fmap_compose. exact (rc_index _ _ _ _ _ Hrec). Qed.

Lemma entries_amounts : pe_amount <$> entries = stake s rid <$> l.
Proof. rewrite <-list_fmap_compose. exact recorded_amounts. Qed.

Lemma entries_total : zsum pe_amount entries = pot.
Proof.
  pose proof (zsum_fmap id pe_amount entries) as H. rewrite entries_amounts, zsum_fmap in H.
  unfold id in H. rewrite sort_addresses_perm in H. done.
Qed.

Lemma entries_rows :
  mode r = Precision -> Forall2 (λ u e, row_guess fp u (guess s rid u) e) l entries.
Proof.
  intros Hm. apply Forall2_fmap_r, Forall2_same_length_lookup_2; [apply (Forall2_length _ _ _ (rc_rows _ _ _ _ _ Hrec))|].
  intros i u p Hu Hp. pose proof (Forall2_lookup_lr _ _ _ _ _ _ (rc_rows _ _ _ _ _ Hrec) Hu Hp) as [_ _ Hr Hg].
  apply list_elem_of_lookup_2 in Hu. rewrite sort_addresses_perm in Hu.
  split; [done|]. intros g Hgu. split.
  - unfold score_of, precision_score, distance. simpl. rewrite (Hg g Hgu). destruct (_ >=? _) eqn:?; zbool; lia.
  - pose proof (precision_entry s r ps Hb Hm u Hu) as He. unfold guess in Hgu.
    destruct He as [_ [(q & Hq & _ & _ & Hqu)|[(cm & Hq & _)|(q & cm & Hq & _ & _ & Hqu & _)]]];
      rewrite Hq in Hgu; congruence.
Qed.

Lemma entries_nonneg e : mode r = Precision -> e ∈ entries -> 0 < pe_amount e.
Proof.
  intros Hm He. assert (pe_amount e ∈ stake s rid <$> l) as Hs
    by (rewrite <-entries_amounts; apply list_elem_of_fmap; eauto).
  apply list_elem_of_fmap in Hs as (u & -> & Hu). rewrite sort_addresses_perm in Hu.
  by apply (precision_stake_pos s r ps).
Qed.

Lemma entries_some : entries ≠ [].
Proof.
  intros E. apply (rc_some _ _ _ _ _ Hrec), nil_length_inv.
  by rewrite <-recorded_length, <-(length_fmap transcript_entry), E.
Qed.

Lemma entries_pot : mode r = Precision -> 0 < pot.
Proof.
  intros Hm. rewrite <-entries_total. apply zsum_pos; [|exact entries_some].
  intros e He. by apply entries_nonneg.
Qed.

Lemma entries_sum :
  mode r = Precision -> pot ≤ I128_MAX -> checked_sum (pe_amount <$> entries) = Ok pot.
Proof.
  intros Hm Hmax. rewrite checked_sum_Ok.
  - rewrite zsum_fmap. f_equal. exact entries_total.
  - intros x (e & -> & He)%list_elem_of_fmap. by apply Z.lt_le_incl, entries_nonneg.
  - rewrite zsum_fmap. etrans; [|exact Hmax]. by rewrite <-entries_total.
Qed.

Lemma winners_pot policy : mode r = Precision -> pot ≤ I128_MAX ->
  total_pot (find_precision_winners_with_policy entries fp policy) = pot.
Proof.
  intros Hm Hmax. rewrite find_winners_pot; [exact entries_total| |by rewrite entries_total].
  intros e He. by apply Z.lt_le_incl, entries_nonneg.
Qed.

Lemma replay_precision_refunds :
  mode r = Precision -> pot ≤ I128_MAX -> guesses s rid ps = [] ->
  ∃ rr, replay_precision t = ROk rr ∧ replay_pays ps 0 (stake s rid) rr.
Proof.
  intros Hm Hmax Hg. unfold replay_precision. rewrite entries_sum by done. cbn [settled_math].
  unfold compute_precision_payouts, compute_precision_payouts_with_policy.
  rewrite (rc_final _ _ _ _ _ Hrec), winners_pot, find_winners_none; [|
    |done..].
  2:{ apply fmap_nil_inv with (f := score_of default_scoring fp).
      rewrite (rows_scores (guess s rid) fp l) by by apply entries_rows.
      assert (omap (guess s rid) l = []) as ->; [|done].
      apply Permutation_nil_r. rewrite (guesses_sorted_perm s r ps). by rewrite Hg. }
  pose proof (entries_pot Hm). rewrite bool_decide_true by done.
  destruct (pot >? 0) eqn:?; zbool; [|lia]. cbn.
  eexists. split; [done|]. split; simpl.
  - done.
  - assert (forallb ppe_is_refund ((λ e, precision_payout e (pe_amount e) false true) <$> entries) = true)
      as ->; [|done].
    apply forallb_forall. intros e He. apply list_elem_of_In, list_elem_of_fmap in He as (x & -> & _). done.
  - rewrite <-entries_index, <-!list_fmap_compose. done.
  - rewrite <-entries_amounts, <-!list_fmap_compose. done.
Qed.

(** The fee the engine takes is the settlement's. *)
Lemma recorded_fee_precision ws pool fee :
  mode r = Precision -> fee_config_ok s -> stored_model s FeeOnPot -> pot ≤ I128_MAX ->
  0 ≤ zsum pred_amount ws -> charged_precision s pot (zsum pred_amount ws) (pool, fee) ->
  compute_precision_fee pot (fee_bps t) = Ok (pool, fee) ∧ 0 < pool ≤ I128_MAX.
Proof.
  intros Hm Hfee Hmodel Hmax Hws (bps & model & Hbps & Hmod & E). pose proof (entries_pot Hm) as Hpot.
  rewrite (stored_model_det _ _ _ Hmod Hmodel) in E.
  pose proof (stored_bps_det _ _ _ Hbps (rc_fee _ _ _ _ _ Hrec)) as ->.
  apply fee_on_pot_precision in E; [|unfold I128_MIN in *; lia]. split; [done|].
  pose proof (fee_config_ok_rate _ _ Hfee Hbps) as Hrate.
  pose proof (compute_precision_fee_bounds _ _ _ _ E Hrate ltac:(lia)) as [? ?]. split; [|lia].
  unfold compute_precision_fee in E. destruct (fee_bps t) as [b|] eqn:Hb'; [|simplify_eq; lia].
  assert (b ≤ 1000) as Hmaxb by (apply Hfee; unfold stored_bps in Hbps; rewrite Hbps; done).
  destruct (pot <=? 0) eqn:?; zbool; [lia|]. ok_inv E; simplify_eq. checked_inv. simpl in Hrate.
  unfold BPS_DENOMINATOR in *. rewrite quot_div_nonneg by nia.
  assert (pot * b / 10000 < pot); [|lia]. apply Z.div_lt_upper_bound; nia.
Qed.

(** The least score is the settlement's least distance. *)
Lemma closest_min_score d ws :
  mode r = Precision -> (∀ q, q ∈ guesses s rid ps -> d ≤ distance fp q) ->
  ws = filter (at_best fp (Some d)) (guesses s rid l) -> ws ≠ [] ->
  is_min_score default_scoring fp (revealed_entries entries) (Some d).
Proof.
  intros Hm Hmin Hws Hne. pose proof (rows_scores (guess s rid) fp l entries (entries_rows Hm)) as Hs.
  simpl. split.
  - destruct ws as [|w ws]; [done|].
    assert (w ∈ filter (at_best fp (Some d)) (guesses s rid l)) as Hw by (rewrite <-Hws; set_solver).
    apply list_elem_of_filter in Hw as [[= Hd] Hw].
    assert (distance fp w ∈ distance fp <$> guesses s rid l) as Hin by (apply list_elem_of_fmap; eauto).
    unfold guesses in Hin. rewrite <-Hs in Hin. apply list_elem_of_fmap in Hin as (e & He & Hin).
    exists e. split; [done|congruence].
  - intros e He.
    assert (score_of default_scoring fp e ∈ distance fp <$> omap (guess s rid) l) as Hin
      by (rewrite <-Hs; apply list_elem_of_fmap; eauto).
    apply list_elem_of_fmap in Hin as (q & -> & Hq). apply Hmin.
    unfold guesses. by rewrite <-sort_addresses_perm.
Qed.

Lemma replay_precision_wins fee ws shares :
  mode r = Precision -> fee_config_ok s -> stored_model s FeeOnPot -> stored_policy s Equal ->
  pot ≤ I128_MAX -> closest s rid fp ps ws -> precision_terms s pot ws fee shares ->
  ∃ rr, replay_precision t = ROk rr ∧
    replay_pays ps fee (each (λ w, pred_user w.1) snd (zip ws shares)) rr.
Proof.
  intros Hm Hfee Hmodel Hpol Hmax (d & Hmin & Hws & Hne) (pool & policy & Hch & Hpol' & Hsh).
  pose proof (stored_policy_det _ _ _ Hpol' Hpol) as ->. pose proof (entries_pot Hm) as Hpot.
  assert (0 ≤ zsum pred_amount ws) as Hnn.
  { apply zsum_nonneg. rewrite Hws. intros w [_ Hw]%list_elem_of_filter.
    by apply Z.lt_le_incl, (guesses_positive s r ps Hb Hm). }
  destruct (recorded_fee_precision ws pool fee) as [Hcf Hpool]; [done..|].
  apply equal_shares_inv in Hsh as ->; [|lia|done].
  destruct (rows_paid (guess s rid) fp d l entries (entries_rows Hm)) as [Hlen Hpaid].
  { rewrite sort_addresses_perm. apply Hb. }
  { rewrite entries_index. apply NoDup_seq. }
  unfold guesses in Hws. rewrite <-Hws in Hlen, Hpaid.
  pose proof (find_winners_spec entries fp default_scoring d (closest_min_score d ws Hm Hmin Hws Hne)) as HW.
  set (W := winner_indices _) in HW.
  assert (length (equal_shares pool (length ws)) = length ws) as Hle.
  { unfold equal_shares. simpl. rewrite length_replicate. destruct ws; [done|simpl; lia]. }
  specialize (Hpaid _ Hle). unfold replay_precision. rewrite entries_sum by done. cbn [settled_math].
  rewrite Hcf. unfold compute_precision_payouts, compute_precision_payouts_with_policy.
  rewrite (rc_final _ _ _ _ _ Hrec), winners_pot by done. fold W.
  assert (length W = length ws) as HlW by (rewrite HW; exact Hlen).
  rewrite bool_decide_false by (intros E; apply Hne, nil_length_inv; by rewrite <-HlW, E).
  cbn [andb]. rewrite orb_false_r. destruct (pot <=? 0) eqn:?; zbool; [lia|]. rewrite Hcf.
  rewrite bind_Ok. rewrite HlW, equal_split_Ok by (first [lia | destruct ws; [done|simpl; lia]]).
  rewrite bind_Ok, assign_shares by congruence. cbn [settled_math]. eexists. split; [done|]. split; simpl.
  - done.
  - assert (forallb ppe_is_refund (shared_entry W (equal_shares pool (length ws)) <$> entries) = false) as ->; [|done].
    pose proof entries_some. by destruct entries.
  - rewrite <-entries_index, <-!list_fmap_compose. done.
  - rewrite <-!list_fmap_compose. apply Forall2_fmap_eq in Hpaid. simpl in Hpaid.
    rewrite <-list_fmap_compose in Hpaid. rewrite HW. exact Hpaid.
Qed.
End Recorded.

(** What a run added to an address's pending winnings. *)
Definition gained (s s' : State) (u : Address) : Z :=
  slot s' (K_PendingWinnings u) - slot s (K_PendingWinnings u).

Lemma replay_pays_gained s s' ps fee pay rr :
  replay_pays ps fee pay rr ->
  (∀ u, u ∈ ps -> slot s' (K_PendingWinnings u) = slot s (K_PendingWinnings u) + pay u) ->
  replay_pays ps fee (gained s s') rr.
Proof.
  intros [H1 H2 H3 H4] Hg. split; try done. rewrite H4. apply list_fmap_ext. intros i u Hu.
  apply list_elem_of_lookup_2 in Hu. rewrite sort_addresses_perm in Hu.
  unfold gained. rewrite (Hg u Hu). lia.
Qed.

(** C8: the replay engine reproduces what the contract did: when the contract
    settled a round with the fee on the pot and, in a Precision round, the equal
    split, replaying a transcript that records the round never fails (what the
    settlement computed without overflow, the replay computes too), reports the
    fee the settlement took, lists every participant at its index, and gives each
    the amount the settlement added to its pending winnings. *)
Theorem replay_matches_settlement r ps fp conf c s res s' t :
  _complete_settlement r fp conf c s = (Ok res, s') -> book s r ps -> fee_config_ok s ->
  stored_model s FeeOnPot -> (mode r = Precision -> stored_policy s Equal) ->
  recorded s r ps fp t ->
  ∃ rr, replay_round t = ROk rr ∧ replay_pays ps res.1 (gained s s') rr.
Proof.
  intros E Hb Hfee Hmodel Hpol Hrec. rewrite (recorded_replay _ _ _ _ _ Hrec).
  assert (∃ s1, settles s r ps fp res.1 s1 ∧ settled s r ps fp res.1 s') as (s1 & H1 & Hset).
  { wp_intro E. apply (wp_complete r ps); [done..|]. intros fee s1 s2 H1 He _. exists s1.
    split; [done|]. exact (settles_settled _ _ _ _ _ _ _ Hb H1 He). }
  assert (∀ f u, u ∈ ps -> participant_payoff ps f u = f u) as Hpart
    by (intros; unfold participant_payoff; by rewrite bool_decide_true).
  pose proof (rc_some _ _ _ _ _ Hrec) as Hne.
  unfold settles, settled in *. destruct (mode r) eqn:Hm.
  - destruct Hset as [_ Hp _ _ Hr _].
    destruct (replay_updown_pays s r ps fp t Hb Hrec res.1) as (rr & Hrr & Hpay); try done.
    + intros H. by destruct (Hr H).
    + by apply H1.
    + exists rr. split; [done|]. apply (replay_pays_gained _ _ _ _ _ _ Hpay). intros u Hu. by rewrite Hp, Hpart.
  - destruct Hset as [_ Hr Hp _ _]. specialize (Hpol eq_refl).
    pose proof (entries_pot s r ps fp t Hb Hrec Hm) as Hpos.
    pose proof (sp_fits _ _ _ _ _ _ H1) as Hmax.
    destruct (decide (guesses s (round_id r) ps = [])) as [Hg|Hg].
    + destruct (Hr Hg) as [-> Hpen].
      destruct (replay_precision_refunds s r ps fp t Hb Hrec) as (rr & Hrr & Hpay); [done..|].
      exists rr. split; [done|]. apply (replay_pays_gained _ _ _ _ _ _ Hpay). intros u Hu. by rewrite Hpen, Hpart.
    + destruct (Hp Hg) as (ws & sh & Hc & Ht & _ & _ & _ & Hpen).
      destruct (replay_precision_wins s r ps fp t Hb Hrec res.1 ws sh) as (rr & Hrr & Hpay); [done..|].
      exists rr. split; [done|]. by apply (replay_pays_gained _ _ _ _ _ _ Hpay).
Qed.
