(* ===== verification/Modes.v ===== *)
(** * Run-time modes

    Which entry points each run-time mode refuses, for the whole facade. *)

From S2P Require Export Frames.

(** The entry points that answer in every mode: initialization, the mode switches,
    announcing or clearing the next schema, the oracle's heartbeat, reading the
    proposed oracle rotation (which drops an expired proposal), every governance
    call, and cancelling a round. *)
Definition always_open (call : Call) : bool :=
  match call with
  | OnAdmin (c_initialize _ _) | OnAdmin (c_announce_next_schema _) | OnAdmin c_clear_next_schema
  | OnAdmin c_pause_contract | OnAdmin c_unpause_contract | OnAdmin (c_set_runtime_mode _)
  | OnOracle (c_update_oracle_heartbeat _) | OnRotation c_get_oracle_rotation_proposal
  | OnGov _ | OnRound (c_cancel_round _) => true
  | _ => false
  end.

(** The entry points that need the normal mode: new money and new bets,
    reveals, early cash-outs, and applying a scheduled change. *)
Definition needs_normal (call : Call) : bool :=
  match call with
  | OnRound (c_place_bet _ _ _) | OnRound (c_place_precision_prediction _ _ _)
  | OnRound (c_predict_price _ _ _) | OnRound (c_commit_prediction _ _ _)
  | OnRound (c_reveal_prediction _ _ _) | OnRound (c_mint_initial _) | OnRound (c_cash_out_early _)
  | OnSchedule (c_apply_scheduled_changes _) => true
  | _ => false
  end.

Definition mode_refuses (m : RuntimeMode) (call : Call) : bool :=
  match m with
  | Normal => false
  | ClaimsOnly => needs_normal call
  | FullyPaused => negb (always_open call)
  end.

Definition mode_at (s : State) (m : RuntimeMode) : Prop :=
  persistent s !! K_Paused = Some (enc cRuntimeMode m).

Lemma wp_gate_closed a m (Q : () -> State -> Prop) c s :
  mode_at s m -> mode_blocks a m = true -> wp (_policy_gate a) Q c s.
Proof.
  intros Hm Hb. apply wp_run, (run_policy_gate a (Some m)); [done|]. intros s' _. cbn. by rewrite Hb.
Qed.

(** A program that never returns satisfies every specification. *)
Lemma wp_stop {A} (m : M A) (Q : A -> State -> Prop) c s :
  wp m (λ _ _, False) c s -> wp m Q c s.
Proof. intros H. eapply wp_mono; [exact H|done]. Qed.

Lemma never_Ok {A} (m : M A) c s :
  wp m (λ _ _, False) c s -> (invoke m c s).2 = s ∧ ∀ a, (invoke m c s).1 ≠ Ok a.
Proof.
  intros H. unfold invoke. destruct (m c s) as [[a|e|] s'] eqn:E; [|done..].
  by destruct (H a s' E).
Qed.

Lemma mode_kept {A} (p : M A) (Q : A -> State -> Prop) m c s :
  mode_at s m -> frame (λ k, k = K_Paused) p -> (∀ a t, mode_at t m -> Q a t) -> wp p Q c s.
Proof.
  intros Hm Hp HQ. apply (wp_frame _ p _ _ _ Hp). intros a t Ha. apply HQ. unfold mode_at.
  by rewrite (Ha K_Paused).
Qed.

(** Walk a handler up to the gate that refuses it. *)
Ltac to_gate m :=
  repeat first
    [ progress intros
    | match goal with
      | Hm : mode_at ?s m |- wp (_policy_gate _) _ _ ?s =>
          apply (wp_gate_closed _ m _ _ _ Hm); reflexivity
      | |- wp (inspect_err _ _) _ _ _ => apply wp_inspect_err
      | |- wp (throw _) _ _ _ => apply wp_throw
      | Hm : mode_at ?s m |- wp (?p ≫= _) _ _ ?s =>
          apply wp_bind; first
            [ apply wp_stop; solve [to_gate m]
            | apply (mode_kept p _ m _ _ Hm);
                [solve [frame_calls ltac:(intros ?; discriminate)]|clear Hm; intros ? ? Hm] ]
      | |- wp (match ?x with _ => _ end) _ _ _ => destruct x
      | |- wp ?p _ _ _ => let h := head_of p in progress (unfold h; cbn beta iota)
      end ].

Lemma refused `{HostCrypto} m call c s :
  mode_at s m -> mode_refuses m call = true -> wp (dispatch call) (λ _ _, False) c s.
Proof.
  intros Hm. destruct m; [done|..];
    (destruct call as [call|call|call|call|call|call|call|call]; destruct call; try discriminate;
     intros _; cbn; match goal with _ : mode_at _ ?m |- _ => to_gate m end).
Qed.

(** C34: the run-time mode decides what the contract refuses: in claims-only mode
    no bet, prediction, commitment, reveal, mint, early cash-out or scheduled
    change goes through; in the paused mode nothing does but initialization, the
    mode switches and schema announcements, the heartbeat, reading the proposed
    oracle rotation, governance and cancelling the round.  A refused call changes
    nothing. *)
Theorem mode_matrix `{HostCrypto} m call c s :
  mode_at s m -> mode_refuses m call = true ->
  (invoke (dispatch call) c s).2 = s ∧ ∀ a, (invoke (dispatch call) c s).1 ≠ Ok a.
Proof. intros Hm Hr. by apply never_Ok, (refused m). Qed.
