(* ===== verification/Solvency.v ===== *)
(** * Solvency

    Which entries the contract keeps well signed, whatever it is asked to do:
    no account, stake or reserve is ever negative, and the rates in storage and
    in the changes waiting to be applied are rates.  [ok W s] says so of the
    state [s] for the valued slots [W] selects; the rules below carry it through
    a handler. *)

From S2P Require Export Frames CancelSpec OracleSpec GovernanceSpec.

(** ** Entries *)

(** A u32 is not negative. *)
Definition rate_arg (o : option Z) : Prop := ∀ b, o = Some b -> 0 ≤ b.

Definition payload_ok (p : ConfigChangePayload) : Prop :=
  match p with
  | PProtocolFeeBps o | PEarlyCashoutBps o => rate_arg o
  | _ => True
  end.

Definition action_ok (a : GovAction) : Prop :=
  match a with SetProtocolFeeBps o => rate_arg o | _ => True end.

Definition rate_key (k : Key) : bool :=
  match k with
  | KVec n [] => String.eqb n "ProtocolFeeBps" || String.eqb n "EarlyCashoutBps"
  | _ => false
  end.

(** The changes waiting: scheduled and proposed. *)
Definition waiting_key (k : Key) : bool :=
  match k with
  | KVec n [AU32 _] => String.eqb n "PendingConfigChange"
  | KVec n [AU64 _] => String.eqb n "GovProposal"
  | _ => false
  end.

Record entry_ok (W : Key -> bool) (k : Key) (v : Val) : Prop := {
  eo_signed : W k = true -> 0 ≤ value_of v;
  eo_rate b : rate_key k = true -> v = VU32 b -> 0 ≤ b ≤ MAX_PROTOCOL_FEE_BPS;
  eo_change p : waiting_key k = true -> v = VPendingConfig p -> payload_ok (payload p);
  eo_action p : waiting_key k = true -> v = VProposal p -> action_ok (gp_action p) }.

Definition ok (W : Key -> bool) (s : State) : Prop :=
  ∀ k v, persistent s !! k = Some v -> entry_ok W k v.

(** The reserves of the protocol. *)
Definition reserves (k : Key) : bool :=
  match k with
  | KVec n [] => String.eqb n "ProtocolFeeTreasury"
  | KSym n => String.eqb n "InsFundBal"
  | _ => false
  end.

(** Every valued slot, or the reserves only. *)
Class Signs (W : Key -> bool) : Prop := signs : W = valued ∨ W = reserves.
#[export] Instance signs_valued : Signs valued := or_introl eq_refl.
#[export] Instance signs_reserves : Signs reserves := or_intror eq_refl.

Definition tracked (W : Key -> bool) (k : Key) : bool := W k || rate_key k || waiting_key k.

Section Rules.
Context (W : Key -> bool).

Lemma ok_agree s s' : ok W s -> agree (λ k, tracked W k = true) s s' -> ok W s'.
Proof.
  intros H Ha k v Hv. destruct (tracked W k) eqn:Hk.
  - apply H. by rewrite <-Ha.
  - unfold tracked in Hk. apply orb_false_iff in Hk as [[Hk1 Hk2]%orb_false_iff Hk3].
    by split; rewrite ?Hk1, ?Hk2, ?Hk3.
Qed.

Lemma ok_same s s' : ok W s -> persistent s' = persistent s -> ok W s'.
Proof. intros H Hs. unfold ok. by rewrite Hs. Qed.

Lemma ok_insert s s' k v :
  ok W s -> persistent s' = <[k := v]> (persistent s) -> entry_ok W k v -> ok W s'.
Proof.
  intros H Hs Hv k' v'. rewrite Hs. destruct (decide (k = k')) as [->|Hne].
  - rewrite lookup_insert_eq. by intros [= <-].
  - rewrite lookup_insert_ne by done. apply H.
Qed.

Lemma ok_delete s s' k : ok W s -> persistent s' = delete k (persistent s) -> ok W s'.
Proof. intros H Hs k' v'. rewrite Hs, lookup_delete_Some. intros [_ Hv]. by apply H. Qed.

Lemma ok_slot s k : ok W s -> W k = true -> 0 ≤ slot s k.
Proof.
  intros H Hk. unfold slot. destruct (persistent s !! k) as [v|] eqn:Hv; [|done]. simpl.
  unfold weight. destruct (valued k); [|done]. by apply (H k v Hv).
Qed.

(** What a read of a signed slot gives. *)
Lemma ok_i128 s k o :
  ok W s -> W k = true -> persistent s !! k = enc cI128 <$> o -> 0 ≤ default 0 o.
Proof. intros H Hk Ho. destruct o as [n|]; [|done]. by apply (H k (VI128 n) Ho). Qed.

Lemma ok_value s k v : ok W s -> W k = true -> persistent s !! k = Some v -> 0 ≤ value_of v.
Proof. intros H Hk Hv. by apply (H k v Hv). Qed.

Lemma wp_tracked {A} (m : M A) (Q : A -> State -> Prop) c s :
  frame (λ k, tracked W k = true) m -> ok W s -> (∀ a s', ok W s' -> Q a s') -> wp m Q c s.
Proof. intros Hf H HQ. eapply wp_frame; [exact Hf|]. intros a s' Ha. by apply HQ, (ok_agree s). Qed.
End Rules.

Lemma ok_fee_config W s : ok W s -> fee_config_ok s.
Proof. intros H b Hb. by apply (eo_rate _ _ _ (H _ _ Hb)). Qed.

Lemma ok_cashout W s b : ok W s -> persistent s !! K_EarlyCashoutBps = Some (VU32 b) -> 0 ≤ b.
Proof. intros H Hb. by apply (eo_rate _ _ _ (H _ _ Hb)). Qed.

(** The changes waiting carry rates. *)
Lemma ok_pending W s kind p :
  ok W s -> persistent s !! K_PendingConfigChange kind = Some (enc cPendingConfig p) ->
  payload_ok (payload p).
Proof. intros H Hp. by apply (eo_change _ _ _ (H _ _ Hp)). Qed.

Lemma ok_proposal W s id p :
  ok W s -> persistent s !! K_GovProposal id = Some (enc cProposal p) -> action_ok (gp_action p).
Proof. intros H Hp. by apply (eo_action _ _ _ (H _ _ Hp)). Qed.

Lemma valid_fee o u : _validate_protocol_fee_bps o = Ok u -> rate_arg o ->
  ∀ b, o = Some b -> 0 ≤ b ≤ MAX_PROTOCOL_FEE_BPS.
Proof.
  intros H Ho b ->. specialize (Ho b eq_refl). unfold _validate_protocol_fee_bps, oreject_if in H.
  destruct (_ || _) eqn:E; zbool; [done|lia].
Qed.

Lemma valid_cashout o : fee_bps_invalid o = false -> rate_arg o ->
  ∀ b, o = Some b -> 0 ≤ b ≤ MAX_PROTOCOL_FEE_BPS.
Proof.
  intros H Ho b ->. specialize (Ho b eq_refl). unfold fee_bps_invalid in H. zbool. lia.
Qed.

(** Signs of the accounts on top of those of the reserves. *)
Lemma ok_accounts s :
  ok reserves s -> (∀ k v, valued k = true -> reserves k = false -> persistent s !! k = Some v ->
                    0 ≤ value_of v) -> ok valued s.
Proof.
  intros H Ha k v Hv. destruct (H k v Hv) as [Hs Hr Hc Hg]. split; try done. intros Hk.
  destruct (reserves k) eqn:Hrk; [by apply Hs|by apply (Ha k)].
Qed.

Lemma ok_read {A} W (cd : Codec A) s k o :
  ok W s -> W k = true -> persistent s !! k = enc cd <$> o ->
  0 ≤ from_option (λ x, value_of (enc cd x)) 0 o.
Proof. intros H Hk Ho. destruct o as [x|]; [|done]. by apply (ok_value W s k _ H Hk Ho). Qed.

#[export] Instance bookless_tracked W `{!Signs W} : Bookless (λ k, tracked W k = true).
Proof. destruct signs as [-> | ->]; bookless. Qed.

(** ** Automation *)

Ltac entry :=
  repeat match goal with H : revealed _ = _ |- _ => rewrite H in * end;
  split; intros; simpl in *; try discriminate; simplify_eq; try lia; auto.

Ltac not_tracked := first [intros ?; discriminate | by intros []].

(** Facts about what was read, then the state after a write. *)
Ltac ok_facts :=
  repeat match goal with
  | Hok : ok ?W ?s, Hp : persistent ?s !! K_PendingConfigChange _ = Some (enc _ ?p) |- _ =>
      lazymatch goal with
      | _ : payload_ok (payload p) |- _ => fail
      | _ => pose proof (ok_pending W s _ p Hok Hp)
      end
  | Hok : ok ?W ?s, Hp : persistent ?s !! K_GovProposal _ = Some (enc _ ?p) |- _ =>
      lazymatch goal with
      | _ : action_ok (gp_action p) |- _ => fail
      | _ => pose proof (ok_proposal W s _ p Hok Hp)
      end
  | Hok : ok ?W ?s, Ho : persistent ?s !! ?k = enc cI128 <$> ?o |- _ =>
      lazymatch goal with
      | _ : 0 <= default 0 o |- _ => fail
      | _ => pose proof (ok_i128 W s k o Hok eq_refl Ho)
      end
  | Hok : ok ?W ?s, Ho : persistent ?s !! ?k = enc ?cd <$> ?o |- _ =>
      lazymatch cd with
      | cI128 => fail
      | _ =>
          let H := fresh in
          pose proof (ok_read W cd s k o Hok eq_refl Ho) as H; cbn in H;
          let T := type of H in
          lazymatch goal with H1 : T, H2 : T |- _ => fail | _ => idtac end
      end
  | Hok : ok ?W ?s, Ho : persistent ?s !! ?k = Some ?v |- _ =>
      let H := fresh in
      pose proof (ok_value W s k _ Hok eq_refl Ho) as H; cbn in H;
      let T := type of H in
      lazymatch goal with H1 : T, H2 : T |- _ => fail | _ => idtac end
  end.

Ltac ok_next :=
  match goal with
  | Hok : ok ?W ?s, Hs : persistent ?s' = <[?k := ?v]> (persistent ?s) |- _ =>
      lazymatch goal with
      | _ : ok W s' |- _ => fail
      | _ => assert (ok W s') by (eapply (ok_insert W s s'); [exact Hok|exact Hs|entry])
      end
  | Hok : ok ?W ?s, Hs : persistent ?s' = delete ?k (persistent ?s) |- _ =>
      lazymatch goal with
      | _ : ok W s' |- _ => fail
      | _ => assert (ok W s') by (eapply (ok_delete W s s'); [exact Hok|exact Hs])
      end
  | Hok : ok ?W ?s, Hs : persistent ?s' = persistent ?s |- _ =>
      lazymatch goal with
      | _ : ok W s' |- _ => fail
      | _ => assert (ok W s') by (eapply (ok_same W s s'); [exact Hok|exact Hs])
      end
  end.

(** The specifications of helpers, as they come; extended below. *)
Ltac ok_rule := fail.

(** Step through the handler and close [ok W s']. *)
Ltac keep :=
  repeat first
    [ assumption
    | progress intros
    | progress arith_inv
    | ok_next | progress ok_facts
    | match goal with
      | |- wp (_ ≫= _) _ _ _ => apply wp_bind
      | |- wp (match ?x with _ => _ end) _ _ _ => destruct x eqn:?
      | |- wp (if ?x then _ else _) _ _ _ => destruct x eqn:?
      | |- wp (let '(_, _) := ?x in _) _ _ _ => destruct x eqn:?
      | |- wp (stake_checks _) _ _ _ => apply wp_stake_checks
      | |- wp (emit_throw_if _ _ _ _) _ _ _ => apply wp_throw_if
      | |- wp (_extend_persistent_ttl _) _ _ _ => apply wp_extend
      | |- wp (balance _) _ _ _ => apply wp_balance
      | |- wp (_set_balance _ _) _ _ _ => apply wp_set_balance
      | |- wp _ _ _ _ => ok_rule
      | _ : ok ?W ?s |- wp (mfor _ _) _ _ ?s => apply (wp_mfor (λ _ t, ok W t)); cbn beta
      | _ : ok ?W ?s |- wp (mfold _ _ _) _ _ ?s => apply (wp_mfold (λ _ _ t, ok W t)); cbn beta
      | |- wp _ _ _ _ => wp_step
      | Hok : ok ?W ?s |- wp ?m _ _ ?s =>
          apply (wp_tracked W m _ _ _ ltac:(solve [frame_with not_tracked]) Hok)
      | |- wp (match mode ?r with _ => _ end _ _) _ _ _ => destruct (mode r)
      | |- wp ?m _ _ _ => let h := head_of m in progress (unfold h; cbn beta iota)
      end ].

(** ** Helpers *)

Section Helpers.
Context (W : Key -> bool) `{!Signs W}.

Lemma wp_ok_accumulate u a (Q : () -> State -> Prop) c s :
  ok W s -> 0 ≤ a -> (∀ s', ok W s' -> Q () s') -> wp (_accumulate_pending u a) Q c s.
Proof.
  intros Hok Ha H. destruct signs as [-> | ->].
  - unfold _accumulate_pending. keep; by apply H.
  - apply (wp_tracked reserves); [frame_with not_tracked|done|by intros []].
Qed.

Lemma wp_ok_insurance_fee r f (Q : Z -> State -> Prop) c s :
  ok W s -> (∀ x s', ok W s' -> 0 ≤ x ≤ Z.max 0 f -> Q x s') ->
  wp (collect_insurance_fee r f) Q c s.
Proof.
  intros Hok H. unfold collect_insurance_fee. destruct signs as [-> | ->]; keep; apply H; auto; lia.
Qed.

Lemma wp_ok_fee r f b m (Q : () -> State -> Prop) c s :
  ok W s -> (∀ s', ok W s' -> Q () s') -> wp (_collect_protocol_fee r f b m) Q c s.
Proof.
  intros Hok H. unfold _collect_protocol_fee. destruct (f <=? 0) eqn:Hf; zbool; [by apply wp_ret, H|].
  apply wp_bind, wp_ok_insurance_fee; [done|]. intros x s1 Hok1 Hx.
  destruct signs as [-> | ->]; keep; by apply H.
Qed.

Lemma wp_ok_set_rate k o (Q : () -> State -> Prop) c s :
  ok W s -> rate_key k = true -> (∀ b, o = Some b -> 0 ≤ b ≤ MAX_PROTOCOL_FEE_BPS) ->
  (∀ s', ok W s' -> Q () s') -> wp (set_or_remove cU32 k o) Q c s.
Proof.
  intros Hok Hk Ho H. unfold set_or_remove, set_ext. destruct o as [b|].
  - wp_step. wp_step. apply wp_extend. intros s2 H2. apply H, (ok_same _ s'); [|done].
    eapply ok_insert; [done..|]. split; [done| |done..]. simpl. intros ? _ [= <-]. auto.
  - wp_step. apply H. by eapply ok_delete.
Qed.

Lemma wp_ok_deduct r req (Q : Z -> State -> Prop) c s :
  ok W s -> (∀ x s', ok W s' -> 0 ≤ x -> Q x s') -> wp (deduct_insurance_coverage r req) Q c s.
Proof.
  intros Hok H. unfold deduct_insurance_coverage. destruct signs as [-> | ->]; keep; apply H; auto; lia.
Qed.
End Helpers.

Ltac ok_rule ::=
  match goal with
  | Hok : ok ?W ?s |- wp (_accumulate_pending _ _) _ _ ?s =>
      apply (wp_ok_accumulate W); [exact Hok|lia|]
  | Hok : ok ?W ?s |- wp (_collect_protocol_fee _ _ _ _) _ _ ?s => apply (wp_ok_fee W); [exact Hok|]
  | Hok : ok ?W ?s |- wp (deduct_insurance_coverage _ _) _ _ ?s =>
      apply (wp_ok_deduct W); [exact Hok|]
  | Hok : ok ?W ?s |- wp (set_or_remove _ K_ProtocolFeeBps _) _ _ ?s =>
      apply (wp_ok_set_rate W); [exact Hok|reflexivity|eauto using valid_fee|]
  | Hok : ok ?W ?s |- wp (set_or_remove _ K_EarlyCashoutBps _) _ _ ?s =>
      apply (wp_ok_set_rate W); [exact Hok|reflexivity|eauto using valid_cashout|]
  end.

(** ** The entry points *)

(** The calls whose payouts depend on the book of a round. *)
Definition settles_call (call : Call) : bool :=
  match call with
  | OnRound (c_resolve_round _) | OnRound (c_resolve_round_multi _)
  | OnRound (c_finalize_round _) => true
  | _ => false
  end.

(** The u32 arguments that end up in a rate are u32s. *)
Definition typed_call (call : Call) : Prop :=
  match call with
  | OnSchedule (c_schedule_protocol_fee_bps o) | OnConfig (c_set_early_cashout_bps o) => rate_arg o
  | OnGov (c_propose_gov_action _ a _) => action_ok a
  | _ => True
  end.

Lemma ok_dispatch `{HostCrypto} call c s :
  settles_call call = false -> typed_call call -> ok valued s ->
  wp (dispatch call) (λ _ s', ok valued s') c s.
Proof.
  intros Hs Ht Hok.
  destruct call as [call|call|call|call|call|call|call|call]; destruct call; try discriminate Hs;
    clear Hs; cbn in Ht |- *; keep.
Qed.

(** ** Settling *)

Definition gains (s s' : State) : Prop :=
  agree kept s s' ∧ ∀ u, slot s (K_PendingWinnings u) ≤ slot s' (K_PendingWinnings u).

Lemma participant_payoff_nonneg ps f u : (∀ v, v ∈ ps -> 0 ≤ f v) -> 0 ≤ participant_payoff ps f u.
Proof. intros H. unfold participant_payoff. case_bool_decide; [by apply H|done]. Qed.

Lemma entry_stake_nonneg s rid u m : entry s rid u m -> 0 ≤ stake s rid u.
Proof.
  destruct m.
  - intros (p & _ & Hp & -> & _)%entry_updown_stake. lia.
  - intros He. assert (∃ o, persistent s !! K_PrecisionPosition rid u = enc cPrediction <$> o) as [o Ho].
    { destruct He as [_ [(p & E & _)|[(cm & E & _)|(p & cm & E & _)]]]; unfold pred_at in E;
        rewrite E; [by exists (Some p)|by exists None|by exists (Some p)]. }
    by apply (entry_reads s s rid u o He) in Ho as [? _]; [lia|].
Qed.

Lemma updown_payoff_nonneg s r ps fp fee u :
  book s r ps -> mode r = UpDown -> 0 ≤ fee ≤ pool_up r + pool_down r -> u ∈ ps ->
  0 ≤ updown_payoff s r fp fee u.
Proof.
  intros Hb Hm Hf Hu. pose proof (book_entry _ _ _ Hb _ Hu) as He.
  pose proof (entry_stake_nonneg _ _ _ _ He) as Hs. rewrite Hm in He.
  pose proof (updown_pools _ _ _ Hb Hm) as [Hup Hdn].
  pose proof (side_stake_nonneg _ _ _ Up He). pose proof (side_stake_nonneg _ _ _ Down He).
  unfold updown_payoff, winner_share. destruct (is_one_sided_pool _ _); [done|].
  destruct (classify_price_direction _ _); try done; apply Z_div_nonneg_nonneg; nia.
Qed.

Lemma each_nonneg {A} (addr : A -> Address) f l v : Forall (λ a, 0 ≤ f a) l -> 0 ≤ each addr f l v.
Proof.
  intros Hf. unfold each. apply zsum_nonneg. intros x Hx. unfold only.
  rewrite Forall_forall in Hf. case_bool_decide; [by apply Hf|done].
Qed.

Lemma credited_gains p x s s' : credited p x s s' -> (∀ u, 0 ≤ p u) -> gains s s'.
Proof. intros [_ Hp Hk] H. split; [done|]. intros u. rewrite Hp. specialize (H u). lia. Qed.

Lemma settles_gains s r ps fp fee s' : book s r ps -> settles s r ps fp fee s' -> gains s s'.
Proof.
  intros Hb. assert (∀ u, u ∈ ps -> 0 ≤ stake s (round_id r) u) as Hst.
  { intros u Hu. eapply entry_stake_nonneg. by apply (book_entry _ _ _ Hb). }
  unfold settles. destruct (mode r) eqn:Hm.
  - intros [Hf Hc _ _]. eapply credited_gains; [exact Hc|]. intros u.
    apply participant_payoff_nonneg. intros v Hv. by eapply updown_payoff_nonneg.
  - intros [_ _ Hr Hp]. destruct (decide (guesses s (round_id r) ps = [])) as [Hg|Hg].
    + destruct (Hr Hg) as [_ Hc]. eapply credited_gains; [exact Hc|]. intros u.
      by apply participant_payoff_nonneg.
    + destruct (Hp Hg) as (ws & sh & _ & _ & Hlen & Hsh & _ & Hc). eapply credited_gains; [exact Hc|].
      intros u. apply each_nonneg, Forall_forall. intros [w x] Hin%elem_of_zip_r.
      rewrite Forall_forall in Hsh. by apply Hsh.
Qed.

(** Gaining pending winnings keeps the accounts signed when the reserves are. *)
Lemma gains_ok s s' : ok valued s -> gains s s' -> ok reserves s' -> ok valued s'.
Proof.
  intros Hok [Hk Hp] Hr. apply ok_accounts; [done|]. intros k v Hval Hnr Hv.
  assert (kept k ∨ ∃ u, k = K_PendingWinnings u) as [Hkk|[u ->]].
  { unfold payout_key. pose proof (history_unvalued k). pose proof (lb_unvalued k).
    destruct k as [n [|[] [|[]]]| | |n]; try (left; intros [?|[?|?]]; naive_solver).
    - left. intros [Hh|[Hl|[]]]; [specialize (H Hh)|specialize (H0 Hl)]; congruence.
    - destruct (decide (n = "PendingWinnings")) as [->|]; [right; by eexists|].
      left. intros [Hh|[Hl|?]]; [specialize (H Hh)|specialize (H0 Hl)|]; congruence. }
  - rewrite Hk in Hv by done. by apply (ok_value valued s k).
  - specialize (Hp u). pose proof (ok_slot _ _ (K_PendingWinnings u) Hok eq_refl).
    rewrite (slot_found s' _ _ Hval Hv) in Hp. lia.
Qed.

Lemma ok_reserves s : ok valued s -> ok reserves s.
Proof.
  intros H k v Hv. destruct (H k v Hv) as [Hs ? ? ?]. split; try done. intros Hk. apply Hs.
  destruct k as [n [|]| | |n]; simpl in *; try done.
Qed.

Lemma wp_ok_settle_by_mode r ps fp (Q : Z -> State -> Prop) c s :
  book s r ps -> ok valued s -> (∀ fee s', ok valued s' -> Q fee s') ->
  wp (settle_by_mode r fp) Q c s.
Proof.
  intros Hb Hok H.
  eapply wp_mono; [apply (wp_and _ (λ fee s', settles s r ps fp fee s') (λ _ s', ok reserves s'))|].
  - apply (wp_settle_by_mode r ps); [done|by eapply ok_fee_config|auto].
  - apply ok_reserves in Hok. keep.
  - intros fee s' [Hs Hr]. apply H, (gains_ok s); [done| |done]. by eapply settles_gains.
Qed.

Lemma wp_ok_complete r ps fp conf (Q : Z * Z -> State -> Prop) c s :
  book s r ps -> ok valued s -> (∀ x s', ok valued s' -> Q x s') ->
  wp (_complete_settlement r fp conf) Q c s.
Proof.
  intros Hb Hok H. unfold _complete_settlement. wp_step.
  apply (wp_ok_settle_by_mode r ps); [done..|]. intros fee s1 Hok1.
  apply (wp_mono _ (λ _ s', ok valued s')); [|auto]. clear Hok Hb. keep.
Qed.

Lemma wp_ok_settle_with_price r ps fp conf c s :
  book s r ps -> ok valued s -> wp (_settle_round_with_price r fp conf) (λ _ s', ok valued s') c s.
Proof.
  intros Hb Hok. unfold _settle_round_with_price. wp_step. wp_step. wp_step.
  apply (wp_mono _ (λ _ s', persistent s' = persistent s)).
  { destruct o; repeat wp_step; done. }
  intros tps s1 H1. pose proof (ok_same _ _ _ Hok H1) as Hok1.
  pose proof (book_persistent _ _ _ _ H1 Hb) as Hb1.
  destruct (from_option _ _ _); [clear Hok Hb; keep|].
  wp_step. apply wp_dispute_ledgers. intros d s2 _ H2.
  pose proof (ok_same _ _ _ Hok1 H2) as Hok2. pose proof (book_persistent _ _ _ _ H2 Hb1) as Hb2.
  destruct (_ >? 0); [clear Hok Hok1; keep|]. wp_step.
  apply (wp_ok_complete r ps); [done..|]. intros x s3 Hok3. by wp_step.
Qed.
