(* ===== verification/Rounds.v ===== *)
(** * Which rounds have a book

    The invariant of the rounds as a whole: the active round and every round
    waiting in its dispute window hold a book of stakes, they are different
    rounds, and a round that was never opened holds nothing.  The lemmas say how
    one round changes while the others stay. *)

From S2P Require Export Solvency.

(** ** Rounds *)

(** The slots the rounds are made of. *)
Definition round_slot (k : Key) : bool :=
  match k with
  | KVec n [] => bool_decide (n ∈ ["ActiveRound"; "LastRoundId"])
  | KVec n [AU64 _] => String.eqb n "RoundParticipants"
  | KVec n [AU64 _; AAddr _] =>
      bool_decide (n ∈ ["Position"; "PrecisionPosition"; "PrecisionCommitment"])
  | KSym n => String.eqb n "PendingDisputes"
  | _ => false
  end.

(** The slots of the rounds other than [rid], and the round counter. *)
Definition elsewhere (rid : Z) (k : Key) : bool :=
  match k with
  | KVec n [] => String.eqb n "LastRoundId"
  | KVec n [AU64 r] => negb (r =? rid) && String.eqb n "RoundParticipants"
  | KVec n [AU64 r; AAddr _] =>
      negb (r =? rid) && bool_decide (n ∈ ["Position"; "PrecisionPosition"; "PrecisionCommitment"])
  | _ => false
  end.

#[export] Instance bookless_round : Bookless (λ k, round_slot k = true).
Proof. bookless. Qed.
#[export] Instance bookless_elsewhere rid : Bookless (λ k, elsewhere rid k = true).
Proof. bookless. Qed.

(** [n] rounds have been opened and [m] are waiting in their dispute window. *)
Record rounds_ok (s : State) (n : Z) (m : gmap Z PendingDisputeSettlement) : Prop := {
  ro_last : last_round s n;
  ro_disputes : disputes s m;
  ro_future rid : n < rid -> unopened s rid;
  ro_active v : persistent s !! K_ActiveRound = Some v ->
    ∃ r ps, v = VRound r ∧ book s r ps ∧ round_id r ≤ n ∧ m !! round_id r = None;
  ro_staged rid pd : m !! rid = Some pd ->
    round_id (pd_round pd) = rid ∧ rid ≤ n ∧ ∃ ps, book s (pd_round pd) ps }.

Lemma round_key_slot rid k : round_key rid k -> round_slot k = true.
Proof.
  unfold round_key, round_slot. destruct k as [n [|[] [|[] [|]]]| | |]; try done.
  - by intros [_ ->].
  - intros [_ [-> |[-> | ->]]]; done.
Qed.

Lemma round_key_elsewhere rid rid' k : rid' ≠ rid -> round_key rid' k -> elsewhere rid k = true.
Proof.
  intros Hne. unfold round_key, elsewhere. destruct k as [n [|[] [|[] [|]]]| | |]; try done.
  - intros [-> ->]. simpl. by rewrite andb_true_r, negb_true_iff, Z.eqb_neq.
  - intros [-> Hn]. rewrite (proj2 (Z.eqb_neq _ _) Hne). destruct Hn as [-> |[-> | ->]]; done.
Qed.

Lemma rounds_ok_agree s s' n m :
  agree (λ k, round_slot k = true) s s' -> rounds_ok s n m -> rounds_ok s' n m.
Proof.
  intros Ha [Hl Hd Hf Hac Hst].
  assert (∀ rid, agree (round_key rid) s s') as Hr by (intros rid k Hk; by eapply Ha, round_key_slot).
  split.
  - destruct Hl as (o & Ho & ->). exists o. split; [|done]. by rewrite (Ha K_LastRoundId).
  - eapply disputes_same; [done|]. by apply Ha.
  - intros rid Hrid. eapply unopened_agree; [apply Hr|auto].
  - intros v. rewrite Ha by done. intros (r & ps & -> & Hb & ? & ?)%Hac.
    exists r, ps. split_and!; try done. by eapply book_agree; [apply Hr|].
  - intros rid pd (? & ? & ps & Hb)%Hst. split_and!; try done. exists ps. by eapply book_agree; [apply Hr|].
Qed.

(** One round changes. *)
Lemma rounds_ok_change s s' n m m' rid :
  rounds_ok s n m -> rid ≤ n -> agree (λ k, elsewhere rid k = true) s s' ->
  disputes s' m' -> (∀ rid', rid' ≠ rid -> m' !! rid' = m !! rid') ->
  (∀ pd, m' !! rid = Some pd -> round_id (pd_round pd) = rid ∧ ∃ ps, book s' (pd_round pd) ps) ->
  (∀ v, persistent s' !! K_ActiveRound = Some v ->
     (∃ r ps, v = VRound r ∧ round_id r = rid ∧ book s' r ps ∧ m' !! rid = None) ∨
     (persistent s !! K_ActiveRound = Some v ∧ ∀ r, v = VRound r -> round_id r ≠ rid)) ->
  rounds_ok s' n m'.
Proof.
  intros [Hl Hd Hf Hac Hst] Hn Ha Hd' Hm Hpd Hact.
  assert (∀ rid', rid' ≠ rid -> agree (round_key rid') s s') as Hr
    by (intros rid' Hne k Hk; by eapply Ha, round_key_elsewhere).
  split.
  - destruct Hl as (o & Ho & ->). exists o. split; [|done]. by rewrite (Ha K_LastRoundId).
  - done.
  - intros rid' Hrid. eapply unopened_agree; [apply Hr; lia|by apply Hf].
  - intros v [(r & ps & -> & <- & Hb & Hnone)|[Hv Hne]]%Hact; [by exists r, ps|].
    destruct (Hac v Hv) as (r & ps & -> & Hb & Hle & Hnone). exists r, ps. specialize (Hne r eq_refl).
    split_and!; try done; [|by rewrite Hm]. eapply book_agree; [by apply Hr|done].
  - intros rid' pd Hpd'. destruct (decide (rid' = rid)) as [->|Hne].
    + destruct (Hpd pd Hpd'). done.
    + rewrite Hm in Hpd' by done. destruct (Hst rid' pd Hpd') as (He & ? & ps & Hb).
      split_and!; try done. exists ps. eapply book_agree; [|done]. rewrite He. by apply Hr.
Qed.

(** The active round changes and stays active. *)
Lemma rounds_ok_active s s' n m r r' ps ps' :
  rounds_ok s n m -> active s r -> book s r ps -> active s' r' -> round_id r' = round_id r ->
  book s' r' ps' -> agree (λ k, elsewhere (round_id r) k = true) s s' ->
  persistent s' !! K_PendingDisputes = persistent s !! K_PendingDisputes -> rounds_ok s' n m.
Proof.
  intros H Hact Hb Hact' Hid Hb' Ha Hd. destruct (ro_active _ _ _ H _ Hact) as (r0 & ? & [= <-] & _ & Hle & Hno).
  apply (rounds_ok_change s s' n m m (round_id r)); try done.
  - eapply disputes_same; [apply H|done].
  - intros pd Hpd. congruence.
  - intros v Hv. left. exists r', ps'. split_and!; try done. unfold active in Hact'. congruence.
Qed.

(** The active round ends. *)
Lemma rounds_ok_ended s s' n m r :
  rounds_ok s n m -> active s r -> persistent s' !! K_ActiveRound = None ->
  agree (λ k, elsewhere (round_id r) k = true) s s' -> disputes s' m -> rounds_ok s' n m.
Proof.
  intros H Hact Hna Ha Hd. destruct (ro_active _ _ _ H _ Hact) as (r0 & ? & [= <-] & _ & Hle & Hno).
  apply (rounds_ok_change s s' n m m (round_id r)); try done.
  - intros pd Hpd. congruence.
  - intros v Hv. congruence.
Qed.

(** The active round's result is staged. *)
Lemma rounds_ok_staged s s' n m r ps pd :
  rounds_ok s n m -> active s r -> persistent s' !! K_ActiveRound = None ->
  agree (λ k, elsewhere (round_id r) k = true) s s' -> pd_round pd = r -> book s' r ps ->
  disputes s' (<[round_id r := pd]> m) -> rounds_ok s' n (<[round_id r := pd]> m).
Proof.
  intros H Hact Hna Ha Hr Hb Hd.
  destruct (ro_active _ _ _ H _ Hact) as (r0 & ? & [= <-] & _ & Hle & Hno).
  apply (rounds_ok_change s s' n m _ (round_id r)); try done.
  - intros rid' Hne. by rewrite lookup_insert_ne.
  - intros pd'. rewrite lookup_insert_eq. intros [= <-]. rewrite Hr. by split; [|exists ps].
  - intros v Hv. congruence.
Qed.

(** A staged result is voided or finalized. *)
Lemma rounds_ok_unstaged s s' n m rid pd :
  rounds_ok s n m -> m !! rid = Some pd -> disputes s' (delete rid m) ->
  agree (λ k, elsewhere rid k = true) s s' ->
  (persistent s' !! K_ActiveRound = None ∨
   persistent s' !! K_ActiveRound = persistent s !! K_ActiveRound) ->
  rounds_ok s' n (delete rid m).
Proof.
  intros H Hpd Hd Ha Hact. destruct (ro_staged _ _ _ H _ _ Hpd) as (Hid & Hle & _).
  apply (rounds_ok_change s s' n m (delete rid m) rid); try done.
  - intros rid' Hne. by rewrite lookup_delete_ne.
  - intros pd'. by rewrite lookup_delete_eq.
  - intros v Hv. right. destruct Hact as [Hact|Hact]; [congruence|]. rewrite Hact in Hv.
    split; [done|]. intros r ->. destruct (ro_active _ _ _ H _ Hv) as (r0 & ? & [= <-] & _ & _ & Hno).
    congruence.
Qed.
