(* ===== verification/Invariant.v ===== *)
(** * The invariant of the whole contract

    Every entry point keeps the rounds in order ([Rounds]), the accounts and
    reserves signed ([Solvency]) and the value held conserved: only a mint
    creates value, only the end of a round and the execution of a governance
    action may lose any. *)

From S2P Require Export Rounds.

(** ** What the calls write *)

Definition touches_rounds (call : Call) : bool :=
  match call with
  | OnRound (c_set_round_template _ _) | OnRound c_clear_round_template
  | OnRound (c_set_dispute_ledgers _) | OnRound (c_mint_initial _) | OnRound (c_claim_winnings _) | OnRound (c_claim_many _) => false
  | OnRound _ => true
  | _ => false
  end.

(** The slots of the other rounds, the staged results included. *)
Definition outside (rid : Z) (k : Key) : bool :=
  elsewhere rid k || match k with KSym n => String.eqb n "PendingDisputes" | _ => false end.

Ltac outside_ne Hk := intros <-; unfold outside in Hk; cbn in Hk; rewrite ?Z.eqb_refl in Hk; discriminate.

Lemma outside_elsewhere rid k : elsewhere rid k = true -> outside rid k = true.
Proof. unfold outside. by intros ->. Qed.

#[export] Instance bookless_outside rid : Bookless (λ k, outside rid k = true).
Proof.
  unfold outside. split; intros k Hk; rewrite orb_true_iff; intros [H|H]; revert Hk.
  - intros Hk. by eapply (bl_history (P := λ k, elsewhere rid k = true)).
  - by destruct k.
  - intros Hk. by eapply (bl_leaderboard (P := λ k, elsewhere rid k = true)).
  - by destruct k.
Qed.

Ltac outside_frame :=
  frame_calls ltac:(let H := fresh in intros H; unfold outside in H; cbn in H; rewrite ?Z.eqb_refl in H; discriminate).

Ltac elsewhere_frame :=
  frame_calls ltac:(let H := fresh in intros H; cbn in H; rewrite ?Z.eqb_refl in H; discriminate).

Lemma frame_rounds `{HostCrypto} call :
  touches_rounds call = false -> frame (λ k, round_slot k = true) (dispatch call).
Proof.
  destruct call as [call|call|call|call|call|call|call|call]; destruct call;
    try discriminate; intros _; cbn; core_frame.
Qed.
Lemma else_settle r fp conf : frame (λ k, elsewhere (round_id r) k = true) (_settle_round_with_price r fp conf).
Proof. elsewhere_frame. Qed.
Lemma else_void rid : frame (λ k, elsewhere rid k = true) (void_round rid).
Proof. elsewhere_frame. Qed.

(** ** The guards of a resolution *)

Definition guarded (k : Key) : bool := core_key k || waiting_key k.

#[export] Instance bookless_guarded : Bookless (λ k, guarded k = true).
Proof. bookless. Qed.

(** Step over guards, keeping how the first state [s] and the current one agree. *)
Lemma wp_past {A B} P (m : M A) (f : A -> M B) (Q : B -> State -> Prop) c s t :
  agree P s t -> frame P m -> (∀ a t', agree P s t' -> wp (f a) Q c t') -> wp (m ≫= f) Q c t.
Proof.
  intros Ha Hm HQ. apply wp_bind, (wp_frame _ m _ _ _ Hm). intros a t' H. apply HQ. by etrans.
Qed.

Lemma wp_past_active {B} (f : Round -> M B) e (Q : B -> State -> Prop) c s t :
  agree (λ k, guarded k = true) s t -> (∀ r, active s r -> wp (f r) Q c t) ->
  wp (pget_ok cRound K_ActiveRound e ≫= f) Q c t.
Proof. intros Ha HQ. apply wp_bind, wp_pget_ok. intros x Hx. rewrite Ha in Hx by done. by apply HQ. Qed.

Ltac past_guards :=
  repeat match goal with
  | Ha : agree _ ?s ?t |- wp (pget_ok cRound K_ActiveRound _ ≫= _) _ _ ?t =>
      apply (wp_past_active _ _ _ _ s t Ha); intros r Hact
  | Ha : agree _ ?s ?t |- wp (_ ≫= _) _ _ ?t =>
      apply (wp_past _ _ _ _ _ s t Ha); [core_frame|clear Ha; intros ? ? Ha]
  end.

Section Resolving.
Context `{HostCrypto}.

(** What resolving does once its guards have passed. *)
Lemma wp_resolved p (Q : () -> State -> Prop) c s :
  (∀ r t, active s r -> agree (λ k, guarded k = true) s t ->
     wp (_settle_round_with_price r (price p) (confidence p)) Q c t) ->
  wp (resolve_round p) Q c s.
Proof.
  intros HQ. unfold resolve_round.
  assert (agree (λ k, guarded k = true) s s) as Ha by done.
  past_guards. by apply HQ.
Qed.

Lemma wp_resolved_multi p (Q : () -> State -> Prop) c s :
  (∀ r median t, active s r -> agree (λ k, guarded k = true) s t ->
     wp (_settle_round_with_price r median None) Q c t) ->
  wp (resolve_round_multi p) Q c s.
Proof.
  intros HQ. unfold resolve_round_multi.
  assert (agree (λ k, guarded k = true) s s) as Ha by done.
  past_guards. by apply HQ.
Qed.
End Resolving.

(** ** The calls keep the rounds *)

(** What a call leaves behind: a state with its rounds in order, and the value
    there was, less what is lost when a round ends. *)
Definition in_order (s : State) : Prop := ∃ n m, rounds_ok s n m.
Definition conserved (exact : bool) (s s' : State) : Prop :=
  if exact then total s' = total s else total s' ≤ total s.
Definition orderly (exact : bool) (s s' : State) : Prop :=
  in_order s' ∧ (total s ≤ I128_MAX -> conserved exact s s').

Lemma rounds_active s n m r : rounds_ok s n m -> active s r ->
  ∃ ps, book s r ps ∧ round_id r ≤ n ∧ m !! round_id r = None.
Proof. intros H Ha. destruct (ro_active _ _ _ H _ Ha) as (r0 & ps & [= <-] & ? & ? & ?). eauto. Qed.

Lemma rounds_opened s s' n m r :
  rounds_ok s n m -> persistent s !! K_ActiveRound = None -> round_id r = n + 1 ->
  pool_up r = 0 -> pool_down r = 0 ->
  persistent s' = <[K_RoundStartLedger (start_ledger r) := VU64 (round_id r)]>
       (<[K_ActiveRound := VRound r]> (<[K_LastRoundId := VU64 (round_id r)]> (persistent s))) ->
  rounds_ok s' (n + 1) m.
Proof.
  intros [Hl Hd Hf Hac Hst] Hna Hid Hu Hdn Hs'.
  assert (∀ rid, agree (round_key rid) s s') as Ha.
  { intros rid k Hk. rewrite Hs', !lookup_insert_ne; [done|..]; intros <-; by simpl in Hk. }
  split.
  - exists (Some (n + 1)). split; [lchain; by rewrite Hid|done].
  - eapply disputes_same; [done|by lchain].
  - intros rid Hrid. eapply unopened_agree; [apply Ha|]. apply Hf. lia.
  - intros v Hv. rewrite Hs' in Hv. revert Hv. lchain. intros [= <-]. exists r, [].
    split_and!; [done| |lia|].
    + apply book_empty; [|done..]. eapply unopened_agree; [apply Ha|]. apply Hf. lia.
    + destruct (m !! round_id r) eqn:E; [|done]. apply Hst in E as (_ & ? & _). lia.
  - intros rid pd (? & ? & ps & Hb)%Hst. split_and!; [done|lia|]. exists ps.
    by eapply book_agree; [apply Ha|].
Qed.

Lemma orderly_create p md c s :
  in_order s -> wp (create_round p md) (λ _ s', orderly true s s') c s.
Proof.
  intros (n & m & H). apply wp_create_round.
  intros last bet run r t Hna Hfresh Hlast Hbet Hrun Hpr Hm Hid Hr Hend Hs'.
  destruct (ro_last _ _ _ H) as (o & Ho & ->).
  assert (default 0 last = default 0 o) as Hlo
    by (rewrite Ho in Hlast; destruct o, last; simpl in *; congruence).
  rewrite Hlo in *. split.
  - assert (start_ledger r = sequence c) as Hsl by by rewrite Hr.
    eexists _, m. eapply (rounds_opened s t _ m r); try done; try (by rewrite Hr). by rewrite Hsl.
  - intros _. unfold conserved. stack_money Hs'.
Qed.

(** The active round changes and its book is kept. *)
Lemma orderly_staked s s' r r' ps ps' :
  in_order s -> active s r -> book s r ps -> active s' r' -> round_id r' = round_id r ->
  book s' r' ps' -> total s' = total s ->
  agree (λ k, outside (round_id r) k = true) s s' -> orderly true s s'.
Proof.
  intros (n & m & H) Hact Hb Hact' Hid Hb' Ht Ha. split; [|unfold conserved; lia]. exists n, m.
  eapply (rounds_ok_active s s' n m r r'); try done; [|by apply Ha].
  intros k Hk. by apply Ha, outside_elsewhere.
Qed.

Lemma orderly_bet u a side c s : in_order s -> wp (place_bet u a side) (λ _ s', orderly true s s') c s.
Proof.
  intros Ho. pose proof Ho as (n & m & H). apply wp_place_bet.
  intros r r' bal o t Hact Hbal Hps Hpos Hm Hopen Ha Hpool Hs'.
  destruct (rounds_active _ _ _ _ H Hact) as (ps & Hb & _).
  pose proof (book_participants _ _ _ _ Hb Hps) as <-.
  assert (u ∉ default [] o) as Hnew by (eapply unlisted; [done|by rewrite Hm]).
  destruct (bet_book _ _ _ _ _ _ _ _ _ Hb Hnew Hm Hbal Ha Hpool Hs') as (Hact' & Hid & Hb' & _ & _ & Ht).
  eapply (orderly_staked s t r r'); try done.
  intros k Hk. rewrite Hs', !lookup_insert_ne; [done|..]; outside_ne Hk.
Qed.

Lemma orderly_stake_effect s t r bal o u a k v :
  in_order s -> active s r -> persistent s !! K_RoundParticipants (round_id r) = enc cAddrs <$> o ->
  persistent s !! K_PrecisionPosition (round_id r) u = None ->
  persistent s !! K_PrecisionCommitment (round_id r) u = None -> mode r = Precision ->
  persistent s !! K_Balance u = enc cI128 <$> bal -> 0 < a ≤ default 0 bal ->
  persistent t = stake_effect u a r bal o k v (persistent s) ->
  (k = K_PrecisionPosition (round_id r) u ∧
   (∃ p, v = VPrediction {| pred_user := u; predicted_price := p; pred_amount := a |}) ∨
   k = K_PrecisionCommitment (round_id r) u ∧
   (∃ h, v = VCommitment {| com_hash := h; com_amount := a; revealed := false |})) ->
  orderly true s t.
Proof.
  intros Ho Hact Hps Hpred Hcom Hm Hbal Ha Ht Hkv. pose proof Ho as (n & m & H).
  destruct (rounds_active _ _ _ _ H Hact) as (ps & Hb & _).
  pose proof (book_participants _ _ _ _ Hb Hps) as <-.
  assert (u ∉ default [] o) as Hnew by (eapply unlisted; [done|by rewrite Hm]).
  destruct (book_vacant _ _ _ Hb _ Hnew) as (V1 & V2 & V3). unfold pos_at, pred_at, com_at in *.
  assert (active t r ∧ book t r (default [] o ++ [u]) ∧ moved_stake s t u a) as (Hact' & Hb' & _ & _ & Htot).
  { eapply stake_effect_book; try done; [naive_solver|destruct Hkv as [[_ [? ->]]|[_ [? ->]]]; done|].
    unfold stake_effect, entry, pos_at, pred_at, com_at in *.
    destruct Hkv as [[-> [p ->]]|[-> [h ->]]]; (split; [by lchain|]); [left|right; left];
      eexists; (split_and!; [by lchain..|simpl; lia|done]). }
  eapply (orderly_staked s t r r); try done. intros k' Hk'. unfold stake_effect in Ht.
  rewrite Ht, !lookup_insert_ne; [done|..]; destruct Hkv as [[-> _]|[-> _]]; outside_ne Hk'.
Qed.

Lemma orderly_predict u a p c s :
  in_order s -> wp (place_precision_prediction u a p) (λ _ s', orderly true s s') c s.
Proof.
  intros Ho. apply wp_place_precision. intros. eapply orderly_stake_effect; try done. eauto.
Qed.

Lemma orderly_commit u h a c s :
  in_order s -> wp (commit_prediction u h a) (λ _ s', orderly true s s') c s.
Proof. intros Ho. apply wp_commit. intros. eapply orderly_stake_effect; try done. eauto. Qed.

Lemma orderly_reveal `{HostCrypto} u p salt c s :
  in_order s -> wp (reveal_prediction u p salt) (λ _ s', orderly true s s') c s.
Proof.
  intros Ho. pose proof Ho as (n & m & Hr). apply wp_reveal.
  intros r cm t Hact Hcm Hm Hwin Hrev Hhash Hsalt Ht.
  destruct (rounds_active _ _ _ _ Hr Hact) as (ps & Hb & _).
  destruct (reveal_book _ _ _ _ _ _ _ Hb Hm Hcm Hrev Ht) as (_ & Hb' & Htot).
  eapply (orderly_staked s t r r); try done; [unfold active; by lchain|].
  intros k Hk. rewrite Ht, !lookup_insert_ne; [done|..]; outside_ne Hk.
Qed.

Lemma orderly_cash_out u c s :
  ok valued s -> in_order s -> wp (cash_out_early u) (λ _ s', orderly true s s') c s.
Proof.
  intros Hok Ho. pose proof Ho as (n & m & H). apply wp_cash_out; [intros b; by apply (ok_cashout valued)|].
  intros r r' p o b t Hact Hpos Hps Hm Hwin Ha Htake [_ _ _ _ Htot] Hact2 Hpos2 Hps2 Hsame.
  destruct (rounds_active _ _ _ _ H Hact) as (ps & Hb & _).
  pose proof (book_participants _ _ _ _ Hb Hps) as <-.
  destruct (cash_book _ _ _ _ _ _ _ Hb Hm Hpos Htake Hpos2 Hps2 Hsame) as (_ & Hid & Hb').
  eapply (orderly_staked s t r r'); try done.
  intros k Hk. unfold outside in Hk. apply Hsame; unfold cashout_key; intros Hk';
    destruct_or? Hk'; subst; cbn in Hk; rewrite ?Z.eqb_refl in Hk; discriminate.
Qed.

(** ** Ending rounds keeps the rest in order *)

Lemma settled_total s r ps fp fee s' : settled s r ps fp fee s' -> total s' ≤ total s.
Proof. unfold settled. destruct (mode r); [intros [_ _ _ ? _ _]; lia|intros [_ _ _ ? _]; lia]. Qed.

Lemma valued_guarded k : valued k = true -> guarded k = true.
Proof. intros Hk. unfold guarded. by rewrite valued_core. Qed.

Lemma round_guarded k : round_slot k = true -> guarded k = true.
Proof.
  unfold guarded, round_slot, core_key. destruct k as [n [|[] [|[] [|]]]| | |]; try done; simpl;
    rewrite ?orb_true_iff, ?bool_decide_eq_true, ?String.eqb_eq; set_solver.
Qed.

Lemma tracked_guarded k : tracked valued k = true -> guarded k = true.
Proof.
  unfold tracked, guarded. rewrite !orb_true_iff. intros [[H|H]|H]; [|left|by right].
  - left. by apply valued_core.
  - unfold rate_key, core_key in *. destruct k as [n [|[] [|]]| | |]; try done.
    rewrite !orb_true_iff, !String.eqb_eq in H. destruct H as [-> | ->]; done.
Qed.

Lemma guarded_ok s t : agree (λ k, guarded k = true) s t -> ok valued s -> ok valued t.
Proof. intros Ha Hok. eapply ok_agree; [exact Hok|]. intros k Hk. by apply Ha, tracked_guarded. Qed.

Lemma guarded_book s t r ps : agree (λ k, guarded k = true) s t -> book s r ps -> book t r ps.
Proof.
  intros Ha. apply book_agree. intros k Hk. by eapply Ha, round_guarded, round_key_slot.
Qed.

Lemma orderly_settle s t r fp conf c :
  ok valued t -> in_order s -> active s r -> agree (λ k, guarded k = true) s t ->
  wp (_settle_round_with_price r fp conf) (λ _ s', orderly false s s') c t.
Proof.
  intros Hok (n & m & H) Hact Ha.
  assert (rounds_ok t n m) as Ht.
  { eapply rounds_ok_agree; [|exact H]. intros k Hk. apply Ha, round_guarded, Hk. }
  assert (total t = total s) as Htot by by eapply agree_total; [apply valued_guarded|].
  assert (active t r) as Hact' by (unfold active; by rewrite Ha).
  destruct (rounds_active _ _ _ _ Ht Hact') as (ps & Hb & Hle & Hno).
  eapply wp_mono; [apply (wp_and _ (λ _ s', price_outcome r ps fp conf c t m s' ∧
    persistent s' !! K_ActiveRound = None) (λ _ s', agree (λ k, elsewhere (round_id r) k = true) t s'))|].
  - apply (wp_settle_with_price r ps fp conf c t m Hb (ok_fee_config _ _ Hok) (ro_disputes _ _ _ Ht)); auto.
  - eapply wp_frame; [apply else_settle|auto].
  - intros _ s' [[Hout Hna] He].
    destruct Hout as [(_ & (_ & Htt & _) & Hd)|[(_ & d & _ & _ & Hd & Hb' & Htt & _)|(_ & _ & (fee & Hs) & Hd)]].
    + split; [|unfold conserved; lia]. exists n, m. by eapply (rounds_ok_ended t).
    + split; [|unfold conserved; lia]. exists n. eexists. by apply (rounds_ok_staged t s' n m r ps (staged r fp conf (sequence c) d) Ht Hact' Hna He eq_refl Hb' Hd).
    + pose proof (settled_total _ _ _ _ _ _ Hs). split; [|unfold conserved; lia]. exists n, m. by eapply (rounds_ok_ended t).
Qed.

(** What a run has shown may be used to specify it. *)
Lemma wp_know {A} (P : Prop) (m : M A) (Q : A -> State -> Prop) c s :
  wp m (λ _ _, P) c s -> (P -> wp m Q c s) -> wp m Q c s.
Proof. intros HP HQ a s' E. by apply HQ; [eapply HP|]. Qed.

Lemma wp_cancel_outside reason c s :
  wp (cancel_round reason) (λ _ s', ∃ r, active s r ∧ persistent s' !! K_ActiveRound = None ∧
    agree (λ k, outside (round_id r) k = true) s s') c s.
Proof.
  unfold cancel_round. wp_ro. wp_step; wp_step. do 5 wp_step. rename x0 into r.
  assert (active s r) as Hact by (unfold active; plook).
  assert (agree (λ k, outside (round_id r) k = true) s s') as Ha by (intros k _; by pchain).
  repeat match goal with
  | |- wp (_ ≫= _) _ _ ?t => apply (wp_past _ _ _ _ _ s t Ha); [outside_frame|clear Ha; intros ? ? Ha]
  | |- wp (match ?x with _ => _ end) _ _ _ => destruct x
  end.
  wp_step. exists r. split_and!; [done|by lchain|]. etrans; [exact Ha|].
  intros k Hk. rewrite H3, lookup_delete_ne; [done|outside_ne Hk].
Qed.

Lemma ok_weight s k v : ok valued s -> persistent s !! k = Some v -> 0 ≤ weight k v.
Proof.
  intros Hok Hv. unfold weight. destruct (valued k) eqn:Hk; [|done]. by apply (ok_value valued s k).
Qed.

Definition stake_slots (rid : Z) (u : Address) : list Key :=
  [K_Position rid u; K_PrecisionPosition rid u; K_PrecisionCommitment rid u].

Lemma stake_slots_nodup rid ps : NoDup ps -> NoDup (ps ≫= stake_slots rid).
Proof.
  induction 1 as [|u ps Hu Hnd IH]; [constructor|]. cbn [mbind list_bind]. apply NoDup_app. split_and!; [| |done].
  - unfold stake_slots. repeat constructor; set_solver.
  - intros k Hk Hin. apply list_elem_of_bind in Hin as (v & Hv & Hin).
    assert (u = v) as ->; [|done]. unfold stake_slots in *. set_unfold. naive_solver.
Qed.

(** The stakes of a book are part of the total. *)
Lemma book_sum s r ps : ok valued s -> book s r ps -> zsum (stake s (round_id r)) ps ≤ total s.
Proof.
  intros Hok Hb. etrans; [|apply (msum_slots weight (ps ≫= stake_slots (round_id r)))].
  - clear Hb. induction ps as [|u ps IH]; [done|]. cbn [mbind list_bind]. rewrite zsum_app. cbn [zsum].
    unfold stake_slots at 1. cbn [zsum]. unfold stake, slot in *. lia.
  - apply stake_slots_nodup, Hb.
  - intros k v. by apply ok_weight.
Qed.

Lemma orderly_cancel reason c s :
  ok valued s -> in_order s -> wp (cancel_round reason) (λ _ s', orderly false s s') c s.
Proof.
  intros Hok (n & m & H).
  apply (wp_know (∃ r, active s r)).
  { eapply wp_mono; [apply wp_cancel_outside|]. by intros _ s' (r & ? & _); exists r. }
  intros [r Hact]. destruct (rounds_active _ _ _ _ H Hact) as (ps & Hb & Hle & Hno).
  eapply wp_mono; [apply (wp_and _ _ (λ _ s', total s ≤ I128_MAX -> conserved false s s') _ _ (wp_cancel_outside reason c s))|].
  - intros a s' E Hmax. revert a s' E. pose proof (book_sum _ _ _ Hok Hb).
    apply (wp_cancel_round reason r ps); [done..|lia|]. intros s' [_ _ Ht _ _ _ _]. unfold conserved. lia.
  - intros _ s' [(r0 & Hact0 & Hna & Ha) Ht]. split; [|done]. exists n, m.
    apply (active_inj s r) in Hact0 as ->; [|done]. eapply (rounds_ok_ended s); try done.
    + intros k Hk. by apply Ha, outside_elsewhere.
    + eapply disputes_same; [apply H|by apply Ha].
Qed.

(** Voiding and finalizing need a staged result. *)
Lemma wp_void_known rid m c s :
  disputes s m -> wp (void_round rid) (λ _ _, ∃ pd, m !! rid = Some pd) c s.
Proof. intros Hm. apply (wp_staged m); [done|]. intros pd t Hpd _ ???. by exists pd. Qed.

Lemma wp_finalize_known rid m c s :
  disputes s m -> wp (finalize_round rid) (λ _ _, ∃ pd, m !! rid = Some pd) c s.
Proof. intros Hm. apply (wp_staged m); [done|]. intros pd t Hpd _ ???. by exists pd. Qed.

Lemma orderly_void rid c s :
  in_order s -> wp (void_round rid) (λ _ s', orderly true s s') c s.
Proof.
  intros (n & m & H). pose proof (ro_disputes _ _ _ H) as Hm.
  eapply wp_know; [by apply (wp_void_known rid m)|]. intros [pd Hpd].
  destruct (ro_staged _ _ _ H _ _ Hpd) as (Hid & Hle & ps & Hb).
  eapply wp_mono; [apply (wp_and _ (λ _ s', total s' = total s ∧ disputes s' (delete rid m) ∧
    persistent s' !! K_ActiveRound = persistent s !! K_ActiveRound) (λ _ s', agree (λ k, elsewhere rid k = true) s s'))|].
  - apply (wp_void rid m pd ps); auto.
  - eapply wp_frame; [apply else_void|auto].
  - intros _ s' [(Ht & Hd & Hna) Ha]. split; [|unfold conserved; lia]. exists n, (delete rid m).
    eapply rounds_ok_unstaged; eauto.
Qed.

Lemma else_finalize rid pd c s m :
  disputes s m -> m !! rid = Some pd -> round_id (pd_round pd) = rid ->
  wp (finalize_round rid) (λ _ s', agree (λ k, elsewhere rid k = true) s s') c s.
Proof.
  intros Hm Hpd <-. apply (wp_staged m); [done|]. intros pd' t Hpd' Hts.
  assert (pd' = pd) as -> by congruence.
  apply (wp_frame (λ k, elsewhere (round_id (pd_round pd)) k = true)); [elsewhere_frame|].
  intros _ t' Ha k Hk. by rewrite Ha, Hts.
Qed.

Lemma ok_finalize rid m pd ps c s :
  ok valued s -> disputes s m -> m !! rid = Some pd -> book s (pd_round pd) ps ->
  wp (finalize_round rid) (λ _ s', ok valued s') c s.
Proof.
  intros Hok Hm Hpd Hb. apply (wp_staged m); [done|]. intros pd' t Hpd' Hts.
  assert (pd' = pd) as -> by congruence. do 5 wp_step.
  apply (wp_ok_complete _ ps); [by eapply book_persistent|by eapply ok_same|].
  intros [f n0] s2 Hok2. apply (wp_tracked valued); [|done|auto]. frame_calls not_tracked.
Qed.

Lemma orderly_finalize rid c s :
  ok valued s -> in_order s -> wp (finalize_round rid) (λ _ s', ok valued s' ∧ orderly false s s') c s.
Proof.
  intros Hok (n & m & H). pose proof (ro_disputes _ _ _ H) as Hm.
  eapply wp_know; [by apply (wp_finalize_known rid m)|]. intros [pd Hpd].
  destruct (ro_staged _ _ _ H _ _ Hpd) as (Hid & Hle & ps & Hb).
  apply wp_and; [by eapply ok_finalize|].
  eapply wp_mono; [apply (wp_and _ (λ _ s', (∃ fee, settled s (pd_round pd) ps (pd_final_price pd) fee s') ∧
    disputes s' (delete rid m) ∧ persistent s' !! K_ActiveRound = None));
    [|by eapply (else_finalize rid pd)]|].
  - apply (wp_finalize rid m pd ps); [done..|by eapply ok_fee_config|eauto].
  - intros _ s' (((fee & Hs) & Hd & Hna) & Ha).
    pose proof (settled_total _ _ _ _ _ _ Hs). split; [|unfold conserved; lia]. exists n, (delete rid m).
    eapply rounds_ok_unstaged; eauto.
Qed.

(** ** Calls that leave the rounds alone *)

Lemma orderly_outside call exact c s `{HostCrypto} :
  touches_rounds call = false -> in_order s ->
  wp (dispatch call) (λ _ s', conserved exact s s') c s ->
  wp (dispatch call) (λ _ s', orderly exact s s') c s.
Proof.
  intros Ht (n & m & H1) Hwp.
  eapply wp_mono; [apply (wp_and _ _ (λ _ s', in_order s') _ _ Hwp)|].
  - eapply wp_frame; [by apply frame_rounds|]. intros _ s' Ha. exists n, m. by eapply rounds_ok_agree.
  - intros _ s' [? ?]. by split.
Qed.

Lemma wp_total {A} (m : M A) c s :
  frame (λ k, valued k = true) m -> wp m (λ _ s', conserved true s s') c s.
Proof. intros Hf. eapply wp_frame; [exact Hf|]. intros _ s' Ha. eapply agree_total; [|exact Ha]. done. Qed.

Lemma total_configures `{HostCrypto} call c s :
  configures call = true -> wp (dispatch call) (λ _ s', conserved true s s') c s.
Proof.
  intros Hc. eapply wp_frame; [by apply frame_configures|]. intros _ s' Ha.
  eapply agree_total; [|exact Ha]. apply valued_core.
Qed.

Lemma total_claim_many us c s : wp (claim_many us) (λ _ s', conserved true s s') c s.
Proof.
  unfold claim_many. wp_ro. wp_ro. do 4 wp_step.
  apply (wp_mfold (λ _ _ t, total t = total s)); [by apply total_same; pchain| |done].
  intros pre u post acc t _ Ht. unfold claim_one. wp_step. wp_step. wp_step.
  apply wp_claim_pending. intros ? t' [_ _ _ _ Ht' _]. wp_step. lia.
Qed.

Lemma total_claim u c s : wp (claim_winnings u) (λ _ s', conserved true s s') c s.
Proof.
  unfold claim_winnings. wp_ro. wp_step. wp_step. wp_ro. apply wp_claim_pending.
  intros ? t [_ _ _ _ Ht _]. unfold conserved. rewrite Ht. apply total_same. by pchain.
Qed.

Lemma total_reclaim u c s : wp (reclaim_expired_pending_winnings u) (λ _ s', conserved true s s') c s.
Proof.
  unfold reclaim_expired_pending_winnings. wp_ro. do 2 wp_step. wp_step. apply wp_throw_if. intros _.
  do 2 wp_step. wp_step. apply wp_throw_if. intros _. do 4 wp_step. wp_step. apply wp_throw_if. intros _.
  do 4 wp_step. wp_step. apply wp_balance. intros s4 b Hs4 Hb. wp_step. wp_step. arith_inv.
  wp_step. apply wp_set_balance. intros s5 Hs5. wp_step. wp_step. wp_step. unfold conserved. money.
Qed.
Lemma total_withdraw_fee u a c s : wp (withdraw_protocol_fee u a) (λ _ s', conserved true s s') c s.
Proof.
  unfold withdraw_protocol_fee. wp_ro. wp_step. wp_step. wp_step. wp_step. wp_ro. wp_step. wp_step. wp_ro.
  change (λ _ s', conserved true s s') with (λ (_ : Z) s', conserved true s s').
  apply (wp_pay_out K_ProtocolFeeTreasury u a _ _ _ (λ x, emit "protocol" "fee_with" [VAddr u; VI128 a; VI128 x])); [done..|auto with frame|].
  intros t [_ _ _ Ht _]. unfold conserved. rewrite Ht. apply total_same. by pchain.
Qed.
Lemma total_withdraw_insurance u a c s : wp (withdraw_insurance_fund u a) (λ _ s', conserved true s s') c s.
Proof.
  unfold withdraw_insurance_fund.  wp_step. wp_step. wp_step. wp_step. wp_ro. wp_step. wp_step. wp_ro.
  apply wp_withdraw_insurance.
  intros t [_ _ _ Ht _]. unfold conserved. rewrite Ht. apply total_same. by pchain.
Qed.
Lemma total_top_up a c s : wp (top_up_insurance_fund a) (λ _ s', conserved true s s') c s.
Proof.
  unfold top_up_insurance_fund. wp_ro. wp_step. wp_step. wp_step. apply wp_balance. intros s4 b Hs4 Hb.
  do 4 wp_step. arith_inv. wp_step. apply wp_set_balance. intros s5 Hs5. do 6 wp_step. arith_inv.
  wp_step. apply wp_extend. intros. wp_step. unfold conserved. money.
Qed.

Lemma total_mint u c s :
  wp (mint_initial u) (λ _ s', total s ≤ total s' ≤ total s + INITIAL_AMOUNT) c s.
Proof.
  apply wp_mint.
  - intros b t _ Ht. rewrite (total_same s t) by done. unfold INITIAL_AMOUNT. lia.
  - intros t Hb%slot_none Ht. assert (total t = total s + INITIAL_AMOUNT) by stack_money Ht.
    unfold INITIAL_AMOUNT in *. lia.
Qed.

Lemma total_execute u id c s :
  ok valued s -> wp (execute u id) (λ _ s', conserved false s s') c s.
Proof.
  intros Hok. apply wp_execute. intros p t s' _ _ _ _ _ Ht Hs'.
  unfold conserved. assert (total s' = total t) as -> by stack_money Hs'.
  destruct (gp_action p); cbn in Ht;
    try (destruct Ht as [Ha _]; apply Z.eq_le_incl; eapply agree_total; [|exact Ha]; by intros k Hk ->).
  - destruct Ht as [_ _ _ Ht _]. lia.
  - pose proof (ok_slot _ _ K_ProtocolFeeTreasury Hok eq_refl). assert (total t = total s - slot s K_ProtocolFeeTreasury) by stack_money Ht. lia.
  - assert (total t = total s) by stack_money Ht. lia.
  - assert (total t = total s) by stack_money Ht. lia.
  - destruct Ht as [_ _ _ Ht _]. lia.
  - destruct Ht as [_ Ht]. assert (total t = total s) by stack_money Ht. lia.
  - destruct Ht as [_ Ht]. assert (total t = total s) by stack_money Ht. lia.
Qed.

(** ** One call *)

(** The calls that may lose value to rounding, or hand the treasury over. *)
Definition lossy (call : Call) : bool :=
  match call with
  | OnRound (c_resolve_round _) | OnRound (c_resolve_round_multi _) | OnRound (c_cancel_round _)
  | OnRound (c_finalize_round _) | OnGov (c_execute_gov_proposal _ _) => true
  | _ => false
  end.

Definition mints (call : Call) : bool := match call with OnRound (c_mint_initial _) => true | _ => false end.

Lemma wp_forget {A} (m : M A) (P : State -> Prop) c s :
  wp m (λ _ s', P s') c s -> wp (forget m) (λ _ s', P s') c s.
Proof. intros H. apply wp_bind. eapply wp_mono; [exact H|]. intros a s' HP. by apply wp_ret. Qed.

#[export] Instance bookless_valued : Bookless vkeys.
Proof. split; intros k Hk; [by rewrite history_unvalued|by rewrite lb_unvalued]. Qed.

Create HintDb value discriminated.
#[export] Hint Resolve total_claim total_claim_many total_reclaim total_withdraw_fee
  total_withdraw_insurance total_top_up total_execute wp_forget : value.
#[export] Hint Extern 5 (wp _ (λ _ s', conserved true _ s') _ _) =>
  apply wp_total; core_frame : value.

Lemma total_quiet `{HostCrypto} call c s :
  touches_rounds call = false -> mints call = false -> ok valued s ->
  wp (dispatch call) (λ _ s', conserved (negb (lossy call)) s s') c s.
Proof.
  intros Ht Hm Hok. destruct (configures call) eqn:Hc.
  - assert (lossy call = false) as -> by (by destruct call as [| | |[]| | |[]|]).
    by apply total_configures.
  - destruct call as [call|call|call|call|call|call|call|call]; destruct call; try discriminate;
      cbn [dispatch dispatch_gov dispatch_schedule dispatch_config dispatch_round dispatch_reserve lossy negb];
      auto with value.
Qed.

Lemma orderly_forget {A} (m : M A) b c s :
  wp m (λ _ s', orderly b s s') c s -> wp (forget m) (λ _ s', orderly b s s') c s.
Proof. apply (wp_forget m (orderly b s)). Qed.

Lemma in_order_same s t : persistent t = persistent s -> in_order s -> in_order t.
Proof.
  intros Ht (n & m & H). exists n, m. eapply rounds_ok_agree; [|exact H]. intros k _. by rewrite Ht.
Qed.

Lemma orderly_same b s t s' t' :
  persistent t = persistent s -> persistent t' = persistent s' -> orderly b t s' -> orderly b s t'.
Proof.
  intros Ht Ht' [Ho Hc]. split; [by eapply in_order_same|]. revert Hc. unfold conserved.
  by rewrite (total_same s t), (total_same s' t') by done.
Qed.

Lemma orderly_template c s :
  in_order s -> wp create_next_from_template (λ _ s', orderly true s s') c s.
Proof.
  intros Ho. unfold create_next_from_template. wp_ro. wp_step. wp_step. wp_step. wp_step. wp_ro.
  do 3 wp_step. wp_step. eapply wp_mono; [apply orderly_create; eapply in_order_same; [|done]; by pchain|].
  intros ? t Ht. do 5 wp_step. eapply orderly_same; [..|exact Ht]; by pchain.
Qed.

(** Every call but a mint keeps the rounds in order and the value conserved. *)
Lemma orderly_dispatch `{HostCrypto} call c s :
  mints call = false -> ok valued s -> in_order s ->
  wp (dispatch call) (λ _ s', orderly (negb (lossy call)) s s') c s.
Proof.
  intros Hm Hok Ho. destruct (touches_rounds call) eqn:Ht.
  - destruct call as [| | | | | |[]|]; try discriminate; cbn [dispatch dispatch_round lossy negb].
    + by apply orderly_create.
    + by apply orderly_forget, orderly_template.
    + by apply orderly_bet.
    + by apply orderly_predict.
    + by apply orderly_predict.
    + by apply orderly_commit.
    + by apply orderly_reveal.
    + apply wp_resolved. intros r t Hact Ha. apply orderly_settle; try done.
      by eapply guarded_ok.
    + apply wp_resolved_multi. intros r p t Hact Ha. apply orderly_settle; try done.
      by eapply guarded_ok.
    + by apply orderly_cancel.
    + by apply orderly_cash_out.
    + by apply orderly_void.
    + eapply wp_mono; [by apply orderly_finalize|]. by intros _ s' [].
  - apply orderly_outside; [done..|]. by apply total_quiet.
Qed.

(** The signs, for every call. *)
Lemma ok_step `{HostCrypto} call c s :
  typed_call call -> ok valued s -> in_order s -> wp (dispatch call) (λ _ s', ok valued s') c s.
Proof.
  intros Ht Hok Ho. destruct (settles_call call) eqn:Hs; [|by apply ok_dispatch].
  pose proof Ho as (n & m & Hr).
  destruct call as [| | | | | |[]|]; try discriminate; cbn [dispatch dispatch_round].
  - apply wp_resolved. intros r t Hact Ha. destruct (rounds_active _ _ _ _ Hr Hact) as (ps & Hb & _).
    apply (wp_ok_settle_with_price r ps); [by eapply guarded_book|by eapply guarded_ok].
  - apply wp_resolved_multi. intros r p t Hact Ha. destruct (rounds_active _ _ _ _ Hr Hact) as (ps & Hb & _).
    apply (wp_ok_settle_with_price r ps); [by eapply guarded_book|by eapply guarded_ok].
  - eapply wp_mono; [by apply orderly_finalize|]. by intros _ s' [].
Qed.
