(* ===== verification/Trace.v ===== *)
(** * Every reachable state

    The contract run from its deployment by any sequence of calls, in any
    context; a call that fails leaves the state as it was.  The theorems of this
    file hold of every state so reached. *)

From S2P Require Export Invariant Typing Modes Claims.

Section Trace.
Context `{HostCrypto}.

(** ** Runs *)

Definition after_call (call : Call) (c : Ctx) (s : State) : State := (invoke (dispatch call) c s).2.

(** [reachable n s]: [s] is reached from deployment with [n] calls of
    [mint_initial] among the calls. *)
Inductive reachable : Z -> State -> Prop :=
  | reachable_fresh : reachable 0 empty_state
  | reachable_call n s call c :
      reachable n s -> typed_call call ->
      reachable (n + if mints call then 1 else 0) (after_call call c s).

(** The same, executable: the state after a list of calls. *)
Definition play (calls : list (Ctx * Call)) (s : State) : State :=
  fold_left (λ s cc, after_call cc.2 cc.1 s) calls s.

Definition mint_count (calls : list (Ctx * Call)) : Z :=
  zsum (λ cc, if mints cc.2 then 1 else 0) calls.

Lemma play_reachable calls n s :
  reachable n s -> Forall (λ cc, typed_call cc.2) calls ->
  reachable (n + mint_count calls) (play calls s).
Proof.
  revert n s. unfold mint_count. induction calls as [|[c call] calls IH]; intros n s Hs Hall; cbn [zsum].
  - by rewrite Z.add_0_r.
  - apply Forall_cons in Hall as [Ht Hall]. cbn [play fold_left]. rewrite Z.add_assoc.
    apply IH; [|done]. by apply reachable_call.
Qed.

(** ** The invariants of a run *)

Lemma after_call_cases call c s (P : State -> Prop) :
  P s -> wp (dispatch call) (λ _ s', P s') c s -> P (after_call call c s).
Proof.
  intros Hs Hwp. unfold after_call, invoke. destruct (dispatch call c s) as [[[]|e|] s'] eqn:E; try done.
  by eapply Hwp.
Qed.

Lemma fresh_entry k : persistent empty_state !! k = None.
Proof. apply lookup_empty. Qed.

Lemma fresh_ok : ok valued empty_state.
Proof. intros k v. by rewrite fresh_entry. Qed.

Lemma fresh_in_order : in_order empty_state.
Proof.
  exists 0, ∅. split.
  - by exists None.
  - by exists None.
  - intros rid _. done.
  - intros v. by rewrite fresh_entry.
  - intros rid pd. by rewrite lookup_empty.
Qed.

Lemma in_order_call call c s :
  ok valued s -> in_order s -> wp (dispatch call) (λ _ s', in_order s') c s.
Proof.
  intros Hok Ho. destruct (mints call) eqn:Hm.
  - destruct Ho as (n & m & Hr). destruct call as [| | | | | |[]|]; try discriminate.
    eapply wp_frame; [by apply frame_rounds|]. intros _ s' Ha. exists n, m. by eapply rounds_ok_agree.
  - eapply wp_mono; [by apply orderly_dispatch|]. by intros _ s' [].
Qed.

Lemma reachable_sound n s : reachable n s -> ok valued s ∧ in_order s.
Proof.
  induction 1 as [|n s call c Hs [Hok Ho] Ht]; [split; [apply fresh_ok|apply fresh_in_order]|].
  split; apply after_call_cases; try done; [by apply ok_step|by apply in_order_call].
Qed.

Lemma total_call call c s :
  ok valued s -> in_order s -> total s ≤ I128_MAX ->
  total (after_call call c s) ≤ total s + if mints call then INITIAL_AMOUNT else 0.
Proof.
  intros Hok Ho Hmax. apply (after_call_cases _ _ _ (λ s', total s' ≤ _)).
  { assert (0 ≤ INITIAL_AMOUNT) by done. destruct (mints call); lia. }
  destruct (mints call) eqn:Hm.
  - destruct call as [| | | | | |[]|]; try discriminate. apply wp_forget with (P := λ s', total s' ≤ _).
    eapply wp_mono; [apply total_mint|]. intros b s' [_ ?]. done.
  - eapply wp_mono; [by apply orderly_dispatch|]. intros _ s' [_ Hc]. specialize (Hc Hmax).
    unfold conserved in Hc. destruct (negb (lossy call)); lia.
Qed.

Lemma ok_total s : ok valued s -> 0 ≤ total s.
Proof. intros Hok. apply msum_nonneg. intros k v. by apply ok_weight. Qed.

Lemma reachable_minted n s : reachable n s -> 0 ≤ n.
Proof. induction 1 as [|n s call c _ IH _]; [done|]. destruct (mints call); lia. Qed.

Lemma reachable_bounded n s :
  reachable n s -> n * INITIAL_AMOUNT ≤ I128_MAX -> total s ≤ n * INITIAL_AMOUNT.
Proof.
  induction 1 as [|n s call c Hs IH Ht]; intros Hmax; [done|].
  apply reachable_sound in Hs as Hsound. destruct Hsound as [Hok Ho].
  pose proof (reachable_minted _ _ Hs). assert (0 < INITIAL_AMOUNT) by done.
  assert (n * INITIAL_AMOUNT ≤ I128_MAX) as Hn by (destruct (mints call); nia).
  specialize (IH Hn). pose proof (total_call call c s Hok Ho ltac:(lia)).
  destruct (mints call); nia.
Qed.

Lemma reachable_types n s : reachable n s -> well_typed s.
Proof.
  induction 1 as [|n s call c Hs IH Ht]; [intros k v; by rewrite fresh_entry|].
  unfold after_call, invoke. pose proof (dispatch_keeps_types call c s IH) as Hk.
  by destruct (dispatch call c s) as [[] s'].
Qed.

(** C1: in every reachable state no account balance, pending winning, position,
    prediction, open commitment, treasury or insurance fund is negative, and the
    protocol fee and early cash-out rates are between 0 and the maximum. *)
Theorem reachable_solvent n s :
  reachable n s ->
  (∀ k v, persistent s !! k = Some v -> valued k = true -> 0 ≤ value_of v) ∧
  (∀ k b, persistent s !! k = Some (VU32 b) -> k = K_ProtocolFeeBps ∨ k = K_EarlyCashoutBps ->
          0 ≤ b ≤ MAX_PROTOCOL_FEE_BPS).
Proof.
  intros Hs. apply reachable_sound in Hs as [Hok _]. split.
  - intros k v Hv Hk. by apply (ok_value valued s k).
  - intros k b Hb Hk. apply (eo_rate _ _ _ (Hok _ _ Hb)); [by destruct Hk as [-> | ->]|done].
Qed.

(** C2: as long as the initial grants fit an [i128], what all the accounts,
    stakes and reserves of a reachable state hold together is never more than
    the grants given out. *)
Theorem reachable_supply n s :
  reachable n s -> n * INITIAL_AMOUNT ≤ I128_MAX -> 0 ≤ total s ≤ n * INITIAL_AMOUNT.
Proof.
  intros Hs Hn. split; [|by apply reachable_bounded]. by apply ok_total, (reachable_sound n).
Qed.

(** C3: in every reachable state the active round and each round in its dispute
    window has a book: distinct participants, one live stake each and none for
    anyone else, pools that add up; they are different rounds, opened already,
    and a round yet to be opened holds nothing. *)
Theorem reachable_rounds n s :
  reachable n s -> ∃ last m,
    last_round s last ∧ disputes s m ∧ (∀ rid, last < rid -> unopened s rid) ∧
    (∀ v, persistent s !! K_ActiveRound = Some v -> ∃ r ps,
       v = VRound r ∧ book s r ps ∧ round_id r ≤ last ∧ m !! round_id r = None) ∧
    (∀ rid pd, m !! rid = Some pd ->
       round_id (pd_round pd) = rid ∧ rid ≤ last ∧ ∃ ps, book s (pd_round pd) ps).
Proof. intros Hs. apply reachable_sound in Hs as [_ (last & m & [])]. by exists last, m. Qed.

(** C35: in every reachable state each persistent entry has the type its key
    stands for, so that a typed read of it does not trap; the exceptions are the
    treasury, which can hold an address, and the [Config] entry, which holds one
    of the three types that share it. *)
Theorem reachable_typed n s k v :
  reachable n s -> persistent s !! k = Some v -> ∃ sh, shape v = Some sh ∧ sh ∈ layout k.
Proof.
  intros Hs Hv. apply reachable_types in Hs. specialize (Hs k v Hv). unfold fits in Hs.
  destruct (shape v) as [sh|]; [|done]. apply bool_decide_eq_true in Hs. by exists sh.
Qed.

(** C33: a successful call of a reachable state that neither mints, nor ends a
    round by a price or a cancellation, nor executes a governance action keeps
    the value held exactly, as long as the initial grants fit an [i128]: it only
    moves it. *)
Theorem call_conserves_value n s call c s' :
  reachable n s -> n * INITIAL_AMOUNT ≤ I128_MAX -> mints call = false -> lossy call = false ->
  dispatch call c s = (Ok (), s') -> total s' = total s.
Proof.
  intros Hs Hn Hm Hl E. pose proof (reachable_bounded _ _ Hs Hn). apply reachable_sound in Hs as [Hok Ho].
  destruct (orderly_dispatch call c s Hm Hok Ho () s' E) as [_ Hc]. rewrite Hl in Hc. apply Hc. lia.
Qed.

(** ** Claiming *)

Lemma pair_bounded s u :
  ok valued s -> slot s (K_Balance u) + slot s (K_PendingWinnings u) ≤ total s.
Proof.
  intros Hok. etrans; [|apply (msum_slots weight [K_Balance u; K_PendingWinnings u] (persistent s))].
  - cbn [zsum]. unfold slot. lia.
  - repeat constructor; set_solver.
  - intros k v. by apply ok_weight.
Qed.

Definition supported (s : State) : Prop :=
  ∃ o, persistent s !! K_SchemaVersion = enc cU32 <$> o ∧ 1 ≤ default 1 o ≤ CURRENT_SCHEMA_VERSION.

(** The mode admits claims. *)
Definition claims_open (s : State) : Prop :=
  ∃ o, persistent s !! K_Paused = enc cRuntimeMode <$> o ∧ o ≠ Some FullyPaused.

Lemma run_schema_supported (Q : outcome Z -> State -> Prop) c s :
  supported s -> (∀ v s', persistent s' = persistent s -> Q (Ok v) s') ->
  run _require_supported_schema Q c s.
Proof.
  intros (o & Ho & Hv) HQ. eapply run_require_schema; [exact Ho|]. intros s' Hs'.
  destruct (_ || _) eqn:E; [|by apply HQ]. apply orb_true_iff in E as [E|E]; zbool; lia.
Qed.

Lemma run_claims_open (Q : outcome () -> State -> Prop) c s :
  claims_open s -> (∀ s', persistent s' = persistent s -> Q (Ok ()) s') ->
  run _ensure_not_paused Q c s.
Proof.
  intros (o & Ho & Hne) HQ. eapply run_policy_gate; [exact Ho|]. intros s' Hs'.
  destruct o as [[]|]; try done; by apply HQ.
Qed.

Lemma payout_add_fits a b : 0 ≤ a -> 0 ≤ b -> a + b ≤ I128_MAX -> payout_add a b = Ok (a + b).
Proof.
  intros Ha Hb Hab. apply payout_add_Ok. split; [done|]. unfold I128_MIN in *. lia.
Qed.

Lemma run_claim_pending u b p (Q : outcome Z -> State -> Prop) c s :
  persistent s !! K_Balance u = enc cI128 <$> b ->
  persistent s !! K_PendingWinnings u = enc cI128 <$> p ->
  0 ≤ default 0 b -> 0 ≤ default 0 p -> default 0 b + default 0 p ≤ I128_MAX ->
  (∀ s', Q (Ok (default 0 p)) s') -> run (claim_pending u) Q c s.
Proof.
  intros Hb Hp Hb0 Hp0 Hmax HQ. unfold claim_pending. run_step. eapply run_pget_or; [exact Hp|].
  destruct (_ =? 0) eqn:Hz; zbool; [rewrite Hz in *; by apply run_ret|].
  run_step. unfold balance. run_step. apply run_extend. intros s1 H1.
  eapply run_pget_or; [by rewrite H1|]. run_step. rewrite payout_add_fits by done. apply run_lift.
  do 4 run_step. run_step. unfold _set_balance. do 2 run_step. apply run_extend. intros s4 H4.
  do 2 run_step. run_step. apply HQ.
Qed.

(** C4: in every reachable state whose grants fit an [i128], a user who signs can
    claim: unless the contract is fully paused or its schema unsupported, the
    claim succeeds and moves exactly the pending winnings to the balance. *)
Theorem claim_always_succeeds n s u c :
  reachable n s -> n * INITIAL_AMOUNT ≤ I128_MAX ->
  supported s -> claims_open s -> authorised c u = true ->
  ∃ s', claim_winnings u c s = (Ok (slot s (K_PendingWinnings u)), s') ∧
    claimed u (slot s (K_PendingWinnings u)) s s'.
Proof.
  intros Hs Hn Hsup Hopen Hau. pose proof (reachable_bounded _ _ Hs Hn) as Htot.
  pose proof (reachable_types _ _ Hs) as Hty. apply reachable_sound in Hs as [Hok _].
  destruct (typed_slot cI128 (K_Balance u) s Hty) as [b Hb]; [typed_codec|].
  destruct (typed_slot cI128 (K_PendingWinnings u) s Hty) as [p Hp]; [typed_codec|].
  pose proof (ok_slot _ _ (K_Balance u) Hok eq_refl). pose proof (ok_slot _ _ (K_PendingWinnings u) Hok eq_refl).
  pose proof (pair_bounded s u Hok).
  rewrite (slot_i128 s (K_Balance u) b), (slot_i128 s (K_PendingWinnings u) p) in * by done.
  assert (run (claim_winnings u) (λ o _, o = Ok (default 0 p)) c s) as Hrun.
  { unfold claim_winnings. run_step. apply run_schema_supported; [done|]. intros v s1 E1.
    do 2 run_step. rewrite Hau. run_step. apply run_claims_open.
    { destruct Hopen as (o & Ho & ?). exists o. by rewrite E1. }
    intros s2 E2. apply (run_claim_pending u b p); try done; try lia; by rewrite E2, E1. }
  apply run_eq in Hrun as (o & s' & E & ->). exists s'. split; [done|].
  wp_intro E. by apply wp_claim_winnings.
Qed.
End Trace.
