(* ===== verification/SharedSlot.v ===== *)
(** * The storage slot three settings share

    [HbGateKey::Config], [DeviationConfigKey::Config] and
    [AttestationConfigKey::Config] are the same storage key.  Once one of the
    last two has been written, every load of the heartbeat settings traps, and
    no entry point can repair the slot. *)

From S2P Require Export Trace.

(** The slot holds something else than the heartbeat settings. *)
Definition foreign (s : State) : Prop :=
  ∃ v, persistent s !! K_HbGate = Some v ∧ shape v ≠ Some SHb.

Lemma wp_load_foreign (Q : HbGateConfig -> State -> Prop) c s : foreign s -> wp _load_hb_config Q c s.
Proof.
  intros (v & Hv & Hs). unfold _load_hb_config. wp_step.
  apply (wp_frame (λ k, k = K_HbGate)); [frame_calls ltac:(intros ?; discriminate)|].
  intros [] t Ht. apply wp_pget_or. intros o Ho. rewrite (Ht K_HbGate) in Ho by done.
  rewrite Hv in Ho. destruct o; [|done]. injection Ho as ->. done.
Qed.

Lemma foreign_kept {A} (p : M A) (Q : A -> State -> Prop) c s :
  foreign s -> frame (λ k, k = K_HbGate) p -> (∀ a t, foreign t -> Q a t) -> wp p Q c s.
Proof.
  intros (v & Hv & Hs) Hp HQ. apply (wp_frame _ p _ _ _ Hp). intros a t Ha. apply HQ.
  exists v. by rewrite (Ha K_HbGate).
Qed.

#[export] Instance bookless_config : Bookless (λ k, k = K_HbGate).
Proof. split; intros k Hk ->; by destruct_or? Hk. Qed.

Ltac to_load :=
  repeat first
    [ progress intros
    | match goal with
      | Hf : foreign ?s |- wp _load_hb_config _ _ ?s => apply (wp_load_foreign _ _ _ Hf)
      | |- wp (throw _) _ _ _ => apply wp_throw
      | Hf : foreign ?s |- wp (?p ≫= _) _ _ ?s =>
          apply wp_bind; first
            [ apply wp_stop; solve [to_load]
            | apply (foreign_kept p _ _ _ Hf);
                [solve [frame_calls ltac:(intros ?; discriminate)]|clear Hf; intros ? ? Hf] ]
      | |- wp (match ?x with _ => _ end) _ _ _ => destruct x
      | |- wp ?p _ _ _ => let h := head_of p in progress (unfold h; cbn beta iota)
      end ].

Definition loads_hb (call : Call) : bool :=
  match call with
  | OnRound (c_resolve_round _) | OnRound (c_resolve_round_multi _)
  | OnOracle (c_set_hb_strict_mode _) | OnOracle c_arm_hb_override
  | OnOracle (c_set_hb_grace_seconds _) => true
  | _ => false
  end.

Lemma foreign_stops `{HostCrypto} call c s :
  loads_hb call = true -> foreign s -> wp (dispatch call) (λ _ _, False) c s.
Proof.
  intros Hl Hf. destruct call as [|[]| | | | |[]|]; try discriminate; cbn; to_load.
Qed.

Lemma writes_foreign {A} (m : M A) c s :
  frame (λ k, k = K_HbGate) m -> foreign s -> wp m (λ _ s', foreign s') c s.
Proof. intros Hm Hf. by apply (foreign_kept _ _ _ _ Hf). Qed.

(** The two writers of the slot that do not read it. *)
Lemma foreign_written {A} (cd : Codec A) x (Q : () -> State -> Prop) c s :
  shape (enc cd x) ≠ Some SHb -> (∀ s', foreign s' -> Q () s') -> wp (pset cd K_HbGate x) Q c s.
Proof.
  intros Hx HQ. apply wp_pset. intros s' Hs'. apply HQ. exists (enc cd x). by rewrite Hs', lookup_insert_eq.
Qed.

Lemma foreign_deviation md w c s : wp (set_deviation_ref_mode md w) (λ _ s', foreign s') c s.
Proof.
  unfold set_deviation_ref_mode, _save_deviation_config. wp_ro.
  apply wp_bind, wp_readonly; [frame_calls idtac|]. intros _ s1 _. apply wp_bind, wp_bind.
  apply (foreign_written cDeviation); [done|]. intros s2 Hf. apply (foreign_kept _ _ _ _ Hf); [auto with frame|].
  intros _ s3 Hf3. by apply (foreign_kept _ _ _ _ Hf3); [auto with frame|].
Qed.

Lemma foreign_attestation key c s : wp (set_attestation_key key) (λ _ s', foreign s') c s.
Proof.
  unfold set_attestation_key. wp_ro. apply wp_bind, (foreign_written cAttestation); [done|].
  intros s2 Hf. apply (foreign_kept _ _ _ _ Hf); [frame_calls idtac|auto].
Qed.

Lemma foreign_call `{HostCrypto} call c s : foreign s -> foreign (after_call call c s).
Proof.
  intros Hf. apply after_call_cases; [done|]. destruct (loads_hb call) eqn:Hl.
  { apply wp_stop. by apply foreign_stops. }
  destruct call as [call|call|call|call|call|call|call|call]; destruct call; try discriminate; cbn;
    try (apply writes_foreign; [solve [frame_calls ltac:(intros ?; discriminate)]|done]).
  - apply foreign_deviation.
  - apply foreign_attestation.
Qed.

(** C37: the heartbeat, deviation and attestation settings share one storage slot.
    Once an attestation key or a deviation reference mode has been set, no
    sequence of calls ever makes a resolution succeed again: loading the
    heartbeat settings traps. *)
Theorem shared_slot_blocks_resolution `{HostCrypto} call c s s1 calls s2 :
  dispatch call c s = (Ok (), s1) ->
  (∃ key, call = OnOracle (c_set_attestation_key key)) ∨
  (∃ md w, call = OnOracle (c_set_deviation_ref_mode md w)) ->
  s2 = play calls s1 ->
  ∀ payload feeds c' s', resolve_round payload c' s2 ≠ (Ok (), s') ∧
                         resolve_round_multi feeds c' s2 ≠ (Ok (), s').
Proof.
  intros E Hcall ->. assert (foreign s1) as Hf.
  { destruct Hcall as [[key ->]|[md [w ->]]]; wp_intro E; [apply foreign_attestation|apply foreign_deviation]. }
  assert (foreign (play calls s1)) as Hf2.
  { clear E Hcall. revert s1 Hf. induction calls as [|[c1 call1] calls IH]; intros s1 Hf; [done|].
    by apply IH, foreign_call. }
  intros payload feeds c' s'. split; intros E'.
  - by eapply (foreign_stops (OnRound (c_resolve_round payload)) c' _ eq_refl Hf2).
  - by eapply (foreign_stops (OnRound (c_resolve_round_multi feeds)) c' _ eq_refl Hf2).
Qed.
