(* ===== verification/TreasurySlot.v ===== *)
(** * The slot that holds the treasury balance or the treasury address

    Governance's [SetTreasuryAddress] writes an address under the key that holds
    the protocol's fee balance.  Every later read of the balance traps on the
    type of the stored value, and no entry point writes a balance back. *)

From S2P Require Export SharedSlot.

(** The slot holds an address. *)
Definition readdressed (s : State) : Prop :=
  ∃ a, persistent s !! K_ProtocolFeeTreasury = Some (VAddr a).

Lemma pget_readdressed c s : readdressed s -> pget cI128 K_ProtocolFeeTreasury c s = (Panic, s).
Proof. intros [a Ha]. unfold pget. by rewrite Ha. Qed.

Lemma readdressed_agree s s' : agree (λ k, k = K_ProtocolFeeTreasury) s s' -> readdressed s -> readdressed s'.
Proof. intros H [a Ha]. exists a. by rewrite H. Qed.

Lemma readdressed_kept {A} (p : M A) (Q : A -> State -> Prop) c s :
  readdressed s -> frame (λ k, k = K_ProtocolFeeTreasury) p -> (∀ a t, readdressed t -> Q a t) ->
  wp p Q c s.
Proof. intros Hs Hp HQ. apply (wp_frame _ p _ _ _ Hp). intros a t Ha. by eapply HQ, readdressed_agree. Qed.

#[export] Instance bookless_treasury : Bookless (λ k, k = K_ProtocolFeeTreasury).
Proof. split; intros k Hk ->; by destruct_or? Hk. Qed.

(** ** What traps *)

Lemma wp_read_treasury d (Q : Z -> State -> Prop) c s :
  readdressed s -> wp (pget_or cI128 K_ProtocolFeeTreasury d) Q c s.
Proof. intros [a Ha]. apply wp_pget_or. intros o Ho. rewrite Ha in Ho. by destruct o. Qed.

Lemma wp_collect_readdressed r fee b m (Q : () -> State -> Prop) c s :
  readdressed s -> 0 < fee -> wp (_collect_protocol_fee r fee b m) Q c s.
Proof.
  intros Hs Hfee. unfold _collect_protocol_fee. destruct (fee <=? 0) eqn:?; zbool; [lia|].
  apply wp_bind, (readdressed_kept _ _ _ _ Hs); [auto with frame|]. intros x t Ht.
  apply wp_bind, wp_ok_or. intros ops _. by apply wp_bind, wp_read_treasury.
Qed.

(** Collecting a fee fails as the insurance share does, and traps after it. *)
Lemma collect_traps r fee b m c s :
  readdressed s -> 0 < fee ≤ I128_MAX ->
  (_collect_protocol_fee r fee b m c s).1
  = match (collect_insurance_fee r fee c s).1 with Err e => Err e | _ => Panic end.
Proof.
  intros Hs [Hfee Hmax]. unfold _collect_protocol_fee. destruct (fee <=? 0) eqn:?; zbool; [lia|].
  unfold mbind, M_bind. destruct (collect_insurance_fee r fee c s) as [[x|e|] t] eqn:E; [|done..].
  assert (0 ≤ x ≤ fee ∧ readdressed t) as [Hx Ht].
  { wp_intro E. apply wp_collect_insurance. intros x' t' Hx _ Hk. split; [lia|].
    eapply readdressed_agree; [|exact Hs]. intros k ->. by apply Hk. }
  rewrite i128_checked_sub_in by (unfold I128_MIN, I128_MAX in *; lia). cbn [ok_or].
  unfold pget_or, mbind, M_bind, mret, M_ret. by rewrite pget_readdressed.
Qed.

Lemma withdrawal_traps u n c s :
  readdressed s -> 0 < n -> execute_action (WithdrawProtocolFee u n) c s = (Panic, s).
Proof.
  intros Hs Hn. cbn [execute_action]. unfold _execute_withdraw_fee. destruct (n <=? 0) eqn:?; zbool; [lia|].
  unfold reject_if, pget_or, mbind, M_bind, mret, M_ret. by rewrite pget_readdressed.
Qed.

(** ** The slot never holds a balance again *)

Definition stays {A} (m : M A) : Prop :=
  ∀ c s, readdressed s -> wp m (λ _ s', readdressed s') c s.

Lemma stays_frame {A} (m : M A) : frame (λ k, k = K_ProtocolFeeTreasury) m -> stays m.
Proof. intros Hm c s Hs. by apply (readdressed_kept _ _ _ _ Hs Hm). Qed.

Lemma stays_bind {A B} (m : M A) (f : A -> M B) : stays m -> (∀ a, stays (f a)) -> stays (m ≫= f).
Proof.
  intros Hm Hf c s Hs. apply wp_bind. eapply wp_mono; [by apply Hm|]. intros a t Ht. by apply Hf.
Qed.

Lemma stays_collect r fee b m : stays (_collect_protocol_fee r fee b m).
Proof.
  intros c s Hs. destruct (decide (0 < fee)); [by apply wp_collect_readdressed|].
  unfold _collect_protocol_fee. destruct (fee <=? 0) eqn:?; zbool; [by apply wp_ret|lia].
Qed.

Lemma stays_read {A} d (f : Z -> M A) : stays (pget_or cI128 K_ProtocolFeeTreasury d ≫= f).
Proof. intros c s Hs. by apply wp_bind, wp_read_treasury. Qed.

Lemma stays_address a : stays (set_ext cAddr K_ProtocolFeeTreasury a).
Proof. intros c s _. apply wp_set_ext. intros s' Hs'. exists a. by rewrite Hs', lookup_insert_eq. Qed.

Lemma stays_inspect {A} (m : M A) f : stays m -> stays (inspect_err m f).
Proof. intros Hm c s Hs. by apply wp_inspect_err, Hm. Qed.

(** Walks a handler; the parts that leave the slot alone are framed. *)
Ltac stay :=
  repeat first
    [ progress intros
    | match goal with
      | |- stays (_collect_protocol_fee _ _ _ _) => apply stays_collect
      | |- stays (pget_or cI128 K_ProtocolFeeTreasury _ ≫= _) => apply stays_read
      | |- stays (set_ext cAddr K_ProtocolFeeTreasury _) => apply stays_address
      | |- stays (_ ≫= _) => apply stays_bind
      | |- stays (match ?x with _ => _ end) => destruct x
      | |- stays _ => apply stays_frame; solve [frame_calls ltac:(intros ?; discriminate)]
      | |- stays (inspect_err _ _) => apply stays_inspect
      | |- stays ?m => let h := head_of m in progress (unfold h; cbn beta iota)
      end ].

Lemma stays_call `{HostCrypto} call : stays (dispatch call).
Proof.
  destruct call as [call|call|call|call|call|call|call|call]; destruct call; cbn;
    try (apply stays_frame; solve [frame_calls ltac:(intros ?; discriminate)]); stay.
Qed.

Lemma stays_run `{HostCrypto} calls s : readdressed s -> readdressed (play calls s).
Proof.
  revert s. induction calls as [|[c call] calls IH]; intros s Hs; [done|].
  apply IH, after_call_cases; [done|]. by apply stays_call.
Qed.

(** ** No settlement takes a fee *)

Lemma wp_true {A} (m : M A) c s : wp m (λ _ _, True) c s.
Proof. done. Qed.

(** Only the returned value matters. *)
Lemma wp_skip {A B} (m : M A) (f : A -> M B) (Q : B -> State -> Prop) c s :
  (∀ a t, wp (f a) Q c t) -> wp (m ≫= f) Q c s.
Proof. intros H. apply wp_bind. eapply wp_mono; [apply wp_true|]. auto. Qed.

Lemma wp_collect_unless r fee b m (Q : () -> State -> Prop) c s :
  readdressed s -> (∀ t, fee ≤ 0 -> readdressed t -> Q () t) ->
  wp (if fee >? 0 then _collect_protocol_fee r fee b m else mret ()) Q c s.
Proof.
  intros Hs H. destruct (fee >? 0) eqn:?; zbool; [by apply wp_collect_readdressed|].
  apply wp_ret, H; [lia|done].
Qed.

Lemma no_fee_updown r w l c s :
  readdressed s -> wp (_apply_protocol_fee_updown r w l) (λ x _, x.2 ≤ 0) c s.
Proof.
  intros Hs. unfold _apply_protocol_fee_updown.
  apply wp_bind, (readdressed_kept _ _ _ _ Hs); [auto with frame|]. intros bps s1 H1.
  apply wp_bind, (readdressed_kept _ _ _ _ H1); [auto with frame|]. intros model s2 H2.
  apply wp_bind, wp_lift. intros [[dw dl] fee] _.
  apply wp_bind, wp_collect_unless; [done|]. intros s3 Hfee _. by apply wp_ret.
Qed.

Lemma no_fee_precision r pot ws c s :
  readdressed s -> wp (_apply_protocol_fee_precision r pot ws) (λ x _, x.2 ≤ 0) c s.
Proof.
  intros Hs. unfold _apply_protocol_fee_precision.
  apply wp_bind, (readdressed_kept _ _ _ _ Hs); [auto with frame|]. intros bps s1 H1.
  apply wp_bind, (readdressed_kept _ _ _ _ H1); [auto with frame|]. intros model s2 H2.
  apply wp_bind, wp_lift. intros [d fee] _.
  apply wp_bind, wp_collect_unless; [done|]. intros s3 Hfee _. by apply wp_ret.
Qed.

Lemma no_fee_winnings rid l side w lo c s :
  readdressed s -> wp (_record_winnings_indexed rid l side w lo) (λ fee _, fee ≤ 0) c s.
Proof.
  intros Hs. unfold _record_winnings_indexed. destruct (w =? 0); [by apply wp_ret|].
  apply wp_bind. eapply wp_mono; [by apply no_fee_updown|]. intros [[dw dl] fee] t Hfee.
  do 2 (apply wp_skip; intros). by apply wp_ret.
Qed.

Lemma no_fee_by_mode r fp c s : readdressed s -> wp (settle_by_mode r fp) (λ fee _, fee ≤ 0) c s.
Proof.
  intros Hs. unfold settle_by_mode. destruct (mode r).
  - apply wp_bind, (wp_mono _ (λ res _, res.2 ≤ 0)).
    2:{ intros [one fee] t Hfee. apply wp_skip. intros _ t'. by apply wp_ret. }
    unfold _resolve_updown_mode. apply wp_bind, wp_pget_or. intros o _.
    apply wp_bind, (wp_mono _ (λ fee _, fee ≤ 0)); [|intros fee t Hfee; by apply wp_ret].
    destruct (is_one_sided_pool _ _).
    + apply wp_skip. intros _ t. unfold _apply_one_sided_policy. apply wp_skip. intros _ t1.
      destruct (_select_one_sided_policy r); apply wp_skip; intros; by apply wp_ret.
    + case_bool_decide; [by apply wp_ret|]. destruct (classify_price_direction _ _).
      * by apply no_fee_winnings.
      * by apply no_fee_winnings.
      * apply wp_skip. intros. by apply wp_ret.
  - apply wp_bind, (wp_mono _ (λ res _, res.1 ≤ 0)); [|intros [fee pot] t Hfee; by apply wp_ret].
    unfold _resolve_precision_mode. apply wp_bind, wp_pget_or. intros o _.
    case_bool_decide; [by apply wp_ret|].
    apply wp_bind, (readdressed_kept _ _ _ _ Hs); [frame_calls idtac|]. intros st s1 H1.
    destruct (_ && _).
    + apply wp_bind, wp_lift. intros wst _. apply wp_bind. eapply wp_mono; [by apply no_fee_precision|].
      intros [pool fee] t Hfee. do 3 (apply wp_skip; intros). by apply wp_ret.
    + destruct (_ >? 0); [apply wp_skip; intros|]; by apply wp_ret.
Qed.

Lemma no_fee_complete r fp conf c s :
  readdressed s -> wp (_complete_settlement r fp conf) (λ res _, res.1 ≤ 0) c s.
Proof.
  intros Hs. unfold _complete_settlement. apply wp_bind. eapply wp_mono; [by apply no_fee_by_mode|].
  intros fee t Hfee. do 12 (apply wp_skip; intros). by apply wp_ret.
Qed.

(** ** The property *)

(** C32: executing [SetTreasuryAddress] puts an address in the slot that holds the
    treasury balance, and the balance it held is no longer counted. Whatever
    calls follow, the slot never holds a balance again: collecting a fee traps
    (unless taking the insurance share already failed), governance's withdrawal
    of fees traps, so that no proposal to withdraw fees can be executed, and
    no settlement that charges a fee succeeds. *)
Theorem treasury_address_blocks_fees `{HostCrypto} u id c s s1 p a calls s2 :
  execute u id c s = (Ok (), s1) -> proposal_at s id p -> gp_action p = SetTreasuryAddress a ->
  s2 = play calls s1 ->
  total s1 = total s - slot s K_ProtocolFeeTreasury ∧ readdressed s2 ∧
  (∀ r fee b m c', 0 < fee ≤ I128_MAX ->
     (_collect_protocol_fee r fee b m c' s2).1
     = match (collect_insurance_fee r fee c' s2).1 with Err e => Err e | _ => Panic end) ∧
  (∀ u' n c', 0 < n -> execute_action (WithdrawProtocolFee u' n) c' s2 = (Panic, s2)) ∧
  (∀ v id' q u' n c' s', proposal_at s2 id' q -> gp_action q = WithdrawProtocolFee u' n ->
     execute v id' c' s2 ≠ (Ok (), s')) ∧
  (∀ r fp conf c' res s', _complete_settlement r fp conf c' s2 = (Ok res, s') -> res.1 ≤ 0).
Proof.
  intros E Hp Ha ->. assert (total s1 = total s - slot s K_ProtocolFeeTreasury ∧ readdressed s1) as [Ht Hs1].
  { wp_intro E. apply wp_execute. intros q t t' _ _ Hq _ _ He Hs'.
    assert (q = p) as -> by (unfold proposal_at in *; congruence). rewrite Ha in He. simpl in He.
    split; [rewrite He in Hs'; stack_total Hs'; weights; simpl; lia|]. exists a. by lchain. }
  pose proof (stays_run calls s1 Hs1) as Hs2. split_and!; [done|done|..].
  - intros. by apply collect_traps.
  - intros. by apply withdrawal_traps.
  - intros v id' q u' n c' s' Hq Hact E'. wp_intro E'. apply wp_execute.
    intros q' t t' _ _ Hq' _ _ He _. assert (q' = q) as -> by (unfold proposal_at in *; congruence).
    rewrite Hact in He. destruct He as [Hn _ _ _ _], Hs2 as [b Hb].
    unfold slot in Hn. rewrite Hb in Hn. simpl in Hn. unfold weight in Hn. simpl in Hn. lia.
  - intros r fp conf c' res s' E'. wp_intro E'. by apply no_fee_complete.
Qed.
