(* ===== verification/Controls.v ===== *)
(** * The slots under control, and who writes them

    The timelocked settings, the administrator and the oracle, and the records of
    what is pending on them; which entry points write these slots, and what each
    of them does to them ([control_step]). *)

From S2P Require Export Trace GovernanceSpec.

(** ** The slots under control *)

(** The settings only a scheduled change may alter. *)
Definition timelocked : list Key :=
  [K_BetWindowLedgers; K_RunWindowLedgers; K_MaxStake; K_MaxUserRoundExposure; K_MaxPendingWinnings;
   K_MinBet; K_OracleStaleThreshold; K_OracleMaxDeviationBps; K_PendingWinningsExpiry; K_ProtocolFeeBps].

(** Those, the two principals, and the records of what is pending. *)
Definition control_key (k : Key) : bool :=
  bool_decide (k ∈ timelocked) ||
  match k with
  | KVec n [] => bool_decide (n ∈ ["Admin"; "Oracle"; "OracleRotationProposal"])
  | KVec n [AU32 _] => String.eqb n "PendingConfigChange"
  | KVec n [AU64 _] => String.eqb n "GovProposal"
  | _ => false
  end.
Notation control := (λ k, control_key k = true).

#[export] Instance bookless_control : Bookless control.
Proof.
  split; intros k Hk Hc; unfold control_key in Hc; apply orb_true_iff in Hc as [Hc|Hc].
  - apply bool_decide_eq_true in Hc. unfold timelocked in Hc.
    repeat (apply elem_of_cons in Hc as [->|Hc]; [by destruct_or? Hk|]). by apply not_elem_of_nil in Hc.
  - destruct k as [n [|[] [|[] [|]]]| | |n]; simpl in *; try done; destruct_or?; subst; done.
  - apply bool_decide_eq_true in Hc. unfold timelocked in Hc.
    repeat (apply elem_of_cons in Hc as [->|Hc]; [by destruct_or? Hk|]). by apply not_elem_of_nil in Hc.
  - destruct k as [n [|[] [|[] [|]]]| | |n]; simpl in *; try done; destruct_or?; subst; done.
Qed.

Definition proposal_key (k : Key) : bool :=
  match k with KVec n [AU64 _] => String.eqb n "GovProposal" | _ => false end.
#[export] Instance bookless_proposals : Bookless (λ k, proposal_key k = true).
Proof. bookless. Qed.

(** What a scheduling entry point schedules. *)
Definition schedules (call : Call) : option (ConfigChangeKind * ConfigChangePayload) :=
  match call with
  | OnSchedule (c_schedule_windows b r) => Some (KWindows, PWindows b r)
  | OnSchedule (c_schedule_max_stake m) => Some (KMaxStake, PMaxStake m)
  | OnSchedule (c_schedule_min_bet m) => Some (KMinBet, PMinBet m)
  | OnSchedule (c_schedule_max_user_exposure m) => Some (KMaxUserRoundExposure, PMaxUserRoundExposure m)
  | OnSchedule (c_schedule_max_pending_winnings m) => Some (KMaxPendingWinnings, PMaxPendingWinnings m)
  | OnSchedule (c_schedule_oracle_stale_threshold n) | OnOracle (c_set_oracle_stale_threshold n) =>
      Some (KOracleStaleThreshold, POracleStaleThreshold n)
  | OnSchedule (c_schedule_oracle_deviation_bps b) | OnOracle (c_set_oracle_max_deviation_bps b) =>
      Some (KOracleMaxDeviationBps, POracleMaxDeviationBps b)
  | OnSchedule (c_schedule_oracle_timestamp_skew n) => Some (KOracleTimestampSkew, POracleTimestampSkew n)
  | OnSchedule (c_schedule_protocol_fee_bps b) => Some (KProtocolFeeBps, PProtocolFeeBps b)
  | OnConfig (c_schedule_pending_winnings_expiry n) => Some (KPendingWinningsExpiry, PPendingWinningsExpiry n)
  | _ => None
  end.

(** The entry points that write a slot under control. *)
Definition controls (call : Call) : bool :=
  match call with
  | OnAdmin (c_initialize _ _)
  | OnSchedule (c_apply_scheduled_changes _) | OnSchedule (c_cancel_config_change _)
  | OnRotation (c_propose_oracle_rotation _ _) | OnRotation c_accept_oracle_rotation
  | OnRotation c_cancel_oracle_rotation | OnRotation c_get_oracle_rotation_proposal
  | OnGov (c_propose_gov_action _ _ _) | OnGov (c_approve_gov_proposal _ _)
  | OnGov (c_execute_gov_proposal _ _) | OnGov (c_cancel_gov_proposal _ _) => true
  | _ => bool_decide (is_Some (schedules call))
  end.

Lemma frame_control `{HostCrypto} call : controls call = false -> frame control (dispatch call).
Proof.
  destruct call as [call|call|call|call|call|call|call|call]; destruct call;
    try discriminate; intros _; cbn; frame_calls ltac:(intros ?; discriminate).
Qed.

(** ** What each of them does *)

Definition signed_by_admin (s : State) (c : Ctx) : Prop :=
  ∃ admin, persistent s !! K_Admin = Some (VAddr admin) ∧ authorised c admin = true.

(** The slots a payload sets, and to what. *)
Definition setting (p : ConfigChangePayload) : list (Key * option Val) :=
  match p with
  | PWindows bet run => [(K_BetWindowLedgers, Some (VU32 bet)); (K_RunWindowLedgers, Some (VU32 run))]
  | PMaxStake o => [(K_MaxStake, VI128 <$> o)]
  | PMaxUserRoundExposure o => [(K_MaxUserRoundExposure, VI128 <$> o)]
  | PMaxPendingWinnings o => [(K_MaxPendingWinnings, VI128 <$> o)]
  | PMinBet o => [(K_MinBet, VI128 <$> o)]
  | POracleStaleThreshold n => [(K_OracleStaleThreshold, Some (VU64 n))]
  | POracleMaxDeviationBps o => [(K_OracleMaxDeviationBps, VU32 <$> o)]
  | PPendingWinningsExpiry n => [(K_PendingWinningsExpiry, Some (VU32 n))]
  | PProtocolFeeBps o => [(K_ProtocolFeeBps, VU32 <$> o)]
  | _ => []
  end.

(** The slots of [p] hold what it says, the others under control are untouched. *)
Definition sets (p : ConfigChangePayload) (s s' : State) : Prop :=
  (∀ k v, (k, v) ∈ setting p -> persistent s' !! k = v) ∧
  agree (λ k, control_key k = true ∧ k ∉ (setting p).*1) s s'.

Lemma wp_admin_signed {A} (f : Address -> M A) (Q : A -> State -> Prop) c s :
  (∀ admin, signed_by_admin s c -> wp (f admin) Q c s) ->
  wp (admin ← pget_ok cAddr K_Admin AdminNotSet; require_auth admin ;; f admin) Q c s.
Proof.
  intros H. apply wp_bind, wp_pget_ok. intros a Ha. apply wp_bind, wp_require_auth. intros Hau.
  apply H. by exists a.
Qed.

Lemma wp_schedule_change check kind p (Q : () -> State -> Prop) c s :
  (∀ s' pd, signed_by_admin s c -> payload pd = p ->
     activation_ledger pd = sequence c + CONFIG_TIMELOCK_LEDGERS ->
     persistent s' = <[K_PendingConfigChange kind := VPendingConfig pd]> (persistent s) -> Q () s') ->
  wp (schedule_change check kind p) Q c s.
Proof.
  intros H. unfold schedule_change, _schedule_config_change.
  apply wp_bind, wp_readonly; [auto with frame|]. intros ? s1 H1. apply wp_bind, wp_lift. intros _ _.
  apply wp_admin_signed. intros admin Hs.
  apply wp_bind, wp_readonly; [frame_calls idtac|]. intros _ s2 H2.
  apply wp_bind, wp_phas. intros b _.
  apply wp_bind, wp_readonly; [frame_calls idtac|]. intros _ s3 H3.
  apply wp_bind, wp_asks, wp_bind, wp_ok_or. intros act Hact.
  apply wp_bind, wp_pset. intros s4 H4. apply wp_bind, wp_extend. intros s5 H5.
  apply wp_emit. intros s6 H6. unfold u32_checked_add in *. checked_inv.
  eapply H; cycle 3.
  - rewrite H6, H5, H4, H3, H2, H1. reflexivity.
  - destruct Hs as (ad & Ha & Hau). exists ad. by rewrite <-H1.
  - done.
  - done.
Qed.

Lemma wp_schedules `{HostCrypto} call kind p (Q : () -> State -> Prop) c s :
  schedules call = Some (kind, p) ->
  (∀ s' pd, signed_by_admin s c -> payload pd = p ->
     activation_ledger pd = sequence c + CONFIG_TIMELOCK_LEDGERS ->
     persistent s' = <[K_PendingConfigChange kind := VPendingConfig pd]> (persistent s) -> Q () s') ->
  wp (dispatch call) Q c s.
Proof.
  intros Hs HQ. destruct call as [call|call|call|call|call|call|call|call]; destruct call;
    try discriminate; injection Hs as <- <-; cbn [dispatch dispatch_schedule dispatch_oracle dispatch_config];
    match goal with |- wp ?m _ _ _ => let h := head_of m in unfold h end;
    apply wp_schedule_change; exact HQ.
Qed.

Lemma sets_frame p s s' :
  setting p = [] -> agree control s s' -> sets p s s'.
Proof.
  intros Hp Ha. unfold sets. rewrite Hp. split; [intros k v Hk; by apply not_elem_of_nil in Hk|].
  intros k [Hk _]. by apply Ha.
Qed.

Lemma sets_one p k v s s' t :
  setting p = [(k, v)] -> persistent s' !! k = v ->
  (∀ k', k' ≠ k -> persistent s' !! k' = persistent s !! k') ->
  persistent t = persistent s' -> sets p s t.
Proof.
  intros Hp Hk Ho Ht. unfold sets. rewrite Hp, Ht. split.
  - by intros k' v' [= -> ->]%list_elem_of_singleton.
  - intros k' [_ Hk']. rewrite Ht. apply Ho. intros ->. apply Hk'. simpl. set_solver.
Qed.

Lemma wp_apply_arm kind p (Q : () -> State -> Prop) c s :
  (∀ s', sets p s s' -> Q () s') -> wp (apply_arm kind p) Q c s.
Proof.
  intros HQ.
  destruct kind, p; cbn [apply_arm]; try apply wp_throw;
    try (apply (wp_frame control); [frame_calls ltac:(intros ?; discriminate)|];
         intros [] s' Ha; apply HQ, sets_frame; done);
    apply wp_bind, wp_lift; intros _ _.
  - apply wp_bind, wp_set_ext. intros s1 H1. apply wp_bind, wp_set_ext. intros s2 H2.
    apply wp_emit. intros s3 H3. apply HQ. unfold sets. rewrite H3. simpl. split.
    + intros k v Hk. rewrite H2, H1. apply elem_of_cons in Hk as [[= -> ->]|[= -> ->]%list_elem_of_singleton].
      * by rewrite lookup_insert_ne, lookup_insert_eq by done.
      * by rewrite lookup_insert_eq.
    + intros k [_ Hk]. rewrite H3, H2, H1, !lookup_insert_ne; set_solver.
  - apply wp_set_or_remove. intros s1 Hk Ho. apply HQ. by eapply sets_one.
  - apply wp_set_or_remove. intros s1 Hk Ho. apply HQ. by eapply sets_one.
  - apply wp_set_or_remove. intros s1 Hk Ho. apply HQ. by eapply sets_one.
  - apply wp_set_ext. intros s1 H1. apply HQ. eapply sets_one; [done| |..|done].
    + by rewrite H1, lookup_insert_eq.
    + intros k Hk. by rewrite H1, lookup_insert_ne.
  - apply wp_set_or_remove. intros s1 Hk Ho. apply HQ. by eapply sets_one.
  - apply wp_bind, wp_set_or_remove. intros s1 Hk Ho. apply wp_emit. intros s2 H2. apply HQ. by eapply sets_one.
  - apply wp_bind, wp_set_ext. intros s1 H1. apply wp_emit. intros s2 H2. apply HQ.
    eapply sets_one; [done| |..|exact H2].
    + by rewrite H1, lookup_insert_eq.
    + intros k Hk. by rewrite H1, lookup_insert_ne.
  - apply wp_set_or_remove. intros s1 Hk Ho. apply HQ. by eapply sets_one.
Qed.

Lemma wp_apply_scheduled kind (Q : () -> State -> Prop) c s :
  (∀ s' pd t, persistent s !! K_PendingConfigChange kind = Some (VPendingConfig pd) ->
     activation_ledger pd ≤ sequence c -> sets (payload pd) s t ->
     persistent s' = delete (K_PendingConfigChange kind) (persistent t) -> Q () s') ->
  wp (apply_scheduled_changes kind) Q c s.
Proof.
  intros HQ. unfold apply_scheduled_changes.
  apply wp_bind, wp_readonly; [auto with frame|]. intros _ s1 H1.
  apply wp_bind, wp_readonly; [frame_calls idtac|]. intros _ s2 H2.
  apply wp_bind, wp_pget_ok. intros pd Hpd. do 2 wp_step. apply wp_bind, wp_reject_if. intros Hact. zbool.
  unfold _apply_config_payload. apply wp_bind, wp_bind, wp_readonly.
  { unfold _current_config_payload. destruct kind; frame_calls idtac. }
  intros old s3 H3. apply wp_bind, wp_apply_arm. intros s4 H4.
  apply wp_readonly; [auto with frame|]. intros _ s5 H5.
  apply wp_bind, wp_premove. intros s6 H6. apply wp_emit. intros s7 H7.
  apply (HQ s7 pd s4).
  - by rewrite <-H1, <-H2.
  - lia.
  - destruct H4 as [Hs Ha]. split; [done|]. intros k Hk. by rewrite (Ha k Hk), H3, H2, H1.
  - by rewrite H7, H6, H5.
Qed.

Lemma wp_cancel_config kind (Q : () -> State -> Prop) c s :
  (∀ s', persistent s' = delete (K_PendingConfigChange kind) (persistent s) -> Q () s') ->
  wp (cancel_config_change kind) Q c s.
Proof.
  intros HQ. unfold cancel_config_change. apply wp_bind, wp_readonly; [auto with frame|]. intros ad s1 H1.
  apply wp_bind, wp_pget_ok. intros pd _. do 2 wp_step.
  apply wp_bind, wp_readonly; [auto with frame|]. intros _ s2 H2.
  apply wp_bind, wp_premove. intros s3 H3. apply wp_emit. intros s4 H4. apply HQ. by rewrite H4, H3, H2, H1.
Qed.

(** *** The rotation of the oracle *)

Lemma wp_propose_rotation o n (Q : () -> State -> Prop) c s :
  (∀ s', signed_by_admin s c -> MIN_ROTATION_DELAY_SECONDS ≤ n ->
     persistent s' = <[K_OracleRotationProposal := VRotation
       {| new_oracle := o; proposed_at := ledger_timestamp c; expires_at := ledger_timestamp c + n |}]>
       (persistent s) -> Q () s') ->
  wp (propose_oracle_rotation o n) Q c s.
Proof.
  intros HQ. unfold propose_oracle_rotation.
  apply wp_bind, wp_readonly; [auto with frame|]. intros _ s1 H1. apply wp_admin_signed. intros ad Hs.
  apply wp_bind, wp_readonly; [frame_calls idtac|]. intros _ s2 H2.
  apply wp_bind, wp_reject_if. intros Hn. zbool. do 2 wp_step. apply wp_bind, wp_ok_or. intros ex Hex.
  unfold u64_checked_add in Hex. checked_inv.
  apply wp_bind, wp_pset. intros s3 H3. apply wp_bind, wp_extend. intros s4 H4. apply wp_emit. intros s5 H5.
  apply HQ.
  - destruct Hs as (a & Ha & Hau). exists a. by rewrite <-H1.
  - done.
  - by rewrite H5, H4, H3, H2, H1.
Qed.

Lemma wp_accept_rotation (Q : () -> State -> Prop) c s :
  (∀ s' p, persistent s !! K_OracleRotationProposal = Some (VRotation p) ->
     proposed_at p + MIN_ROTATION_DELAY_SECONDS ≤ ledger_timestamp c ≤ expires_at p ->
     persistent s' = delete K_OracleRotationProposal (<[K_Oracle := VAddr (new_oracle p)]> (persistent s)) ->
     Q () s') ->
  wp accept_oracle_rotation Q c s.
Proof.
  intros HQ. unfold accept_oracle_rotation.
  apply wp_bind, wp_readonly; [auto with frame|]. intros _ s1 H1.
  apply wp_bind, wp_readonly; [frame_calls idtac|]. intros _ s2 H2.
  apply wp_bind, wp_pget_ok. intros p Hp. do 2 wp_step. apply wp_bind, wp_ok_or. intros ea Hea.
  unfold u64_checked_add in Hea. checked_inv.
  wp_step. destruct (_ <? _) eqn:Hd; [do 2 wp_step; apply wp_throw|]. wp_step. zbool.
  wp_step. destruct (_ >? _) eqn:He; [do 4 wp_step; apply wp_throw|]. wp_step. zbool.
  apply wp_bind, wp_pget_ok. intros pv _. apply wp_bind, wp_pset. intros s3 H3.
  apply wp_bind, wp_extend. intros s4 H4. apply wp_bind, wp_premove. intros s5 H5.
  apply wp_emit. intros s6 H6. apply (HQ s6 p).
  - by rewrite <-H1, <-H2.
  - lia.
  - by rewrite H6, H5, H4, H3, H2, H1.
Qed.

(** Cancelling a rotation, or reading it, changes nothing else. *)
Lemma rotation_quiet `{HostCrypto} call c s :
  call = OnRotation c_cancel_oracle_rotation ∨ call = OnRotation c_get_oracle_rotation_proposal ->
  wp (dispatch call) (λ _ s', agree (λ k, k ≠ K_OracleRotationProposal) s s' ∧
    (persistent s' !! K_OracleRotationProposal = None ∨
     persistent s' !! K_OracleRotationProposal = persistent s !! K_OracleRotationProposal)) c s.
Proof.
  intros Hc.
  assert (wp (dispatch call) (λ _ s', persistent s' = persistent s ∨
     persistent s' = delete K_OracleRotationProposal (persistent s)) c s) as Hwp.
  { destruct Hc as [-> | ->]; cbn.
    - unfold cancel_oracle_rotation.
      apply wp_bind, wp_readonly; [auto with frame|]. intros _ s1 H1. apply wp_admin_signed. intros ad _.
      apply wp_bind, wp_readonly; [frame_calls idtac|]. intros _ s2 H2.
      apply wp_bind, wp_pget_ok. intros p _. apply wp_bind, wp_premove. intros s3 H3.
      apply wp_emit. intros s4 H4. right. by rewrite H4, H3, H2, H1.
    - unfold forget, get_oracle_rotation_proposal. apply wp_bind, wp_bind, wp_extend. intros s1 H1.
      apply wp_bind, wp_pget. intros o _. do 2 wp_step. destruct o as [p|]; [|apply wp_ret, wp_ret; by left].
      destruct (_ >? _); [|apply wp_ret, wp_ret; by left].
      apply wp_bind, wp_premove. intros s2 H2. apply wp_bind, wp_emit. intros s3 H3. apply wp_ret, wp_ret.
      right. by rewrite H3, H2, H1. }
  eapply wp_mono; [exact Hwp|]. unfold agree. intros _ s' [-> | ->].
  - split; [done|]. by right.
  - split; [intros k Hk; by rewrite lookup_delete_ne|left; apply lookup_delete_eq].
Qed.

Definition initialized_slots : list Key :=
  [K_Admin; K_Oracle; K_Paused; K_SchemaVersion; K_BetWindowLedgers; K_RunWindowLedgers].

Lemma wp_initialize a o (Q : () -> State -> Prop) c s :
  (∀ s', persistent s !! K_Admin = None ->
     persistent s' !! K_Admin = Some (VAddr a) -> persistent s' !! K_Oracle = Some (VAddr o) ->
     agree (λ k, k ∉ initialized_slots) s s' -> Q () s') ->
  wp (initialize a o) Q c s.
Proof.
  intros HQ. unfold initialize. do 4 wp_step. apply wp_bind, wp_phas. intros b Hb.
  apply wp_bind, wp_reject_if. intros ->. apply bool_decide_eq_false, eq_None_not_Some in Hb.
  apply wp_bind, wp_pset. intros s1 H1. apply wp_bind, wp_pset. intros s2 H2.
  eapply wp_frame with (P := λ k, k ∉ [K_Paused; K_SchemaVersion; K_BetWindowLedgers; K_RunWindowLedgers]).
  - frame_calls ltac:(set_solver).
  - intros [] s' Ha. apply HQ; [done|..].
    + rewrite (Ha K_Admin), H2, H1, lookup_insert_ne, lookup_insert_eq by set_solver. done.
    + rewrite (Ha K_Oracle), H2, lookup_insert_eq by set_solver. done.
    + intros k Hk. unfold initialized_slots in Hk.
      rewrite (Ha k), H2, H1, !lookup_insert_ne by set_solver. done.
Qed.

(** ** What a call does to the slots under control *)

Inductive control_step (c : Ctx) (s s' : State) : Call -> Prop :=
  | does_nothing call : agree control s s' -> control_step c s s' call
  | does_initialize a o :
      persistent s !! K_Admin = None ->
      persistent s' !! K_Admin = Some (VAddr a) -> persistent s' !! K_Oracle = Some (VAddr o) ->
      agree (λ k, k ∉ initialized_slots) s s' ->
      control_step c s s' (OnAdmin (c_initialize a o))
  | does_schedule call kind p pd :
      schedules call = Some (kind, p) -> signed_by_admin s c -> payload pd = p ->
      activation_ledger pd = sequence c + CONFIG_TIMELOCK_LEDGERS ->
      persistent s' = <[K_PendingConfigChange kind := VPendingConfig pd]> (persistent s) ->
      control_step c s s' call
  | does_apply kind pd t :
      persistent s !! K_PendingConfigChange kind = Some (VPendingConfig pd) ->
      activation_ledger pd ≤ sequence c -> sets (payload pd) s t ->
      persistent s' = delete (K_PendingConfigChange kind) (persistent t) ->
      control_step c s s' (OnSchedule (c_apply_scheduled_changes kind))
  | does_drop_change kind :
      persistent s' = delete (K_PendingConfigChange kind) (persistent s) ->
      control_step c s s' (OnSchedule (c_cancel_config_change kind))
  | does_announce o n :
      signed_by_admin s c -> MIN_ROTATION_DELAY_SECONDS ≤ n ->
      persistent s' = <[K_OracleRotationProposal := VRotation
        {| new_oracle := o; proposed_at := ledger_timestamp c; expires_at := ledger_timestamp c + n |}]>
        (persistent s) ->
      control_step c s s' (OnRotation (c_propose_oracle_rotation o n))
  | does_accept p :
      persistent s !! K_OracleRotationProposal = Some (VRotation p) ->
      proposed_at p + MIN_ROTATION_DELAY_SECONDS ≤ ledger_timestamp c ≤ expires_at p ->
      persistent s' = delete K_OracleRotationProposal (<[K_Oracle := VAddr (new_oracle p)]> (persistent s)) ->
      control_step c s s' (OnRotation c_accept_oracle_rotation)
  | does_drop_rotation call :
      agree (λ k, k ≠ K_OracleRotationProposal) s s' ->
      persistent s' !! K_OracleRotationProposal = None ∨
        persistent s' !! K_OracleRotationProposal = persistent s !! K_OracleRotationProposal ->
      control_step c s s' (OnRotation call)
  | does_propose u action ttl n p :
      authorised c u = true -> gov_member s u -> next_proposal s n ->
      gp_proposer p = u -> gp_action p = action -> gp_status p = Pending ->
      persistent s' = <[K_GovProposal n := VProposal p]>
        (<[K_NextGovProposalId := VU64 (n + 1)]> (persistent s)) ->
      control_step c s s' (OnGov (c_propose_gov_action u action ttl))
  | does_approve u id p :
      authorised c u = true -> gov_member s u -> proposal_at s id p -> gp_proposer p ≠ u ->
      persistent s' = <[K_GovProposal id := VProposal (with_approver p u)]> (persistent s) ->
      control_step c s s' (OnGov (c_approve_gov_proposal u id))
  | does_execute u id p t :
      authorised c u = true -> gov_member s u -> proposal_at s id p -> gp_status p = Approved ->
      sequence c ≤ gp_expires_at_ledger p -> action_effect (gp_action p) s t ->
      persistent s' = <[K_GovProposal id := VProposal (with_status p Executed)]> (persistent t) ->
      control_step c s s' (OnGov (c_execute_gov_proposal u id))
  | does_cancel u id p :
      proposal_at s id p ->
      persistent s' = <[K_GovProposal id := VProposal (with_status p Cancelled)]> (persistent s) ->
      control_step c s s' (OnGov (c_cancel_gov_proposal u id)).

Lemma wp_control_step `{HostCrypto} call c s : wp (dispatch call) (λ _ s', control_step c s s' call) c s.
Proof.
  destruct (controls call) eqn:Hc.
  2:{ apply (wp_frame _ _ _ _ _ (frame_control call Hc)). intros _ s' Ha. by apply does_nothing. }
  destruct (schedules call) as [[kind p]|] eqn:Hs.
  { apply (wp_schedules call kind p); [done|]. intros. by eapply does_schedule. }
  destruct call as [call|call|call|call|call|call|call|call]; destruct call; try discriminate; cbn.
  - apply wp_initialize. intros. by apply does_initialize.
  - apply wp_propose_rotation. intros. by apply does_announce.
  - apply wp_accept_rotation. intros. by eapply does_accept.
  - eapply wp_mono; [by apply (rotation_quiet (OnRotation c_cancel_oracle_rotation)); left|].
    intros _ s' [Ha ?]. by apply does_drop_rotation.
  - eapply wp_mono; [by apply (rotation_quiet (OnRotation c_get_oracle_rotation_proposal)); right|].
    intros _ s' [Ha ?]. by apply does_drop_rotation.
  - apply wp_bind, wp_propose. intros. apply wp_ret. by eapply does_propose.
  - apply wp_approve. intros. by eapply does_approve.
  - apply wp_execute. intros. by eapply does_execute.
  - apply wp_cancel. intros. by eapply does_cancel.
  - apply wp_apply_scheduled. intros. by eapply does_apply.
  - apply wp_cancel_config. intros. by apply does_drop_change.
Qed.

Corollary dispatch_control `{HostCrypto} call c s s' :
  dispatch call c s = (Ok (), s') -> control_step c s s' call.
Proof. apply (wp_control_step call c s ()). Qed.

(** *** Slots a call leaves alone *)

Lemma pending_key kind : control_key (K_PendingConfigChange kind) = true.
Proof. unfold control_key. by rewrite orb_true_r. Qed.

Lemma timelocked_control k : k ∈ timelocked -> control_key k = true.
Proof. intros Hk. unfold control_key. by rewrite bool_decide_true. Qed.

Lemma pending_inj k1 k2 : K_PendingConfigChange k1 = K_PendingConfigChange k2 -> k1 = k2.
Proof. intros [= E]. by destruct k1, k2. Qed.

Lemma setting_slots p k v : (k, v) ∈ setting p -> k ∈ timelocked.
Proof.
  destruct p; simpl; intros Hk; repeat (apply elem_of_cons in Hk as [[= -> ->]|Hk]);
    first [by apply not_elem_of_nil in Hk | unfold timelocked; set_solver].
Qed.

Lemma untimed_setting k p : k ∉ timelocked -> k ∉ (setting p).*1.
Proof.
  intros Hk ([k' v] & -> & Hin%setting_slots)%list_elem_of_fmap. by apply Hk.
Qed.

(** A slot that is visibly none of the timelocked ones. *)
Ltac untimed :=
  unfold timelocked; let Hk := fresh in intros Hk;
  repeat (apply elem_of_cons in Hk as [[=]|Hk]); by apply not_elem_of_nil in Hk.

Lemma sets_other p s s' k :
  control_key k = true -> k ∉ timelocked -> sets p s s' -> persistent s' !! k = persistent s !! k.
Proof. intros Hk Hu [_ Ha]. apply Ha. split; [done|]. by apply untimed_setting. Qed.

(** A setting that changed was set to what the payload says. *)
Lemma sets_changed p s s' k :
  control_key k = true -> sets p s s' -> persistent s' !! k ≠ persistent s !! k ->
  (k, persistent s' !! k) ∈ setting p.
Proof.
  intros Hk [Hs Ha] Hne. destruct (decide (k ∈ (setting p).*1)) as [Hin|Hin].
  - apply list_elem_of_fmap in Hin as ([k' v] & -> & Hin). simpl. by rewrite (Hs k' v Hin).
  - by destruct Hne; apply Ha.
Qed.

Lemma action_effect_control a s s' :
  action_effect a s s' ->
  agree (λ k, control_key k = true ∧ k ≠ K_Admin ∧ k ≠ K_Oracle ∧ k ≠ K_ProtocolFeeBps) s s'.
Proof.
  intros He k (Hk & H1 & H2 & H3). destruct a; simpl in He;
    try (rewrite He; apply lookup_insert_ne; intros <-; discriminate);
    try (destruct He as [_ He]; rewrite He; apply lookup_insert_ne; intros <-; discriminate);
    try (destruct He as [He _]; apply He; first [done | intros ->; discriminate]);
    try (rewrite He; by apply lookup_insert_ne);
    destruct He as [_ _ _ _ He]; apply He; intros ->; discriminate.
Qed.

(** *** Why a slot changed *)

(** The settings under timelock and the principals. *)
Definition governed_slots : list Key := K_Admin :: K_Oracle :: timelocked.

(** A slot that is visibly not governed. *)
Ltac ungoverned :=
  unfold governed_slots, timelocked; let Hk := fresh in intros Hk;
  repeat (apply elem_of_cons in Hk as [[=]|Hk]); by apply not_elem_of_nil in Hk.

Lemma governed_control k : k ∈ governed_slots -> control_key k = true.
Proof. intros [->|[->|Hk]%elem_of_cons]%elem_of_cons; [done..|by apply timelocked_control]. Qed.

(** The governed slot an executed action sets, and to what. *)
Definition gov_sets (action : GovAction) (k : Key) (v : option Val) : Prop :=
  match action with
  | SetAdmin a => k = K_Admin ∧ v = Some (VAddr a)
  | SetOracle a => k = K_Oracle ∧ v = Some (VAddr a)
  | SetProtocolFeeBps bps => k = K_ProtocolFeeBps ∧ v = VU32 <$> bps
  | _ => False
  end.

Inductive cause (c : Ctx) (s s' : State) (k : Key) : Call -> Prop :=
  | by_initialize a o : persistent s !! K_Admin = None -> cause c s s' k (OnAdmin (c_initialize a o))
  | by_schedule kind pd :
      persistent s !! K_PendingConfigChange kind = Some (VPendingConfig pd) ->
      activation_ledger pd ≤ sequence c -> (k, persistent s' !! k) ∈ setting (payload pd) ->
      cause c s s' k (OnSchedule (c_apply_scheduled_changes kind))
  | by_rotation p :
      persistent s !! K_OracleRotationProposal = Some (VRotation p) ->
      proposed_at p + MIN_ROTATION_DELAY_SECONDS ≤ ledger_timestamp c ≤ expires_at p ->
      k = K_Oracle -> persistent s' !! k = Some (VAddr (new_oracle p)) ->
      cause c s s' k (OnRotation c_accept_oracle_rotation)
  | by_governance u id p :
      authorised c u = true -> gov_member s u -> proposal_at s id p -> gp_status p = Approved ->
      sequence c ≤ gp_expires_at_ledger p -> gov_sets (gp_action p) k (persistent s' !! k) ->
      cause c s s' k (OnGov (c_execute_gov_proposal u id)).

Lemma action_changes action s t k :
  action_effect action s t -> control_key k = true -> persistent t !! k ≠ persistent s !! k ->
  gov_sets action k (persistent t !! k).
Proof.
  intros He Hk Hne.
  assert (∀ k', control_key k' = false -> k ≠ k') as Hno by (intros k' ? ->; congruence).
  destruct action; simpl in He |- *;
    try (destruct Hne; rewrite He || (destruct He as [_ He]; rewrite He);
         apply lookup_insert_ne, not_eq_sym, Hno; reflexivity);
    try (destruct Hne; destruct He as [He _]; apply He, Hno; reflexivity);
    try (destruct Hne; destruct He as [_ _ _ _ He]; apply He; apply Hno; reflexivity).
  - destruct He as (Ha & Hv & _). destruct (decide (k = K_ProtocolFeeBps)) as [->|Hkf]; [done|].
    by destruct Hne; apply Ha.
  - destruct (decide (k = K_Admin)) as [->|Hka]; [by rewrite He, lookup_insert_eq|].
    by destruct Hne; rewrite He, lookup_insert_ne.
  - destruct (decide (k = K_Oracle)) as [->|Hka]; [by rewrite He, lookup_insert_eq|].
    by destruct Hne; rewrite He, lookup_insert_ne.
Qed.

(** A governed slot that changed has one of four causes. *)
Lemma governed_cause c s s' call k :
  control_step c s s' call -> k ∈ governed_slots -> persistent s' !! k ≠ persistent s !! k -> cause c s s' k call.
Proof.
  intros Hc Hk Hne. pose proof (governed_control k Hk) as Hck.
  assert (∀ k', k' ∉ governed_slots -> k' ≠ k) as Hno by (by intros k' Hk' ->).
  destruct Hc; try (destruct Hne;
    first [ match goal with Ha : agree _ _ s' |- _ => apply Ha; first [done | apply not_eq_sym, Hno; ungoverned] end
          | match goal with Hs : persistent s' = _ |- _ => rewrite Hs end;
            rewrite ?lookup_insert_ne, ?lookup_delete_ne by (apply Hno; ungoverned); done ]).
  - by apply by_initialize.
  - eapply by_schedule; [done..|].
    assert (persistent s' !! k = persistent t !! k) as Hs by (rewrite H2, lookup_delete_ne by (apply Hno; ungoverned); done).
    rewrite Hs in Hne |- *. by eapply sets_changed.
  - assert (k = K_Oracle) as ->.
    { destruct (decide (k = K_Oracle)); [done|]. destruct Hne.
      by rewrite H1, lookup_delete_ne, lookup_insert_ne by (done || (apply Hno; ungoverned)). }
    eapply by_rotation; [done..|]. by rewrite H1, lookup_delete_ne, lookup_insert_eq.
  - assert (persistent s' !! k = persistent t !! k) as Hs by (rewrite H5, lookup_insert_ne by (apply Hno; ungoverned); done).
    eapply by_governance; [done..|]. rewrite Hs in Hne |- *. by apply (action_changes _ s).
Qed.

(** A timelock never sets a principal. *)
Lemma setting_no_principal k p v : (k, v) ∈ setting p -> k ≠ K_Admin ∧ k ≠ K_Oracle.
Proof. intros Hk%setting_slots. split; intros ->; revert Hk; untimed. Qed.

