(* ===== verification/History.v ===== *)
(** * Who may change the settings

    Runs of the contract with their history: the timelock of the scheduled
    settings, the notice of an oracle rotation and the two signatures of a
    governance action, each traced back to the calls that asked for it. *)

From S2P Require Export Controls.

Section History.
Context `{HostCrypto}.
Notation at_end h := (play h empty_state).

(** ** Runs and their history *)

(** Somewhere in the run a call that meets [P] succeeded. *)
Definition happened (h : list (Ctx * Call)) (P : State -> Ctx -> Call -> Prop) : Prop :=
  ∃ h1 c call h2 s', h = h1 ++ (c, call) :: h2 ∧
    dispatch call c (at_end h1) = (Ok (), s') ∧ P (at_end h1) c call.

Lemma happened_mono h x (P : State -> Ctx -> Call -> Prop) : happened h P -> happened (h ++ [x]) P.
Proof.
  intros (h1 & c & call & h2 & s' & -> & E & HP). exists h1, c, call, (h2 ++ [x]), s'.
  by rewrite <-app_assoc.
Qed.

Lemma happened_now h c call s' (P : State -> Ctx -> Call -> Prop) :
  dispatch call c (at_end h) = (Ok (), s') -> P (at_end h) c call -> happened (h ++ [(c, call)]) P.
Proof. intros E HP. by exists h, c, call, [], s'. Qed.

Lemma happened_impl h (P Q : State -> Ctx -> Call -> Prop) :
  (∀ s c call, P s c call -> Q s c call) -> happened h P -> happened h Q.
Proof. intros HPQ (h1 & c & call & h2 & s' & -> & E & HP). exists h1, c, call, h2, s'. auto. Qed.

Lemma play_snoc h c call : at_end (h ++ [(c, call)]) = after_call call c (at_end h).
Proof. unfold play. by rewrite fold_left_app. Qed.

(** An invariant of runs: it holds at deployment and every successful call keeps it. *)
Lemma run_invariant (I : list (Ctx * Call) -> State -> Prop) :
  I [] empty_state ->
  (∀ h x, I h (at_end h) -> I (h ++ [x]) (at_end h)) ->
  (∀ h c call s', I h (at_end h) -> dispatch call c (at_end h) = (Ok (), s') -> I (h ++ [(c, call)]) s') ->
  ∀ h, I h (at_end h).
Proof.
  intros H0 Hsame Hstep h. induction h as [|[c call] h IH] using rev_ind; [done|].
  rewrite play_snoc. unfold after_call, invoke.
  destruct (dispatch call c (at_end h)) as [[[]|e|] s'] eqn:E; simpl; [|by apply Hsame..].
  by apply Hstep.
Qed.

(** Every entry of a family of slots goes back to a call: the runs keep this when a
    call either writes no such entry or writes one it accounts for. *)
Lemma run_traced {B} (entry : State -> B -> Prop) (origin : B -> State -> Ctx -> Call -> Prop) :
  (∀ b, ¬ entry empty_state b) ->
  (∀ c s s' call b, control_step c s s' call -> entry s' b -> entry s b ∨ origin b s c call) ->
  ∀ h b, entry (at_end h) b -> happened h (origin b).
Proof.
  intros H0 Hstep h. revert h. apply (run_invariant (λ h s, ∀ b, entry s b -> happened h (origin b))).
  - intros b Hb. by destruct (H0 b).
  - intros h x IH b Hb. by apply happened_mono, IH.
  - intros h c call s' IH E b Hb.
    destruct (Hstep _ _ _ _ b (dispatch_control _ _ _ _ E) Hb) as [Hold|Hnew].
    + by apply happened_mono, IH.
    + by eapply happened_now.
Qed.

(** ** The records of what is pending *)

(** The change was asked for by the administrator, and was due at [ledger]. *)
Definition scheduled (kind : ConfigChangeKind) (p : ConfigChangePayload) (ledger : Z)
    (s : State) (c : Ctx) (call : Call) : Prop :=
  schedules call = Some (kind, p) ∧ signed_by_admin s c ∧ ledger = sequence c + CONFIG_TIMELOCK_LEDGERS.

(** The rotation was announced by the administrator, with the delay it carries. *)
Definition announced (p : OracleRotationProposal) (s : State) (c : Ctx) (call : Call) : Prop :=
  ∃ n, call = OnRotation (c_propose_oracle_rotation (new_oracle p) n) ∧ signed_by_admin s c ∧
    MIN_ROTATION_DELAY_SECONDS ≤ n ∧ proposed_at p = ledger_timestamp c ∧
    expires_at p = ledger_timestamp c + n.

(** The two signatures of a governance proposal. *)
Definition proposed_by (id : Z) (u : Address) (action : GovAction) (s : State) (c : Ctx) (call : Call) : Prop :=
  ∃ ttl, call = OnGov (c_propose_gov_action u action ttl) ∧ next_proposal s id ∧
    authorised c u = true ∧ gov_member s u.
Definition approved_by_other (id : Z) (u : Address) (s : State) (c : Ctx) (call : Call) : Prop :=
  ∃ a, call = OnGov (c_approve_gov_proposal a id) ∧ authorised c a = true ∧ gov_member s a ∧ a ≠ u.

(** The entry [Hv : persistent s' !! k = Some v] after the writes of the step: it is the
    one written, or it was there before. *)
Ltac after_write Hv :=
  match type of Hv with
  | persistent ?s' !! ?k = _ =>
      first
        [ match goal with
          | Ha : agree _ ?s s' |- _ => rewrite (Ha k) in Hv by first [done | set_solver]
          end
        | match goal with
          | Hs : persistent s' = _ |- _ => rewrite Hs in Hv; after_write Hv
          end
        | match goal with
          | He : action_effect _ ?s s' |- _ =>
              rewrite (action_effect_control _ _ _ He k) in Hv by (split_and!; done)
          | Ha : sets _ ?s s' |- _ => rewrite (sets_other _ _ _ k eq_refl) in Hv by first [exact Ha | untimed]
          end ]
  | <[_ := _]> _ !! _ = _ =>
      let Heq := fresh in
      apply lookup_insert_Some in Hv as [[Heq Hv]|[_ Hv]]; [first [discriminate Heq | discriminate Hv | injection Hv as Hv | idtac]|after_write Hv]
  | delete _ _ !! _ = _ => apply lookup_delete_Some in Hv as [_ Hv]; after_write Hv
  | _ => idtac
  end.

Lemma pending_step c s s' call kind pd :
  control_step c s s' call ->
  persistent s' !! K_PendingConfigChange kind = Some (VPendingConfig pd) ->
  persistent s !! K_PendingConfigChange kind = Some (VPendingConfig pd) ∨
  scheduled kind (payload pd) (activation_ledger pd) s c call.
Proof.
  intros Hc Hpd. destruct Hc; after_write Hpd; try by left.
  right. match goal with Hk : K_PendingConfigChange _ = _ |- _ => apply pending_inj in Hk as -> end.
  by subst.
Qed.

Lemma run_pending h kind pd :
  persistent (at_end h) !! K_PendingConfigChange kind = Some (VPendingConfig pd) ->
  happened h (scheduled kind (payload pd) (activation_ledger pd)).
Proof.
  apply (run_traced (λ s x, persistent s !! K_PendingConfigChange x.1 = Some (VPendingConfig x.2))
    (λ x, scheduled x.1 (payload x.2) (activation_ledger x.2))) with (b := (kind, pd)).
  - intros [k p]. by rewrite fresh_entry.
  - intros c s s' call [k p]. apply pending_step.
Qed.

Lemma rotation_step c s s' call p :
  control_step c s s' call -> persistent s' !! K_OracleRotationProposal = Some (VRotation p) ->
  persistent s !! K_OracleRotationProposal = Some (VRotation p) ∨ announced p s c call.
Proof.
  intros Hc Hp. destruct Hc; try (after_write Hp; by left).
  - after_write Hp; [|by left]. right. subst p. by exists n.
  - destruct_or?; left; congruence.
Qed.

Lemma run_rotation h p :
  persistent (at_end h) !! K_OracleRotationProposal = Some (VRotation p) -> happened h (announced p).
Proof.
  apply (run_traced (λ s p, persistent s !! K_OracleRotationProposal = Some (VRotation p)) announced).
  - intros q. by rewrite fresh_entry.
  - intros c s s' call q. apply rotation_step.
Qed.

(** The proposal was there before with this proposer and action, or is proposed now; and
    if it is approved, it was, or is approved now. *)
Lemma proposal_step c s s' call id p' :
  control_step c s s' call -> proposal_at s' id p' ->
  (∃ p, proposal_at s id p ∧ gp_proposer p = gp_proposer p' ∧ gp_action p = gp_action p' ∧
     (gp_status p' = Approved -> gp_status p = Approved ∨ approved_by_other id (gp_proposer p') s c call)) ∨
  (proposed_by id (gp_proposer p') (gp_action p') s c call ∧ gp_status p' = Pending).
Proof.
  intros Hc Hp. unfold proposal_at in Hp. destruct Hc; after_write Hp; try (left; exists p'; by auto).
  all: match goal with Hk : K_GovProposal _ = K_GovProposal _ |- _ => injection Hk as -> end; subst p'.
  - right. split; [|done]. exists ttl. by subst.
  - left. exists p. split_and!; [done..|]. intros _. right. exists u. split_and!; done.
  - left. exists p. by split_and!.
  - left. exists p. by split_and!.
Qed.

Lemma run_proposed h id p :
  proposal_at (at_end h) id p -> happened h (proposed_by id (gp_proposer p) (gp_action p)).
Proof.
  intros Hp.
  apply (run_traced (λ s x, ∃ p, proposal_at s x.1 p ∧ gp_proposer p = x.2.1 ∧ gp_action p = x.2.2)
    (λ x, proposed_by x.1 x.2.1 x.2.2)) with (b := (id, (gp_proposer p, gp_action p))); [..|by exists p].
  - intros x (q & Hq & _). unfold proposal_at in Hq. by rewrite fresh_entry in Hq.
  - intros c s s' call [i [u a]] Hc (q & Hq & Hu & Ha). simpl in *. subst.
    destruct (proposal_step _ _ _ _ _ _ Hc Hq) as [(q' & ? & ? & ? & _)|[? _]]; [left|by right].
    by exists q'.
Qed.

Lemma run_approved h id p :
  proposal_at (at_end h) id p -> gp_status p = Approved ->
  happened h (approved_by_other id (gp_proposer p)).
Proof.
  intros Hp Hst.
  apply (run_traced (λ s x, ∃ p, proposal_at s x.1 p ∧ gp_proposer p = x.2 ∧ gp_status p = Approved)
    (λ x, approved_by_other x.1 x.2)) with (b := (id, gp_proposer p)); [..|by exists p].
  - intros x (q & Hq & _). unfold proposal_at in Hq. by rewrite fresh_entry in Hq.
  - intros c s s' call [i u] Hc (q & Hq & Hu & Ha). simpl in *. subst.
    destruct (proposal_step _ _ _ _ _ _ Hc Hq) as [(q' & ? & ? & ? & Hap)|[_ Hpe]]; [|congruence].
    destruct (Hap Ha); [left; by exists q'|by right].
Qed.

(** A proposal found expired is stored as such by a call that then fails, so no run ever
    leaves one in the storage. *)
Lemma expired_never_stored h id p : proposal_at (at_end h) id p -> gp_status p ≠ Expired.
Proof.
  intros Hp Hst.
  destruct (run_traced (λ s x, proposal_at s id x ∧ gp_status x = Expired) (λ _ _ _ _, False))
    with (h := h) (b := p) as (h1 & c & call & h2 & s' & _ & _ & []); [..|done].
  - intros q [Hq _]. unfold proposal_at in Hq. by rewrite fresh_entry in Hq.
  - intros c s s' call q Hc [Hq Hx]. left. unfold proposal_at in Hq. destruct Hc; after_write Hq; try done;
      subst q; simpl in Hx; congruence.
Qed.

(** ** What the history guarantees *)

(** A governance action carried out on two signatures of different members. *)
Definition two_signed (h : list (Ctx * Call)) (c : Ctx) (call : Call) (action : GovAction) : Prop :=
  ∃ u id p, call = OnGov (c_execute_gov_proposal u id) ∧ authorised c u = true ∧
    gov_member (at_end h) u ∧ proposal_at (at_end h) id p ∧ gp_action p = action ∧
    sequence c ≤ gp_expires_at_ledger p ∧
    happened h (proposed_by id (gp_proposer p) action) ∧
    happened h (approved_by_other id (gp_proposer p)).

Lemma execute_two_signed h c u id p :
  authorised c u = true -> gov_member (at_end h) u -> proposal_at (at_end h) id p ->
  gp_status p = Approved -> sequence c ≤ gp_expires_at_ledger p ->
  two_signed h c (OnGov (c_execute_gov_proposal u id)) (gp_action p).
Proof. intros. exists u, id, p. split_and!; by auto using run_proposed, run_approved. Qed.

(** C9: the two-person rule: in any run of the contract from its deployment, a
    call that carries out a governance action follows a call that proposed this
    action, signed by a member of the governance of that moment, and a call that
    approved it, signed by another member of its own moment; the call is itself
    signed by a member and made before the proposal expires, and it does what the
    action says and nothing else but record the execution. *)
Theorem governance_two_signed h u id c s' :
  dispatch (OnGov (c_execute_gov_proposal u id)) c (at_end h) = (Ok (), s') ->
  ∃ action t, two_signed h c (OnGov (c_execute_gov_proposal u id)) action ∧
    action_effect action (at_end h) t ∧ agree (λ k, k ≠ K_GovProposal id) t s'.
Proof.
  intros E. cbn in E. wp_intro E. apply wp_execute. intros p t s1 Hau Hm Hp Hst Hx He Hs1.
  exists (gp_action p), t. split_and!; [by apply execute_two_signed|done|].
  intros k Hk. by rewrite Hs1, lookup_insert_ne.
Qed.

(** C10: the timelock: in any run of the contract, a successful call that changes
    one of the timelocked settings (the windows, the stake and exposure limits, the
    pending-winnings cap and expiry, the minimum bet, the oracle's staleness and
    deviation limits, the protocol fee) initializes a contract without
    administrator, or applies a change the administrator signed at least the
    timelock's number of ledgers earlier and sets exactly what was then asked, or
    carries out a fee proposal signed by two members of the governance. *)
Theorem timelock_respected h call c s' k :
  dispatch call c (at_end h) = (Ok (), s') -> k ∈ timelocked ->
  persistent s' !! k ≠ persistent (at_end h) !! k ->
  (persistent (at_end h) !! K_Admin = None ∧ ∃ a o, call = OnAdmin (c_initialize a o)) ∨
  (∃ kind p ledger, call = OnSchedule (c_apply_scheduled_changes kind) ∧ ledger ≤ sequence c ∧
     happened h (scheduled kind p ledger) ∧ (k, persistent s' !! k) ∈ setting p) ∨
  (k = K_ProtocolFeeBps ∧ ∃ bps, two_signed h c call (SetProtocolFeeBps bps) ∧
     persistent s' !! k = VU32 <$> bps).
Proof.
  intros E Hk Hne. destruct (governed_cause _ _ _ _ k (dispatch_control _ _ _ _ E)); [set_solver|done|..].
  - left. eauto.
  - right. left. exists kind, (payload pd), (activation_ledger pd). by auto using run_pending.
  - subst. exfalso. revert Hk. untimed.
  - pose proof (execute_two_signed h c u id p) as Hts. unfold gov_sets in *.
    destruct (gp_action p); try done; destruct_and?; subst; [|exfalso; revert Hk; untimed..].
    right. right. eauto 10.
Qed.

(** C11: in any run of the contract, a successful call that changes the administrator
    initializes a contract without one or carries out a proposal of two members of
    the governance that names the new one; a call that changes the oracle does one
    of these for the oracle, or accepts a rotation to this oracle that the
    administrator announced at least [MIN_ROTATION_DELAY_SECONDS] earlier and that has not
    expired. *)
Theorem principals_change h call c s' :
  dispatch call c (at_end h) = (Ok (), s') ->
  (persistent s' !! K_Admin ≠ persistent (at_end h) !! K_Admin ->
   (persistent (at_end h) !! K_Admin = None ∧ ∃ a o, call = OnAdmin (c_initialize a o)) ∨
   (∃ a, two_signed h c call (SetAdmin a) ∧ persistent s' !! K_Admin = Some (VAddr a))) ∧
  (persistent s' !! K_Oracle ≠ persistent (at_end h) !! K_Oracle ->
   (persistent (at_end h) !! K_Admin = None ∧ ∃ a o, call = OnAdmin (c_initialize a o)) ∨
   (∃ a, two_signed h c call (SetOracle a) ∧ persistent s' !! K_Oracle = Some (VAddr a)) ∨
   (∃ p, call = OnRotation c_accept_oracle_rotation ∧ happened h (announced p) ∧
      proposed_at p + MIN_ROTATION_DELAY_SECONDS ≤ ledger_timestamp c ≤ expires_at p ∧
      persistent s' !! K_Oracle = Some (VAddr (new_oracle p)))).
Proof.
  intros E. pose proof (dispatch_control _ _ _ _ E) as Hc. split; intros Hne.
  - destruct (governed_cause _ _ _ _ K_Admin Hc) as [|? ? ? ? []%setting_no_principal| |u id p]; [set_solver|done|by eauto|done|done|].
    pose proof (execute_two_signed h c u id p) as Hts. unfold gov_sets in *.
    destruct (gp_action p); try done; destruct_and?; first [done | right; by eauto 10].
  - destruct (governed_cause _ _ _ _ K_Oracle Hc) as [|? ? ? ? []%setting_no_principal| |u id p]; [set_solver|done|by eauto|done| |].
    + right. right. eauto 10 using run_rotation.
    + pose proof (execute_two_signed h c u id p) as Hts. unfold gov_sets in *.
      destruct (gp_action p); try done; destruct_and?; first [done | right; left; by eauto 10].
Qed.
End History.
