(* ===== verification/Scenario.v ===== *)
(** * Concrete runs

    A small deployment driven through the operations of the contract: who the
    parties are, the states it goes through, and boolean checkers that decide
    on a concrete state the invariants the theorems ask for ([book],
    [disputes], [fee_config_ok], ...).  Checkers come with their soundness
    lemma, so that an instance is settled by evaluation. *)

From stdpp Require Import pretty.
From Stdlib Require Import Strings.Byte.
From S2P Require Export Claims CancelSpec OracleSpec GovernanceSpec TreasurySlot History LegacySpec.

(** ** Deciding a book *)

Section Check_book.
Context (s : State) (rid : Z).

Definition check_entry (m : RoundMode) (u : Address) : bool :=
  match m, pos_at s rid u, pred_at s rid u, com_at s rid u with
  | UpDown, Some (VPosition p), None, None => 0 <? pos_amount p
  | Precision, None, Some (VPrediction p), None =>
      (0 <? pred_amount p) && bool_decide (pred_user p = u)
  | Precision, None, None, Some (VCommitment cm) => (0 <? com_amount cm) && negb (revealed cm)
  | Precision, None, Some (VPrediction p), Some (VCommitment cm) =>
      (0 <? pred_amount p) && bool_decide (pred_user p = u) && revealed cm
  | _, _, _, _ => false
  end.

Lemma check_entry_sound m u : check_entry m u = true -> entry s rid u m.
Proof.
  unfold check_entry, entry. intros H.
  repeat case_match; simplify_eq; try discriminate; zbool; split_and!; eauto;
    rewrite ?bool_decide_eq_true in *; naive_solver.
Qed.

(** The slot of a stake in this round, and whose it is. *)
Definition stake_owner (k : Key) : option Address :=
  match k with
  | KVec n [AU64 r; AAddr u] =>
      if (r =? rid) && bool_decide (n ∈ ["Position"; "PrecisionPosition"; "PrecisionCommitment"])
      then Some u else None
  | _ => None
  end.

Definition check_vacant (ps : list Address) : bool :=
  forallb (λ kv, from_option (λ u, bool_decide (u ∈ ps)) true (stake_owner kv.1))
    (map_to_list (persistent s)).

Lemma check_vacant_slot ps k u :
  check_vacant ps = true -> stake_owner k = Some u -> u ∉ ps -> persistent s !! k = None.
Proof.
  intros H Hk Hu. destruct (persistent s !! k) as [v|] eqn:Hv; [|done]. exfalso.
  apply elem_of_map_to_list, list_elem_of_In in Hv.
  unfold check_vacant in H. rewrite forallb_forall in H. specialize (H _ Hv). simpl in H.
  rewrite Hk in H. simpl in H. by apply bool_decide_eq_true in H.
Qed.

Lemma check_vacant_sound ps u : check_vacant ps = true -> u ∉ ps -> vacant s rid u.
Proof.
  intros H Hu. unfold vacant, pos_at, pred_at, com_at.
  split_and!; apply (check_vacant_slot ps _ u); try done; simpl; by rewrite Z.eqb_refl.
Qed.

(** A missing list is the empty one. *)
Definition participants_at : option (list Address) :=
  match persistent s !! K_RoundParticipants rid with
  | None => Some []
  | Some v => dec cAddrs v
  end.

Lemma participants_at_sound ps :
  participants_at = Some ps ->
  ∃ o, persistent s !! K_RoundParticipants rid = enc cAddrs <$> o ∧ ps = default [] o.
Proof.
  unfold participants_at. destruct (persistent s !! _) as [v|] eqn:Hv.
  - intros H%enc_dec. exists (Some ps). by rewrite H.
  - intros [= <-]. by exists None.
Qed.
End Check_book.

Definition check_pool (s : State) (r : Round) (ps : list Address) : bool :=
  match mode r with
  | UpDown =>
      (pool_up r =? zsum (λ u, side_stake s (round_id r) u Up) ps) &&
      (pool_down r =? zsum (λ u, side_stake s (round_id r) u Down) ps)
  | Precision => true
  end.

Definition check_book (s : State) (r : Round) (ps : list Address) : bool :=
  bool_decide (participants_at s (round_id r) = Some ps) && bool_decide (NoDup ps) &&
  forallb (check_entry s (round_id r) (mode r)) ps && check_vacant s (round_id r) ps &&
  check_pool s r ps.

Lemma check_book_sound s r ps : check_book s r ps = true -> book s r ps.
Proof.
  unfold check_book. rewrite !andb_true_iff, !bool_decide_eq_true.
  intros ((((Hl & Hn) & He) & Hv) & Hp). split.
  - by apply participants_at_sound.
  - done.
  - intros u Hu. rewrite forallb_forall in He. apply check_entry_sound, He.
    by apply list_elem_of_In.
  - intros u Hu. by eapply check_vacant_sound.
  - unfold check_pool in Hp. intros Hm. rewrite Hm in Hp. zbool. tauto.
  - unfold check_pool in Hp. intros Hm. rewrite Hm in Hp. zbool. tauto.
Qed.

(** ** Deciding the other hypotheses *)

Definition check_penalty (s : State) : bool :=
  match persistent s !! K_EarlyCashoutBps with Some (VU32 b) => 0 <=? b | _ => true end.

Lemma check_penalty_sound s : check_penalty s = true -> penalty_ok s.
Proof. unfold check_penalty. intros H b Hb. rewrite Hb in H. zbool. lia. Qed.

Definition check_fee_config (s : State) : bool :=
  match persistent s !! K_ProtocolFeeBps with
  | Some (VU32 b) => (0 <=? b) && (b <=? MAX_PROTOCOL_FEE_BPS)
  | _ => true
  end.

Lemma check_fee_config_sound s : check_fee_config s = true -> fee_config_ok s.
Proof. unfold check_fee_config. intros H b Hb. rewrite Hb in H. zbool. lia. Qed.

Definition check_unopened (s : State) (rid : Z) : bool :=
  negb (bool_decide (is_Some (persistent s !! K_RoundParticipants rid))) && check_vacant s rid [].

Lemma check_unopened_sound s rid : check_unopened s rid = true -> unopened s rid.
Proof.
  unfold check_unopened. rewrite andb_true_iff, negb_true_iff, bool_decide_eq_false.
  intros [Hl Hv]. split; [by apply eq_None_not_Some|].
  intros u. eapply check_vacant_sound; [done|]. apply not_elem_of_nil.
Qed.

(** The staged settlements of a state. *)
Definition disputes_of (s : State) : gmap Z PendingDisputeSettlement :=
  default ∅ (persistent s !! K_PendingDisputes ≫= dec cDisputes).

Definition check_disputes (s : State) : bool :=
  match persistent s !! K_PendingDisputes with
  | None | Some (VDisputes _) => true
  | _ => false
  end.

Lemma check_disputes_sound s : check_disputes s = true -> disputes s (disputes_of s).
Proof.
  unfold check_disputes, disputes, disputes_of. intros H. destruct (persistent s !! _) as [v|].
  - destruct v; try discriminate. by eexists (Some _).
  - by exists None.
Qed.

Definition active_of (s : State) : option Round := persistent s !! K_ActiveRound ≫= dec cRound.

Lemma active_of_sound s r : active_of s = Some r -> active s r.
Proof. unfold active_of, active. destruct (persistent s !! _); [|done]. by intros H%enc_dec; subst. Qed.

Definition check_disjoint (s : State) : bool :=
  forallb (λ kv, match kv.1 with
                 | KVec "Allowlisted" [AAddr u] => negb (bool_decide (listed s (K_Denylisted u)))
                 | _ => true
                 end) (map_to_list (persistent s)).

Lemma check_disjoint_sound s : check_disjoint s = true -> lists_disjoint s.
Proof.
  unfold check_disjoint. rewrite forallb_forall. intros H u [[v Hv] Hd].
  apply elem_of_map_to_list, list_elem_of_In in Hv. specialize (H _ Hv). simpl in H.
  by apply negb_true_iff, bool_decide_eq_false in H.
Qed.

Definition check_indexes (s : State) : bool :=
  forallb (λ k, match persistent s !! k with
                | Some (VAddrs l) => bool_decide (NoDup l)
                | _ => true
                end)
    [K_LeaderboardWins; K_LeaderboardStreak; K_SeasonLeaderboardWins; K_SeasonLeaderboardStreak].

Lemma check_indexes_sound s : check_indexes s = true -> indexes_nodup s.
Proof.
  unfold check_indexes. rewrite forallb_forall. intros H k l Hk%list_elem_of_In Hl.
  specialize (H _ Hk). rewrite Hl in H. by apply bool_decide_eq_true in H.
Qed.

(** ** The deployment *)

Definition admin : Address := 10%N.
Definition oracle : Address := 11%N.
Definition alice : Address := 1%N.
Definition bob : Address := 2%N.
Definition carol : Address := 3%N.

Definition network : Bytes := repeat x01 32.

(** Ledger [n], closed every five seconds; every party signs. *)
Definition at_ledger (n : Z) : Ctx := {|
  sequence := n; ledger_timestamp := 1000 + 5 * n; env_network_id := network;
  current_contract := 99%N; authorised := λ _, true; min_persistent_ttl := 4096 |}.

(** The state after a transaction at ledger [n]. *)
Definition after {A} (n : Z) (m : M A) (s : State) : State := (invoke m (at_ledger n) s).2.
(** Comparing two named states unfolds the names first. *)
#[global] Strategy 100 [after].

(** A handler that evaluates to [Ok a] leaves the state [after] names. *)
Lemma runs {A} n (m : M A) s a :
  (m (at_ledger n) s).1 = Ok a -> m (at_ledger n) s = (Ok a, after n m s).
Proof.
  unfold after, invoke. destruct (m (at_ledger n) s) as [o t]. simpl. by intros ->.
Qed.

(** Toy cryptography: enough to run the handlers that call it. *)
Definition word (n : Z) : Bytes := String.list_byte_of_string (pretty n).

Definition toy_crypto : HostCrypto := {|
  sha256 b := firstn 32 (b ++ repeat x00 32);
  u128_to_xdr := word; u32_to_xdr := word; u64_to_xdr := word;
  bytes_to_xdr b := b; address_to_xdr a := word (Z.of_N a);
  ed25519_verify key msg sig := bool_decide (sig = key ++ msg) |}.

Definition genesis : State := after 1 (initialize admin oracle) empty_state.
Definition funded : State :=
  after 4 (mint_initial carol) (after 3 (mint_initial bob) (after 2 (mint_initial alice) genesis)).

(** A 2.5% fee, half of it insured; cash-outs return 90%. *)
Definition configured : State :=
  after 1500 (apply_scheduled_changes KProtocolFeeBps)
  (after 9 (set_early_cashout_bps (Some 1000))
  (after 8 (set_insurance_eligible_events [1])
  (after 7 (set_insurance_coverage_bps 1000)
  (after 6 (set_insurance_split_bps 5000)
  (after 5 (schedule_protocol_fee_bps (Some 250)) funded))))).

(** An UpDown round with a bet on each side. *)
Definition updown_open : State := after 1510 (create_round 5000000 (Some 0)) configured.
Definition one_bet : State := after 1511 (place_bet alice 1000 Up) updown_open.
Definition two_bets : State := after 1512 (place_bet bob 3000 Down) one_bet.

(** The same round with a fund of 250, too small for the coverage of both bets. *)
Definition insured_bets : State :=
  after 1514 (top_up_insurance_fund 250) (after 1513 (mint_initial admin) two_bets).

(** The active round of a state that has one. *)
Definition round_of (s : State) : Round :=
  default {| round_id := 0; price_start := 0; start_ledger := 0; start_timestamp := 0;
             bet_end_ledger := 0; end_ledger := 0; pool_up := 0; pool_down := 0; mode := UpDown |}
    (active_of s).

(** The first round settled at a higher price. *)
Definition settled_up : State :=
  after 1522 (_settle_round_with_price (round_of two_bets) 6000000 None) two_bets.

(** A Precision round: a prediction, and a commitment revealed in time. *)
Definition salt : Bytes := map (λ n, default x00 (Byte.of_nat n)) (seq 1 32).
Definition secret_hash : Bytes := commitment_hash (H := toy_crypto) 5100000 salt.
Definition precision_open : State := after 1530 (create_round 5000000 (Some 1)) settled_up.
Definition predicted : State :=
  after 1531 (place_precision_prediction alice 700 5300000) precision_open.
Definition committed : State := after 1532 (commit_prediction carol secret_hash 900) predicted.
Definition opened_up : State :=
  after 1537 (reveal_prediction (H := toy_crypto) carol 5100000 salt) committed.

(** The first round staged for a dispute window, and the next one opened while
    it waits. *)
Definition window_set : State := after 1513 (set_dispute_ledgers 20) two_bets.
Definition staged_up : State :=
  after 1522 (_settle_round_with_price (round_of two_bets) 6000000 None) window_set.
Definition next_open : State := after 1530 (create_round 5000000 (Some 0)) staged_up.

(** The oracle reports alive and a quorum of three feeds is configured. *)
Definition alive : State :=
  after 1521 (set_oracle_quorum_config
    (Some {| min_observations := 3; quorum_threshold := 3; outlier_threshold_bps := 500 |}))
  (after 1520 (update_oracle_heartbeat 0) two_bets).
Definition report : OraclePayload := {|
  price := 6000000; timestamp := 8605; op_round_id := 1510; nonce := 7; network_id := network;
  contract_addr := 99%N; confidence := None; attestation := None |}.
Definition feeds : MultiFeedPayload := {|
  mf_prices := [6010000; 5990000; 9000000; 6000000]; mf_sources := [1; 2; 3; 4]; mf_round_id := 1510;
  mf_nonce := 7; mf_network_id := network; mf_contract_addr := 99%N; mf_timestamp := 8605 |}.
Definition resolved : State := after 1522 (resolve_round (H := toy_crypto) report) alive.
Definition resolved_multi : State := after 1522 (resolve_round_multi feeds) alive.

(** Bob is the second approver; the administrator proposes, bob approves. *)
Definition governed : State := after 20 (set_gov_approver bob) funded.
Definition proposed : State := after 21 (propose admin (SetTreasuryAddress carol) None) governed.
Definition approved : State := after 22 (approve bob 1) proposed.
Definition executed : State := after 23 (execute admin 1) approved.

(** What two users do afterwards: a mint, a withdrawal of fees proposed and approved. *)
Definition later : list (Ctx * Call) :=
  [(at_ledger 24, OnRound (c_mint_initial carol));
   (at_ledger 25, OnGov (c_propose_gov_action admin (WithdrawProtocolFee carol 5) None));
   (at_ledger 26, OnGov (c_approve_gov_proposal bob 2))].
Definition withdrawal_approved : State := play (H := toy_crypto) later executed.

(** A constitution with a veto window of ten ledgers and twenty more to wait. *)
Definition established : State := after 24 (establish_constitution 10 20 true) governed.
Definition amended : State := after 25 (propose_amendment bob "min_bet" 5) established.

(** A run from deployment: three users, an UpDown round with two bets, and the
    administrator switching to claims only. *)
Definition journey : list (Ctx * Call) :=
  [(at_ledger 1, OnAdmin (c_initialize admin oracle));
   (at_ledger 2, OnRound (c_mint_initial alice)); (at_ledger 3, OnRound (c_mint_initial bob));
   (at_ledger 4, OnRound (c_mint_initial carol));
   (at_ledger 5, OnSchedule (c_schedule_protocol_fee_bps (Some 250)));
   (at_ledger 1500, OnSchedule (c_apply_scheduled_changes KProtocolFeeBps));
   (at_ledger 1510, OnRound (c_create_round 5000000 (Some 0)));
   (at_ledger 1511, OnRound (c_place_bet alice 1000 Up));
   (at_ledger 1512, OnRound (c_place_bet bob 3000 Down));
   (at_ledger 1513, OnRound (c_cancel_round 1));
   (at_ledger 1520, OnRound (c_create_round 5000000 (Some 0)));
   (at_ledger 1521, OnRound (c_place_bet alice 500 Up));
   (at_ledger 1522, OnAdmin (c_set_runtime_mode 1))].
Definition journeyed : State := play (H := toy_crypto) journey empty_state.

Lemma journey_reachable : reachable (H := toy_crypto) 3 journeyed.
Proof.
  apply (play_reachable (H := toy_crypto) journey 0 empty_state); [constructor|].
  repeat (constructor; [try exact I|]); [|constructor]. intros b [= <-]. done.
Qed.

(** Rounds of the first layout: their positions are in one map. *)
Definition store (k : Key) (v : Val) (s : State) : State :=
  mk_state (<[k := v]> (persistent s)) (instance s) (temporary s) (ttl s) (events s).
Definition old_positions : gmap Address UserPosition :=
  {[alice := {| pos_amount := 1000; pos_side := Up |}; bob := {| pos_amount := 3000; pos_side := Down |}]}.
Definition old_updown : State := store K_UpDownPositions (VPositionMap old_positions) configured.
Definition old_predictions : gmap Address PrecisionPrediction :=
  {[alice := {| pred_user := alice; predicted_price := 5300000; pred_amount := 700 |};
    carol := {| pred_user := carol; predicted_price := 5100000; pred_amount := 900 |}]}.
Definition old_precision : State := store K_PrecisionPositions (VPredictionMap old_predictions) configured.

(** A run in which bob is made the second approver, he and the administrator name a new
    oracle, and the administrator announces that the first one comes back. *)
Definition handover : list (Ctx * Call) :=
  [(at_ledger 1, OnAdmin (c_initialize admin oracle));
   (at_ledger 2, OnGov (c_set_gov_approver bob));
   (at_ledger 3, OnGov (c_propose_gov_action admin (SetOracle carol) None));
   (at_ledger 4, OnGov (c_approve_gov_proposal bob 1));
   (at_ledger 5, OnGov (c_execute_gov_proposal admin 1));
   (at_ledger 6, OnRotation (c_propose_oracle_rotation oracle 10000))].
Definition at_end (h : list (Ctx * Call)) : State := play (H := toy_crypto) h empty_state.

(** A run goes on with a call that succeeds. *)
Lemma goes_on h c call :
  (dispatch (H := toy_crypto) call c (at_end h)).1 = Ok () ->
  dispatch (H := toy_crypto) call c (play (H := toy_crypto) h empty_state) = (Ok (), at_end (h ++ [(c, call)])).
Proof.
  unfold at_end. rewrite play_snoc. unfold after_call, invoke.
  destruct (dispatch (H := toy_crypto) call c (play (H := toy_crypto) h empty_state)) as [o s]. simpl. by intros ->.
Qed.

Definition check_no_proposals (s : State) : bool :=
  negb (bool_decide (is_Some (persistent s !! K_NextGovProposalId))) &&
  forallb (λ kv, match kv.1 with KVec "GovProposal" [AU64 _] => false | _ => true end)
    (map_to_list (persistent s)).

Lemma check_no_proposals_sound s : check_no_proposals s = true -> no_proposals s.
Proof.
  unfold check_no_proposals. rewrite andb_true_iff, negb_true_iff, bool_decide_eq_false, forallb_forall.
  intros [Hn H]. split; [by apply eq_None_not_Some|]. intros id.
  destruct (persistent s !! K_GovProposal id) as [v|] eqn:Hv; [|reflexivity].
  apply elem_of_map_to_list, list_elem_of_In in Hv. specialize (H _ Hv). simpl in H. done.
Qed.

(** Discharges the hypotheses of an instance by evaluation. *)
Ltac concrete :=
  match goal with
  | |- _ = (Ok _, ?t) => try unfold t; apply runs
  | |- active _ _ => apply active_of_sound
  | |- book _ _ _ => apply check_book_sound
  | |- fee_config_ok _ => apply check_fee_config_sound
  | |- penalty_ok _ => apply check_penalty_sound
  | |- unopened _ _ => apply check_unopened_sound
  | |- disputes _ _ => apply check_disputes_sound
  | |- lists_disjoint _ => apply check_disjoint_sound
  | |- no_proposals _ => apply check_no_proposals_sound
  | |- indexes_nodup _ => apply check_indexes_sound
  | |- last_round _ _ => exists None; split
  | |- _ => idtac
  end;
  vm_compute; first [reflexivity | intros [=]].
