(* ===== verification/Witnesses.v ===== *)
(** * Instances

    Every theorem with hypotheses applied to a concrete run of [Scenario]: the
    hypotheses are discharged by evaluating the handlers and the checkers. *)

From S2P Require Import Scenario ReplaySpec.

(** ** Access control and leaderboards *)

Lemma enforce_access_control_spec_witness :
  (_enforce_access_control alice (at_ledger 20) (after 19 (set_access_control_enabled true) funded)).1
  = Err AccessDenied.
Proof.
  rewrite (enforce_access_control_spec alice (Some true)); vm_compute; reflexivity.
Defined.

Lemma lists_stay_disjoint_witness :
  lists_disjoint (after 19 (add_allowlisted alice) (after 18 (add_denylisted alice) funded)).
Proof.
  destruct (lists_stay_disjoint true alice (at_ledger 19) (after 18 (add_denylisted alice) funded) () _
    ltac:(concrete) ltac:(concrete)) as [Hd _].
  exact Hd.
Defined.

Definition ranked_again : State := after 1523 (_update_leaderboards alice) settled_up.

Lemma leaderboards_ranked_witness : ∃ l,
  persistent ranked_again !! K_LeaderboardWins = Some (VAddrs l) ∧
  good_index total_wins (λ a, stats_at ranked_again (K_UserStats a)) l.
Proof.
  destruct (leaderboards_ranked alice (at_ledger 1523) settled_up () ranked_again
    ltac:(concrete) ltac:(concrete) K_LeaderboardWins total_wins ltac:(by left)) as (l & Hl & Hg & _).
  exact (ex_intro _ l (conj Hl Hg)).
Defined.

(** ** Staking *)

Lemma place_bet_keeps_book_witness : ∃ r,
  active two_bets r ∧ book two_bets r [alice; bob] ∧ total two_bets = total one_bet.
Proof.
  destruct (place_bet_keeps_book bob 3000 Down (at_ledger 1512) one_bet two_bets (round_of one_bet) [alice]
    ltac:(concrete) ltac:(concrete) ltac:(concrete)) as (r & Ha & _ & Hb & _ & _ & _ & _ & _ & Ht).
  exact (ex_intro _ r (conj Ha (conj Hb Ht))).
Defined.

Lemma place_precision_keeps_book_witness :
  active predicted (round_of precision_open) ∧ book predicted (round_of precision_open) [alice].
Proof.
  destruct (place_precision_keeps_book alice 700 5300000 (at_ledger 1531) precision_open predicted
    (round_of precision_open) [] ltac:(concrete) ltac:(concrete) ltac:(concrete)) as (Ha & Hb & _).
  exact (conj Ha Hb).
Defined.

Lemma commit_keeps_book_witness :
  book committed (round_of predicted) [alice; carol] ∧ moved_stake predicted committed carol 900.
Proof.
  destruct (commit_keeps_book carol secret_hash 900 (at_ledger 1532) predicted committed
    (round_of predicted) [alice] ltac:(concrete) ltac:(concrete) ltac:(concrete))
    as (_ & Hb & _ & _ & _ & Hm).
  exact (conj Hb Hm).
Defined.

Lemma reveal_keeps_book_witness :
  book opened_up (round_of committed) [alice; carol] ∧ total opened_up = total committed.
Proof.
  destruct (reveal_keeps_book (H := toy_crypto) carol 5100000 salt (at_ledger 1537) committed opened_up
    (round_of committed) [alice; carol] ltac:(concrete) ltac:(concrete) ltac:(concrete))
    as (cm & _ & _ & _ & _ & _ & _ & _ & _ & Hb & Ht).
  exact (conj Hb Ht).
Defined.

Definition cashed : State := after 1517 (cash_out_early alice) two_bets.

(** Alice leaves with 900 of her 1000; the rest goes to the protocol. *)
Lemma cash_out_keeps_book_witness :
  (∃ r, book cashed r [bob] ∧ pool_up r = 0 ∧ pool_down r = 3000) ∧
  slot cashed (K_PendingWinnings alice) = 900 ∧ protocol_funds cashed = 100.
Proof.
  destruct (cash_out_keeps_book alice (at_ledger 1517) two_bets cashed (round_of two_bets) [alice; bob]
    ltac:(concrete) ltac:(concrete) ltac:(concrete) ltac:(concrete))
    as (r & p & b & _ & _ & Hb & _ & Hpos & Hup & Hdn & _ & [[Hr _] Hu Hf _ _]).
  assert (p = {| pos_amount := 1000; pos_side := Up |}) as -> by (vm_compute in Hpos; congruence).
  assert (b = 1000) as -> by (vm_compute in Hr; congruence).
  split; [exists r; exact (conj Hb (conj Hup Hdn))|]. split; [rewrite Hu|rewrite Hf]; vm_compute; reflexivity.
Defined.

Lemma create_round_opens_witness : ∃ r, active updown_open r ∧ book updown_open r [] ∧ round_id r = 1.
Proof.
  destruct (create_round_opens 5000000 (Some 0) (at_ledger 1510) configured updown_open 0
    ltac:(concrete) ltac:(concrete) ltac:(concrete)) as (_ & _ & r & Ha & Hb & Hid & _).
  exact (ex_intro _ r (conj Ha (conj Hb Hid))).
Defined.

Lemma mint_initial_once_witness :
  total (after 2 (mint_initial alice) genesis) = total genesis + INITIAL_AMOUNT.
Proof.
  destruct (mint_initial_once alice (at_ledger 2) genesis INITIAL_AMOUNT _ ltac:(concrete))
    as [_ [[Hb _]|(_ & _ & Ht)]]; [vm_compute in Hb; discriminate|exact Ht].
Defined.

(** ** Claims *)

Lemma claim_winnings_correct_witness :
  claimed alice 3900 settled_up (after 1524 (claim_winnings alice) settled_up).
Proof.
  destruct (claim_winnings_correct alice (at_ledger 1524) settled_up 3900 _ ltac:(concrete)) as (_ & H & _).
  exact H.
Defined.

Lemma claim_many_correct_witness :
  claimed_all [alice; bob] [3900; 0] settled_up (after 1524 (claim_many [alice; bob]) settled_up).
Proof.
  destruct (claim_many_correct [alice; bob] (at_ledger 1524) settled_up [3900; 0] _ ltac:(concrete))
    as (_ & _ & H & _).
  exact H.
Defined.

(** ** Ending a round *)

Lemma updown_settlement_pays_witness : ∃ s',
  settled_updown two_bets (round_of two_bets) [alice; bob] 6000000 100 s'.
Proof.
  exists (after 1522 (_complete_settlement (round_of two_bets) 6000000 None) two_bets).
  destruct (updown_settlement_pays (round_of two_bets) [alice; bob] 6000000 None (at_ledger 1522) two_bets
    (100, 2) _ ltac:(concrete) ltac:(concrete) ltac:(concrete) ltac:(concrete)) as [H _].
  exact H.
Defined.

Lemma precision_settlement_pays_witness : ∃ s',
  settled_precision opened_up (round_of opened_up) [alice; carol] 5150000 40 s'.
Proof.
  exists (after 1542 (_complete_settlement (round_of opened_up) 5150000 None) opened_up).
  destruct (precision_settlement_pays (round_of opened_up) [alice; carol] 5150000 None (at_ledger 1542)
    opened_up (40, 2) _ ltac:(concrete) ltac:(concrete) ltac:(concrete) ltac:(concrete)) as [H _].
  exact H.
Defined.

Definition insured_cancel : State := after 1518 (cancel_round 2) insured_bets.

(** Reason 2 (an oracle deviation) is on the list: the fund owes 400 and pays the 250
    it has, 62 to alice and 187 to bob. Reason 1 (an outage) is not covered. *)
Lemma cancel_round_refunds_witness :
  slot insured_cancel K_InsFundBal = 0 ∧ slot insured_cancel (K_PendingWinnings alice) = 1062 ∧
  slot insured_cancel (K_PendingWinnings bob) = 3187 ∧
  slot (after 1518 (cancel_round 1) insured_bets) K_InsFundBal = 250.
Proof.
  destruct (cancel_round_refunds 2 (at_ledger 1518) insured_bets insured_cancel (round_of insured_bets)
    [alice; bob] ltac:(concrete) ltac:(concrete) ltac:(concrete) ltac:(concrete)) as [Hf Hp _ _ _ _ _].
  destruct (cancel_round_refunds 1 (at_ledger 1518) insured_bets _ (round_of insured_bets)
    [alice; bob] ltac:(concrete) ltac:(concrete) ltac:(concrete) ltac:(concrete)) as [Hf2 _ _ _ _ _ _].
  rewrite Hf, !Hp, Hf2. vm_compute. split_and!; reflexivity.
Defined.

(** The settlement staged for the first round. *)
Definition staged_first : PendingDisputeSettlement :=
  staged (round_of two_bets) 6000000 None 1522 20.

Lemma void_round_refunds_witness :
  total (after 1531 (void_round 1) next_open) = total next_open ∧
  persistent (after 1531 (void_round 1) next_open) !! K_ActiveRound
  = persistent next_open !! K_ActiveRound.
Proof.
  destruct (void_round_refunds 1 (at_ledger 1531) next_open _ (disputes_of next_open) staged_first
    [alice; bob] ltac:(concrete) ltac:(concrete) ltac:(concrete) ltac:(concrete) ltac:(concrete))
    as (_ & _ & Ht & _ & _ & Ha).
  exact (conj Ht Ha).
Defined.

Lemma finalize_round_settles_witness :
  is_Some (persistent next_open !! K_ActiveRound) ∧
  persistent (after 1562 (finalize_round 1) next_open) !! K_ActiveRound = None.
Proof.
  split; [eexists; vm_compute; reflexivity|].
  destruct (finalize_round_settles 1 (at_ledger 1562) next_open _ (disputes_of next_open) staged_first
    [alice; bob] ltac:(concrete) ltac:(concrete) ltac:(concrete) ltac:(concrete) ltac:(concrete)
    ltac:(concrete)) as (_ & _ & _ & Hna).
  exact Hna.
Defined.

Lemma settle_with_price_outcomes_witness :
  price_outcome (round_of two_bets) [alice; bob] 6000000 None (at_ledger 1522) window_set
    (disputes_of window_set) staged_up.
Proof.
  destruct (settle_with_price_outcomes (round_of two_bets) [alice; bob] 6000000 None (at_ledger 1522)
    window_set staged_up (disputes_of window_set) ltac:(concrete) ltac:(concrete) ltac:(concrete)
    ltac:(concrete)) as [H _].
  exact H.
Defined.

Lemma resolve_round_guarded_witness :
  resolution_checks (H := toy_crypto) report (round_of alive) (at_ledger 1522) alive.
Proof.
  destruct (resolve_round_guarded (H := toy_crypto) report (at_ledger 1522) alive resolved
    (round_of alive) [alice; bob] (disputes_of alive) ltac:(concrete) ltac:(concrete)
    ltac:(concrete) ltac:(concrete) ltac:(concrete)) as [H _].
  exact H.
Defined.

Lemma resolve_round_multi_guarded_witness : ∃ median,
  feed_checks feeds (round_of alive) median (at_ledger 1522) alive.
Proof.
  destruct (resolve_round_multi_guarded feeds (at_ledger 1522) alive resolved_multi (round_of alive)
    [alice; bob] (disputes_of alive) ltac:(concrete) ltac:(concrete) ltac:(concrete) ltac:(concrete)
    ltac:(concrete)) as (med & H & _).
  exact (ex_intro _ med H).
Defined.

(** ** Governance *)

Definition first_proposal : GovProposal := {|
  gp_id := 1; gp_proposer := admin; gp_approver := None; gp_action := SetTreasuryAddress carol;
  gp_created_at_ledger := 21; gp_expires_at_ledger := 121; gp_status := Pending |}.

Lemma governance_two_signed_witness : ∃ p,
  proposal_at (at_end (take 4 handover)) 1 p ∧ gp_action p = SetOracle carol ∧
  happened (H := toy_crypto) (take 4 handover) (approved_by_other 1 (gp_proposer p)).
Proof.
  destruct (governance_two_signed (H := toy_crypto) (take 4 handover) admin 1 (at_ledger 5) _
    (goes_on (take 4 handover) (at_ledger 5) (OnGov (c_execute_gov_proposal admin 1))
      ltac:(vm_compute; reflexivity))) as (action & t & Hts & _).
  destruct Hts as (u & id & p & [= <- <-] & _ & _ & Hp & _ & _ & _ & Ha).
  exists p. split; [exact Hp|split; [|exact Ha]].
  vm_compute in Hp. injection Hp as <-. reflexivity.
Defined.

Lemma timelock_respected_witness : ∃ kind p ledger,
  ledger ≤ 1500 ∧ happened (H := toy_crypto) (take 5 journey) (scheduled kind p ledger) ∧
  (K_ProtocolFeeBps, Some (VU32 250)) ∈ setting p.
Proof.
  set (call := OnSchedule (c_apply_scheduled_changes KProtocolFeeBps)).
  pose proof (goes_on (take 5 journey) (at_ledger 1500) call ltac:(vm_compute; reflexivity)) as E.
  assert (persistent (at_end (take 5 journey ++ [(at_ledger 1500, call)])) !! K_ProtocolFeeBps = Some (VU32 250))
    as Hs by (vm_compute; reflexivity).
  destruct (timelock_respected (H := toy_crypto) (take 5 journey) call (at_ledger 1500) _ K_ProtocolFeeBps E)
    as [[_ (a & o & [=])]|[(k & p & l & _ & Hl & Hh & Hk)|[_ (b & (u & id & p & [=] & _) & _)]]].
  - apply (bool_decide_eq_true_1 (_ ∈ _)). vm_compute. reflexivity.
  - rewrite Hs. vm_compute. discriminate.
  - rewrite Hs in Hk. exists k, p, l. exact (conj Hl (conj Hh Hk)).
Defined.

Lemma principals_change_witness : ∃ p,
  happened (H := toy_crypto) handover (announced p) ∧ new_oracle p = oracle.
Proof.
  pose proof (goes_on handover (at_ledger 1000) (OnRotation c_accept_oracle_rotation)
    ltac:(vm_compute; reflexivity)) as E.
  destruct (principals_change (H := toy_crypto) _ _ _ _ E) as [_ Ho].
  assert (persistent (at_end (handover ++ [(at_ledger 1000, OnRotation c_accept_oracle_rotation)]))
    !! K_Oracle = Some (VAddr oracle)) as Hs by (vm_compute; reflexivity).
  destruct Ho as [[_ (a & o & [=])]|[(a & (u & id & p & [=] & _) & _)|(p & _ & Hh & _ & Hn)]].
  - rewrite Hs. vm_compute. discriminate.
  - rewrite Hs in Hn. injection Hn as Hn. exists p. exact (conj Hh (eq_sym Hn)).
Defined.

Lemma execute_once_witness :
  (∃ p, proposal_at approved 1 p ∧ gp_status p = Approved) ∧
  ∀ c u s', approve u 1 c executed ≠ (Ok (), s').
Proof.
  destruct (execute_once admin 1 (at_ledger 23) approved executed ltac:(concrete))
    as (p & t & Hp & Hs & _ & _ & H).
  split; [exact (ex_intro _ p (conj Hp Hs))|]. intros c u s'. exact (proj1 (proj2 (H c u s'))).
Defined.

Lemma treasury_address_blocks_fees_witness :
  (∃ p, proposal_at withdrawal_approved 2 p ∧ gp_status p = Approved) ∧
  (∀ c u s', execute u 2 c withdrawal_approved ≠ (Ok (), s')) ∧
  (_collect_protocol_fee 1 100 None FeeOnPot (at_ledger 27) withdrawal_approved).1 = Panic.
Proof.
  destruct (treasury_address_blocks_fees (H := toy_crypto) admin 1 (at_ledger 23) approved executed
    (with_approver first_proposal bob) carol later withdrawal_approved
    ltac:(concrete) ltac:(concrete) ltac:(concrete) ltac:(reflexivity))
    as (_ & _ & Hcol & _ & Hex & _).
  assert (∃ p, proposal_at withdrawal_approved 2 p ∧ gp_status p = Approved ∧
    gp_action p = WithdrawProtocolFee carol 5) as (p & Hp & Hst & Ha).
  { eexists. split; [vm_compute; reflexivity|]. split; reflexivity. }
  split; [exact (ex_intro _ p (conj Hp Hst))|]. split.
  - intros c u s'. exact (Hex u 2 p carol 5 c s' Hp Ha).
  - rewrite Hcol; [vm_compute; reflexivity|]. vm_compute. split; [reflexivity|intros [=]].
Defined.

Definition first_amendment : Amendment := {|
  am_id := 1; am_proposer := bob; am_parameter_name := "min_bet"; am_new_value := 5;
  am_created_at_ledger := 25; am_veto_deadline_ledger := 35; am_activation_deadline_ledger := 55;
  am_status := AmPending |}.

Lemma amendment_decided_once_witness :
  (∃ a, amendment_at amended 1 a ∧ am_status a = AmPending) ∧
  ∀ u c s', activate_amendment u 1 c (after 30 (veto_amendment admin 1) amended) ≠ (Ok (), s').
Proof.
  destruct (amendment_decided_once admin 1 true (at_ledger 30) amended
    (after 30 (veto_amendment admin 1) amended) ltac:(concrete)) as (a & Ha & Hp & _ & _ & _ & _ & H).
  split; [exact (ex_intro _ a (conj Ha Hp))|]. intros u c s'. exact (proj2 (H u c s')).
Defined.

Lemma reading_expires_amendment_witness :
  amendment_at (after 56 (get_amendment 1) amended) 1 (with_am_status first_amendment AmExpired) ∧
  ∀ u c s', activate_amendment u 1 c (after 56 (get_amendment 1) amended) ≠ (Ok (), s').
Proof.
  destruct (reading_expires_amendment 1 first_amendment (at_ledger 56) amended
    (Some (with_am_status first_amendment AmExpired)) (after 56 (get_amendment 1) amended)
    ltac:(concrete) ltac:(concrete) ltac:(concrete) ltac:(concrete)) as (_ & Ha & H).
  exact (conj Ha H).
Defined.

(** ** Every reachable state *)

Lemma reachable_solvent_witness : ∃ b,
  persistent journeyed !! K_PendingWinnings bob = Some (VI128 b) ∧ 0 ≤ b.
Proof.
  exists 3000. split; [vm_compute; reflexivity|].
  destruct (reachable_solvent (H := toy_crypto) 3 journeyed journey_reachable) as [H _].
  exact (H (K_PendingWinnings bob) (VI128 3000) ltac:(vm_compute; reflexivity) ltac:(reflexivity)).
Defined.

Lemma reachable_supply_witness : 0 ≤ total journeyed ≤ 3 * INITIAL_AMOUNT.
Proof.
  apply (reachable_supply (H := toy_crypto) 3 journeyed journey_reachable). vm_compute. intros [=].
Defined.

Lemma reachable_rounds_witness : ∃ last m,
  last_round journeyed last ∧ disputes journeyed m ∧ ∀ rid, last < rid -> unopened journeyed rid.
Proof.
  destruct (reachable_rounds (H := toy_crypto) 3 journeyed journey_reachable)
    as (last & m & H1 & H2 & H3 & _).
  exact (ex_intro _ last (ex_intro _ m (conj H1 (conj H2 H3)))).
Defined.

Lemma reachable_typed_witness : ∃ sh v,
  persistent journeyed !! K_ActiveRound = Some v ∧ shape v = Some sh ∧ sh ∈ layout K_ActiveRound.
Proof.
  destruct (reachable_typed (H := toy_crypto) 3 journeyed K_ActiveRound (VRound (round_of journeyed))
    journey_reachable ltac:(vm_compute; reflexivity)) as (sh & H1 & H2).
  exists sh, (VRound (round_of journeyed)). split; [vm_compute; reflexivity|exact (conj H1 H2)].
Defined.

Lemma claim_always_succeeds_witness : ∃ s',
  claim_winnings alice (at_ledger 1530) journeyed = (Ok 1000, s') ∧ claimed alice 1000 journeyed s'.
Proof.
  assert (slot journeyed (K_PendingWinnings alice) = 1000) as <- by (vm_compute; reflexivity).
  apply (claim_always_succeeds (H := toy_crypto) 3 journeyed alice (at_ledger 1530) journey_reachable).
  - vm_compute. intros [=].
  - exists (Some 3). vm_compute. split; [reflexivity|split; intros [=]].
  - exists (Some ClaimsOnly). vm_compute. split; [reflexivity|intros [=]].
  - reflexivity.
Defined.

Definition claim_alice : Call := OnRound (c_claim_winnings alice).

Lemma call_conserves_value_witness :
  total (after 1530 (dispatch (H := toy_crypto) claim_alice) journeyed) = total journeyed.
Proof.
  apply (call_conserves_value (H := toy_crypto) 3 journeyed claim_alice (at_ledger 1530)).
  - exact journey_reachable.
  - vm_compute. intros [=].
  - reflexivity.
  - reflexivity.
  - apply runs. vm_compute. reflexivity.
Defined.

Lemma mode_matrix_witness :
  (invoke (dispatch (H := toy_crypto) (OnRound (c_place_bet carol 500 Down))) (at_ledger 1523) journeyed).2
  = journeyed.
Proof.
  exact (proj1 (mode_matrix (H := toy_crypto) ClaimsOnly (OnRound (c_place_bet carol 500 Down))
    (at_ledger 1523) journeyed ltac:(vm_compute; reflexivity) ltac:(reflexivity))).
Defined.

Definition attesting : State := after 1521 (set_attestation_key (Some network)) alive.

Lemma shared_slot_blocks_resolution_witness :
  resolve_round (H := toy_crypto) report (at_ledger 1522) alive = (Ok (), resolved) ∧
  ∀ s', resolve_round (H := toy_crypto) report (at_ledger 1522) attesting ≠ (Ok (), s').
Proof.
  split; [concrete|]. intros s'.
  exact (proj1 (shared_slot_blocks_resolution (H := toy_crypto)
    (OnOracle (c_set_attestation_key (Some network))) (at_ledger 1521) alive attesting [] attesting
    ltac:(concrete) (or_introl (ex_intro _ _ eq_refl)) eq_refl report feeds (at_ledger 1522) s')).
Defined.

(** ** Queries *)

(** The preview of the Precision round: Carol is closest and takes the pot. *)
Definition carol_takes_all : SimulationResult := {|
  sim_mode := Precision; sim_pool_up := 0; sim_pool_down := 0; sim_precision_total_stake := 1600;
  sim_fee_amount := 40; sim_fee_model := 0;
  sim_outcomes :=
    [{| out_user := alice; out_round_mode := 1; out_prediction_side := 2;
        out_predicted_price := 5300000; out_stake := 700; out_payout := 0; out_outcome := OutLoss |};
     {| out_user := carol; out_round_mode := 1; out_prediction_side := 2;
        out_predicted_price := 5100000; out_stake := 900; out_payout := 1560;
        out_outcome := OutWin |}] |}.

Lemma preview_matches_settlement_witness :
  slot (after 1542 (_complete_settlement (round_of opened_up) 5150000 None) opened_up)
    (K_PendingWinnings carol) = slot opened_up (K_PendingWinnings carol) + 1560.
Proof.
  destruct (preview_matches_settlement (round_of opened_up) [alice; carol] 5150000 None (at_ledger 1541)
    (at_ledger 1542) opened_up carol_takes_all
    (after 1541 (simulate_payout 5150000) opened_up) (40, 2)
    (after 1542 (_complete_settlement (round_of opened_up) 5150000 None) opened_up)
    ltac:(concrete) ltac:(concrete) ltac:(concrete) ltac:(apply runs; vm_compute; reflexivity)
    ltac:(apply runs; vm_compute; reflexivity)) as (_ & _ & H).
  exact (H carol).
Defined.

(** The transcript of the same settlement. *)
Definition prediction_row (i : nat) (amount price : Z) : TranscriptParticipant := {|
  tp_index := i; tp_address := None; tp_amount := amount; tp_side_up := None;
  commit_reveal := {| commit_hash_hex := None; cr_revealed := true; cr_predicted_price := price |} |}.

Definition carol_transcript : RoundTranscript := {|
  tr_schema_version := 1; tr_round_id := 2; tr_mode := TPrecision; terminal := TaResolve;
  tr_price_start := 5000000; final_price := 5150000; tr_pool_up := 0; tr_pool_down := 0;
  fee_bps := Some 250; min_participants := None; participant_count := 2;
  tr_oracle := {| ot_price := 5150000; ot_timestamp := 0; ot_round_id := 2; ot_nonce := 0; ot_confidence := None |};
  participants := [prediction_row 0 700 5300000; prediction_row 1 900 5100000];
  expected := {| eo_archive_status := AsResolved; eo_total_fee := 40; eo_payouts := [] |} |}.

Ltac row_recorded :=
  split; [vm_compute; reflexivity | intros q Hq; vm_compute in Hq; discriminate
         | vm_compute; reflexivity
         | intros g Hg; vm_compute in Hg; injection Hg as <-; reflexivity].

Lemma carol_recorded :
  recorded opened_up (round_of opened_up) [alice; carol] 5150000 carol_transcript.
Proof.
  split; cycle -1.
  - assert (sort_addresses [alice; carol] = [alice; carol]) as -> by (vm_compute; reflexivity).
    constructor; [row_recorded|]. constructor; [row_recorded|constructor].
  - reflexivity.
  - reflexivity.
  - vm_compute. reflexivity.
  - reflexivity.
  - vm_compute. reflexivity.
  - reflexivity.
  - intros Hm. vm_compute in Hm. discriminate.
  - vm_compute. reflexivity.
  - discriminate.
  - exact I.
  - reflexivity.
  - reflexivity.
Qed.

Lemma replay_matches_settlement_witness : ∃ rr,
  replay_round carol_transcript = ROk rr ∧ rr_total_fee rr = 40 ∧
  rp_payout <$> rr_payouts rr = [0; 1560].
Proof.
  destruct (replay_matches_settlement (round_of opened_up) [alice; carol] 5150000 None (at_ledger 1542)
    opened_up (40, 2) (after 1542 (_complete_settlement (round_of opened_up) 5150000 None) opened_up)
    carol_transcript ltac:(concrete) ltac:(concrete) ltac:(concrete)
    ltac:(exists None; vm_compute; split; reflexivity) ltac:(exists None; vm_compute; split; reflexivity)
    carol_recorded) as (rr & Hrr & [_ Hf _ Hp]).
  exists rr. split; [exact Hrr|]. split; [exact Hf|]. etransitivity; [exact Hp|]. vm_compute. reflexivity.
Defined.

(** The cancelled first round of the journey. *)
Definition first_summary : ArchivedRoundSummary := {|
  ar_round_id := 1; ar_price_start := 5000000; ar_price_final := 0; ar_mode := UpDown;
  ar_status := ArCancelled; ar_pool_up := 1000; ar_pool_down := 3000; ar_participant_count := 2;
  ar_settled_at_ledger := 1513 |}.

Lemma history_newest_first_witness :
  get_user_archive_history alice 0 10 (at_ledger 1530) journeyed = (Ok [first_summary], journeyed).
Proof.
  rewrite history_newest_first.
  - apply (f_equal (λ o, (o, journeyed))). vm_compute. reflexivity.
  - exact (reachable_types (H := toy_crypto) 3 journeyed journey_reachable).
  - lia.
  - lia.
  - vm_compute. intros [=].
Defined.

Lemma cursor_walk_lists_all_witness : ∃ rows,
  walk (λ cursor, get_updown_positions_cursor cursor 1) 3 None (at_ledger 1513) two_bets
  = (Ok rows, two_bets) ∧ rows.*1 = [alice; bob].
Proof.
  destruct (cursor_walk_lists_all two_bets (round_of two_bets) [alice; bob] 1 3 (at_ledger 1513)
    ltac:(concrete) ltac:(concrete) ltac:(concrete) ltac:(vm_compute; split; [reflexivity|intros [=]])
    ltac:(vm_compute; intros [=]) ltac:(simpl; lia)) as (rows & H1 & H2 & _).
  exact (ex_intro _ rows (conj H1 H2)).
Defined.

(** Carol, the participant of the largest address, leads the ranking. *)
Definition carol_leads : State :=
  after 1514 (_update_stats_win carol) (after 1513 (place_bet carol 500 Up) two_bets).
Definition leaders : list ranked :=
  [(carol, {| total_wins := 1; total_losses := 0; current_streak := 1; best_streak := 1 |})].

Lemma leaderboard_cursor_loses_users_witness :
  Queries.get_leaderboard_by_wins None 1 (at_ledger 1515) carol_leads
  = (Ok (leaders, Some carol), after 1515 (Queries.get_leaderboard_by_wins None 1) carol_leads) ∧
  ∀ limit c res s2,
    Queries.get_leaderboard_by_wins (Some carol) limit c
      (after 1515 (Queries.get_leaderboard_by_wins None 1) carol_leads) = (Ok res, s2) ->
    res = ([], None).
Proof.
  assert (Queries.get_leaderboard_by_wins None 1 (at_ledger 1515) carol_leads
    = (Ok (leaders, Some carol), after 1515 (Queries.get_leaderboard_by_wins None 1) carol_leads)) as E
    by (apply runs; vm_compute; reflexivity).
  split; [exact E|].
  apply (leaderboard_cursor_loses_users carol_leads (round_of carol_leads) [alice; bob; carol] 1
    (at_ledger 1515) leaders carol _ ltac:(concrete) ltac:(concrete) ltac:(lia) ltac:(vm_compute; intros [=])
    E).
  intros u Hu. repeat (apply elem_of_cons in Hu as [->|Hu]; [vm_compute; intros [=]|]).
  destruct (not_elem_of_nil u Hu).
Defined.

(** ** The first layout *)

Lemma legacy_updown_agrees_witness :
  let e := moved_positions (round_id (round_of two_bets)) old_positions in
  Payouts._resolve_updown_mode (round_of two_bets) 6000000 (at_ledger 1522) (with_entries e old_updown) =
  over e (Legacy._resolve_updown_mode (round_of two_bets) 6000000 (at_ledger 1522) old_updown).
Proof.
  apply (legacy_updown_agrees (round_of two_bets) 6000000 (Some old_positions)); vm_compute; reflexivity.
Defined.

Lemma legacy_precision_agrees_witness :
  let e := moved_predictions 2 old_predictions in
  Payouts._resolve_precision_mode 2 5200000 false (at_ledger 1522) (with_entries e old_precision) =
  over e (Legacy._resolve_precision_mode 2 5200000 false (at_ledger 1522) old_precision).
Proof.
  apply (legacy_precision_agrees 2 5200000 (Some old_predictions)).
  - vm_compute. reflexivity.
  - vm_compute. reflexivity.
  - apply Forall_forall, (bool_decide_eq_true_1 (Forall _ _)). vm_compute. reflexivity.
  - apply (bool_decide_eq_true_1 (map_Forall (λ u p, pred_user p = u) old_predictions)). vm_compute. reflexivity.
  - apply (bool_decide_eq_true_1 (map_Forall (λ u, u128_price) old_predictions)). vm_compute. reflexivity.
  - vm_compute. split; intros [=].
Defined.
